(* ===== verification/_CoqProject ===== *)
-Q . S2P
Prelude.v
UTF8.v
StringHash.v
BlockHash.v
MD5.v
SHA1.v
Base64.v
WString.v
KURLParse.v
KURL.v
TextCodec.v
UTF8Codec.v
Escape.v
HTTPResource.v
HTTPCache.v
CacheTable.v
JobQueue.v
JobRuns.v
CacheManager.v
NetworkRuns.v
AuthJar.v
ProxyFilter.v
SecurityOrigin.v
OriginFacts.v
CrossOrigin.v
CrossOriginFacts.v
ThreadableLoader.v
LoaderFacts.v
CaseSearch.v
ContentSecurityPolicy.v
PolicyFacts.v
