(* ===== verification/Prelude.v ===== *)
(** * Network and storage core of the New Nintendo 3DS Internet Browser

    The repository is the browser of the console: WebKit of 2012 under
    src/webkit, and the port to the platform (WKC) under src/WKC.  This
    development verifies what carries a request from a typed address to the
    response a page receives, and what is kept on the way: text, addresses,
    digests, the request queue, the HTTP cache on the console's storage, stored
    credentials, the proxy filter, and the same-origin policy that decides
    which responses a script may read.

    ** How the parts interact

    A page asks [ResourceHandleManager::add] for a URL.  The URL is a [KURL],
    built from a [String] that was decoded from UTF-8.  The manager looks it up
    in the [HTTPCache]; a usable entry puts the job on the read list, an expired
    one adds the conditions If-Modified-Since and If-None-Match, and the job
    waits in the scheduled list.  A timer moves jobs to the running list and to
    the transfer library; when a response is complete it is stored in an entry
    that waits in the write list, and written when the network is idle.  The
    entry's file has a name of eight digits; the index is saved in a table
    (FAT) whose first sixteen bytes are its MD5 digest.  A job that goes through
    the proxy, because its host is not in the proxy filter, and a job for a site
    that asked for a password get their credentials from the jar.  Base64 and SHA-1 serve
    credentials, data URLs and WebSocket handshakes.

    A script's request enters above the manager, at [DocumentThreadableLoader].
    The loader compares the [SecurityOrigin] of the document with the URL: a
    request to the same origin is sent as it is, any other one only with the
    consent of the server, which it gives in response headers
    ([passesAccessControlCheck]), for requests that are not simple in a
    preflight whose answer [CrossOriginPreflightResultCache] keeps.  What a
    document may load and run at all, its own server can restrict with a policy
    in a response header ([ContentSecurityPolicy]).  Addresses and texts pass
    between bytes and code units by the [TextCodec]s and the
    percent escapes of KURL.cpp.

    ** Files, and the code each one models

    - Prelude.v: machine integers, bytes, ASCII classes (wtf/ASCIICType.h), list
      lemmas, tactics.
    - UTF8.v: wtf/unicode/UTF8.cpp.  [Spec] is the Unicode standard's encoding
      forms, [Conv] the converters.
    - StringHash.v: wtf/StringHasher.h and the UTF-8 lookups of AtomicString.
    - BlockHash.v, MD5.v, SHA1.v: wtf/MD5.cpp and wtf/SHA1.cpp against RFC 1321
      and RFC 3174; BlockHash.v is the padding and chaining they share.
    - Base64.v: WebCore/platform/text/Base64.cpp against RFC 4648.
    - WString.v: wtf/text/StringImpl.cpp and WTFString.cpp.
    - KURLParse.v: [KURL::parse] of WebCore/platform/KURL.cpp: [Class] the
      character table, [Scan] the ranges, [Assemble] the canonical text and the
      path copy, [Canonical] the printer it is compared with.
    - KURL.v: the rest of KURL.cpp: [Access] accessors and questions,
      [HostNames] the search for host names in mail addresses, [Update] setters
      and resolution, [ResolveSpec] RFC 3986.
    - TextCodec.v, UTF8Codec.v: WebCore/platform/text/TextCodec.cpp,
      TextCodecLatin1.cpp, TextCodecUTF16.cpp, TextCodecUserDefined.cpp and
      TextCodecUTF8.cpp; streams arrive in pieces.
    - Escape.v: percent escapes of KURL.cpp, [KURL::user] and [KURL::pass].
    - HTTPResource.v: [HTTPCachedResource] of
      WKC/WebCore/platform/network/WKC/HTTPCacheWKC.cpp.
    - HTTPCache.v, CacheTable.v: [HTTPCache] of the same file.  [Cache] has the
      operations, [CacheSpec] the abstract list of entries they refine.
    - JobQueue.v, JobRuns.v: the lists of jobs of [ResourceHandleManager]
      (ResourceHandleManagerWKC.cpp) and sequences of operations on them.
    - CacheManager.v, NetworkRuns.v: the manager's loading and storing through
      the cache, and sequences of operations on queue, cache and lists together.
    - AuthJar.v: WKC/WebCore/platform/network/WKC/AuthenticationJarWKC.cpp.
    - ProxyFilter.v: [ResourceHandleManager::ProxyFilter], the list of hosts that
      are reached without the proxy.
    - SecurityOrigin.v, OriginFacts.v: WebCore/page/SecurityOrigin.cpp,
      SecurityPolicy.cpp, OriginAccessEntry.cpp, platform/SchemeRegistry.cpp;
      [WhiteListSpec] is the abstract set of allowed origins.
    - CrossOrigin.v, CrossOriginFacts.v: WebCore/loader's
      CrossOriginAccessControl.cpp and CrossOriginPreflightResultCache.cpp,
      header maps and requests; [CacheSpec] is the abstract cache.
    - ThreadableLoader.v, LoaderFacts.v: DocumentThreadableLoader.cpp as
      operations with effects; [LoaderSpec] is what an observer sees.
    - CaseSearch.v: the searches of StringImpl.cpp that fold case.
    - ContentSecurityPolicy.v, PolicyFacts.v: WebCore/page/ContentSecurityPolicy.cpp
      and the sandbox flags of dom/SecurityContext.cpp; [PolicySpec] is the
      grammar of policies with its meaning.

    A C++ member function is the definition of the same name in the Module of
    its class; a loop of it is a Fixpoint named after what it does.  An object's
    fields are a Record with the same names, less the prefix [m_] in places.
    Objects that are shared by pointer live in an explicit heap ([gmap] from
    addresses), and using a deleted one is [None]: the theorems that an
    operation returns [Some] are memory safety.  Reads outside a buffer are
    [None] as well, or, for the NUL-terminated buffers of KURL.cpp, 0.

    ** What the theorems show

    - Network runs: over any sequence of operations no deleted job or entry is
      used, references are exact, no URL is stored twice ([network_runs],
      [queue_runs]); the write list drains when the network is idle
      ([write_list_drains]); jobs start in order, within the limit and never
      after being cancelled ([start_in_order], [cancelled_leave]); no-store is
      obeyed ([no_store_forgets]); a cached resource is delivered unchanged
      ([cached_load]).
    - Cache: the operations refine an abstract list ([cache_refines]); limits
      ([create_fits], [write_within_limit]); the saved table is read back
      ([fat_roundtrip]), a damaged one is refused ([readFATFile_rejects]); file
      names do not collide ([write_names_fresh]); the loop that writes the table
      ends ([write_within_limit]); entries survive their file
      ([resource_roundtrip]).
    - Credentials: a password is only returned for the host and below the folder
      it was entered for ([credentials_stay]); lookups find the most specific
      entry ([get_most_specific]); what is stored is found ([store_roundtrip]),
      the proxies are a map ([proxies_are_a_map]).
    - Proxy filter: names let through exactly themselves and what is below them
      ([names_filtered]), networks at least their hosts ([network_let_through]);
      addresses are read from all their notations inside their array
      ([notations_read], [conversion_in_bounds]).
    - Origins: all comparisons of two origins and their names agree with scheme,
      host and port ([origins_compare]); one document may script another exactly
      when the same-origin policy says so, over any history of domain changes
      ([access_exact]); the white lists refine a set of grants
      ([whitelist_refines]).
    - Cross-origin requests: a request skips its preflight exactly when an
      approval in force permits it ([preflight_refines]).
    - Loading for scripts: over everything that can happen to a loader, another
      origin gets a request under access control only if it is simple, approved
      by the cache or by a preflight ([requests_approved]); a response reaches the
      script only when it may read it ([responses_approved]); the assertions of
      the source hold ([assertions_hold]); a preflight's answer decides
      ([preflight_decides]).
    - Content security policy: a policy is enforced as its grammar means, by its
      first header ([policy_enforced]); any text can be a header
      ([policies_parse]).
    - URLs: the offsets of a parsed URL are ordered, inside the text and inside
      the buffer ([parse_offsets], [parse_fits_buffer]); parsing inverts printing
      ([parse_print]); the setters and the resolution of references refine the
      record of components and RFC 3986 ([setters_refine], [init_resolves]).
    - Codecs: decoding a stream does not depend on its cuts ([utf8_streams],
      [utf16_streams]); errors stop it ([utf8_stops]); text survives encoding
      ([utf8_codec_roundtrip]); the Latin-1 decoder at any address
      ([latin1_decodes]); percent escapes ([escapes_roundtrip]).
    - Text and digests: the converters are the Unicode encoding forms, MD5,
      SHA-1 and Base64 are their standards for any sequence of calls.

    Where the code falls short of what it means to do, a closed example shows
    it, named where the theorem needs the excluded case.

    ** Fuel, bounds and hypotheses

    Loops that are not structural take fuel, and their callers give one that is
    enough by proof: the length of the input for the scanners, the number of
    waiting jobs or entries for the queue and the purges, the bytes left for
    block writes.  Integers keep their width ([wrapN], [swrapN]); a theorem about
    lengths states the bound it needs, usually 2^31 or a quarter of it.

    Code outside the repository is a parameter: the file system and the
    allocator ([HTTPCache.Peers]), the transfer library and the application's
    answers ([JobQueue.Oracles]), what the loader's client does with a response
    ([CacheManager.Loader]), the codec of the page's encoding and IDN in KURL.v,
    the Unicode direction table.  Theorems about the loader quantify over the
    events of the layer below it and over its client, which does not call the
    loader from inside a callback.  The order in which a hash table is walked is a
    parameter ([iterate]), and so is the address of a decoder's input.  Callbacks
    return without calling the manager again; when a job's last reference goes,
    its destructor's own [cancel] finds nothing left to take off a list.  Doubles are 64-bit patterns with the IEEE operations of
    the Standard Library.  The machine is little-endian with 32-bit int.

    ** Not modelled

    Within these files: the options set on a transfer handle, synchronous jobs
    and the polling of finished transfers (pure calls of the transfer library);
    the case folding of non-ASCII characters (Unicode tables); the
    inspector's calls and the texts of console messages; the flag
    [m_platformRequestUpdated] of a request.  Outside them: layout, DOM, CSS, SVG,
    the JavaScript engine, the API layers and the vendored libraries.  Planned
    next, in this order: the header parsers (HTTPParsers.cpp), the rules by which a
    loaded resource is used again (CachedResourceLoader.cpp,
    CachedRawResource.cpp), cookies, MHTML and data URLs. *)
From stdpp Require Export base numbers list list_numbers option strings tactics.
From Stdlib Require Export ZArith Lia.

(** The prelude holds what every component file shares: machine-width
    arithmetic, bytes and code units, bit-level lemmas, list lemmas and the
    tactics of the development. *)

#[global] Open Scope Z_scope.

(** ** Machine-width integers *)

Definition wrapN (w x : Z) : Z := x mod 2 ^ w.
Abbreviation u8 := (wrapN 8).
Abbreviation u16 := (wrapN 16).
Abbreviation u32 := (wrapN 32).
Abbreviation u64 := (wrapN 64).

(** Two's-complement reading of the low [w] bits. *)
Definition swrapN (w x : Z) : Z := (x + 2 ^ (w - 1)) mod 2 ^ w - 2 ^ (w - 1).
Abbreviation s32 := (swrapN 32).
Abbreviation s64 := (swrapN 64).

Definition in_width (w x : Z) : Prop := 0 <= x < 2 ^ w.
Abbreviation is_byte := (in_width 8).
Abbreviation is_unit := (in_width 16).
Abbreviation is_u32 := (in_width 32).

#[global] Instance in_width_dec w x : Decision (in_width w x).
Proof. unfold in_width. apply _. Defined.

Definition bytes_ok (l : list Z) : Prop := Forall is_byte l.
Definition units_ok (l : list Z) : Prop := Forall is_unit l.

(** ** Character data *)

(** Reading a NUL-terminated buffer: past the last character there is the
    terminator. *)
Definition at_ (s : list Z) (i : nat) : Z := default 0 (s !! i).

(** A C string literal as the list of its character codes. *)
Definition str (s : string) : list Z :=
  (fun a => Z.of_N (Ascii.N_of_ascii a)) <$> String.list_ascii_of_string s.
Arguments str _%_string_scope.

(** ASCII classification and case mapping (wtf/ASCIICType.h). *)
Definition isASCII (c : Z) : bool := (c <=? 0x7F)%Z.
Definition isASCIIDigit (c : Z) : bool := (48 <=? c) && (c <=? 57).
Definition isASCIIUpper (c : Z) : bool := (65 <=? c) && (c <=? 90).
Definition isASCIILower (c : Z) : bool := (97 <=? c) && (c <=? 122).
Definition isASCIIAlpha (c : Z) : bool := isASCIIUpper c || isASCIILower c.
Definition isASCIISpace (c : Z) : bool :=
  (c <=? 32) && ((c =? 32) || ((c <=? 13) && (9 <=? c))).
Definition toASCIILower (c : Z) : Z := if isASCIIUpper c then Z.lor c 0x20 else c.
Definition toASCIIUpper (c : Z) : Z := if isASCIILower c then Z.land c (Z.lnot 0x20) else c.

(** wtf/text/StringImpl.h.  Above 0x7F the platform's Unicode tables decide
    ([Unicode::direction(c) == WhiteSpaceNeutral]): a parameter. *)
Definition isSpaceOrNewline (whiteSpaceNeutral : Z -> bool) (c : Z) : bool :=
  if (c <=? 0x7F)%Z then isASCIISpace c else whiteSpaceNeutral c.

(** Length of the longest prefix whose elements all satisfy [p]: the loop
    [while (p(s[i])) i++]. *)
Fixpoint span_len {A} (p : A -> bool) (l : list A) : nat :=
  match l with
  | [] => 0
  | x :: l' => if p x then S (span_len p l') else 0
  end.

(** ** Tactics *)

(** Linear arithmetic with division and modulo by constants. *)
Ltac zpow :=
  repeat match goal with
  | |- context [Z.pow 2 (Zpos ?p)] =>
      let v := eval vm_compute in (Z.pow 2 (Zpos p)) in
      change (Z.pow 2 (Zpos p)) with v in *
  | H : context [Z.pow 2 (Zpos ?p)] |- _ =>
      let v := eval vm_compute in (Z.pow 2 (Zpos p)) in
      change (Z.pow 2 (Zpos p)) with v in *
  end.

(** Evaluate literal conversions from Z to nat. *)
Ltac znat :=
  repeat match goal with
  | |- context [Z.to_nat (Zpos ?p)] =>
      let n := eval vm_compute in (Z.to_nat (Zpos p)) in
      change (Z.to_nat (Zpos p)) with n in *
  end.

Ltac dlia := unfold wrapN, swrapN, in_width in *; zpow;
  Z.div_mod_to_equations; lia.

(** Case analysis on the boolean comparisons of Z in the goal. *)
Ltac zbool :=
  repeat match goal with
  | |- context [(?a =? ?b)%Z] => destruct (Z.eqb_spec a b)
  | |- context [(?a <=? ?b)%Z] => destruct (Z.leb_spec a b)
  | |- context [(?a <? ?b)%Z] => destruct (Z.ltb_spec a b)
  end; simpl.

(** Case analysis on the first boolean test of the goal. *)
Ltac casif :=
  match goal with
  | |- context [if ?b then _ else _] =>
      lazymatch b with context [if _ then _ else _] => fail | _ => destruct b eqn:? end
  end.

(** Turn boolean hypotheses into arithmetic. *)
Ltac bprop :=
  repeat match goal with
  | H : (_ && _)%bool = true |- _ => apply andb_true_iff in H; destruct H
  | H : (_ || _)%bool = false |- _ => apply orb_false_iff in H; destruct H
  | H : negb _ = true |- _ => apply negb_true_iff in H
  | H : negb _ = false |- _ => apply negb_false_iff in H
  | H : (_ =? _)%Z = true |- _ => apply Z.eqb_eq in H
  | H : (_ =? _)%Z = false |- _ => apply Z.eqb_neq in H
  | H : (_ <=? _)%Z = true |- _ => apply Z.leb_le in H
  | H : (_ <=? _)%Z = false |- _ => apply Z.leb_gt in H
  | H : (_ <? _)%Z = true |- _ => apply Z.ltb_lt in H
  | H : (_ <? _)%Z = false |- _ => apply Z.ltb_ge in H
  end.

(** Prove a decidable proposition on concrete data by evaluating it. *)
Ltac by_eval :=
  unfold bytes_ok, units_ok;
  apply (bool_decide_unpack _); vm_compute; exact I.

(** Equality of explicit lists, element by element. *)
Ltac cons_eq := repeat match goal with |- _ :: _ = _ :: _ => f_equal end.

(** ** Bit-level lemmas *)

Lemma land_low x k : 0 <= k -> Z.land x (Z.ones k) = x mod 2 ^ k.
Proof. apply Z.land_ones. Qed.

Lemma land_mul_pow2_low a b k : 0 <= k -> 0 <= b < 2 ^ k -> Z.land (a * 2 ^ k) b = 0.
Proof.
  intros Hk Hb. apply Z.bits_inj'. intros n Hn.
  rewrite Z.land_spec, Z.bits_0.
  destruct (Z_lt_ge_dec n k).
  - rewrite Z.mul_pow2_bits_low by lia. done.
  - rewrite <- (Z.mod_small b (2 ^ k)) by done.
    rewrite Z.mod_pow2_bits_high by lia. apply andb_false_r.
Qed.

(** Disjoint bit fields: or is addition. *)
Lemma lor_add a b k : 0 <= k -> 0 <= b < 2 ^ k -> Z.lor (a * 2 ^ k) b = a * 2 ^ k + b.
Proof.
  intros. rewrite <- Z.add_lor_land, land_mul_pow2_low by done. lia.
Qed.

Lemma lor_shiftl_add a b k : 0 <= k -> 0 <= b < 2 ^ k -> Z.lor (Z.shiftl a k) b = a * 2 ^ k + b.
Proof. intros. rewrite Z.shiftl_mul_pow2 by done. by apply lor_add. Qed.

(** A bitwise operation with a small constant only sees the low bits. *)
Lemma land_mod_pow2 x c k : 0 <= k -> 0 <= c < 2 ^ k -> Z.land x c = Z.land (x mod 2 ^ k) c.
Proof.
  intros Hk Hc. apply Z.bits_inj'. intros n Hn. rewrite !Z.land_spec.
  destruct (Z_lt_ge_dec n k).
  - by rewrite Z.mod_pow2_bits_low by lia.
  - rewrite <- (Z.mod_small c (2 ^ k)), !Z.mod_pow2_bits_high by lia.
    by rewrite !andb_false_r.
Qed.

Lemma lor_mod_pow2 x c k : 0 <= k -> Z.lor x c mod 2 ^ k = Z.lor (x mod 2 ^ k) (c mod 2 ^ k).
Proof.
  intros Hk. rewrite <- !Z.land_ones by done. by rewrite Z.land_lor_distr_l.
Qed.

(** Exhaustive check of a boolean property on [lo, lo + 2^k). *)
Fixpoint check_pow (k : nat) (lo : Z) (P : Z -> bool) : bool :=
  match k with
  | O => P lo
  | S k' => check_pow k' lo P && check_pow k' (lo + 2 ^ Z.of_nat k') P
  end.

Lemma check_pow_spec k lo P :
  check_pow k lo P = true -> forall x, lo <= x < lo + 2 ^ Z.of_nat k -> P x = true.
Proof.
  revert lo. induction k as [|k IH]; intros lo H x Hx; cbn [check_pow] in H.
  - replace x with lo; [done|]. simpl in Hx. lia.
  - apply andb_true_iff in H as [H1 H2].
    rewrite Nat2Z.inj_succ, Z.pow_succ_r in Hx by lia.
    destruct (Z.lt_ge_cases x (lo + 2 ^ Z.of_nat k)); [apply (IH lo)|apply (IH _ H2)]; auto with lia.
Qed.

Lemma range_check (k : nat) (P : Z -> bool) :
  check_pow k 0 P = true -> forall x, 0 <= x < 2 ^ Z.of_nat k -> P x = true.
Proof. intros H x Hx. apply (check_pow_spec k 0 P H). lia. Qed.

(** [range_brute k x] closes a goal [f x = g x] about [0 <= x < 2 ^ k] by
    evaluating both sides on the whole range. *)
Ltac range_brute k x :=
  match goal with
  | |- ?l = ?r =>
      let P := constr:(fun y : Z => ltac:(
        let b := eval pattern x in (Z.eqb l r) in
        match b with ?f _ => let t := eval cbv beta in (f y) in exact t end)) in
      let H := fresh in
      assert (H : P x = true) by
        (apply (range_check k%nat P);
          [vm_compute; reflexivity
          |let v := eval vm_compute in (2 ^ Z.of_nat k%nat) in
           change (2 ^ Z.of_nat k%nat) with v; lia]);
      apply Z.eqb_eq in H; exact H
  end.

(** ** List lemmas *)

Lemma span_len_le {A} (p : A -> bool) l : (span_len p l <= length l)%nat.
Proof. induction l as [|x l IH]; simpl; [lia|]. destruct (p x); simpl; lia. Qed.

Lemma span_len_take {A} (p : A -> bool) l : Forall (fun x => p x = true) (take (span_len p l) l).
Proof. induction l as [|x l IH]; simpl; [done|]. destruct (p x) eqn:E; simpl; [by constructor|done]. Qed.

Lemma span_len_stop {A} (p : A -> bool) l x :
  l !! span_len p l = Some x -> p x = false.
Proof.
  induction l as [|y l IH]; simpl; [done|].
  destruct (p y) eqn:E; simpl; [done|]. by intros [= ->].
Qed.

Lemma at_lt s i : (i < length s)%nat -> s !! i = Some (at_ s i).
Proof. intros H. unfold at_. destruct (lookup_lt_is_Some_2 s i H) as [x ->]. done. Qed.

Lemma at_ge s i : (length s <= i)%nat -> at_ s i = 0.
Proof. intros H. unfold at_. by rewrite lookup_ge_None_2. Qed.

Lemma at_insert_eq s i x : (i < length s)%nat -> at_ (<[i := x]> s) i = x.
Proof. intros. unfold at_. by rewrite list_lookup_insert_eq. Qed.

Lemma at_insert_ne s i j x : i <> j -> at_ (<[i := x]> s) j = at_ s j.
Proof. intros. unfold at_. by rewrite list_lookup_insert_ne. Qed.

(** Invariant rule for a [for] loop over consecutive indices. *)
Lemma fold_seq_ind {A} (P : nat -> A -> Prop) (f : A -> nat -> A) i n s :
  P i s -> (forall j s, (i <= j < i + n)%nat -> P j s -> P (S j) (f s j)) ->
  P (i + n)%nat (fold_left f (seq i n) s).
Proof.
  revert i s. induction n as [|n IH]; intros i s H0 HS; cbn [seq fold_left].
  { by rewrite Nat.add_0_r. }
  rewrite Nat.add_succ_r, <- Nat.add_succ_l. apply IH.
  - apply HS; [lia|done].
  - intros j s' Hj. apply HS. lia.
Qed.

Lemma bytes_ok_cons b l : bytes_ok (b :: l) <-> is_byte b /\ bytes_ok l.
Proof. apply Forall_cons_iff. Qed.

Lemma units_ok_cons b l : units_ok (b :: l) <-> is_unit b /\ units_ok l.
Proof. apply Forall_cons_iff. Qed.

Lemma bytes_ok_app l k : bytes_ok (l ++ k) <-> bytes_ok l /\ bytes_ok k.
Proof. apply Forall_app. Qed.

Lemma units_ok_app l k : units_ok (l ++ k) <-> units_ok l /\ units_ok k.
Proof. apply Forall_app. Qed.

(** ** Memory helpers *)

(** [memcpy(dst + off, src, len)]. *)
Definition memcpy_at (off : nat) (src dst : list Z) : list Z :=
  take off dst ++ src ++ drop (off + length src) dst.

Lemma length_memcpy_at off src dst :
  (off + length src <= length dst)%nat -> length (memcpy_at off src dst) = length dst.
Proof. intros. unfold memcpy_at. rewrite !length_app, length_take, length_drop. lia. Qed.

Lemma take_memcpy_at off src dst :
  (off <= length dst)%nat ->
  take (off + length src) (memcpy_at off src dst) = take off dst ++ src.
Proof.
  intros. unfold memcpy_at. rewrite app_assoc, take_app_le.
  - apply take_ge. rewrite length_app, length_take. lia.
  - rewrite length_app, length_take. lia.
Qed.

Lemma memcpy_at_self off n l :
  (off + n <= length l)%nat -> memcpy_at off (take n (drop off l)) l = l.
Proof.
  intros. unfold memcpy_at. rewrite length_take_le by (rewrite length_drop; lia).
  rewrite <- drop_drop, take_drop. apply take_drop.
Qed.

Lemma insert_memcpy i b l : (i < length l)%nat -> <[i := b]> l = memcpy_at i [b] l.
Proof. intros. unfold memcpy_at. rewrite insert_take_drop by done. simpl. by rewrite Nat.add_1_r. Qed.

Lemma memcpy_memcpy i a b l :
  (i + length a <= length l)%nat ->
  memcpy_at i a (memcpy_at (i + length a) b l) = memcpy_at i (a ++ b) l.
Proof.
  intros. unfold memcpy_at.
  assert (length (take (i + length a) l) = (i + length a)%nat) by (rewrite length_take; lia).
  rewrite (drop_app_length' (take (i + length a) l)) by done.
  rewrite (take_app_le (take (i + length a) l)) by lia.
  by rewrite take_take, Nat.min_l, length_app, <- app_assoc, Nat.add_assoc by lia.
Qed.

Lemma memcpy_then i a b l :
  (i + length a <= length l)%nat ->
  memcpy_at (i + length a) b (memcpy_at i a l) = memcpy_at i (a ++ b) l.
Proof.
  intros. unfold memcpy_at at 1. rewrite take_memcpy_at by lia.
  rewrite <- app_assoc. unfold memcpy_at. f_equal.
  rewrite <- app_assoc. f_equal. f_equal.
  rewrite app_assoc, drop_app_ge by (rewrite length_app, length_take; lia).
  rewrite drop_drop, !length_app, length_take. f_equal. lia.
Qed.

Lemma at_byte l i : bytes_ok l -> is_byte (at_ l i).
Proof.
  intros H. unfold at_. destruct (l !! i) eqn:E; simpl; [|dlia].
  by apply (Forall_lookup_1 _ _ _ _ H E).
Qed.

Create HintDb core3ds.
#[export] Hint Resolve span_len_le span_len_take : core3ds.
