(* ===== verification/UTF8.v ===== *)
(** * UTF-8 / UTF-16 conversion (wtf/unicode/UTF8.cpp, wtf/StringHasher.h)

    [Module Conv] is the converter of WTF strings: a source pointer is the list
    of the code units still to read, a target pointer is the list of the units
    already written together with the room left ([cap]).  [Module Spec] is what
    Unicode says: the encoding forms of a sequence of scalar values.  
    [Module ConvFacts] relates the two. *)
From S2P Require Import Prelude.

(** ** The encoding forms, as the Unicode standard defines them *)
Module Spec.

(** Unicode scalar values. *)
Definition scalar (c : Z) : Prop := 0 <= c < 0xD800 \/ 0xE000 <= c < 0x110000.

#[global] Instance scalar_dec c : Decision (scalar c).
Proof. unfold scalar. apply _. Defined.

Definition cont (c : Z) : Z := 0x80 + c mod 64.

Definition utf8 (c : Z) : list Z :=
  if c <? 0x80 then [c]
  else if c <? 0x800 then [0xC0 + c / 64; cont c]
  else if c <? 0x10000 then [0xE0 + c / 4096; cont (c / 64); cont c]
  else [0xF0 + c / 262144; cont (c / 4096); cont (c / 64); cont c].

Definition utf16 (c : Z) : list Z :=
  if c <? 0x10000 then [c]
  else [0xD800 + (c - 0x10000) / 1024; 0xDC00 + (c - 0x10000) mod 1024].

Definition utf8s (cs : list Z) : list Z := mjoin (utf8 <$> cs).
Definition utf16s (cs : list Z) : list Z := mjoin (utf16 <$> cs).

Lemma utf8_length_pos c : (1 <= length (utf8 c) <= 4)%nat.
Proof. unfold utf8. repeat casif; simpl; lia. Qed.

Lemma utf16_length_pos c : (1 <= length (utf16 c) <= 2)%nat.
Proof. unfold utf16. repeat casif; simpl; lia. Qed.

(** A character takes at most three bytes per UTF-16 code unit. *)
Lemma utf8_le_3_utf16 c : (length (utf8 c) <= 3 * length (utf16 c))%nat.
Proof. unfold utf8, utf16. repeat casif; bprop; simpl; lia. Qed.

Lemma utf16_le_utf8 c : (length (utf16 c) <= length (utf8 c))%nat.
Proof. unfold utf8, utf16. repeat casif; bprop; simpl; lia. Qed.

Lemma utf8s_cons c cs : utf8s (c :: cs) = utf8 c ++ utf8s cs.
Proof. done. Qed.

Lemma utf16s_cons c cs : utf16s (c :: cs) = utf16 c ++ utf16s cs.
Proof. done. Qed.

Lemma utf8s_le_3_utf16s cs : (length (utf8s cs) <= 3 * length (utf16s cs))%nat.
Proof.
  induction cs as [|c cs IH]; [simpl; lia|].
  rewrite utf8s_cons, utf16s_cons, !length_app. pose proof (utf8_le_3_utf16 c). lia.
Qed.

Lemma utf16s_le_utf8s cs : (length (utf16s cs) <= length (utf8s cs))%nat.
Proof.
  induction cs as [|c cs IH]; [simpl; lia|].
  rewrite utf8s_cons, utf16s_cons, !length_app. pose proof (utf16_le_utf8 c). lia.
Qed.

Lemma scalar_utf8_bytes c : scalar c -> bytes_ok (utf8 c).
Proof.
  intros H. unfold utf8, scalar, cont in *.
  repeat casif; bprop; repeat constructor; dlia.
Qed.

Lemma scalar_utf16_units c : scalar c -> units_ok (utf16 c).
Proof.
  intros H. unfold utf16, scalar in *. repeat casif; bprop; repeat constructor; dlia.
Qed.
End Spec.

(** ** The converters *)
Module Conv.
Import Spec.

(** *** Character macros (unicode/UnicodeMacrosFromICU.h; UChar32 is a signed
    32-bit integer) *)
Definition U_IS_BMP (c : Z) : bool := (c <=? 0xFFFF).
Definition U_IS_SURROGATE (c : Z) : bool := Z.land c 0xFFFFF800 =? 0xD800.
Definition U_IS_SUPPLEMENTARY (c : Z) : bool := (c - 0x10000 <=? 0xFFFFF).
Definition U16_LEAD (c : Z) : Z := u16 (Z.shiftr c 10 + 0xD7C0).
Definition U16_TRAIL (c : Z) : Z := u16 (Z.lor (Z.land c 0x3FF) 0xDC00).
Definition replacementCharacter : Z := 0xFFFD.

Definition inlineUTF8SequenceLengthNonASCII (b0 : Z) : Z :=
  if negb (Z.land b0 0xC0 =? 0xC0) then 0
  else if Z.land b0 0xE0 =? 0xC0 then 2
  else if Z.land b0 0xF0 =? 0xE0 then 3
  else if Z.land b0 0xF8 =? 0xF0 then 4
  else 0.

Definition inlineUTF8SequenceLength (b0 : Z) : Z :=
  if isASCII b0 then 1 else inlineUTF8SequenceLengthNonASCII b0.

Definition UTF8SequenceLength (b0 : Z) : Z :=
  if isASCII b0 then 1 else inlineUTF8SequenceLengthNonASCII b0.

(** [sequence] is the NUL-terminated C string without its terminator. *)
Definition decodeUTF8Sequence (sequence : list Z) : Z :=
  let b0 := at_ sequence 0 in
  let length := inlineUTF8SequenceLength b0 in
  if length =? 0 then -1 else
  let b1 := at_ sequence 1 in
  if length =? 1 then (if negb (b1 =? 0) then -1 else b0) else
  if negb (Z.land b1 0xC0 =? 0x80) then -1 else
  let b2 := at_ sequence 2 in
  if length =? 2 then
    if negb (b2 =? 0) then -1 else
    let c := Z.lor (Z.shiftl (Z.land b0 0x1F) 6) (Z.land b1 0x3F) in
    if c <? 0x80 then -1 else c
  else
  if negb (Z.land b2 0xC0 =? 0x80) then -1 else
  let b3 := at_ sequence 3 in
  if length =? 3 then
    if negb (b3 =? 0) then -1 else
    let c := Z.lor (Z.lor (Z.shiftl (Z.land b0 0xF) 12) (Z.shiftl (Z.land b1 0x3F) 6))
                   (Z.land b2 0x3F) in
    if c <? 0x800 then -1 else
    if (0xD800 <=? c) && (c <=? 0xDFFF) then -1 else c
  else
  if negb (Z.land b3 0xC0 =? 0x80) then -1 else
  let b4 := at_ sequence 4 in
  if length =? 4 then
    if negb (b4 =? 0) then -1 else
    let c := Z.lor (Z.lor (Z.lor (Z.shiftl (Z.land b0 0x7) 18) (Z.shiftl (Z.land b1 0x3F) 12))
                          (Z.shiftl (Z.land b2 0x3F) 6)) (Z.land b3 0x3F) in
    if (c <? 0x10000) || (0x10FFFF <? c) then -1 else c
  else -1.

Inductive ConversionResult := conversionOK | sourceExhausted | targetExhausted | sourceIllegal.

#[global] Instance ConversionResult_eq_dec : EqDecision ConversionResult.
Proof. solve_decision. Defined.

(** What a converter leaves behind: its result, the source still to be read
    ([*sourceStart]) and what it wrote up to [*targetStart]. *)
Record conv := mkconv {
  conv_result : ConversionResult;
  conv_source : list Z;
  conv_target : list Z
}.

(** Prepend written units to what the rest of the loop writes. *)
Definition conv_put (w : list Z) (r : conv) : conv :=
  mkconv (conv_result r) (conv_source r) (w ++ conv_target r).

Definition firstByteMark : list Z := [0x00; 0x00; 0xC0; 0xE0; 0xF0; 0xF8; 0xFC].

(** The fall-through switch that writes [bytesToWrite] bytes backwards:
    [k] continuation bytes, then the lead byte. *)
Fixpoint put_continuation (k : nat) (ch : Z) (acc : list Z) : Z * list Z :=
  match k with
  | O => (ch, acc)
  | S k' => put_continuation k' (Z.shiftr ch 6) (u8 (Z.land (Z.lor ch 0x80) 0xBF) :: acc)
  end.

Definition put_bytes (bytesToWrite : nat) (ch : Z) : list Z :=
  let '(ch', acc) := put_continuation (bytesToWrite - 1) ch [] in
  u8 (Z.lor ch' (at_ firstByteMark bytesToWrite)) :: acc.

Fixpoint convertLatin1ToUTF8 (source : list Z) (cap : nat) : conv :=
  match source with
  | [] => mkconv conversionOK [] []
  | ch :: rest =>
      let bytesToWrite := if ch <? 0x80 then 1%nat else 2%nat in
      if (cap <? bytesToWrite)%nat then mkconv targetExhausted source []
      else conv_put (put_bytes bytesToWrite ch)
             (convertLatin1ToUTF8 rest (cap - bytesToWrite))
  end.

(** Number of bytes of a character, and the character actually written. *)
Definition bytes_for (ch : Z) : nat * Z :=
  if ch <? 0x80 then (1%nat, ch)
  else if ch <? 0x800 then (2%nat, ch)
  else if ch <? 0x10000 then (3%nat, ch)
  else if ch <? 0x110000 then (4%nat, ch)
  else (3%nat, replacementCharacter).

Definition is_lead (ch : Z) : bool := (0xD800 <=? ch) && (ch <=? 0xDBFF).
Definition is_trail (ch : Z) : bool := (0xDC00 <=? ch) && (ch <=? 0xDFFF).

Fixpoint convertUTF16ToUTF8 (source : list Z) (cap : nat) (strict : bool) : conv :=
  match source with
  | [] => mkconv conversionOK [] []
  | ch :: rest =>
      let put c (next : nat -> conv) :=
        let '(bytesToWrite, c') := bytes_for c in
        if (cap <? bytesToWrite)%nat then mkconv targetExhausted source []
        else conv_put (put_bytes bytesToWrite c') (next (cap - bytesToWrite)%nat) in
      if is_lead ch then
        match rest with
        | ch2 :: rest2 =>
            if is_trail ch2 then
              put (Z.shiftl (ch - 0xD800) 10 + (ch2 - 0xDC00) + 0x0010000)
                  (fun c => convertUTF16ToUTF8 rest2 c strict)
            else if strict then mkconv sourceIllegal source []
            else put ch (fun c => convertUTF16ToUTF8 rest c strict)
        | [] => mkconv sourceExhausted source []
        end
      else if strict && is_trail ch then mkconv sourceIllegal source []
      else put ch (fun c => convertUTF16ToUTF8 rest c strict)
  end.

Definition isLegalUTF8 (source : list Z) (length : Z) : bool :=
  let s i := at_ source i in
  let case1 := negb ((0x80 <=? s 0%nat) && (s 0%nat <? 0xC2)) && negb (0xF4 <? s 0%nat) in
  let case2 :=
    let a := s 1%nat in
    if 0xBF <? a then false else
    let inner :=
      if s 0%nat =? 0xE0 then negb (a <? 0xA0)
      else if s 0%nat =? 0xED then negb (0x9F <? a)
      else if s 0%nat =? 0xF0 then negb (a <? 0x90)
      else if s 0%nat =? 0xF4 then negb (0x8F <? a)
      else negb (a <? 0x80) in
    if inner then case1 else false in
  let case3 := let a := s 2%nat in if (a <? 0x80) || (0xBF <? a) then false else case2 in
  let case4 := let a := s 3%nat in if (a <? 0x80) || (0xBF <? a) then false else case3 in
  if length =? 4 then case4 else if length =? 3 then case3
  else if length =? 2 then case2 else if length =? 1 then case1 else false.

Definition offsetsFromUTF8 : list Z :=
  [0x00000000; 0x00003080; 0x000E2080; 0x03C82080; 0xFA082080; 0x82082080].

(** The fall-through reads: all but the last byte are followed by a shift. *)
Fixpoint read_bytes (character : Z) (k : nat) (sequence : list Z) : Z :=
  match k, sequence with
  | S k', b :: rest =>
      let character := character + b in
      match k' with
      | O => character
      | S _ => read_bytes (Z.shiftl character 6) k' rest
      end
  | _, _ => character
  end.

Definition readUTF8Sequence (sequence : list Z) (length : Z) : Z :=
  read_bytes 0 (Z.to_nat length) sequence - at_ offsetsFromUTF8 (Z.to_nat length - 1).

(** One iteration of convertUTF8ToUTF16 with room for [cap] units: either the
    loop breaks, or it wrote some units and goes on behind the sequence. *)
Definition utf8_step (source : list Z) (cap : nat) (strict : bool)
    : ConversionResult + (list Z * list Z) :=
  let utf8SequenceLength := inlineUTF8SequenceLength (at_ source 0) in
  if Z.of_nat (length source) <? utf8SequenceLength then inl sourceExhausted
  else if negb (isLegalUTF8 source utf8SequenceLength) then inl sourceIllegal
  else
    let character := readUTF8Sequence source utf8SequenceLength in
    let rest := drop (Z.to_nat utf8SequenceLength) source in
    if (cap <? 1)%nat then inl targetExhausted
    else if U_IS_BMP character then
      if U_IS_SURROGATE character then
        if strict then inl sourceIllegal else inr ([replacementCharacter], rest)
      else inr ([character], rest)
    else if U_IS_SUPPLEMENTARY character then
      if (cap <? 2)%nat then inl targetExhausted
      else inr ([U16_LEAD character; U16_TRAIL character], rest)
    else if strict then inl sourceIllegal
    else inr ([replacementCharacter], rest).

Fixpoint utf8_loop (fuel : nat) (source : list Z) (cap : nat) (strict : bool) : conv :=
  match fuel, source with
  | _, [] => mkconv conversionOK [] []
  | O, _ => mkconv sourceIllegal source []
  | S fuel', _ =>
      match utf8_step source cap strict with
      | inl r => mkconv r source []
      | inr (w, rest) => conv_put w (utf8_loop fuel' rest (cap - length w) strict)
      end
  end.

(** Every iteration consumes a byte, so the length of the source is enough
    fuel ([utf8_loop_spec]). *)
Definition convertUTF8ToUTF16 (source : list Z) (cap : nat) (strict : bool) : conv :=
  utf8_loop (length source) source cap strict.
End Conv.

(** ** Correctness of the converters against the encoding forms *)
Module ConvFacts.
Import Spec Conv.

(** *** Writing *)

Lemma cont_byte ch : u8 (Z.land (Z.lor ch 0x80) 0xBF) = cont ch.
Proof.
  rewrite (land_mod_pow2 _ 0xBF 8), lor_mod_pow2 by lia. unfold cont.
  replace (ch mod 64) with ((ch mod 2 ^ 8) mod 64) by dlia.
  assert (0 <= ch mod 2 ^ 8 < 256) as Hy by dlia. revert Hy.
  generalize (ch mod 2 ^ 8) as y. intros y Hy. range_brute 8%nat y.
Qed.

Lemma lead2 y : 0 <= y < 32 -> u8 (Z.lor y 0xC0) = 0xC0 + y.
Proof. intros. range_brute 5%nat y. Qed.
Lemma lead3 y : 0 <= y < 16 -> u8 (Z.lor y 0xE0) = 0xE0 + y.
Proof. intros. range_brute 4%nat y. Qed.
Lemma lead4 y : 0 <= y < 8 -> u8 (Z.lor y 0xF0) = 0xF0 + y.
Proof. intros. range_brute 3%nat y. Qed.

Lemma shiftr_6_div x : Z.shiftr x 6 = x / 64.
Proof. by rewrite Z.shiftr_div_pow2 by lia. Qed.

Lemma put_bytes_utf8 c :
  0 <= c < 0x110000 -> put_bytes (bytes_for c).1 (bytes_for c).2 = utf8 c.
Proof.
  intros Hc. unfold put_bytes, bytes_for, utf8.
  repeat casif; bprop; cbn [fst snd Nat.sub put_continuation];
    change (at_ firstByteMark 1) with 0; change (at_ firstByteMark 2) with 0xC0;
    change (at_ firstByteMark 3) with 0xE0; change (at_ firstByteMark 4) with 0xF0;
    rewrite ?cont_byte, ?shiftr_6_div, ?Z.div_div by lia; simpl Z.mul.
  - rewrite Z.lor_0_r. f_equal. dlia.
  - by rewrite lead2 by dlia.
  - by rewrite lead3 by dlia.
  - by rewrite lead4 by dlia.
  - dlia.
Qed.

Lemma bytes_for_length c : 0 <= c < 0x110000 -> (bytes_for c).1 = length (utf8 c).
Proof. intros Hc. unfold bytes_for, utf8. repeat casif; bprop; simpl; lia. Qed.

(** *** Reading *)

Lemma sequence_length_byte b :
  is_byte b -> inlineUTF8SequenceLength b =
    if b <? 0x80 then 1 else if b <? 0xC0 then 0 else if b <? 0xE0 then 2
    else if b <? 0xF0 then 3 else if b <? 0xF8 then 4 else 0.
Proof. intros H. assert (0 <= b < 256) by dlia. range_brute 8%nat b. Qed.

Ltac bytes_inv :=
  repeat match goal with
  | H : bytes_ok (_ :: _) |- _ => apply bytes_ok_cons in H; destruct H
  end.

Lemma read1 b0 l : readUTF8Sequence (b0 :: l) 1 = b0.
Proof. unfold readUTF8Sequence. znat. cbn. lia. Qed.
Lemma read2 b0 b1 l : readUTF8Sequence (b0 :: b1 :: l) 2 = b0 * 64 + b1 - 0x3080.
Proof. unfold readUTF8Sequence. znat. cbn -[Z.shiftl Z.add Z.sub]. rewrite !Z.shiftl_mul_pow2 by lia. zpow. lia. Qed.
Lemma read3 b0 b1 b2 l :
  readUTF8Sequence (b0 :: b1 :: b2 :: l) 3 = (b0 * 64 + b1) * 64 + b2 - 0xE2080.
Proof. unfold readUTF8Sequence. znat. cbn -[Z.shiftl Z.add Z.sub]. rewrite !Z.shiftl_mul_pow2 by lia. zpow. lia. Qed.
Lemma read4 b0 b1 b2 b3 l :
  readUTF8Sequence (b0 :: b1 :: b2 :: b3 :: l) 4 = ((b0 * 64 + b1) * 64 + b2) * 64 + b3 - 0x3C82080.
Proof. unfold readUTF8Sequence. znat. cbn -[Z.shiftl Z.add Z.sub]. rewrite !Z.shiftl_mul_pow2 by lia. zpow. lia. Qed.

(** Split every boolean test of [isLegalUTF8] in a hypothesis. *)
Ltac split_tests H :=
  repeat match type of H with
  | context [if ?b then _ else _] =>
      lazymatch b with context [if _ then _ else _] => fail | _ => destruct b eqn:?; try discriminate H end
  end; bprop.

Ltac solve_utf8 :=
  unfold utf8, cont; repeat casif; bprop; try (exfalso; dlia);
  cbv [firstn]; repeat f_equal; dlia.

(** What [isLegalUTF8] accepts, and what [readUTF8Sequence] makes of it: the
    encodings of the scalar values, and two families of ill-formed sequences
    whose second byte is not a continuation byte (the tests for 0xED and 0xF4
    have no lower bound). *)
Inductive reads : list Z -> Z -> Prop :=
| reads_utf8 c : scalar c -> reads (utf8 c) c
| reads_ED a b : 0 <= a < 0x80 -> 0x80 <= b <= 0xBF ->
    reads [0xED; a; b] (0xD000 + (a - 0x80) * 64 + (b - 0x80))
| reads_F4 a b d : 0 <= a < 0x80 -> 0x80 <= b <= 0xBF -> 0x80 <= d <= 0xBF ->
    reads [0xF4; a; b; d] (0x100000 + (a - 0x80) * 4096 + (b - 0x80) * 64 + (d - 0x80)).

Lemma reads_scalar l c : reads l c -> scalar c.
Proof. destruct 1; unfold scalar in *; lia. Qed.

Lemma reads_length l c : reads l c -> (1 <= length l <= 4)%nat.
Proof. destruct 1; [apply utf8_length_pos|simpl; lia..]. Qed.

(** An accepted sequence needs no more code units than it has bytes. *)
Lemma reads_utf16_le l c : reads l c -> (length (utf16 c) <= length l)%nat.
Proof.
  destruct 1; [apply utf16_le_utf8|..]; unfold utf16; casif; bprop; simpl; lia.
Qed.

Ltac reads_of c :=
  match goal with
  | |- reads ?l _ => replace l with (utf8 c) by solve_utf8; constructor; unfold scalar; lia
  end.

Ltac reads_alias :=
  match goal with
  | |- reads [?x; ?a; ?b] ?c =>
      replace c with (0xD000 + (a - 0x80) * 64 + (b - 0x80)) by lia;
      replace x with 0xED by lia; constructor; lia
  | |- reads [?x; ?a; ?b; ?d] ?c =>
      replace c with (0x100000 + (a - 0x80) * 4096 + (b - 0x80) * 64 + (d - 0x80)) by lia;
      replace x with 0xF4 by lia; constructor; lia
  end.

Lemma legal_inv source n :
  bytes_ok source -> inlineUTF8SequenceLength (at_ source 0) = n ->
  n <= Z.of_nat (length source) -> isLegalUTF8 source n = true ->
  reads (take (Z.to_nat n) source) (readUTF8Sequence source n).
Proof.
  intros Hb Hn Hlen Hlegal.
  destruct source as [|b0 l0]; [by subst n|].
  unfold at_ in Hn; cbn in Hn. bytes_inv. rewrite sequence_length_byte in Hn by done.
  unfold isLegalUTF8, at_ in Hlegal; cbn in Hlegal.
  revert Hn. repeat casif; intros <-; bprop; cbn in Hlegal; try discriminate Hlegal; znat.
  - rewrite read1. split_tests Hlegal. unfold in_width in *. cbv [firstn].
    replace [b0] with (utf8 b0) by solve_utf8. constructor. unfold scalar. lia.
  - destruct l0 as [|b1 l]; [cbn in Hlen; lia|]. bytes_inv. rewrite read2.
    cbn in Hlegal; cbv [firstn]. split_tests Hlegal; unfold in_width in *; zpow.
    all: match goal with |- reads _ ?c => reads_of c end.
  - destruct l0 as [|b1 [|b2 l]]; [cbn in Hlen; lia..|]. bytes_inv. rewrite read3.
    cbn in Hlegal; cbv [firstn]. split_tests Hlegal; unfold in_width in *; zpow.
    all: match goal with |- reads _ ?c => first [reads_of c | idtac] end.
    destruct (Z.le_gt_cases 0x80 b1); [|reads_alias].
    match goal with |- reads _ ?c => reads_of c end.
  - destruct l0 as [|b1 [|b2 [|b3 l]]]; [cbn in Hlen; lia..|]. bytes_inv. rewrite read4.
    cbn in Hlegal; cbv [firstn]. split_tests Hlegal; unfold in_width in *; zpow.
    all: match goal with |- reads _ ?c => first [reads_of c | idtac] end.
    destruct (Z.le_gt_cases 0x80 b1); [|reads_alias].
    match goal with |- reads _ ?c => reads_of c end.
Qed.

Lemma reads_bytes l c : reads l c -> bytes_ok l.
Proof.
  destruct 1; [by apply scalar_utf8_bytes|..]; repeat constructor; dlia.
Qed.

(** Evaluate the byte accesses of a concrete sequence. *)
Ltac at_cbn := unfold at_; cbn [app lookup list_lookup default from_option id].

Ltac legal_tac :=
  unfold isLegalUTF8; at_cbn;
  repeat match goal with
  | |- context [?a =? ?b] => destruct (Z.eqb_spec a b); try (exfalso; dlia)
  | |- context [?a <? ?b] => destruct (Z.ltb_spec a b); try (exfalso; dlia)
  | |- context [?a <=? ?b] => destruct (Z.leb_spec a b); try (exfalso; dlia)
  end; cbn [negb andb orb]; try done; try (exfalso; dlia).

Lemma reads_legal l c rest :
  reads l c ->
  inlineUTF8SequenceLength (at_ (l ++ rest) 0) = Z.of_nat (length l)
  /\ isLegalUTF8 (l ++ rest) (Z.of_nat (length l)) = true
  /\ readUTF8Sequence (l ++ rest) (Z.of_nat (length l)) = c.
Proof.
  intros H. pose proof (reads_bytes l c H) as Hb.
  destruct H as [c Hc|a b ? ?|a b d ? ? ?].
  - unfold scalar in Hc. revert Hb. unfold utf8, cont.
    repeat casif; bprop; intros Hb; bytes_inv; cbn [length app];
      (split; [at_cbn; rewrite sequence_length_byte by done; repeat casif; bprop; dlia|]);
      (split; [|try (rewrite read1 || rewrite read2 || rewrite read3 || rewrite read4); dlia]);
      legal_tac.
  - split_and!; [by at_cbn| |cbn [app length]; rewrite read3; lia].
    cbn [length]. legal_tac.
  - split_and!; [by at_cbn| |cbn [app length]; rewrite read4; lia].
    cbn [length]. legal_tac.
Qed.

(** *** One step of the UTF-8 reader *)

Lemma surrogate_test c : 0 <= c < 65536 ->
  U_IS_SURROGATE c = ((0xD800 <=? c) && (c <? 0xE000)).
Proof.
  intros Hc. unfold U_IS_SURROGATE. apply eqb_true_iff.
  apply (range_check 16 (fun c => eqb (Z.land c 0xFFFFF800 =? 0xD800)
           ((0xD800 <=? c) && (c <? 0xE000)))); [vm_compute; reflexivity|zpow; lia].
Qed.

Lemma lead_value c : 0x10000 <= c < 0x110000 -> U16_LEAD c = 0xD800 + (c - 0x10000) / 1024.
Proof. intros H. unfold U16_LEAD. rewrite Z.shiftr_div_pow2 by lia. dlia. Qed.

Lemma trail_value c : 0x10000 <= c < 0x110000 -> U16_TRAIL c = 0xDC00 + (c - 0x10000) mod 1024.
Proof.
  intros H. unfold U16_TRAIL. change 0x3FF with (Z.ones 10). rewrite Z.land_ones by lia. zpow.
  replace ((c - 0x10000) mod 1024) with (c mod 1024) by dlia.
  assert (0 <= c mod 1024 < 1024) as Hy by dlia. revert Hy.
  generalize (c mod 1024) as y. intros y Hy. range_brute 10%nat y.
Qed.

(** What the loop does with the character of an accepted sequence. *)
Lemma utf8_step_reads l c rest cap strict :
  reads l c ->
  utf8_step (l ++ rest) cap strict =
    if (cap <? length (utf16 c))%nat then inl targetExhausted else inr (utf16 c, rest).
Proof.
  intros H. pose proof (reads_scalar l c H) as Hc.
  destruct (reads_legal l c rest H) as (Hn & Hl & Hr).
  unfold utf8_step. rewrite Hn, Hl, Hr, length_app.
  destruct (Z.ltb_spec (Z.of_nat (length l + length rest)) (Z.of_nat (length l))); [lia|].
  rewrite Nat2Z.id, drop_app_length. cbn [negb].
  unfold scalar in Hc. unfold U_IS_BMP, U_IS_SUPPLEMENTARY, utf16.
  destruct (Z.ltb_spec c 0x10000).
  - rewrite surrogate_test by lia. cbn [length].
    zbool; try lia; by destruct (cap <? 1)%nat.
  - rewrite lead_value, trail_value by lia. cbn [length].
    zbool; try lia.
    destruct (Nat.ltb_spec cap 1), (Nat.ltb_spec cap 2); try lia; done.
Qed.

(** The loop either breaks for the reason it reports or reads one sequence. *)
Lemma utf8_step_cases source cap strict :
  bytes_ok source -> source <> [] ->
  (exists l c rest, reads l c /\ source = l ++ rest) \/
  ((forall l c rest, reads l c -> source <> l ++ rest) /\
   ((utf8_step source cap strict = inl sourceExhausted /\
     Z.of_nat (length source) < inlineUTF8SequenceLength (at_ source 0)) \/
    utf8_step source cap strict = inl sourceIllegal)).
Proof.
  intros Hb Hne. set (n := inlineUTF8SequenceLength (at_ source 0)).
  destruct (Z.ltb_spec (Z.of_nat (length source)) n) as [Hlt|Hge].
  - right. split.
    + intros l c rest H ->. destruct (reads_legal l c rest H) as (Hn & _).
      unfold n in Hlt. rewrite Hn, length_app in Hlt. lia.
    + left. unfold utf8_step. fold n. by destruct (Z.ltb_spec (Z.of_nat (length source)) n); [|lia].
  - destruct (isLegalUTF8 source n) eqn:Hl.
    + left. pose proof (legal_inv source n Hb eq_refl Hge Hl) as Hr.
      eexists _, _, (drop (Z.to_nat n) source). split; [exact Hr|].
      symmetry. apply take_drop.
    + right. split.
      * intros l c rest H ->. destruct (reads_legal l c rest H) as (Hn & Hl' & _).
        unfold n in Hl. rewrite Hn in Hl. congruence.
      * right. unfold utf8_step. fold n. rewrite Hl.
        by destruct (Z.ltb_spec (Z.of_nat (length source)) n); [lia|].
Qed.

(** *** The whole loop *)

(** The source a run has consumed, as the sequences it read. *)
Inductive reads_all : list Z -> list Z -> Prop :=
| reads_nil : reads_all [] []
| reads_cons l c ls cs : reads l c -> reads_all ls cs -> reads_all (l ++ ls) (c :: cs).

Lemma reads_all_scalar ls cs : reads_all ls cs -> Forall scalar cs.
Proof. induction 1; constructor; eauto using reads_scalar. Qed.

Lemma reads_all_utf8s cs : Forall scalar cs -> reads_all (utf8s cs) cs.
Proof. induction 1; [constructor|]. rewrite utf8s_cons. constructor; [by constructor|done]. Qed.

Lemma reads_all_utf16_le ls cs : reads_all ls cs -> (length (utf16s cs) <= length ls)%nat.
Proof.
  induction 1 as [|l c ls cs H _ IH]; [simpl; lia|].
  rewrite utf16s_cons, !length_app. pose proof (reads_utf16_le l c H). lia.
Qed.

(** Why a run of the reader stopped in front of [rest] with room for [cap] units. *)
Definition stops (r : ConversionResult) (rest : list Z) (cap : nat) : Prop :=
  match r with
  | conversionOK => rest = []
  | targetExhausted => exists l c rest', reads l c /\ rest = l ++ rest' /\ (cap < length (utf16 c))%nat
  | sourceExhausted => (forall l c rest', reads l c -> rest <> l ++ rest')
      /\ Z.of_nat (length rest) < inlineUTF8SequenceLength (at_ rest 0)
  | sourceIllegal => rest <> [] /\ forall l c rest', reads l c -> rest <> l ++ rest'
  end.

Lemma utf8_loop_spec fuel source cap strict :
  bytes_ok source -> (length source <= fuel)%nat ->
  exists ls cs, reads_all ls cs
    /\ source = ls ++ conv_source (utf8_loop fuel source cap strict)
    /\ conv_target (utf8_loop fuel source cap strict) = utf16s cs
    /\ (length (utf16s cs) <= cap)%nat
    /\ stops (conv_result (utf8_loop fuel source cap strict))
             (conv_source (utf8_loop fuel source cap strict)) (cap - length (utf16s cs)).
Proof.
  revert source cap. induction fuel as [|fuel IH]; intros source cap Hb Hf.
  { destruct source; [|simpl in Hf; lia]. exists [], []. split_and!; [constructor|done..|simpl; lia|done]. }
  destruct source as [|b0 l0] eqn:Es.
  { exists [], []. split_and!; [constructor|done..|simpl; lia|done]. }
  rewrite <- Es in *. assert (source <> []) as Hne by (by subst source).
  assert (utf8_loop (S fuel) source cap strict =
    match utf8_step source cap strict with
    | inl r => mkconv r source []
    | inr (w, rest) => conv_put w (utf8_loop fuel rest (cap - length w) strict)
    end) as -> by (by subst source). clear Es b0 l0.
  destruct (utf8_step_cases source cap strict Hb Hne) as [(l & c & rest & Hr & ->)|(Hno & Hstep)].
  - rewrite (utf8_step_reads l c rest cap strict Hr).
    destruct (Nat.ltb_spec cap (length (utf16 c))) as [Hlt|Hge].
    + exists [], []. split_and!; [constructor|done..|simpl; lia|].
      exists l, c, rest. split_and!; [done..|simpl; lia].
    + apply bytes_ok_app in Hb as [_ Hb].
      pose proof (reads_length l c Hr). rewrite length_app in Hf.
      destruct (IH rest (cap - length (utf16 c))%nat Hb ltac:(lia))
        as (ls & cs & H1 & H2 & H3 & H4 & H5).
      exists (l ++ ls), (c :: cs). rewrite utf16s_cons, length_app.
      split_and!; [by constructor| | |lia|].
      * cbn. rewrite <- app_assoc. by f_equal.
      * cbn. by rewrite H3.
      * cbn. by rewrite Nat.sub_add_distr.
  - exists [], []. destruct Hstep as [[-> ?]| ->];
      (split_and!; [constructor|done..|simpl; lia|done]).
Qed.

(** *** The UTF-16 reader *)

(** Code points the converter may write: scalar values only when strict. *)
Definition codepoint (strict : bool) (c : Z) : Prop :=
  0 <= c < 0x110000 /\ (strict = true -> scalar c).

Definition stops16 (strict : bool) (r : ConversionResult) (rest : list Z) (cap : nat) : Prop :=
  match r with
  | conversionOK => rest = []
  | targetExhausted => exists c rest', codepoint strict c /\ rest = utf16 c ++ rest'
      /\ (cap < length (utf8 c))%nat
  | sourceExhausted => exists h, rest = [h] /\ is_lead h = true
  | sourceIllegal => strict = true /\
      ((exists u rest', rest = u :: rest' /\ is_trail u = true) \/
       (exists u v rest', rest = u :: v :: rest' /\ is_lead u = true /\ is_trail v = false))
  end.

(** A run over [source] with room [cap] ends in [r] as it should. *)
Definition run16 (strict : bool) (source : list Z) (cap : nat) (r : conv) : Prop :=
  exists cs, Forall (codepoint strict) cs
    /\ source = utf16s cs ++ conv_source r
    /\ conv_target r = utf8s cs
    /\ (length (utf8s cs) <= cap)%nat
    /\ stops16 strict (conv_result r) (conv_source r) (cap - length (utf8s cs)).

Lemma run16_stop strict source cap r :
  stops16 strict r source cap -> run16 strict source cap (mkconv r source []).
Proof.
  intros H. exists []. split_and!; [constructor|done..|simpl; lia|].
  simpl. by rewrite Nat.sub_0_r.
Qed.

(** One character read and written, then the rest of the run. *)
Lemma run16_put strict c rest source cap (next : nat -> conv) :
  codepoint strict c -> source = utf16 c ++ rest ->
  (forall cap', run16 strict rest cap' (next cap')) ->
  run16 strict source cap
    (let '(n, c') := bytes_for c in
     if (cap <? n)%nat then mkconv targetExhausted source []
     else conv_put (put_bytes n c') (next (cap - n)%nat)).
Proof.
  intros Hc -> Hnext.
  pose proof (put_bytes_utf8 c (proj1 Hc)) as Hput.
  pose proof (bytes_for_length c (proj1 Hc)) as Hlen.
  destruct (bytes_for c) as [n c']. cbn in Hput, Hlen. subst n. rewrite Hput.
  destruct (Nat.ltb_spec cap (length (utf8 c))) as [Hlt|Hge].
  - apply run16_stop. by exists c, rest.
  - destruct (Hnext (cap - length (utf8 c))%nat) as (cs & H1 & H2 & H3 & H4 & H5).
    exists (c :: cs). rewrite utf16s_cons, utf8s_cons, length_app. split_and!.
    + by constructor.
    + cbn. rewrite <- app_assoc. by f_equal.
    + cbn. by rewrite H3.
    + lia.
    + cbn. by rewrite Nat.sub_add_distr.
Qed.

Lemma combine_value h t :
  is_lead h = true -> is_trail t = true ->
  let c := Z.shiftl (h - 0xD800) 10 + (t - 0xDC00) + 0x10000 in
  0x10000 <= c < 0x110000 /\ utf16 c = [h; t].
Proof.
  intros Hh Ht c. unfold is_lead, is_trail in *. bprop.
  assert (c = (h - 0xD800) * 1024 + (t - 0xDC00) + 0x10000) as ->
    by (unfold c; rewrite Z.shiftl_mul_pow2 by lia; zpow; lia).
  split; [lia|]. unfold utf16. casif; bprop; [lia|]. f_equal; [dlia|f_equal; dlia].
Qed.

Lemma utf16_single ch : 0 <= ch < 0x10000 -> utf16 ch = [ch].
Proof. intros. unfold utf16. casif; bprop; [done|lia]. Qed.

Lemma convertUTF16ToUTF8_run source cap strict :
  units_ok source -> run16 strict source cap (convertUTF16ToUTF8 source cap strict).
Proof.
  remember (length source) as n eqn:Hn. revert source cap Hn.
  induction n as [n IH] using lt_wf_ind. intros source cap -> Hu.
  destruct source as [|ch rest]; [by apply run16_stop|].
  apply units_ok_cons in Hu as [Hch Hrest]. unfold in_width in Hch. zpow.
  assert (forall cap', run16 strict rest cap' (convertUTF16ToUTF8 rest cap' strict)) as Htail
    by (intros; apply (IH (length rest)); [simpl; lia|done..]).
  cbn [convertUTF16ToUTF8]. destruct (is_lead ch) eqn:Hlead.
  - destruct rest as [|ch2 rest2]; [apply run16_stop; by exists ch|].
    apply units_ok_cons in Hrest as [Hch2 Hrest2].
    destruct (is_trail ch2) eqn:Htrail.
    + destruct (combine_value ch ch2 Hlead Htrail) as [Hc Hutf].
      apply (run16_put strict _ rest2 _ cap (fun c => convertUTF16ToUTF8 rest2 c strict)).
      * split; [lia|]. intros _. right. lia.
      * by rewrite Hutf.
      * intros. apply (IH (length rest2)); [simpl; lia|done..].
    + destruct strict; [apply run16_stop; split; [done|]; right; by exists ch, ch2, rest2|].
      apply (run16_put false ch (ch2 :: rest2) _ cap
               (fun c => convertUTF16ToUTF8 (ch2 :: rest2) c false)); [|by rewrite utf16_single|done].
      split; [lia|done].
  - destruct (strict && is_trail ch) eqn:Hst.
    + apply andb_true_iff in Hst as [-> Ht]. apply run16_stop. split; [done|]. left. by exists ch, rest.
    + apply (run16_put strict ch rest _ cap (fun c => convertUTF16ToUTF8 rest c strict));
        [|by rewrite utf16_single|done].
      split; [lia|]. intros ->. cbn in Hst. unfold is_lead, is_trail, scalar in *.
      zbool; destruct (Z.leb_spec 0xD800 ch), (Z.leb_spec ch 0xDBFF), (Z.leb_spec 0xDC00 ch),
        (Z.leb_spec ch 0xDFFF); simpl in *; try discriminate; lia.
Qed.
End ConvFacts.

(** ** Properties *)
Module UTF8Props.
Import Spec Conv ConvFacts.

(** C36: on any bytes, in either mode, convertUTF8ToUTF16 reads a sequence of
    accepted sequences, writes exactly the UTF-16 form of the characters it
    read, never more units than there is room for, and stops for the reason
    it reports: at the end of the source, in front of a character that does
    not fit, in front of a truncated sequence, or in front of one it does not
    accept. *)
Theorem convertUTF8ToUTF16_correct (source : list Z) (cap : nat) (strict : bool) :
  bytes_ok source ->
  let r := convertUTF8ToUTF16 source cap strict in
  exists ls cs, reads_all ls cs /\ source = ls ++ conv_source r
    /\ conv_target r = utf16s cs /\ (length (conv_target r) <= cap)%nat
    /\ stops (conv_result r) (conv_source r) (cap - length (conv_target r)).
Proof.
  intros Hb. cbn. unfold convertUTF8ToUTF16.
  destruct (utf8_loop_spec (length source) source cap strict Hb ltac:(lia))
    as (ls & cs & H1 & H2 & H3 & H4 & H5).
  exists ls, cs. rewrite H3. by split_and!.
Qed.

(** C37: convertUTF16ToUTF8 reads whole code points, writes exactly their UTF-8
    form within the room it was given, and stops for the reason it reports;
    strict conversion only ever writes scalar values and stops in front of a
    lone surrogate. *)
Theorem convertUTF16ToUTF8_correct (source : list Z) (cap : nat) (strict : bool) :
  units_ok source ->
  let r := convertUTF16ToUTF8 source cap strict in
  exists cs, Forall (codepoint strict) cs /\ source = utf16s cs ++ conv_source r
    /\ conv_target r = utf8s cs /\ (length (conv_target r) <= cap)%nat
    /\ stops16 strict (conv_result r) (conv_source r) (cap - length (conv_target r)).
Proof.
  intros Hu. cbn.
  destruct (convertUTF16ToUTF8_run source cap strict Hu) as (cs & H1 & H2 & H3 & H4 & H5).
  exists cs. rewrite H3. by split_and!.
Qed.

(** *** decodeUTF8Sequence *)

Lemma is_continuation b : is_byte b -> (Z.land b 0xC0 =? 0x80) = ((0x80 <=? b) && (b <? 0xC0)).
Proof.
  intros H. assert (0 <= b < 256) by dlia.
  apply eqb_true_iff.
  apply (range_check 8 (fun b => eqb (Z.land b 0xC0 =? 0x80) ((0x80 <=? b) && (b <? 0xC0))));
    [vm_compute; reflexivity|zpow; lia].
Qed.

Lemma land_ones_mod x k n : 0 <= k -> n = Z.ones k -> Z.land x n = x mod 2 ^ k.
Proof. intros Hk ->. by apply Z.land_ones. Qed.

Lemma low5 b : Z.land b 0x1F = b mod 32.
Proof. by apply (land_ones_mod b 5). Qed.
Lemma low4 b : Z.land b 0xF = b mod 16.
Proof. by apply (land_ones_mod b 4). Qed.
Lemma low3 b : Z.land b 0x7 = b mod 8.
Proof. by apply (land_ones_mod b 3). Qed.
Lemma low6 b : Z.land b 0x3F = b mod 64.
Proof. by apply (land_ones_mod b 6). Qed.

Lemma pack2 x y : Z.lor (Z.shiftl x 6) (y mod 64) = x * 64 + y mod 64.
Proof. rewrite (lor_shiftl_add _ _ 6) by dlia. by zpow. Qed.

Lemma pack3 x y z :
  Z.lor (Z.lor (Z.shiftl x 12) (Z.shiftl (y mod 64) 6)) (z mod 64) =
  x * 4096 + y mod 64 * 64 + z mod 64.
Proof.
  rewrite <- Z.lor_assoc, pack2, (lor_shiftl_add _ _ 12) by dlia. zpow. lia.
Qed.

Lemma pack4 w x y z :
  Z.lor (Z.lor (Z.lor (Z.shiftl w 18) (Z.shiftl (x mod 64) 12)) (Z.shiftl (y mod 64) 6)) (z mod 64) =
  w * 262144 + x mod 64 * 4096 + y mod 64 * 64 + z mod 64.
Proof.
  rewrite <- !Z.lor_assoc, (Z.lor_assoc (Z.shiftl (x mod 64) 12)), pack3,
    (lor_shiftl_add _ _ 18) by dlia. zpow. lia.
Qed.

(** C strings hold no NUL byte. *)
Definition c_string (s : list Z) : Prop := Forall (fun b => 1 <= b < 256) s.

Lemma c_string_at s i : c_string s -> is_byte (at_ s i).
Proof.
  intros H. unfold at_. destruct (s !! i) as [b|] eqn:E; cbn; [|dlia].
  unfold c_string in H. rewrite Forall_lookup in H. specialize (H i b E). dlia.
Qed.

(** The terminator is where the string ends. *)
Lemma c_string_end s i : c_string s -> (at_ s i =? 0) = (length s <=? i)%nat.
Proof.
  intros H. destruct (Nat.leb_spec (length s) i) as [Hge|Hlt].
  - by rewrite at_ge.
  - destruct (lookup_lt_is_Some_2 s i ltac:(lia)) as [b Hb].
    unfold at_. rewrite Hb. cbn. unfold c_string in H. rewrite Forall_lookup in H.
    specialize (H i b Hb). apply Z.eqb_neq. lia.
Qed.

(** The function in arithmetic: masks and shifts gone, terminator tests
    turned into length tests. *)
Definition decode_arith (s : list Z) : Z :=
  let b i := at_ s i in
  let cont i := (0x80 <=? b i) && (b i <? 0xC0) in
  if b 0%nat <? 0x80 then (if (length s <=? 1)%nat then b 0%nat else -1)
  else if (b 0%nat <? 0xC0) || negb (cont 1%nat) then -1
  else if b 0%nat <? 0xE0 then
    let c := b 0%nat mod 32 * 64 + b 1%nat mod 64 in
    if negb (length s <=? 2)%nat || (c <? 0x80) then -1 else c
  else if negb (cont 2%nat) then -1
  else if b 0%nat <? 0xF0 then
    let c := b 0%nat mod 16 * 4096 + b 1%nat mod 64 * 64 + b 2%nat mod 64 in
    if negb (length s <=? 3)%nat || (c <? 0x800) || ((0xD800 <=? c) && (c <=? 0xDFFF)) then -1 else c
  else if negb (cont 3%nat) then -1
  else if b 0%nat <? 0xF8 then
    let c := b 0%nat mod 8 * 262144 + b 1%nat mod 64 * 4096 + b 2%nat mod 64 * 64 + b 3%nat mod 64 in
    if negb (length s <=? 4)%nat || ((c <? 0x10000) || (0x10FFFF <? c)) then -1 else c
  else -1.

Lemma decodeUTF8Sequence_arith s : c_string s -> decodeUTF8Sequence s = decode_arith s.
Proof.
  intros Hs. unfold decodeUTF8Sequence, decode_arith. cbv zeta.
  rewrite !(c_string_end _ _ Hs), !is_continuation, sequence_length_byte
    by (by apply c_string_at).
  rewrite low5, low4, low3, !low6, pack2, pack3, pack4.
  pose proof (c_string_at s 0 Hs) as H0. unfold in_width in H0. zpow.
  destruct (Z.ltb_spec (at_ s 0) 0x80); cbn [Z.eqb Pos.eqb negb orb]; [by destruct (length s <=? 1)%nat|].
  destruct (Z.ltb_spec (at_ s 0) 0xC0); cbn [Z.eqb Pos.eqb negb orb]; [done|].
  destruct (Z.ltb_spec (at_ s 0) 0xE0); cbn [Z.eqb Pos.eqb negb orb]; [|
    destruct (Z.ltb_spec (at_ s 0) 0xF0); cbn [Z.eqb Pos.eqb negb orb]; [|
    destruct (Z.ltb_spec (at_ s 0) 0xF8); cbn [Z.eqb Pos.eqb negb orb]]];
    repeat (casif; cbn [negb orb] in *; try done); bprop; try congruence; try lia.
Qed.

Ltac at_list := unfold at_; cbn [lookup list_lookup default from_option id].

Lemma decode_sound s :
  c_string s -> s <> [] -> decode_arith s <> -1 ->
  scalar (decode_arith s) /\ s = utf8 (decode_arith s).
Proof.
  unfold decode_arith. intros Hs Hne. cbv zeta.
  destruct s as [|b0 [|b1 [|b2 [|b3 [|b4 s]]]]]; [done|..]; cbn [length Nat.leb negb orb]; at_list;
    repeat (casif; try done); cbn [negb orb] in *; try congruence; try discriminate; intros _;
    repeat match goal with H : c_string (_ :: _) |- _ => apply Forall_cons_iff in H as [? H] end;
    (split; [unfold scalar; dlia|unfold utf8, cont; repeat casif; bprop; try (exfalso; dlia);
      repeat f_equal; dlia]).
Qed.

(** Decide each boolean test of the goal by arithmetic. *)
Ltac decide_tests :=
  repeat match goal with
  | |- context [if ?b then _ else _] =>
      first [replace b with true by dlia | replace b with false by dlia]; cbn [negb orb]
  end.

Lemma decode_complete c : scalar c -> decode_arith (utf8 c) = c.
Proof.
  unfold scalar. intros Hc. unfold utf8, cont.
  destruct (Z.ltb_spec c 0x80); [|destruct (Z.ltb_spec c 0x800);
    [|destruct (Z.ltb_spec c 0x10000)]];
    unfold decode_arith; cbv zeta; cbn [length Nat.leb negb orb]; at_list;
    decide_tests; dlia.
Qed.

(** decodeUTF8Sequence accepts a (non-empty) C string exactly when it is
    the encoding of one scalar value, and returns that value; everything else
    gives -1. *)
Theorem decodeUTF8Sequence_exact (s : list Z) (c : Z) :
  c_string s -> s <> [] -> c <> -1 ->
  (decodeUTF8Sequence s = c <-> scalar c /\ s = utf8 c).
Proof.
  intros Hs Hne Hc. rewrite decodeUTF8Sequence_arith by done. split.
  - intros <-. by apply decode_sound.
  - intros [Hsc ->]. by apply decode_complete.
Qed.
End UTF8Props.

(** ** Witnesses and findings *)
Module UTF8Witness.
Import Spec Conv ConvFacts UTF8Props.

Lemma convertUTF8ToUTF16_correct_witness :
  exists ls cs, reads_all ls cs /\
    [0x41; 0xC3; 0xA9; 0xF0; 0x9F] =
      ls ++ conv_source (convertUTF8ToUTF16 [0x41; 0xC3; 0xA9; 0xF0; 0x9F] 9 true) /\
    conv_target (convertUTF8ToUTF16 [0x41; 0xC3; 0xA9; 0xF0; 0x9F] 9 true) = utf16s cs.
Proof.
  destruct (convertUTF8ToUTF16_correct [0x41; 0xC3; 0xA9; 0xF0; 0x9F] 9 true ltac:(by_eval))
    as (ls & cs & H1 & H2 & H3 & _).
  exists ls, cs. by split_and!.
Defined.

Lemma convertUTF16ToUTF8_correct_witness :
  exists cs, Forall (codepoint true) cs /\
    [0x41; 0xD83D; 0xDE00; 0xDC00] =
      utf16s cs ++ conv_source (convertUTF16ToUTF8 [0x41; 0xD83D; 0xDE00; 0xDC00] 12 true).
Proof.
  destruct (convertUTF16ToUTF8_correct [0x41; 0xD83D; 0xDE00; 0xDC00] 12 true ltac:(by_eval))
    as (cs & H1 & H2 & _).
  exists cs. by split.
Defined.

Lemma decodeUTF8Sequence_exact_witness :
  decodeUTF8Sequence [0xE2; 0x82; 0xAC] = 0x20AC <-> scalar 0x20AC /\ [0xE2; 0x82; 0xAC] = utf8 0x20AC.
Proof.
  apply decodeUTF8Sequence_exact; [|done|done].
  unfold c_string. apply (bool_decide_unpack _). vm_compute. exact I.
Defined.

(** ED 41 80 is not UTF-8 (0x41 is no continuation byte), but it is accepted
    and converted to U+C040. *)
Example ill_formed_accepted :
  convertUTF8ToUTF16 [0xED; 0x41; 0x80] 3 true = mkconv conversionOK [] [0xC040].
Proof. reflexivity. Qed.
End UTF8Witness.
