(* ===== verification/StringHash.v ===== *)
(** * String hashes computed from UTF-8 (wtf/StringHasher.h, wtf/unicode/UTF8.cpp)

    [Module Hash] has the hasher and the two functions AtomicString uses to
    look up a UTF-8 buffer without converting it; [Module HashFacts] relates
    them to the UTF-16 string the buffer decodes to. *)
From S2P Require Import Prelude UTF8.

(** ** Hashing and comparing UTF-8 without converting it *)
Module Hash.
Import Spec Conv.

(** *** wtf/StringHasher.h *)
Definition stringHashingStartValue : Z := 0x9e3779b9.

Record hasher := mkhasher {
  m_hash : Z;
  m_hasPendingCharacter : bool;
  m_pendingCharacter : Z
}.

Definition StringHasher : hasher := mkhasher stringHashingStartValue false 0.

Definition addCharactersToHash (m_hash a b : Z) : Z :=
  let m_hash := u32 (m_hash + a) in
  let tmp := Z.lxor (Z.shiftl b 11) m_hash in
  let m_hash := Z.lxor (u32 (Z.shiftl m_hash 16)) tmp in
  u32 (m_hash + Z.shiftr m_hash 11).

Definition addCharacters (h : hasher) (a b : Z) : hasher :=
  mkhasher (addCharactersToHash (m_hash h) a b) (m_hasPendingCharacter h) (m_pendingCharacter h).

Definition addCharacter (h : hasher) (ch : Z) : hasher :=
  if m_hasPendingCharacter h then
    mkhasher (addCharactersToHash (m_hash h) (m_pendingCharacter h) ch) false (m_pendingCharacter h)
  else mkhasher (m_hash h) true ch.

Definition avalancheBits (h : hasher) : Z :=
  let result := m_hash h in
  let result :=
    if m_hasPendingCharacter h then
      let result := u32 (result + m_pendingCharacter h) in
      let result := Z.lxor result (u32 (Z.shiftl result 11)) in
      u32 (result + Z.shiftr result 17)
    else result in
  let result := Z.lxor result (u32 (Z.shiftl result 3)) in
  let result := u32 (result + Z.shiftr result 5) in
  let result := Z.lxor result (u32 (Z.shiftl result 2)) in
  let result := u32 (result + Z.shiftr result 15) in
  Z.lxor result (u32 (Z.shiftl result 10)).

Definition flagCount : Z := 8.

Definition hashWithTop8BitsMasked (h : hasher) : Z :=
  let result := Z.land (avalancheBits h) (Z.shiftl 1 (4 * 8 - flagCount) - 1) in
  if result =? 0 then Z.shiftr 0x80000000 flagCount else result.

(** The hash of a UTF-16 string: characters two by two, then the odd one. *)
Fixpoint hash_pairs (h : hasher) (data : list Z) : hasher :=
  match data with
  | a :: b :: rest => hash_pairs (addCharacters h a b) rest
  | [a] => addCharacter h a
  | [] => h
  end.

Definition computeHashAndMaskTop8Bits (data : list Z) : Z :=
  hashWithTop8BitsMasked (hash_pairs StringHasher data).

(** *** The UTF-8 side (UTF8.cpp) *)

(** [nul] is the mode without [dataEnd]: the data stops at a NUL byte.  The
    result is the hash (0 on malformed input), [dataLength] and [utf16Length]. *)
Fixpoint hash_loop (fuel : nat) (nul : bool) (data : list Z) (h : hasher)
    (dataLength utf16Length : Z) : Z * Z * Z :=
  match fuel, data with
  | _, [] => (hashWithTop8BitsMasked h, dataLength, utf16Length)
  | O, _ => (0, dataLength, utf16Length)
  | S fuel', b :: rest =>
      if nul && (b =? 0) then (hashWithTop8BitsMasked h, dataLength, utf16Length)
      else if isASCII b then
        hash_loop fuel' nul rest (addCharacter h b) (u32 (dataLength + 1)) (u32 (utf16Length + 1))
      else
        let utf8SequenceLength := inlineUTF8SequenceLengthNonASCII b in
        let dataLength := u32 (dataLength + utf8SequenceLength) in
        if (if nul then existsb (fun i => at_ data i =? 0) (seq 1 (Z.to_nat utf8SequenceLength - 1))
            else Z.of_nat (length data) <? utf8SequenceLength)
        then (0, dataLength, utf16Length)
        else if negb (isLegalUTF8 data utf8SequenceLength) then (0, dataLength, utf16Length)
        else
          let character := readUTF8Sequence data utf8SequenceLength in
          let rest := drop (Z.to_nat utf8SequenceLength) data in
          if U_IS_BMP character then
            if U_IS_SURROGATE character then (0, dataLength, utf16Length)
            else hash_loop fuel' nul rest (addCharacter h (u16 character)) dataLength
                   (u32 (utf16Length + 1))
          else if U_IS_SUPPLEMENTARY character then
            hash_loop fuel' nul rest
              (addCharacters h (U16_LEAD character) (U16_TRAIL character)) dataLength
              (u32 (utf16Length + 2))
          else (0, dataLength, utf16Length)
  end.

Definition calculateStringHashAndLengthFromUTF8MaskingTop8Bits (nul : bool) (data : list Z)
    : Z * Z * Z :=
  hash_loop (length data) nul data StringHasher 0 0.

(** Reading [*a++] when [a == aEnd] is a read past the string: [None]. *)
Fixpoint equal_loop (fuel : nat) (a b : list Z) : option bool :=
  match fuel, b with
  | _, [] => Some (bool_decide (a = []))
  | O, _ => Some false
  | S fuel', b0 :: restb =>
      if isASCII b0 then
        match a with
        | [] => None
        | a0 :: resta => if negb (a0 =? b0) then Some false else equal_loop fuel' resta restb
        end
      else
        let utf8SequenceLength := inlineUTF8SequenceLengthNonASCII b0 in
        if Z.of_nat (length b) <? utf8SequenceLength then Some false
        else if negb (isLegalUTF8 b utf8SequenceLength) then Some false
        else
          let character := readUTF8Sequence b utf8SequenceLength in
          let restb := drop (Z.to_nat utf8SequenceLength) b in
          if U_IS_BMP character then
            if U_IS_SURROGATE character then Some false
            else match a with
                 | [] => None
                 | a0 :: resta =>
                     if negb (a0 =? character) then Some false else equal_loop fuel' resta restb
                 end
          else if U_IS_SUPPLEMENTARY character then
            match a with
            | [] => None
            | a0 :: resta =>
                if negb (a0 =? U16_LEAD character) then Some false
                else match resta with
                     | [] => None
                     | a1 :: resta' =>
                         if negb (a1 =? U16_TRAIL character) then Some false
                         else equal_loop fuel' resta' restb
                     end
            end
          else Some false
  end.

Definition equalUTF16WithUTF8 (a b : list Z) : option bool := equal_loop (length b) a b.
End Hash.

(** ** Facts about hashing and comparing *)
Module HashFacts.
Import Spec Conv ConvFacts Hash.

(** Two hashers that will produce the same hashes: a pending character that
    is not flagged is dead. *)
Definition hasher_equiv (h1 h2 : hasher) : Prop :=
  m_hash h1 = m_hash h2 /\ m_hasPendingCharacter h1 = m_hasPendingCharacter h2 /\
  (m_hasPendingCharacter h1 = true -> m_pendingCharacter h1 = m_pendingCharacter h2).

#[global] Instance hasher_equiv_equivalence : Equivalence hasher_equiv.
Proof.
  split.
  - by intros h.
  - intros h1 h2 (H1 & H2 & H3). split_and!; [done..|]. intros. symmetry. apply H3. congruence.
  - intros h1 h2 h3 (H1 & H2 & H3) (H4 & H5 & H6).
    split_and!; [congruence..|]. intros H. rewrite H3 by done. apply H6. congruence.
Qed.

#[global] Instance addCharacter_proper :
  Proper (hasher_equiv ==> eq ==> hasher_equiv) addCharacter.
Proof.
  intros h1 h2 (H1 & H2 & H3) c ? <-. unfold addCharacter. rewrite <- H2.
  destruct (m_hasPendingCharacter h1) eqn:E; split_and!; cbn; try done.
  by rewrite H1, H3.
Qed.

#[global] Instance addCharacters_proper :
  Proper (hasher_equiv ==> eq ==> eq ==> hasher_equiv) addCharacters.
Proof.
  intros h1 h2 (H1 & H2 & H3) a ? <- b ? <-. split_and!; cbn; [by rewrite H1|done..].
Qed.

#[global] Instance hashWithTop8BitsMasked_proper :
  Proper (hasher_equiv ==> eq) hashWithTop8BitsMasked.
Proof.
  intros h1 h2 (H1 & H2 & H3). unfold hashWithTop8BitsMasked, avalancheBits.
  rewrite <- H1, <- H2. destruct (m_hasPendingCharacter h1); [|done]. by rewrite H3.
Qed.

(** Without a pending character, a pair is two single characters. *)
Lemma addCharacters_two h a b :
  m_hasPendingCharacter h = false ->
  hasher_equiv (addCharacters h a b) (addCharacter (addCharacter h a) b).
Proof.
  intros H. unfold addCharacters, addCharacter. rewrite H. split_and!; cbn; congruence.
Qed.

Definition addAll (h : hasher) (us : list Z) : hasher := fold_left addCharacter us h.

#[global] Instance addAll_proper : Proper (hasher_equiv ==> eq ==> hasher_equiv) addAll.
Proof.
  intros h1 h2 H us ? <-. revert h1 h2 H.
  induction us as [|u us IH]; intros h1 h2 H; [done|]. cbn. apply IH. by rewrite H.
Qed.

Lemma hash_pairs_addAll us h :
  m_hasPendingCharacter h = false -> hasher_equiv (hash_pairs h us) (addAll h us).
Proof.
  remember (length us) as n eqn:Hn. revert us h Hn.
  induction n as [n IH] using lt_wf_ind. intros us h -> Hp.
  destruct us as [|a [|b us]]; [done..|]. cbn [hash_pairs].
  rewrite (IH (length us)) by (simpl; (lia || done)).
  cbn [addAll fold_left]. by rewrite addCharacters_two.
Qed.

(** Supplementary characters must find no pending character. *)
Fixpoint aligned (pending : bool) (cs : list Z) : Prop :=
  match cs with
  | [] => True
  | c :: cs' => if c <? 0x10000 then aligned (negb pending) cs'
                else pending = false /\ aligned pending cs'
  end.

(** The hasher after one character. *)
Definition addChar (h : hasher) (c : Z) : hasher :=
  if c <? 0x10000 then addCharacter h c else addCharacters h (U16_LEAD c) (U16_TRAIL c).

(** One iteration over an accepted sequence. *)
Lemma hash_loop_reads fuel nul l c rest h dl ul :
  reads l c -> (nul = true -> Forall (fun b => b <> 0) l) ->
  hash_loop (S fuel) nul (l ++ rest) h dl ul =
    hash_loop fuel nul rest (addChar h c) (u32 (dl + Z.of_nat (length l)))
      (u32 (ul + Z.of_nat (length (utf16 c)))).
Proof.
  intros H Hnul. pose proof (reads_scalar l c H) as Hc.
  destruct (reads_legal l c rest H) as (Hn & Hl & Hr).
  destruct l as [|b l']; [apply reads_length in H; simpl in H; lia|].
  assert (nul && (b =? 0) = false) as Hb.
  { destruct nul; [|done]. specialize (Hnul eq_refl). apply Forall_cons_iff in Hnul as [Hb _].
    cbn. by apply Z.eqb_neq. }
  change (at_ ((b :: l') ++ rest) 0) with b in Hn.
  unfold inlineUTF8SequenceLength in Hn.
  cbn [hash_loop app]. rewrite Hb. destruct (isASCII b) eqn:Ha.
  - destruct l'; [|simpl in Hn; lia]. cbn [app length] in *. rewrite read1 in Hr. subst c.
    unfold addChar, utf16. unfold isASCII in Ha. bprop.
    destruct (Z.ltb_spec b 0x10000); [done|lia].
  - change (b :: l' ++ rest) with ((b :: l') ++ rest). rewrite Hn, Hl, Hr.
    assert ((if nul then existsb (fun i => at_ ((b :: l') ++ rest) i =? 0)
               (seq 1 (Z.to_nat (Z.of_nat (length (b :: l'))) - 1))
             else Z.of_nat (length ((b :: l') ++ rest)) <? Z.of_nat (length (b :: l'))) = false) as ->.
    { destruct nul.
      - apply not_true_is_false. rewrite existsb_exists. intros (i & Hi & Hz).
        apply in_seq in Hi. rewrite Nat2Z.id in Hi. specialize (Hnul eq_refl).
        apply Z.eqb_eq in Hz. unfold at_ in Hz. rewrite lookup_app_l in Hz by lia.
        destruct ((b :: l') !! i) eqn:E.
        + rewrite Forall_lookup in Hnul. by apply (Hnul i z).
        + apply lookup_ge_None in E. lia.
      - apply Z.ltb_ge. rewrite length_app. lia. }
    rewrite Nat2Z.id, drop_app_length. cbn [negb].
    unfold scalar in Hc. unfold U_IS_BMP, U_IS_SUPPLEMENTARY, addChar, utf16.
    destruct (Z.ltb_spec c 0x10000).
    + rewrite surrogate_test by lia. zbool; try lia;
        cbn [length]; by replace (u16 c) with c by dlia.
    + zbool; try lia; done.
Qed.

Lemma addChar_addAll h c :
  0 <= c < 0x110000 -> (0x10000 <= c -> m_hasPendingCharacter h = false) ->
  hasher_equiv (addChar h c) (addAll h (utf16 c)).
Proof.
  intros Hc Hp. unfold addChar, utf16. destruct (Z.ltb_spec c 0x10000); [done|].
  cbn [addAll fold_left]. rewrite <- lead_value, <- trail_value by lia.
  apply addCharacters_two. auto.
Qed.

Lemma addChar_pending h c :
  m_hasPendingCharacter (addChar h c) =
    if c <? 0x10000 then negb (m_hasPendingCharacter h) else m_hasPendingCharacter h.
Proof.
  unfold addChar, addCharacter, addCharacters.
  destruct (c <? 0x10000); [|done]. by destruct (m_hasPendingCharacter h).
Qed.

Lemma addAll_app h us vs : addAll h (us ++ vs) = addAll (addAll h us) vs.
Proof. apply fold_left_app. Qed.

Lemma u32_add_u32 a b : u32 (u32 a + b) = u32 (a + b).
Proof. unfold wrapN. apply Z.add_mod_idemp_l. lia. Qed.

Lemma hash_loop_ok nul ls cs h fuel dl ul :
  reads_all ls cs -> (nul = true -> Forall (fun b => b <> 0) ls) ->
  aligned (m_hasPendingCharacter h) cs -> (length ls <= fuel)%nat ->
  is_u32 dl -> is_u32 ul ->
  hash_loop fuel nul ls h dl ul =
    (hashWithTop8BitsMasked (addAll h (utf16s cs)),
     u32 (dl + Z.of_nat (length ls)), u32 (ul + Z.of_nat (length (utf16s cs)))).
Proof.
  intros H. revert h fuel dl ul.
  induction H as [|l c ls cs Hr _ IH]; intros h fuel dl ul Hnul Hal Hf Hdl Hul.
  { assert (hash_loop fuel nul [] h dl ul = (hashWithTop8BitsMasked h, dl, ul)) as ->
      by (by destruct fuel). cbn [length utf16s addAll fold_left mjoin fmap]. cbn.
    f_equal; [f_equal|]; dlia. }
  pose proof (reads_length l c Hr) as Hlen. rewrite length_app in Hf.
  assert (nul = true -> Forall (fun b => b <> 0) l) as Hnl
    by (intros E; specialize (Hnul E); by apply Forall_app in Hnul as [? _]).
  assert (nul = true -> Forall (fun b => b <> 0) ls) as Hnls
    by (intros E; specialize (Hnul E); by apply Forall_app in Hnul as [_ ?]).
  destruct fuel as [|fuel]; [lia|].
  rewrite (hash_loop_reads fuel nul l c ls h dl ul Hr Hnl).
  pose proof (reads_scalar l c Hr) as Hc. unfold scalar in Hc.
  cbn [aligned] in Hal.
  rewrite IH; [..|done| |lia|dlia|dlia].
  - rewrite utf16s_cons, addAll_app, !length_app, !u32_add_u32, !Nat2Z.inj_add, !Z.add_assoc.
    f_equal; f_equal. rewrite addChar_addAll; [done|lia|].
    intros Hbig. destruct (Z.ltb_spec c 0x10000); [lia|]. tauto.
  - rewrite addChar_pending. destruct (c <? 0x10000); [done|]. tauto.
Qed.

(** Data that is not a sequence of accepted sequences hashes to 0. *)
Lemma hash_loop_bad data h fuel dl ul :
  bytes_ok data -> (forall cs, ~ reads_all data cs) -> (length data <= fuel)%nat ->
  (hash_loop fuel false data h dl ul).1.1 = 0.
Proof.
  revert data h dl ul. induction fuel as [|fuel IH]; intros data h dl ul Hb Hno Hf.
  { destruct data; [|simpl in Hf; lia]. destruct (Hno []). constructor. }
  destruct data as [|b rest0] eqn:Ed; [destruct (Hno []); constructor|]. rewrite <- Ed in *.
  destruct (utf8_step_cases data 2 false Hb ltac:(by subst)) as [(l & c & rest & Hr & E)|[Hnr Hstep]].
  - rewrite E in *. rewrite (hash_loop_reads fuel false l c rest h dl ul Hr) by done.
    apply bytes_ok_app in Hb as [_ Hb]. pose proof (reads_length l c Hr). rewrite length_app in Hf.
    apply IH; [done| |lia]. intros cs Hcs. apply (Hno (c :: cs)). by constructor.
  - set (n := inlineUTF8SequenceLength (at_ data 0)) in *.
    assert (Z.of_nat (length data) < n \/ isLegalUTF8 data n = false) as Hbad.
    { destruct (Z.ltb_spec (Z.of_nat (length data)) n) as [|Hge]; [by left|right].
      apply not_true_is_false. intros Hl.
      apply (Hnr _ _ (drop (Z.to_nat n) data) (legal_inv data n Hb eq_refl Hge Hl)).
      symmetry. apply take_drop. }
    destruct (isASCII b) eqn:Ha.
    + exfalso. assert (reads [b] b) as Hr.
      { unfold isASCII in Ha. bprop. rewrite Ed in Hb. apply bytes_ok_cons in Hb as [Hb _].
        unfold in_width in Hb. replace [b] with (utf8 b).
        - constructor. unfold scalar. lia.
        - unfold utf8. casif; bprop; [done|lia]. }
      by apply (Hnr [b] b rest0 Hr).
    + assert (n = inlineUTF8SequenceLengthNonASCII b) as Hn.
      { unfold n. rewrite Ed. unfold inlineUTF8SequenceLength.
        change (at_ (b :: rest0) 0) with b. by rewrite Ha. }
      rewrite Ed. cbn [hash_loop andb]. rewrite Ha, <- Ed, <- Hn.
      destruct (Z.ltb_spec (Z.of_nat (length data)) n); [done|].
      destruct Hbad as [|Hbad]; [lia|]. by rewrite Hbad.
Qed.

(** Comparing [a] with [u] one unit at a time, as [*a++ != x] does: [None]
    when [a] ends first. *)
Fixpoint compare_units (a u : list Z) {struct u} : option bool :=
  match u, a with
  | [], _ => Some (bool_decide (a = []))
  | _ :: _, [] => None
  | y :: u', x :: a' => if negb (x =? y) then Some false else compare_units a' u'
  end.

Lemma compare_units_same_length a u :
  length a = length u -> compare_units a u = Some (bool_decide (a = u)).
Proof.
  revert a. induction u as [|y u IH]; intros [|x a] Hl; simpl in *; try lia; [done|].
  destruct (Z.eqb_spec x y) as [->|Hne]; simpl.
  - rewrite IH by lia. f_equal. apply bool_decide_ext. split; [congruence|by intros [=]].
  - rewrite bool_decide_eq_false_2; [done|congruence].
Qed.

Lemma equal_loop_reads fuel a l c rest u :
  reads l c ->
  (forall a', equal_loop fuel a' rest = compare_units a' u) ->
  equal_loop (S fuel) a (l ++ rest) = compare_units a (utf16 c ++ u).
Proof.
  intros H Hrest. pose proof (reads_scalar l c H) as Hc.
  destruct (reads_legal l c rest H) as (Hn & Hl & Hr).
  destruct l as [|b l']; [apply reads_length in H; simpl in H; lia|].
  change (at_ ((b :: l') ++ rest) 0) with b in Hn.
  unfold inlineUTF8SequenceLength in Hn. unfold scalar in Hc.
  cbn [equal_loop app]. destruct (isASCII b) eqn:Ha.
  - destruct l'; [|simpl in Hn; lia]. cbn [app length] in *. rewrite read1 in Hr. subst c.
    unfold isASCII in Ha. bprop. unfold utf16. casif; bprop; [|lia].
    cbn [app compare_units]. destruct a as [|a0 a]; cbn [compare_units]; [done|].
    destruct (negb (a0 =? b)); [done|apply Hrest].
  - change (b :: l' ++ rest) with ((b :: l') ++ rest). rewrite Hn, Hl, Hr.
    destruct (Z.ltb_spec (Z.of_nat (length ((b :: l') ++ rest))) (Z.of_nat (length (b :: l'))));
      [rewrite length_app in *; lia|].
    rewrite Nat2Z.id, drop_app_length. cbn [negb].
    unfold U_IS_BMP, U_IS_SUPPLEMENTARY, utf16.
    destruct (Z.ltb_spec c 0x10000).
    + rewrite surrogate_test by lia.
      replace (c <=? 65535) with true by lia.
      replace ((55296 <=? c) && (c <? 57344)) with false by lia.
      cbn [app compare_units]. destruct a as [|a0 a]; cbn [compare_units]; [done|].
      destruct (negb (a0 =? c)); [done|apply Hrest].
    + replace (c <=? 65535) with false by lia.
      replace (c - 65536 <=? 1048575) with true by lia.
      rewrite lead_value, trail_value by lia.
      cbn [app compare_units]. destruct a as [|a0 a]; cbn [compare_units]; [done|].
      destruct (negb (a0 =? _)); [done|]. destruct a as [|a1 a]; cbn [compare_units]; [done|].
      destruct (negb (a1 =? _)); [done|apply Hrest].
Qed.

Lemma equal_loop_ok b cs fuel a :
  reads_all b cs -> (length b <= fuel)%nat ->
  equal_loop fuel a b = compare_units a (utf16s cs).
Proof.
  intros H. revert fuel a. induction H as [|l c ls cs Hr _ IH]; intros fuel a Hf.
  { by destruct fuel, a. }
  pose proof (reads_length l c Hr). rewrite length_app in Hf. destruct fuel as [|fuel]; [lia|].
  rewrite utf16s_cons. apply equal_loop_reads; [done|]. intros a'. apply IH. lia.
Qed.

(** ** Properties *)

(** C32: on well-formed data whose supplementary characters do not follow a
    pending character, the hash computed straight from UTF-8 is the hash of
    the UTF-16 string the data decodes to, and the two reported lengths are
    its byte and code-unit counts; on data with a malformed sequence the
    reported hash is 0 (which no string hash is). *)
Theorem hash_of_utf8 (data : list Z) :
  bytes_ok data -> Z.of_nat (length data) < 2 ^ 32 ->
  (forall cs, reads_all data cs -> aligned false cs ->
     calculateStringHashAndLengthFromUTF8MaskingTop8Bits false data =
       (computeHashAndMaskTop8Bits (utf16s cs),
        Z.of_nat (length data), Z.of_nat (length (utf16s cs)))) /\
  ((forall cs, ~ reads_all data cs) ->
     (calculateStringHashAndLengthFromUTF8MaskingTop8Bits false data).1.1 = 0) /\
  (forall us, computeHashAndMaskTop8Bits us <> 0).
Proof.
  intros Hb Hlen. unfold calculateStringHashAndLengthFromUTF8MaskingTop8Bits. split_and!.
  - intros cs Hr Hal. rewrite (hash_loop_ok false data cs StringHasher _ 0 0 Hr)
      by (done || dlia).
    pose proof (reads_all_utf16_le data cs Hr).
    unfold computeHashAndMaskTop8Bits.
    rewrite (hash_pairs_addAll (utf16s cs) StringHasher) by reflexivity.
    f_equal; [f_equal|]; dlia.
  - intros Hno. by apply hash_loop_bad.
  - intros us. unfold computeHashAndMaskTop8Bits, hashWithTop8BitsMasked.
    casif; bprop; [done|done].
Qed.

(** C33: for a buffer of the length the hash reported, the comparison never
    reads past the string and decides equality with the decoded buffer. *)
Theorem equalUTF16WithUTF8_correct (a b cs : list Z) :
  reads_all b cs -> length a = length (utf16s cs) ->
  equalUTF16WithUTF8 a b = Some (bool_decide (a = utf16s cs)).
Proof.
  intros Hr Hl. unfold equalUTF16WithUTF8.
  rewrite (equal_loop_ok b cs) by (done || lia). by apply compare_units_same_length.
Qed.
End HashFacts.

(** ** Witnesses and findings *)
Module HashWitness.
Import Spec Conv ConvFacts Hash HashFacts.

(** U+00E9, a supplementary character at an even offset, then a letter. *)
Definition sample : list Z := [0xE9; 0x41; 0x1F600; 0x42].

Lemma sample_reads : reads_all (utf8s sample) sample.
Proof. apply reads_all_utf8s. repeat constructor; unfold scalar; lia. Defined.

Lemma hash_of_utf8_witness :
  calculateStringHashAndLengthFromUTF8MaskingTop8Bits false (utf8s sample) =
    (computeHashAndMaskTop8Bits (utf16s sample), 8, 5).
Proof.
  destruct (hash_of_utf8 (utf8s sample)) as [H _].
  - by_eval.
  - vm_compute. reflexivity.
  - apply (H sample sample_reads). vm_compute. repeat split.
Defined.

Lemma equalUTF16WithUTF8_correct_witness :
  equalUTF16WithUTF8 (utf16s sample) (utf8s sample) = Some true.
Proof.
  by rewrite (equalUTF16WithUTF8_correct (utf16s sample) _ sample sample_reads eq_refl).
Defined.

(** A supplementary character at an odd offset bypasses the pending
    character: the UTF-8 hash of "aU+10000" is not the hash of the string. *)
Example hash_mismatch :
  (calculateStringHashAndLengthFromUTF8MaskingTop8Bits false (utf8s [0x61; 0x10000])).1.1
    <> computeHashAndMaskTop8Bits (utf16s [0x61; 0x10000]).
Proof. vm_compute. discriminate. Qed.

(** A string shorter than the buffer is read past its end. *)
Example equal_reads_past_end : equalUTF16WithUTF8 [0x61] (utf8s [0x61; 0x62]) = None.
Proof. reflexivity. Qed.
End HashWitness.
