(* ===== verification/BlockHash.v ===== *)
(** * Block hashes: what MD5 and SHA-1 share

    A message is absorbed 64 bytes at a time by a compression function; the
    last block is padded with 0x80, zeros and an 8-byte length.  The section is
    parametric in the compression function; MD5.v and SHA1.v instantiate it to
    state what their streaming code must compute. *)
From S2P Require Import Prelude.

(** Little- and big-endian bytes of a word. *)
Fixpoint le_bytes (n : nat) (x : Z) : list Z :=
  match n with O => [] | S n' => u8 x :: le_bytes n' (Z.shiftr x 8) end.

Definition be_bytes (n : nat) (x : Z) : list Z := rev (le_bytes n x).

(** A little-endian 32-bit word at a byte offset. *)
Definition le_word (buf : list Z) (i : nat) : Z :=
  Z.lor (Z.lor (Z.lor (at_ buf (4 * i)) (Z.shiftl (at_ buf (4 * i + 1)) 8))
               (Z.shiftl (at_ buf (4 * i + 2)) 16)) (Z.shiftl (at_ buf (4 * i + 3)) 24).

(** The ones' complement of a [uint32_t]. *)
Definition not32 (x : Z) : Z := u32 (Z.lnot x).

Lemma length_le_bytes n x : length (le_bytes n x) = n.
Proof. revert x. induction n; intros; simpl; auto. Qed.

Lemma length_be_bytes n x : length (be_bytes n x) = n.
Proof. unfold be_bytes. by rewrite length_rev, length_le_bytes. Qed.

Lemma le_bytes_ok n x : bytes_ok (le_bytes n x).
Proof.
  revert x. induction n as [|n IH]; intros x; [constructor|].
  apply bytes_ok_cons. split; [dlia|apply IH].
Qed.

Lemma le_bytes_mod n x : le_bytes n (x mod 2 ^ (8 * Z.of_nat n)) = le_bytes n x.
Proof.
  revert x. induction n as [|n IH]; intros x; [done|].
  assert (0 < 2 ^ (8 * Z.of_nat n)) by (apply Z.pow_pos_nonneg; lia).
  replace (2 ^ (8 * Z.of_nat (S n))) with (2 ^ 8 * 2 ^ (8 * Z.of_nat n))
    by (rewrite <- Z.pow_add_r by lia; f_equal; lia).
  cbn [le_bytes]. f_equal.
  - unfold wrapN. rewrite Z.rem_mul_r by (zpow; lia).
    by rewrite (Z.mul_comm (2 ^ 8)), Z.mod_add, Z.mod_mod by (zpow; lia).
  - rewrite <- (IH (Z.shiftr x 8)), !Z.shiftr_div_pow2 by lia. f_equal.
    rewrite Z.rem_mul_r by (zpow; lia).
    rewrite Z.add_comm, (Z.mul_comm (2 ^ 8)), Z.div_add_l by (zpow; lia).
    rewrite (Z.div_small (x mod 2 ^ 8)) by (apply Z.mod_pos_bound; zpow; lia). lia.
Qed.

Section BlockHash.
Context {St : Type} (compress : St -> list Z -> St).

(** Absorb [n] blocks from the front of [l]. *)
Fixpoint absorb (n : nat) (s : St) (l : list Z) : St :=
  match n with
  | O => s
  | S n' => absorb n' (compress s (take 64 l)) (drop 64 l)
  end.

Definition nblocks (l : list Z) : nat := length l / 64.
Definition run (s : St) (l : list Z) : St := absorb (nblocks l) s l.

(** The bytes that do not fill a block. *)
Definition pending (l : list Z) : list Z := drop (64 * nblocks l) l.

Lemma length_pending l : length (pending l) = (length l mod 64)%nat.
Proof.
  unfold pending, nblocks. rewrite length_drop.
  pose proof (Nat.div_mod_eq (length l) 64). lia.
Qed.

Lemma pending_lt l : (length (pending l) < 64)%nat.
Proof. rewrite length_pending. apply Nat.mod_upper_bound. lia. Qed.

Lemma absorb_app n s l1 l2 :
  length l1 = (64 * n)%nat -> forall m, absorb (n + m) s (l1 ++ l2) = absorb m (absorb n s l1) l2.
Proof.
  revert s l1. induction n as [|n IH]; intros s l1 Hl m.
  { destruct l1; [done|simpl in Hl; lia]. }
  cbn [absorb Nat.add]. rewrite take_app_le, drop_app_le by lia.
  apply IH. rewrite length_drop. lia.
Qed.

Lemma nblocks_prefix n l1 l2 :
  length l1 = (64 * n)%nat -> nblocks (l1 ++ l2) = (n + nblocks l2)%nat.
Proof.
  intros H. unfold nblocks. by rewrite length_app, H, Nat.mul_comm, Nat.div_add_l by lia.
Qed.

Lemma run_prefix n s l1 l2 :
  length l1 = (64 * n)%nat -> run s (l1 ++ l2) = run (absorb n s l1) l2.
Proof. intros H. unfold run. by rewrite (nblocks_prefix n), absorb_app. Qed.

Lemma pending_prefix n l1 l2 :
  length l1 = (64 * n)%nat -> pending (l1 ++ l2) = pending l2.
Proof.
  intros H. unfold pending. rewrite (nblocks_prefix n), drop_app_ge by (done || lia).
  f_equal. lia.
Qed.

Lemma split_blocks l :
  exists p, l = p ++ pending l /\ length p = (64 * nblocks l)%nat.
Proof.
  exists (take (64 * nblocks l) l). split; [unfold pending; by rewrite take_drop|].
  rewrite length_take. unfold nblocks. pose proof (Nat.div_mod_eq (length l) 64). lia.
Qed.

Lemma run_short s l : (length l < 64)%nat -> run s l = s.
Proof. intros H. unfold run, nblocks. by rewrite Nat.div_small. Qed.

(** A prefix can be absorbed first; what it leaves pending comes next. *)
Lemma run_app s l1 l2 : run s (l1 ++ l2) = run (run s l1) (pending l1 ++ l2).
Proof.
  destruct (split_blocks l1) as (p & E & Hp).
  pose proof (pending_lt l1) as Hlt. revert E Hlt. generalize (pending l1) as r.
  intros r E Hlt. subst l1.
  by rewrite <- app_assoc, !(run_prefix _ s p _ Hp), (run_short _ r).
Qed.

Lemma pending_app l1 l2 : pending (l1 ++ l2) = pending (pending l1 ++ l2).
Proof.
  destruct (split_blocks l1) as (p & E & Hp). revert E. generalize (pending l1) as r.
  intros r E. subst l1. by rewrite <- app_assoc, (pending_prefix _ p _ Hp).
Qed.

Lemma run_block s b : length b = 64%nat -> run s b = compress s b.
Proof. intros H. unfold run, nblocks. rewrite H.
  transitivity (compress s (take 64 b)); [reflexivity|]. by rewrite take_ge by lia.
Qed.

Lemma run_block_app s b l : length b = 64%nat -> run s (b ++ l) = run (compress s b) l.
Proof.
  intros H. rewrite (run_prefix 1) by lia.
  transitivity (run (compress s (take 64 b)) l); [reflexivity|]. by rewrite take_ge by lia.
Qed.

Lemma pending_block_app b l : length b = 64%nat -> pending (b ++ l) = pending l.
Proof.
  intros H. apply (pending_prefix 1). lia.
Qed.

Lemma pending_short l : (length l < 64)%nat -> pending l = l.
Proof. intros H. unfold pending, nblocks. by rewrite Nat.div_small. Qed.

(** *** Padding *)

(** 0x80, then zeros up to 56 modulo 64, then the encoded length. *)
Definition padding (len : nat) (enc : list Z) : list Z :=
  0x80 :: replicate ((119 - len mod 64) mod 64) 0 ++ enc.

(** The reference hash state of a message. *)
Definition hash_state (iv : St) (msg enc : list Z) : St := run iv (msg ++ padding (length msg) enc).

(** What remains to do once the full blocks have been absorbed. *)
Lemma hash_state_final iv msg enc :
  length enc = 8%nat ->
  let r := pending msg in
  hash_state iv msg enc =
    if (length r <? 56)%nat
    then compress (run iv msg) (r ++ [0x80] ++ replicate (55 - length r) 0 ++ enc)
    else compress (compress (run iv msg) (r ++ [0x80] ++ replicate (63 - length r) 0))
           (replicate 56 0 ++ enc).
Proof.
  intros He r. unfold hash_state. rewrite run_app.
  pose proof (pending_lt msg) as Hlt. fold r in Hlt |- *.
  unfold padding. rewrite <- length_pending. fold r.
  destruct (Nat.ltb_spec (length r) 56) as [H|H].
  - replace ((119 - length r) mod 64)%nat with (55 - length r)%nat
      by (rewrite <- (Nat.mod_small (55 - length r) 64), <- (Nat.Div0.mod_add _ 1 64) by lia; f_equal; lia).
    apply run_block. simpl. rewrite !length_app. simpl. rewrite length_app, length_replicate. lia.
  - replace ((119 - length r) mod 64)%nat with ((63 - length r) + 56)%nat
      by (symmetry; rewrite Nat.mod_small; lia).
    rewrite replicate_add.
    replace (r ++ 0x80 :: (replicate (63 - length r) 0 ++ replicate 56 0) ++ enc)
      with ((r ++ [0x80] ++ replicate (63 - length r) 0) ++ replicate 56 0 ++ enc)
      by (rewrite <- !app_assoc; done).
    rewrite run_block_app by (rewrite !length_app, length_replicate; simpl; lia).
    apply run_block. rewrite length_app, length_replicate. lia.
Qed.
End BlockHash.
