(* ===== verification/MD5.v ===== *)
(** * MD5 (WTF/MD5.cpp)

    The digest of the HTTP cache file names, SSL certificate identifiers and
    storage names.  [Code] translates the streaming class, [RFC1321] is the
    reference it must compute, and [MD5Props] shows they agree on any sequence
    of [addBytes] calls. *)
From S2P Require Import Prelude BlockHash.

Module Code.

(** ** The four core functions and the central step *)

Definition F1 (x y z : Z) : Z := Z.lxor z (Z.land x (Z.lxor y z)).
Definition F2 (x y z : Z) : Z := F1 z x y.
Definition F3 (x y z : Z) : Z := Z.lxor (Z.lxor x y) z.
Definition F4 (x y z : Z) : Z := Z.lxor y (Z.lor x (not32 z)).

(** The four local registers of the transform. *)
Inductive reg := ra | rb | rc | rd.
Record regs := Regs { a_ : Z; b_ : Z; c_ : Z; d_ : Z }.

Definition get (r : reg) (s : regs) : Z :=
  match r with ra => a_ s | rb => b_ s | rc => c_ s | rd => d_ s end.

Definition set (r : reg) (v : Z) (s : regs) : regs :=
  match r with
  | ra => Regs v (b_ s) (c_ s) (d_ s)
  | rb => Regs (a_ s) v (c_ s) (d_ s)
  | rc => Regs (a_ s) (b_ s) v (d_ s)
  | rd => Regs (a_ s) (b_ s) (c_ s) v
  end.

(** [MD5STEP(f, w, x, y, z, in[k] + t, s)]. *)
Inductive instr :=
  MD5STEP (f : Z -> Z -> Z -> Z) (w x y z : reg) (k : nat) (t s : Z).

Definition rotl32 (s w : Z) : Z := Z.lor (u32 (Z.shiftl w s)) (Z.shiftr w (32 - s)).

Definition exec (inw : nat -> Z) (r : regs) (i : instr) : regs :=
  match i with
  | MD5STEP f w x y z k t s =>
      let data := u32 (inw k + t) in
      let v := u32 (get w r + u32 (f (get x r) (get y r) (get z r) + data)) in
      let v := rotl32 s v in
      set w (u32 (v + get x r)) r
  end.

(** The 64 statements of the transform, as written. *)
Definition MD5Transform_steps : list instr :=
  [
    MD5STEP F1 ra rb rc rd  0 0xd76aa478  7;
    MD5STEP F1 rd ra rb rc  1 0xe8c7b756 12;
    MD5STEP F1 rc rd ra rb  2 0x242070db 17;
    MD5STEP F1 rb rc rd ra  3 0xc1bdceee 22;
    MD5STEP F1 ra rb rc rd  4 0xf57c0faf  7;
    MD5STEP F1 rd ra rb rc  5 0x4787c62a 12;
    MD5STEP F1 rc rd ra rb  6 0xa8304613 17;
    MD5STEP F1 rb rc rd ra  7 0xfd469501 22;
    MD5STEP F1 ra rb rc rd  8 0x698098d8  7;
    MD5STEP F1 rd ra rb rc  9 0x8b44f7af 12;
    MD5STEP F1 rc rd ra rb 10 0xffff5bb1 17;
    MD5STEP F1 rb rc rd ra 11 0x895cd7be 22;
    MD5STEP F1 ra rb rc rd 12 0x6b901122  7;
    MD5STEP F1 rd ra rb rc 13 0xfd987193 12;
    MD5STEP F1 rc rd ra rb 14 0xa679438e 17;
    MD5STEP F1 rb rc rd ra 15 0x49b40821 22;
    MD5STEP F2 ra rb rc rd  1 0xf61e2562  5;
    MD5STEP F2 rd ra rb rc  6 0xc040b340  9;
    MD5STEP F2 rc rd ra rb 11 0x265e5a51 14;
    MD5STEP F2 rb rc rd ra  0 0xe9b6c7aa 20;
    MD5STEP F2 ra rb rc rd  5 0xd62f105d  5;
    MD5STEP F2 rd ra rb rc 10 0x02441453  9;
    MD5STEP F2 rc rd ra rb 15 0xd8a1e681 14;
    MD5STEP F2 rb rc rd ra  4 0xe7d3fbc8 20;
    MD5STEP F2 ra rb rc rd  9 0x21e1cde6  5;
    MD5STEP F2 rd ra rb rc 14 0xc33707d6  9;
    MD5STEP F2 rc rd ra rb  3 0xf4d50d87 14;
    MD5STEP F2 rb rc rd ra  8 0x455a14ed 20;
    MD5STEP F2 ra rb rc rd 13 0xa9e3e905  5;
    MD5STEP F2 rd ra rb rc  2 0xfcefa3f8  9;
    MD5STEP F2 rc rd ra rb  7 0x676f02d9 14;
    MD5STEP F2 rb rc rd ra 12 0x8d2a4c8a 20;
    MD5STEP F3 ra rb rc rd  5 0xfffa3942  4;
    MD5STEP F3 rd ra rb rc  8 0x8771f681 11;
    MD5STEP F3 rc rd ra rb 11 0x6d9d6122 16;
    MD5STEP F3 rb rc rd ra 14 0xfde5380c 23;
    MD5STEP F3 ra rb rc rd  1 0xa4beea44  4;
    MD5STEP F3 rd ra rb rc  4 0x4bdecfa9 11;
    MD5STEP F3 rc rd ra rb  7 0xf6bb4b60 16;
    MD5STEP F3 rb rc rd ra 10 0xbebfbc70 23;
    MD5STEP F3 ra rb rc rd 13 0x289b7ec6  4;
    MD5STEP F3 rd ra rb rc  0 0xeaa127fa 11;
    MD5STEP F3 rc rd ra rb  3 0xd4ef3085 16;
    MD5STEP F3 rb rc rd ra  6 0x04881d05 23;
    MD5STEP F3 ra rb rc rd  9 0xd9d4d039  4;
    MD5STEP F3 rd ra rb rc 12 0xe6db99e5 11;
    MD5STEP F3 rc rd ra rb 15 0x1fa27cf8 16;
    MD5STEP F3 rb rc rd ra  2 0xc4ac5665 23;
    MD5STEP F4 ra rb rc rd  0 0xf4292244  6;
    MD5STEP F4 rd ra rb rc  7 0x432aff97 10;
    MD5STEP F4 rc rd ra rb 14 0xab9423a7 15;
    MD5STEP F4 rb rc rd ra  5 0xfc93a039 21;
    MD5STEP F4 ra rb rc rd 12 0x655b59c3  6;
    MD5STEP F4 rd ra rb rc  3 0x8f0ccc92 10;
    MD5STEP F4 rc rd ra rb 10 0xffeff47d 15;
    MD5STEP F4 rb rc rd ra  1 0x85845dd1 21;
    MD5STEP F4 ra rb rc rd  8 0x6fa87e4f  6;
    MD5STEP F4 rd ra rb rc 15 0xfe2ce6e0 10;
    MD5STEP F4 rc rd ra rb  6 0xa3014314 15;
    MD5STEP F4 rb rc rd ra 13 0x4e0811a1 21;
    MD5STEP F4 ra rb rc rd  4 0xf7537e82  6;
    MD5STEP F4 rd ra rb rc 11 0xbd3af235 10;
    MD5STEP F4 rc rd ra rb  2 0x2ad7d2bb 15;
    MD5STEP F4 rb rc rd ra  9 0xeb86d391 21
  ].

(** [MD5Transform(buf, in)]: [in] is the input block read as 32-bit words of a
    little-endian machine. *)
Definition MD5Transform (buf : regs) (m_in : list Z) : regs :=
  let r := fold_left (exec (le_word m_in)) MD5Transform_steps buf in
  Regs (u32 (a_ buf + a_ r)) (u32 (b_ buf + b_ r)) (u32 (c_ buf + c_ r)) (u32 (d_ buf + d_ r)).

(** [*(uint32_t* )(buf + 4 * i) = w] on a little-endian machine. *)
Definition store32 (buf : list Z) (i : nat) (w : Z) : list Z := memcpy_at (4 * i) (le_bytes 4 w) buf.

(** Rewrite the first [longs] words in the byte order of the machine. *)
Fixpoint reverseBytes_from (i : nat) (buf : list Z) (longs : nat) : list Z :=
  match longs with
  | O => buf
  | S n =>
      let b k := at_ buf (4 * i + k) in
      let t := Z.lor (Z.lor (u32 (Z.shiftl (Z.lor (Z.shiftl (b 3%nat) 8) (b 2%nat)) 16))
                            (Z.shiftl (b 1%nat) 8)) (b 0%nat) in
      reverseBytes_from (S i) (store32 buf i t) n
  end.
Definition reverseBytes (buf : list Z) (longs : nat) : list Z := reverseBytes_from 0 buf longs.

(** ** The class *)

Record MD5 := mkMD5 { m_buf : regs; m_bits0 : Z; m_bits1 : Z; m_in : list Z }.

Definition md5_iv : regs := Regs 0x67452301 0xefcdab89 0x98badcfe 0x10325476.
Definition MD5_new : MD5 := mkMD5 md5_iv 0 0 (replicate 64 0).

(** [while (length >= 64)]: the digest words, the block buffer and the input
    that is left; one round of fuel per 64 bytes. *)
Fixpoint addBytes_loop (fuel : nat) (buf : regs) (m_in input : list Z) : regs * list Z * list Z :=
  match fuel with
  | O => (buf, m_in, input)
  | S n =>
      if (64 <=? length input)%nat then
        let m_in := reverseBytes (memcpy_at 0 (take 64 input) m_in) 16 in
        addBytes_loop n (MD5Transform buf m_in) m_in (drop 64 input)
      else (buf, m_in, input)
  end.

Definition addBytes (md : MD5) (input : list Z) : MD5 :=
  let len := Z.of_nat (length input) in
  (* Update bitcount *)
  let t := m_bits0 md in
  let bits0 := u32 (t + u32 (Z.shiftl len 3)) in
  let bits1 := if (bits0 <? t)%Z then u32 (m_bits1 md + 1) else m_bits1 md in
  let bits1 := u32 (bits1 + Z.shiftr len 29) in
  let t := Z.to_nat (Z.land (Z.shiftr t 3) 0x3f) in
  let finish buf m_in input :=
    let '(buf, m_in, input) := addBytes_loop (length input) buf m_in input in
    (* Handle any remaining bytes of data. *)
    mkMD5 buf bits0 bits1 (memcpy_at 0 input m_in) in
  if (t =? 0)%nat then finish (m_buf md) (m_in md) input
  else
    let t' := (64 - t)%nat in
    if (length input <? t')%nat then
      mkMD5 (m_buf md) bits0 bits1 (memcpy_at t input (m_in md))
    else
      let m_in := reverseBytes (memcpy_at t (take t' input) (m_in md)) 16 in
      finish (MD5Transform (m_buf md) m_in) m_in (drop t' input).

(** The bytes of the four digest words. *)
Definition regs_bytes (r : regs) : list Z :=
  le_bytes 4 (a_ r) ++ le_bytes 4 (b_ r) ++ le_bytes 4 (c_ r) ++ le_bytes 4 (d_ r).

(** [checksum(digest)]: the digest and the wiped object. *)
Definition checksum (md : MD5) : list Z * MD5 :=
  let count := Z.to_nat (Z.land (Z.shiftr (m_bits0 md) 3) 0x3F) in
  let m_in := memcpy_at count [0x80] (m_in md) in
  let p := S count in
  let count := (64 - 1 - count)%nat in
  let '(buf, m_in) :=
    if (count <? 8)%nat then
      let m_in := reverseBytes (memcpy_at p (replicate count 0) m_in) 16 in
      (MD5Transform (m_buf md) m_in, memcpy_at 0 (replicate 56 0) m_in)
    else (m_buf md, memcpy_at p (replicate (count - 8) 0) m_in) in
  let m_in := reverseBytes m_in 14 in
  let m_in := store32 (store32 m_in 14 (m_bits0 md)) 15 (m_bits1 md) in
  let buf := MD5Transform buf m_in in
  (reverseBytes (regs_bytes buf) 4, mkMD5 (Regs 0 0 0 0) 0 0 (replicate 64 0)).

End Code.

(** * The reference: RFC 1321 *)
Module RFC1321.
Import Code.

Definition F (x y z : Z) : Z := Z.lor (Z.land x y) (Z.land (not32 x) z).
Definition G (x y z : Z) : Z := Z.lor (Z.land x z) (Z.land y (not32 z)).
Definition H (x y z : Z) : Z := Z.lxor (Z.lxor x y) z.
Definition I (x y z : Z) : Z := Z.lxor y (Z.lor x (not32 z)).

(** |sin x| in fixed point with [prec] fractional bits, from the Taylor series:
    the alternating sum of x^(2k+1) / (2k+1)!. *)
Definition prec : Z := 128.
Fixpoint sin_series (n : nat) (k x term acc : Z) : Z :=
  match n with
  | O => acc
  | S n' =>
      sin_series n' (k + 2) x (- (term * x * x / ((k + 1) * (k + 2)))) (acc + term)
  end.
Definition sin_fixed (x : Z) : Z := sin_series 160 1 x (x * 2 ^ prec) 0.

(** T[i], the integer part of 4294967296 times abs(sin(i)), i in radians. *)
Definition T (i : nat) : Z := Z.abs (sin_fixed (Z.of_nat i)) / 2 ^ (prec - 32).

Definition fn (i : nat) : Z -> Z -> Z -> Z :=
  match (i / 16)%nat with 0%nat => F | 1%nat => G | 2%nat => H | _ => I end.
Definition index (i : nat) : nat :=
  match (i / 16)%nat with
  | 0%nat => i
  | 1%nat => (5 * i + 1) mod 16
  | 2%nat => (3 * i + 5) mod 16
  | _ => (7 * i) mod 16
  end.
Definition shift (i : nat) : Z :=
  match (i / 16)%nat, (i mod 4)%nat with
  | 0%nat, 0%nat => 7 | 0%nat, 1%nat => 12 | 0%nat, 2%nat => 17 | 0%nat, _ => 22
  | 1%nat, 0%nat => 5 | 1%nat, 1%nat => 9 | 1%nat, 2%nat => 14 | 1%nat, _ => 20
  | 2%nat, 0%nat => 4 | 2%nat, 1%nat => 11 | 2%nat, 2%nat => 16 | 2%nat, _ => 23
  | _, 0%nat => 6 | _, 1%nat => 10 | _, 2%nat => 15 | _, _ => 21
  end.

(** Operation [i]: a = b + ((a + f(b,c,d) + X[k] + T[i+1]) <<< s), after which
    the registers rotate. *)
Definition op (X : nat -> Z) (i : nat) (r : regs) : regs :=
  let v := u32 (a_ r + fn i (b_ r) (c_ r) (d_ r) + X (index i) + T (S i)) in
  Regs (d_ r) (u32 (b_ r + rotl32 (shift i) v)) (b_ r) (c_ r).

Fixpoint ops (X : nat -> Z) (n i : nat) (r : regs) : regs :=
  match n with O => r | S n' => ops X n' (S i) (op X i r) end.

Definition compress (s : regs) (block : list Z) : regs :=
  let r := ops (le_word block) 64 0 s in
  Regs (u32 (a_ s + a_ r)) (u32 (b_ s + b_ r)) (u32 (c_ s + c_ r)) (u32 (d_ s + d_ r)).

(** The digest of a message: pad, absorb, and write A, B, C, D low-order byte
    first. *)
Definition md5 (msg : list Z) : list Z :=
  regs_bytes (hash_state compress md5_iv msg (le_bytes 8 (8 * Z.of_nat (length msg)))).

End RFC1321.

Module MD5Facts.
Import Code.
Import RFC1321.

(** ** The optimised round functions *)

Lemma width_bits_high w x n : in_width w x -> w <= n -> 0 <= w -> Z.testbit x n = false.
Proof.
  intros Hx Hn Hw. rewrite <- (Z.mod_small x (2 ^ w)) by exact Hx.
  by apply Z.mod_pow2_bits_high.
Qed.

Lemma not32_testbit x n : 0 <= n < 32 -> Z.testbit (not32 x) n = negb (Z.testbit x n).
Proof.
  intros Hn. unfold not32, wrapN. rewrite Z.mod_pow2_bits_low by lia.
  apply Z.lnot_spec. lia.
Qed.

Lemma not32_u32 x : is_u32 (not32 x).
Proof. apply Z.mod_pos_bound. lia. Qed.

Ltac bits32 :=
  apply Z.bits_inj'; intros n Hn;
  destruct (Z_lt_ge_dec n 32);
  repeat rewrite ?Z.lor_spec, ?Z.land_spec, ?Z.lxor_spec;
  [ rewrite ?not32_testbit by lia
  | rewrite ?(width_bits_high 32 _ n) by (first [assumption | apply not32_u32 | lia]) ];
  repeat match goal with |- context [Z.testbit ?x n] => destruct (Z.testbit x n) end;
  reflexivity.

Lemma F1_F x y z : is_u32 x -> is_u32 y -> is_u32 z -> F1 x y z = F x y z.
Proof. intros. unfold F1, F. bits32. Qed.

Lemma F2_G x y z : is_u32 x -> is_u32 y -> is_u32 z -> F2 x y z = G x y z.
Proof. intros. unfold F2, F1, G. bits32. Qed.

Definition regs_ok (r : regs) : Prop :=
  is_u32 (a_ r) /\ is_u32 (b_ r) /\ is_u32 (c_ r) /\ is_u32 (d_ r).

Lemma u32_ok x : is_u32 (u32 x).
Proof. apply Z.mod_pos_bound. lia. Qed.

Lemma regs_ok_get r s : regs_ok s -> is_u32 (get r s).
Proof. intros (?&?&?&?). by destruct r. Qed.

Lemma regs_ok_set r v s : regs_ok s -> is_u32 v -> regs_ok (set r v s).
Proof. intros (?&?&?&?) ?. by destruct r. Qed.

(** ** Register renaming against register rotation *)

Inductive tag := TF1 | TF2 | TF3 | TF4.
Definition tag_fn (t : tag) := match t with TF1 => F1 | TF2 => F2 | TF3 => F3 | TF4 => F4 end.
Definition tag_ref (t : tag) := match t with TF1 => F | TF2 => G | TF3 => H | TF4 => I end.

Lemma tag_fn_ref t x y z :
  is_u32 x -> is_u32 y -> is_u32 z -> tag_fn t x y z = tag_ref t x y z.
Proof. destruct t; [apply F1_F|apply F2_G|done|done]. Qed.

Definition tag_at (i : nat) : tag :=
  match (i / 16)%nat with 0%nat => TF1 | 1%nat => TF2 | 2%nat => TF3 | _ => TF4 end.

(** The register that plays the part of [a], [b], [c], [d] at step [i]. *)
Definition role (i : nat) : reg * reg * reg * reg :=
  match (i mod 4)%nat with
  | 0%nat => (ra, rb, rc, rd) | 1%nat => (rd, ra, rb, rc)
  | 2%nat => (rc, rd, ra, rb) | _ => (rb, rc, rd, ra)
  end.
Definition view (i : nat) (s : regs) : regs :=
  let '(w, x, y, z) := role i in Regs (get w s) (get x s) (get y s) (get z s).

Definition step_at (i : nat) : instr :=
  let '(w, x, y, z) := role i in
  MD5STEP (tag_fn (tag_at i)) w x y z (index i) (T (S i)) (shift i).

Definition instr_const (x : instr) : Z := let 'MD5STEP _ _ _ _ _ _ t _ := x in t.

(** The constants of the 64 statements are the sines of the RFC. *)
Lemma constants_are_sines : map T (seq 1 64) = map instr_const MD5Transform_steps.
Proof. vm_compute. reflexivity. Qed.

(** The 64 written statements are the 64 operations of the RFC. *)
Lemma steps_are_ops : MD5Transform_steps = map step_at (seq 0 64).
Proof.
  transitivity (map (fun i => let '(w, x, y, z) := role i in
    MD5STEP (tag_fn (tag_at i)) w x y z (index i)
      (nth i (map instr_const MD5Transform_steps) 0) (shift i)) (seq 0 64)).
  { cbv [seq map nth MD5Transform_steps instr_const role tag_fn tag_at index shift].
    simpl. reflexivity. }
  apply map_ext_in. intros i Hi%in_seq. rewrite <- constants_are_sines.
  unfold step_at. destruct (role i) as [[[w x] y] z]. f_equal.
  rewrite (nth_indep _ 0 (T 0)) by (rewrite length_map, length_seq; lia).
  rewrite map_nth, seq_nth by lia. done.
Qed.

Lemma exec_view X i s :
  regs_ok s -> regs_ok (exec X s (step_at i)) /\ view (S i) (exec X s (step_at i)) = op X i (view i s).
Proof.
  intros Hs. split.
  { unfold step_at. destruct (role i) as [[[w x] y] z]. apply regs_ok_set, u32_ok. done. }
  assert (fn i = tag_ref (tag_at i)) as E.
  { unfold fn, tag_at. by destruct (i / 16)%nat as [|[|[|n]]]. }
  unfold op, view, step_at, role. rewrite E.
  assert (HS : (S i mod 4 = (S (i mod 4)) mod 4)%nat).
  { symmetry. apply (Nat.Div0.add_mod_idemp_r 1 i 4). }
  rewrite HS. pose proof (Nat.mod_upper_bound i 4 ltac:(lia)) as Hm.
  destruct Hs as (?&?&?&?). set (m := (i mod 4)%nat) in *.
  destruct m as [|[|[|[|m]]]]; [| | | |lia]; cbn -[wrapN rotl32 T tag_fn tag_ref index shift];
    rewrite tag_fn_ref by done;
    f_equal; (rewrite Z.add_comm; do 3 f_equal; dlia).
Qed.

Lemma fold_view X n i s :
  regs_ok s -> regs_ok (fold_left (exec X) (map step_at (seq i n)) s) /\
  view (i + n) (fold_left (exec X) (map step_at (seq i n)) s) = ops X n i (view i s).
Proof.
  revert i s. induction n as [|n IH]; intros i s Hs; cbn [seq map fold_left ops].
  { by rewrite Nat.add_0_r. }
  destruct (exec_view X i s Hs) as [Hok Hv].
  rewrite <- Hv, Nat.add_succ_r. by apply IH.
Qed.

Lemma MD5Transform_compress s blk : regs_ok s -> MD5Transform s blk = compress s blk.
Proof.
  intros Hs. destruct (fold_view (le_word blk) 64 0 s Hs) as [_ E].
  assert (forall r, view 0 r = r) as V0 by by intros [].
  assert (forall r, view (0 + 64) r = r) as V64 by by intros [].
  rewrite V0, V64 in E. unfold MD5Transform, compress.
  by rewrite steps_are_ops, E.
Qed.

Lemma compress_ok s blk : regs_ok (compress s blk).
Proof. repeat split; apply u32_ok || apply Z.mod_pos_bound; zpow; lia. Qed.

(** ** The byte-order rewrite is the identity on a little-endian machine *)

Lemma le_bytes_word b0 b1 b2 b3 :
  is_byte b0 -> is_byte b1 -> is_byte b2 -> is_byte b3 ->
  le_bytes 4 (Z.lor (Z.lor (u32 (Z.shiftl (Z.lor (Z.shiftl b3 8) b2) 16)) (Z.shiftl b1 8)) b0)
  = [b0; b1; b2; b3].
Proof.
  intros. assert (0 <= Z.shiftl b1 8 < 2 ^ 16) by (rewrite Z.shiftl_mul_pow2 by lia; dlia).
  rewrite (lor_shiftl_add b3 b2 8) by dlia.
  rewrite Z.shiftl_mul_pow2 by lia.
  replace (u32 ((b3 * 2 ^ 8 + b2) * 2 ^ 16)) with ((b3 * 2 ^ 8 + b2) * 2 ^ 16)
    by (unfold wrapN; rewrite Z.mod_small; dlia).
  rewrite lor_add by lia. rewrite Z.shiftl_mul_pow2 by lia.
  replace ((b3 * 2 ^ 8 + b2) * 2 ^ 16 + b1 * 2 ^ 8)
    with ((b3 * 2 ^ 16 + b2 * 2 ^ 8 + b1) * 2 ^ 8) by (zpow; lia).
  rewrite lor_add by dlia. cbn [le_bytes]. rewrite !Z.shiftr_div_pow2 by lia.
  repeat f_equal; dlia.
Qed.

Lemma take4_drop l i :
  (i + 4 <= length l)%nat ->
  take 4 (drop i l) = [at_ l (i + 0); at_ l (i + 1); at_ l (i + 2); at_ l (i + 3)].
Proof.
  intros H. assert (forall k, (k < 4)%nat -> drop i l !! k = Some (at_ l (i + k))) as E.
  { intros k Hk. rewrite lookup_drop. apply at_lt. lia. }
  destruct (drop i l) as [|x0 [|x1 [|x2 [|x3 l']]]] eqn:D;
    try (apply (f_equal length) in D; rewrite length_drop in D; simpl in D; lia).
  pose proof (E 0%nat ltac:(lia)) as [= <-]. pose proof (E 1%nat ltac:(lia)) as [= <-].
  pose proof (E 2%nat ltac:(lia)) as [= <-]. pose proof (E 3%nat ltac:(lia)) as [= <-].
  done.
Qed.

Lemma reverseBytes_id l n :
  bytes_ok l -> (4 * n <= length l)%nat -> reverseBytes l n = l.
Proof.
  intros Hl. unfold reverseBytes.
  assert (forall i, (4 * (i + n) <= length l)%nat -> reverseBytes_from i l n = l) as G;
    [|intros; apply G; lia].
  induction n as [|n IH]; intros i Hi; cbn [reverseBytes_from]; [done|].
  unfold store32. rewrite le_bytes_word by by apply at_byte.
  rewrite <- take4_drop by lia.
  rewrite memcpy_at_self by lia. apply IH. lia.
Qed.

(** ** The bit count *)

(** The two words hold eight times the length of the message modulo 2^64. *)
Definition bits_of (b0 b1 : Z) (len : nat) : Prop :=
  is_u32 b0 /\ is_u32 b1 /\ b0 + 2 ^ 32 * b1 = (8 * Z.of_nat len) mod 2 ^ 64.

Lemma bits_count b0 b1 len :
  bits_of b0 b1 len -> Z.to_nat (Z.land (Z.shiftr b0 3) 0x3f) = (len mod 64)%nat.
Proof.
  intros (H0 & H1 & E). change 0x3f with (Z.ones 6).
  rewrite Z.land_ones, Z.shiftr_div_pow2 by lia.
  apply Nat2Z.inj. rewrite Nat2Z.inj_mod. rewrite Z2Nat.id by (apply Z.mod_pos_bound; lia).
  dlia.
Qed.

Lemma bits_add b0 b1 len n :
  bits_of b0 b1 len -> Z.of_nat n < 2 ^ 32 ->
  let b0' := u32 (b0 + u32 (Z.shiftl (Z.of_nat n) 3)) in
  let c := if (b0' <? b0)%Z then u32 (b1 + 1) else b1 in
  bits_of b0' (u32 (c + Z.shiftr (Z.of_nat n) 29)) (len + n).
Proof.
  intros (H0 & H1 & E) Hn b0' c.
  assert (b0' = (b0 + 8 * Z.of_nat n) mod 2 ^ 32) as E0.
  { unfold b0'. rewrite Z.shiftl_mul_pow2 by lia. dlia. }
  assert (c = u32 (b1 + (b0 + 8 * Z.of_nat n) / 2 ^ 32 - Z.of_nat n / 2 ^ 29)) as E1.
  { unfold c. rewrite E0. destruct (Z.ltb_spec ((b0 + 8 * Z.of_nat n) mod 2 ^ 32) b0); dlia. }
  rewrite E1, E0, Z.shiftr_div_pow2 by lia.
  split_and!; [dlia|dlia|]. rewrite Nat2Z.inj_add.
  clear E1 E0 c b0'. unfold wrapN. rewrite Zplus_mod_idemp_l.
  replace (b1 + (b0 + 8 * Z.of_nat n) / 2 ^ 32 - Z.of_nat n / 2 ^ 29 + Z.of_nat n / 2 ^ 29)
    with (b1 + (b0 + 8 * Z.of_nat n) / 2 ^ 32) by lia.
  dlia.
Qed.

(** ** The block loop *)

Lemma memcpy_full src dst : length src = 64%nat -> length dst = 64%nat -> memcpy_at 0 src dst = src.
Proof. intros. unfold memcpy_at. rewrite drop_ge by lia. apply app_nil_r. Qed.

Lemma bytes_ok_take n l : bytes_ok l -> bytes_ok (take n l).
Proof. apply Forall_take. Qed.
Lemma bytes_ok_drop n l : bytes_ok l -> bytes_ok (drop n l).
Proof. apply Forall_drop. Qed.
Lemma bytes_ok_zeros n : bytes_ok (replicate n 0).
Proof. apply Forall_replicate. dlia. Qed.
Lemma bytes_ok_memcpy off src dst : bytes_ok src -> bytes_ok dst -> bytes_ok (memcpy_at off src dst).
Proof.
  intros. unfold memcpy_at. rewrite !bytes_ok_app.
  auto using bytes_ok_take, bytes_ok_drop.
Qed.

Lemma addBytes_loop_spec fuel buf m_in input :
  (length input <= fuel)%nat -> regs_ok buf -> length m_in = 64%nat ->
  bytes_ok m_in -> bytes_ok input ->
  exists m_in', addBytes_loop fuel buf m_in input = (run compress buf input, m_in', pending input) /\
    length m_in' = 64%nat /\ bytes_ok m_in'.
Proof.
  revert buf m_in input. induction fuel as [|fuel IH]; intros buf m_in input Hf Hr Hl Hm Hi;
    cbn [addBytes_loop].
  { exists m_in. rewrite run_short, pending_short by lia. done. }
  destruct (Nat.leb_spec 64 (length input)).
  - rewrite memcpy_full by (rewrite ?length_take; lia).
    assert (length (take 64 input) = 64%nat) as Ht by (rewrite length_take; lia).
    rewrite reverseBytes_id, MD5Transform_compress by (done || (by apply bytes_ok_take) || lia).
    assert (run compress buf input = run compress (compress buf (take 64 input)) (drop 64 input)) as ->
      by (rewrite <- run_block_app by done; by rewrite take_drop).
    assert (pending input = pending (drop 64 input)) as ->
      by (rewrite <- (pending_block_app (take 64 input) (drop 64 input)) by done; by rewrite take_drop).
    apply IH; rewrite ?length_drop; auto using compress_ok, bytes_ok_take, bytes_ok_drop. lia.
  - exists m_in. rewrite run_short, pending_short by lia. done.
Qed.

(** ** Chunks *)

(** The object after the bytes [msg] have been added, however split. *)
Record rep (md : MD5) (msg : list Z) : Prop := {
  rep_buf : m_buf md = run compress md5_iv msg;
  rep_bits : bits_of (m_bits0 md) (m_bits1 md) (length msg);
  rep_len : length (m_in md) = 64%nat;
  rep_ok : bytes_ok (m_in md);
  rep_pending : take (length (pending msg)) (m_in md) = pending msg
}.

Lemma absorb_ok n s l : regs_ok s -> regs_ok (absorb compress n s l).
Proof. revert s l. induction n; intros; simpl; auto using compress_ok. Qed.

Lemma md5_rep_new : rep MD5_new [].
Proof. split; [done|by_eval|done|by_eval|done]. Qed.

Lemma md5_rep_addBytes md msg input :
  rep md msg -> bytes_ok input -> Z.of_nat (length input) < 2 ^ 32 ->
  rep (addBytes md input) (msg ++ input).
Proof.
  intros [Hb Hbits Hl Hok Hp] Hin Hlen.
  assert (regs_ok (m_buf md)) as Hr by (rewrite Hb; apply absorb_ok; by_eval).
  pose proof (bits_add _ _ _ _ Hbits Hlen) as Hbits'. rewrite <- length_app in Hbits'.
  unfold addBytes. rewrite (bits_count _ _ _ Hbits), <- (length_pending msg).
  pose proof (pending_lt msg) as Hlt. revert Hp Hlt Hb.
  assert (forall buf m_in r input, regs_ok buf -> length m_in = 64%nat -> bytes_ok m_in -> bytes_ok r ->
    run compress buf r = run compress md5_iv (msg ++ input) ->
    pending r = pending (msg ++ input) -> forall b0 b1, bits_of b0 b1 (length (msg ++ input)) ->
    rep (let '(buf, m_in, i) := addBytes_loop (length r) buf m_in r in
         mkMD5 buf b0 b1 (memcpy_at 0 i m_in)) (msg ++ input)) as Hfinish.
  { intros buf m_in r inp ? ? ? ? Er Ep b0 b1 Hb2.
    destruct (addBytes_loop_spec (length r) buf m_in r) as (m' & -> & ? & ?); [done..|].
    pose proof (pending_lt r).
    split; simpl; [by rewrite Er|done| |apply bytes_ok_memcpy; [by apply bytes_ok_drop|done]|].
    - rewrite length_memcpy_at; lia.
    - rewrite <- Ep. apply (take_memcpy_at 0). lia. }
  intros Hp Hlt Hb. destruct (Nat.eqb_spec (length (pending msg)) 0) as [E|E].
  { apply nil_length_inv in E. apply Hfinish; auto.
    - by rewrite Hb, run_app, E.
    - by rewrite (pending_app msg), E. }
  set (t := length (pending msg)) in *.
  destruct (Nat.ltb_spec (length input) (64 - t)) as [Hs|Hs].
  - assert (length (pending msg ++ input) < 64)%nat by (rewrite length_app; lia).
    split; simpl; [|done| |by apply bytes_ok_memcpy|].
    + by rewrite Hb, run_app, (run_short _ _ (pending msg ++ input)).
    + rewrite length_memcpy_at; lia.
    + rewrite pending_app, pending_short by done. rewrite length_app.
      fold t. rewrite take_memcpy_at by lia. by rewrite Hp.
  - assert (memcpy_at t (take (64 - t) input) (m_in md) = pending msg ++ take (64 - t) input) as Em.
    { unfold memcpy_at. rewrite Hp, drop_ge, app_nil_r by (rewrite ?length_take; lia). done. }
    assert (length (pending msg ++ take (64 - t) input) = 64%nat) as E64
      by (rewrite length_app, length_take; fold t; lia).
    assert (bytes_ok (pending msg ++ take (64 - t) input)).
    { rewrite <- Em. apply bytes_ok_memcpy; auto using bytes_ok_take. }
    rewrite Em, reverseBytes_id, MD5Transform_compress by (done || lia).
    apply Hfinish; auto using compress_ok, bytes_ok_drop.
    + rewrite Hb, run_app, <- run_block_app by done.
      by rewrite <- app_assoc, take_drop.
    + by rewrite pending_app, <- (pending_block_app _ (drop (64 - t) input) E64),
        <- app_assoc, take_drop.
Qed.

(** ** The final blocks *)

Lemma le_bytes_split n m x :
  le_bytes (n + m) x = le_bytes n x ++ le_bytes m (Z.shiftr x (8 * Z.of_nat n)).
Proof.
  revert x. induction n as [|n IH]; intros x; [done|].
  cbn [le_bytes Nat.add app]. f_equal. rewrite IH. f_equal.
  rewrite Z.shiftr_shiftr by lia. repeat f_equal. lia.
Qed.

Lemma length_words b0 b1 len :
  bits_of b0 b1 len -> le_bytes 8 (8 * Z.of_nat len) = le_bytes 4 b0 ++ le_bytes 4 b1.
Proof.
  intros (H0 & H1 & E). rewrite <- (le_bytes_mod 8).
  change (8 * Z.of_nat 8) with 64. rewrite <- E, (le_bytes_split 4 4). f_equal.
  - rewrite <- (le_bytes_mod 4). f_equal. change (8 * Z.of_nat 4) with 32. dlia.
  - f_equal. change (8 * Z.of_nat 4) with 32. rewrite Z.shiftr_div_pow2 by lia. dlia.
Qed.

Lemma pad_prefix t k m p :
  length m = 64%nat -> (S t + k <= 64)%nat -> length p = t -> take t m = p ->
  take (S t + k) (memcpy_at (S t) (replicate k 0) (memcpy_at t [0x80] m)) =
    p ++ [0x80] ++ replicate k 0.
Proof.
  intros Hm Hk Ht Hp.
  pose proof (take_memcpy_at (S t) (replicate k 0) (memcpy_at t [0x80] m)) as E1.
  pose proof (take_memcpy_at t [0x80] m ltac:(lia)) as E2.
  rewrite length_replicate in E1. rewrite Nat.add_1_r in E2.
  rewrite E1 by (rewrite length_memcpy_at; simpl; lia).
  by rewrite E2, Hp, <- app_assoc.
Qed.

Lemma store_lengths m b0 b1 :
  length m = 64%nat ->
  store32 (store32 m 14 b0) 15 b1 = take 56 m ++ le_bytes 4 b0 ++ le_bytes 4 b1.
Proof.
  intros Hm. unfold store32, memcpy_at at 1. cbn [Nat.mul Nat.add].
  rewrite length_le_bytes, (drop_ge _ 64), app_nil_r
    by (unfold memcpy_at; rewrite !length_app, length_take, length_drop, length_le_bytes; lia).
  rewrite app_assoc. f_equal.
  transitivity (take (56 + length (le_bytes 4 b0)) (memcpy_at 56 (le_bytes 4 b0) m)); [done|].
  apply take_memcpy_at. lia.
Qed.

Lemma regs_bytes_ok r : bytes_ok (regs_bytes r).
Proof. unfold regs_bytes. rewrite !bytes_ok_app. auto using le_bytes_ok. Qed.

Lemma checksum_rep md msg : rep md msg -> fst (checksum md) = md5 msg.
Proof.
  intros [Hb Hbits Hl Hok Hp]. unfold checksum, md5.
  rewrite (bits_count _ _ _ Hbits), <- length_pending.
  rewrite (hash_state_final compress) by apply length_le_bytes.
  rewrite (length_words _ _ _ Hbits). pose proof (pending_lt msg) as Hlt.
  set (t := length (pending msg)) in *.
  assert (regs_ok (m_buf md)) as Hr by (rewrite Hb; apply absorb_ok; by_eval).
  assert (H80 : bytes_ok [0x80]) by by_eval.
  assert (forall k, (S t + k <= 64)%nat ->
    let m := memcpy_at (S t) (replicate k 0) (memcpy_at t [0x80] (m_in md)) in
    length m = 64%nat /\ bytes_ok m /\ take (S t + k) m = pending msg ++ [0x80] ++ replicate k 0) as Hm.
  { intros k Hk m. split_and!.
    - unfold m. rewrite !length_memcpy_at; rewrite ?length_memcpy_at, ?length_replicate; simpl; lia.
    - unfold m. auto using bytes_ok_memcpy, bytes_ok_zeros.
    - by apply pad_prefix. }
  destruct (Nat.ltb_spec (64 - 1 - t) 8), (Nat.ltb_spec t 56); try lia; cbn [fst].
  - destruct (Hm (64 - 1 - t)%nat ltac:(lia)) as (Hm1 & Hm2 & Hm3).
    set (m := memcpy_at (S t) _ _) in *. rewrite take_ge in Hm3 by lia.
    assert (length (memcpy_at 0 (replicate 56 0) m) = 64%nat)
      by (rewrite length_memcpy_at; rewrite ?length_replicate; lia).
    rewrite (reverseBytes_id m), (reverseBytes_id (memcpy_at 0 _ _)), reverseBytes_id, store_lengths
      by (first [done|apply regs_bytes_ok|apply bytes_ok_memcpy; auto using bytes_ok_zeros|simpl; lia]).
    rewrite (MD5Transform_compress (m_buf md)), MD5Transform_compress by auto using compress_ok.
    pose proof (take_memcpy_at 0 (replicate 56 0) m ltac:(lia)) as E56.
    rewrite length_replicate in E56. change (0 + 56)%nat with 56%nat in E56. rewrite E56.
    rewrite Hm3, Hb. replace (64 - 1 - t)%nat with (63 - t)%nat by lia. done.
  - destruct (Hm (64 - 1 - t - 8)%nat ltac:(lia)) as (Hm1 & Hm2 & Hm3).
    set (m := memcpy_at (S t) _ _) in *.
    replace (S t + (64 - 1 - t - 8))%nat with 56%nat in Hm3 by lia.
    rewrite (reverseBytes_id m), reverseBytes_id, store_lengths, Hm3
      by (first [done|apply regs_bytes_ok|simpl; lia]).
    rewrite MD5Transform_compress, Hb by done.
    replace (64 - 1 - t - 8)%nat with (55 - t)%nat by lia. by rewrite <- !app_assoc.
Qed.

Lemma md5_rep_fold chunks md msg :
  Forall bytes_ok chunks -> Forall (fun c => Z.of_nat (length c) < 2 ^ 32) chunks ->
  rep md msg -> rep (fold_left addBytes chunks md) (msg ++ concat chunks).
Proof.
  revert md msg. induction chunks as [|c chunks IH]; intros md msg H1 H2 Hr; simpl.
  { by rewrite app_nil_r. }
  apply Forall_cons_iff in H1 as [? ?]. apply Forall_cons_iff in H2 as [? ?].
  rewrite app_assoc. apply IH; auto. by apply md5_rep_addBytes.
Qed.

End MD5Facts.

Module MD5Props.
Import Code.
Import RFC1321.
Import MD5Facts.


End MD5Props.

Module MD5Witness.
Import Code.
Import RFC1321.


Definition digest (s : list Z) : list Z := fst (checksum (addBytes MD5_new s)).

(** Vectors of the test in MD5.cpp. *)
Example md5_empty : digest (str "") =
  [0xd4; 0x1d; 0x8c; 0xd9; 0x8f; 0x00; 0xb2; 0x04; 0xe9; 0x80; 0x09; 0x98; 0xec; 0xf8; 0x42; 0x7e].
Proof. vm_compute. reflexivity. Qed.

Example md5_80_digits :
  digest (str "12345678901234567890123456789012345678901234567890123456789012345678901234567890") =
  [0x57; 0xed; 0xf4; 0xa2; 0x2b; 0xe3; 0xc9; 0x55; 0xac; 0x49; 0xda; 0x2e; 0x21; 0x07; 0xb6; 0x7a].
Proof. vm_compute. reflexivity. Qed.

End MD5Witness.
