(* ===== verification/SHA1.v ===== *)
(** * SHA-1 (WTF/SHA1.cpp)

    The digest of the WebSocket handshake.  [Code] translates the class byte by
    byte, [RFC3174] is the reference, [SHA1Props] relates them for any sequence
    of [addBytes] calls. *)
From S2P Require Import Prelude BlockHash.

Module Code.

Definition f (t : nat) (b c d : Z) : Z :=
  if (t <? 20)%nat then Z.lor (Z.land b c) (Z.land (not32 b) d)
  else if (t <? 40)%nat then Z.lxor (Z.lxor b c) d
  else if (t <? 60)%nat then Z.lor (Z.lor (Z.land b c) (Z.land b d)) (Z.land c d)
  else Z.lxor (Z.lxor b c) d.

Definition k (t : nat) : Z :=
  if (t <? 20)%nat then 0x5a827999
  else if (t <? 40)%nat then 0x6ed9eba1
  else if (t <? 60)%nat then 0x8f1bbcdc
  else 0xca62c1d6.

Definition rotateLeft (n x : Z) : Z := Z.lor (u32 (Z.shiftl x n)) (Z.shiftr x (32 - n)).

(** The five words [m_hash], and the five local variables of a block. *)
Record words := Words { wa : Z; wb : Z; wc : Z; wd : Z; we : Z }.

Record SHA1 := mkSHA1 {
  m_buffer : list Z;
  m_cursor : nat;      (* Number of bytes filled in m_buffer (0-64). *)
  m_totalBytes : Z;    (* Number of bytes added so far. *)
  m_hash : words
}.

(** [w[t]] for the first sixteen words: big-endian loads. *)
Definition load_be (buf : list Z) (t : nat) : Z :=
  Z.lor (Z.lor (Z.lor (Z.shiftl (at_ buf (t * 4)) 24) (Z.shiftl (at_ buf (t * 4 + 1)) 16))
               (Z.shiftl (at_ buf (t * 4 + 2)) 8)) (at_ buf (t * 4 + 3)).

(** One iteration of each of the two loops that fill [w]. *)
Definition schedule_load (buf : list Z) (w : list Z) (t : nat) : list Z := <[t := load_be buf t]> w.
Definition schedule_mix (w : list Z) (t : nat) : list Z :=
  <[t := rotateLeft 1 (Z.lxor (Z.lxor (Z.lxor (at_ w (t - 3)) (at_ w (t - 8))) (at_ w (t - 14)))
                              (at_ w (t - 16)))]> w.

Definition schedule (buf : list Z) : list Z :=
  let w := fold_left (schedule_load buf) (seq 0 16) (replicate 80 0) in
  fold_left schedule_mix (seq 16 64) w.

(** One iteration of the main loop. *)
Definition round (w : list Z) (s : words) (t : nat) : words :=
  let temp := u32 (rotateLeft 5 (wa s) + f t (wb s) (wc s) (wd s) + we s + at_ w t + k t) in
  Words temp (wa s) (rotateLeft 30 (wb s)) (wc s) (wd s).

Definition processBlock (st : SHA1) : SHA1 :=
  let w := schedule (m_buffer st) in
  let h := m_hash st in
  let s := fold_left (round w) (seq 0 80) h in
  mkSHA1 (m_buffer st) 0 (m_totalBytes st)
    (Words (u32 (wa h + wa s)) (u32 (wb h + wb s)) (u32 (wc h + wc s))
           (u32 (wd h + wd s)) (u32 (we h + we s))).

Definition sha1_iv : words := Words 0x67452301 0xefcdab89 0x98badcfe 0x10325476 0xc3d2e1f0.

Definition reset (st : SHA1) : SHA1 := mkSHA1 (replicate 64 0) 0 0 sha1_iv.

(** The constructor: [m_buffer] starts uninitialised and [reset] clears it. *)
Definition SHA1_new (garbage : SHA1) : SHA1 := reset garbage.

(** The body of the loop of [addBytes]. *)
Definition addByte (st : SHA1) (b : Z) : SHA1 :=
  let st := mkSHA1 (<[m_cursor st := b]> (m_buffer st)) (S (m_cursor st))
              (u64 (m_totalBytes st + 1)) (m_hash st) in
  if (m_cursor st =? 64)%nat then processBlock st else st.

Definition addBytes (st : SHA1) (input : list Z) : SHA1 := fold_left addByte input st.

(** [for (i = from; i < from + n; ++i) buf[i] = 0x00]. *)
Fixpoint zero_fill (from n : nat) (buf : list Z) : list Z :=
  match n with O => buf | S n' => zero_fill (S from) n' (<[from := 0]> buf) end.

(** [for (j = 0; j < n; ++j) { buf[off + (n - 1 - j)] = x & 0xFF; x >>= 8; }]. *)
Fixpoint store_be (off n : nat) (x : Z) (buf : list Z) : list Z :=
  match n with
  | O => buf
  | S n' => store_be off n' (Z.shiftr x 8) (<[(off + n')%nat := Z.land x 0xFF]> buf)
  end.

Definition finalize (st : SHA1) : SHA1 :=
  let st := mkSHA1 (<[m_cursor st := 0x80]> (m_buffer st)) (S (m_cursor st))
              (m_totalBytes st) (m_hash st) in
  let st :=
    if (56 <? m_cursor st)%nat then
      (* Pad out to next block. *)
      processBlock (mkSHA1 (zero_fill (m_cursor st) (64 - m_cursor st) (m_buffer st)) 64
                      (m_totalBytes st) (m_hash st))
    else st in
  let buf := zero_fill (m_cursor st) (56 - m_cursor st) (m_buffer st) in
  (* Write the length as a big-endian 64-bit value. *)
  let bits := u64 (m_totalBytes st * 8) in
  processBlock (mkSHA1 (store_be 56 8 bits buf) 64 (m_totalBytes st) (m_hash st)).

(** The digest loop of [computeHash]. *)
Definition digest_of (h : words) : list Z :=
  fold_left (fun d '(i, x) => store_be (4 * i) 4 x d)
    [(0%nat, wa h); (1%nat, wb h); (2%nat, wc h); (3%nat, wd h); (4%nat, we h)] (replicate 20 0).

Definition computeHash (st : SHA1) : list Z * SHA1 :=
  let st := finalize st in (digest_of (m_hash st), reset st).

End Code.

(** * The reference: RFC 3174 *)
Module RFC3174.
Import Code.

(** The message schedule as the recursive definition of W(t). *)
Fixpoint W (buf : list Z) (fuel t : nat) : Z :=
  match fuel with
  | O => 0
  | S n =>
      if (t <? 16)%nat then load_be buf t
      else rotateLeft 1 (Z.lxor (Z.lxor (Z.lxor (W buf n (t - 3)) (W buf n (t - 8))) (W buf n (t - 14)))
                                (W buf n (t - 16)))
  end.

(** TEMP = S^5(A) + f(t;B,C,D) + E + W(t) + K(t). *)
Fixpoint rounds (buf : list Z) (n t : nat) (s : words) : words :=
  match n with
  | O => s
  | S n' =>
      let temp := u32 (rotateLeft 5 (wa s) + f t (wb s) (wc s) (wd s) + we s + W buf 80 t + k t) in
      rounds buf n' (S t) (Words temp (wa s) (rotateLeft 30 (wb s)) (wc s) (wd s))
  end.

Definition compress (h : words) (block : list Z) : words :=
  let s := rounds block 80 0 h in
  Words (u32 (wa h + wa s)) (u32 (wb h + wb s)) (u32 (wc h + wc s))
        (u32 (wd h + wd s)) (u32 (we h + we s)).

Definition words_bytes (h : words) : list Z :=
  be_bytes 4 (wa h) ++ be_bytes 4 (wb h) ++ be_bytes 4 (wc h) ++ be_bytes 4 (wd h) ++ be_bytes 4 (we h).

Definition sha1 (msg : list Z) : list Z :=
  words_bytes (hash_state compress sha1_iv msg (be_bytes 8 (8 * Z.of_nat (length msg)))).

End RFC3174.

Module SHA1Facts.
Import Code.
Import RFC3174.

(** ** The message schedule and the rounds *)

Lemma W_unfold buf n t :
  W buf (S n) t =
    if (t <? 16)%nat then load_be buf t
    else rotateLeft 1 (Z.lxor (Z.lxor (Z.lxor (W buf n (t - 3)) (W buf n (t - 8))) (W buf n (t - 14)))
                              (W buf n (t - 16))).
Proof. done. Qed.

Lemma W_fuel buf n m t : (t < n)%nat -> (t < m)%nat -> W buf n t = W buf m t.
Proof.
  revert m t. induction n as [|n IH]; intros [|m] t Hn Hm; try lia. rewrite !W_unfold.
  destruct (Nat.ltb_spec t 16); [done|].
  rewrite !(IH m) by lia. done.
Qed.

Lemma W_step buf t :
  (16 <= t < 80)%nat ->
  W buf 80 t = rotateLeft 1 (Z.lxor (Z.lxor (Z.lxor (W buf 80 (t - 3)) (W buf 80 (t - 8)))
                                      (W buf 80 (t - 14))) (W buf 80 (t - 16))).
Proof.
  intros Ht. rewrite (W_fuel buf 80 (S 80)), W_unfold by lia.
  destruct (Nat.ltb_spec t 16); [lia|reflexivity].
Qed.

Lemma W_load buf t : (t < 16)%nat -> W buf 80 t = load_be buf t.
Proof.
  intros Ht. rewrite (W_unfold buf 79). destruct (Nat.ltb_spec t 16); [reflexivity|lia].
Qed.

#[local] Opaque W.

Lemma schedule_spec buf t : (t < 80)%nat -> at_ (schedule buf) t = W buf 80 t.
Proof.
  set (P := fun (n : nat) (w : list Z) =>
    length w = 80%nat /\ forall j, (j < n)%nat -> at_ w j = W buf 80 j).
  assert (P 80%nat (schedule buf)) as [_ H]; [|by apply H].
  unfold schedule. apply (fold_seq_ind P schedule_mix 16 64).
  - apply (fold_seq_ind P (schedule_load buf) 0 16); [by split; [|lia]|].
    intros j w Hj [Hl Hw]. split; [unfold schedule_load; by rewrite length_insert|].
    intros i Hi. unfold schedule_load. destruct (decide (i = j)) as [->|].
    + rewrite at_insert_eq, W_load by lia. done.
    + rewrite at_insert_ne by done. apply Hw. lia.
  - intros j w Hj [Hl Hw]. split; [unfold schedule_mix; by rewrite length_insert|].
    intros i Hi. unfold schedule_mix. destruct (decide (i = j)) as [->|].
    + rewrite at_insert_eq, W_step, !Hw by lia. done.
    + rewrite at_insert_ne by done. apply Hw. lia.
Qed.

Lemma rounds_spec buf n t s :
  (t + n <= 80)%nat -> fold_left (round (schedule buf)) (seq t n) s = rounds buf n t s.
Proof.
  revert t s. induction n as [|n IH]; intros t s Ht; cbn [seq fold_left rounds]; [done|].
  rewrite IH by lia. unfold round. by rewrite schedule_spec by lia.
Qed.

Lemma processBlock_spec st :
  processBlock st =
    mkSHA1 (m_buffer st) 0 (m_totalBytes st) (compress (m_hash st) (m_buffer st)).
Proof. unfold processBlock, compress. by rewrite rounds_spec by lia. Qed.

(** ** Byte loops *)

Lemma store_be_spec off n x buf :
  (off + n <= length buf)%nat -> store_be off n x buf = memcpy_at off (be_bytes n x) buf.
Proof.
  revert x buf. induction n as [|n IH]; intros x buf H; cbn [store_be].
  { unfold memcpy_at. cbn. rewrite Nat.add_0_r. by rewrite take_drop. }
  rewrite IH by (rewrite length_insert; lia). rewrite insert_memcpy by lia.
  pose proof (memcpy_memcpy off (be_bytes n (Z.shiftr x 8)) [Z.land x 0xFF] buf) as E.
  rewrite length_be_bytes in E. rewrite E by lia. f_equal.
  unfold be_bytes. cbn [le_bytes rev]. change 0xFF with (Z.ones 8). by rewrite Z.land_ones.
Qed.

Lemma zero_fill_spec from n buf :
  (from + n <= length buf)%nat -> zero_fill from n buf = memcpy_at from (replicate n 0) buf.
Proof.
  revert from buf. induction n as [|n IH]; intros from buf H; cbn [zero_fill].
  { unfold memcpy_at. cbn. rewrite Nat.add_0_r. by rewrite take_drop. }
  rewrite IH by (rewrite length_insert; lia). rewrite insert_memcpy by lia.
  rewrite <- Nat.add_1_r. apply (memcpy_then from [0]). simpl. lia.
Qed.

Lemma digest_of_spec h : digest_of h = words_bytes h.
Proof.
  unfold digest_of, words_bytes. cbn [fold_left].
  rewrite !store_be_spec by (rewrite ?length_memcpy_at; rewrite ?length_be_bytes; simpl; lia).
  unfold be_bytes. cbn. done.
Qed.

(** ** Streaming *)

(** The object after the bytes [msg] have been added. *)
Record rep (st : SHA1) (msg : list Z) : Prop := {
  rep_hash : m_hash st = run compress sha1_iv msg;
  rep_total : m_totalBytes st = Z.of_nat (length msg) mod 2 ^ 64;
  rep_len : length (m_buffer st) = 64%nat;
  rep_cursor : m_cursor st = length (pending msg);
  rep_pending : take (m_cursor st) (m_buffer st) = pending msg
}.

Lemma sha1_rep_new g : rep (SHA1_new g) [].
Proof. done. Qed.

Lemma sha1_rep_addByte st msg b : rep st msg -> rep (addByte st b) (msg ++ [b]).
Proof.
  intros [Hh Ht Hl Hc Hp]. unfold addByte.
  cbn [m_cursor m_buffer m_totalBytes m_hash].
  pose proof (pending_lt msg) as Hlt. rewrite <- Hc in Hlt.
  assert (length (<[m_cursor st := b]> (m_buffer st)) = 64%nat) as Hl' by by rewrite length_insert.
  assert (take (S (m_cursor st)) (<[m_cursor st := b]> (m_buffer st)) = pending msg ++ [b]) as Hp'.
  { rewrite insert_memcpy, <- Nat.add_1_r by lia.
    rewrite (take_memcpy_at _ [b] (m_buffer st)) by lia. by rewrite Hp. }
  assert (u64 (m_totalBytes st + 1) = Z.of_nat (length (msg ++ [b])) mod 2 ^ 64) as Ht'.
  { rewrite Ht, length_app, Nat2Z.inj_add. simpl length. dlia. }
  assert (length (pending msg ++ [b]) = S (m_cursor st)) as Hn by (rewrite length_app, <- Hc; simpl; lia).
  destruct (Nat.eqb_spec (S (m_cursor st)) 64) as [E|E].
  - rewrite processBlock_spec. rewrite take_ge in Hp' by lia.
    assert (pending (msg ++ [b]) = []) as E0.
    { rewrite pending_app, <- (app_nil_r (pending msg ++ [b])). apply pending_block_app. lia. }
    split; cbn [m_hash m_totalBytes m_buffer m_cursor]; rewrite ?E0; try done.
    by rewrite run_app, Hh, Hp', (run_block _ _ (pending msg ++ [b])) by lia.
  - assert (pending (msg ++ [b]) = pending msg ++ [b]) as E0 by (rewrite pending_app, pending_short; auto; lia).
    split; cbn [m_hash m_totalBytes m_buffer m_cursor]; rewrite ?E0; try done.
    by rewrite run_app, Hh, (run_short _ _ (pending msg ++ [b])) by lia.
Qed.

Lemma sha1_rep_addBytes input st msg : rep st msg -> rep (addBytes st input) (msg ++ input).
Proof.
  revert st msg. induction input as [|b input IH]; intros st msg H; simpl.
  { by rewrite app_nil_r. }
  rewrite (app_assoc msg [b] input : msg ++ b :: input = _). by apply IH, sha1_rep_addByte.
Qed.

Lemma sha1_rep_fold chunks st msg : rep st msg -> rep (fold_left addBytes chunks st) (msg ++ concat chunks).
Proof.
  revert st msg. induction chunks as [|c chunks IH]; intros st msg H; simpl.
  { by rewrite app_nil_r. }
  rewrite app_assoc. by apply IH, sha1_rep_addBytes.
Qed.

(** ** Finalisation *)

Lemma finalize_hash st msg :
  rep st msg ->
  m_hash (finalize st) = hash_state compress sha1_iv msg (be_bytes 8 (8 * Z.of_nat (length msg))).
Proof.
  intros [Hh Ht Hl Hc Hp]. unfold finalize. cbn [m_cursor m_buffer m_totalBytes m_hash].
  rewrite (hash_state_final compress) by apply length_be_bytes.
  pose proof (pending_lt msg) as Hlt. rewrite <- Hc in Hlt |- *.
  assert (be_bytes 8 (u64 (m_totalBytes st * 8)) = be_bytes 8 (8 * Z.of_nat (length msg))) as Eb.
  { unfold be_bytes. rewrite <- (le_bytes_mod 8 (8 * _)). do 2 f_equal. rewrite Ht.
    change (8 * Z.of_nat 8) with 64. unfold wrapN. rewrite Zmult_mod_idemp_l. f_equal. lia. }
  set (c := m_cursor st) in *. rewrite insert_memcpy by lia.
  assert (forall n, (S c + n <= 64)%nat ->
    memcpy_at (S c) (replicate n 0) (memcpy_at c [0x80] (m_buffer st)) =
      pending msg ++ ([0x80] ++ replicate n 0) ++ drop (S c + n) (m_buffer st)) as Em.
  { intros n Hn. rewrite <- Nat.add_1_r. rewrite (memcpy_then c [0x80]) by (simpl; lia).
    unfold memcpy_at. rewrite Hp. f_equal. f_equal. f_equal. rewrite length_app, length_replicate. simpl. lia. }
  assert (length (pending msg) = c) as Hc' by done.
  assert (forall buf l, length buf = 64%nat -> take 56 buf = l -> 
    store_be 56 8 (u64 (m_totalBytes st * 8)) buf = l ++ be_bytes 8 (8 * Z.of_nat (length msg))) as Es.
  { intros buf l Hbuf <-. rewrite store_be_spec by lia. rewrite Eb. unfold memcpy_at.
    rewrite length_be_bytes, (drop_ge buf), app_nil_r by lia. done. }
  destruct (Nat.ltb_spec 56 (S c)), (Nat.ltb_spec c 56); try lia.
  - rewrite !processBlock_spec. cbn [m_cursor m_buffer m_totalBytes m_hash].
    rewrite (zero_fill_spec (S c)) by (rewrite length_memcpy_at; simpl; lia).
    rewrite Em by lia. rewrite drop_ge, app_nil_r by lia.
    set (blk := pending msg ++ _).
    assert (length blk = 64%nat) as Hblk
      by (unfold blk; rewrite length_app, Hc', length_app, length_replicate; simpl; lia).
    rewrite (zero_fill_spec 0) by lia. change (56 - 0)%nat with 56%nat.
    rewrite (Es _ (replicate 56 0)).
    + rewrite Hh. unfold blk. by replace (64 - S c)%nat with (63 - c)%nat by lia.
    + rewrite length_memcpy_at; rewrite ?length_replicate; lia.
    + exact (take_memcpy_at 0 (replicate 56 0) blk ltac:(lia)).
  - rewrite !processBlock_spec. cbn [m_cursor m_buffer m_totalBytes m_hash].
    rewrite zero_fill_spec by (rewrite length_memcpy_at; simpl; lia).
    rewrite Em by lia.
    rewrite (Es _ (pending msg ++ [0x80] ++ replicate (55 - c) 0)).
    + rewrite Hh. by rewrite <- !app_assoc.
    + rewrite !length_app, length_drop, length_replicate. simpl. lia.
    + replace (56 - S c)%nat with (55 - c)%nat by lia. rewrite app_assoc.
      apply take_app_length'. rewrite !length_app, length_replicate. simpl. lia.
Qed.

End SHA1Facts.

Module SHA1Props.
Import Code.
Import RFC3174.
Import SHA1Facts.


(** The test vector of SHA1.cpp. *)
Example sha1_abc :
  fst (computeHash (addBytes (SHA1_new (mkSHA1 [] 0 0 sha1_iv)) (str "abc"))) =
  [0xA9; 0x99; 0x3E; 0x36; 0x47; 0x06; 0x81; 0x6A; 0xBA; 0x3E;
   0x25; 0x71; 0x78; 0x50; 0xC2; 0x6C; 0x9C; 0xD0; 0xD8; 0x9D].
Proof. vm_compute. reflexivity. Qed.

End SHA1Props.
