(* ===== verification/Base64.v ===== *)
(** * Base64 (WebCore/platform/text/Base64.cpp)

    Used for data URLs, HTTP Basic credentials, MHTML parts and the WebSocket
    key.  [Code] translates the encoder with its line feeds and the decoder,
    which works in place in the output vector; [Spec] has RFC 4648. *)
From S2P Require Import Prelude.

Module Code.

Definition base64EncMap : list Z :=
  [ 65; 66; 67; 68; 69; 70; 71; 72;
    73; 74; 75; 76; 77; 78; 79; 80;
    81; 82; 83; 84; 85; 86; 87; 88;
    89; 90; 97; 98; 99; 100; 101; 102;
    103; 104; 105; 106; 107; 108; 109; 110;
    111; 112; 113; 114; 115; 116; 117; 118;
    119; 120; 121; 122; 48; 49; 50; 51;
    52; 53; 54; 55; 56; 57; 43; 47 ].

Definition base64DecMap : list Z :=
  [ 0; 0; 0; 0; 0; 0; 0; 0;
    0; 0; 0; 0; 0; 0; 0; 0;
    0; 0; 0; 0; 0; 0; 0; 0;
    0; 0; 0; 0; 0; 0; 0; 0;
    0; 0; 0; 0; 0; 0; 0; 0;
    0; 0; 0; 62; 0; 0; 0; 63;
    52; 53; 54; 55; 56; 57; 58; 59;
    60; 61; 0; 0; 0; 0; 0; 0;
    0; 0; 1; 2; 3; 4; 5; 6;
    7; 8; 9; 10; 11; 12; 13; 14;
    15; 16; 17; 18; 19; 20; 21; 22;
    23; 24; 25; 0; 0; 0; 0; 0;
    0; 26; 27; 28; 29; 30; 31; 32;
    33; 34; 35; 36; 37; 38; 39; 40;
    41; 42; 43; 44; 45; 46; 47; 48;
    49; 50; 51; 0; 0; 0; 0; 0 ].

Definition UINT_MAX : Z := 2 ^ 32 - 1.
Definition maxInputBufferSize : Z := UINT_MAX / 77 * 76 / 4 * 3 - 2.
Definition enc (x : Z) : Z := at_ base64EncMap (Z.to_nat x).
Definition dec (ch : Z) : Z := at_ base64DecMap (Z.to_nat ch).

(** The main loop, [while (sidx < len - 2)]: what is written, the data from
    [sidx] on and [count]. *)
Fixpoint encode_loop (insertLFs : bool) (data : list Z) (count : Z) : list Z * list Z * Z :=
  match data with
  | d0 :: d1 :: d2 :: rest =>
      let lf := if insertLFs && negb (count =? 0) && (count mod 76 =? 0) then [10] else [] in
      let count := if insertLFs then count + 4 else count in
      let group :=
        [ enc (Z.land (Z.shiftr d0 2) 63);
          enc (Z.lor (Z.land (Z.shiftr d1 4) 15) (Z.land (Z.shiftl d0 4) 63));
          enc (Z.lor (Z.land (Z.shiftr d2 6) 3) (Z.land (Z.shiftl d1 2) 63));
          enc (Z.land d2 63) ] in
      let '(out, data, count) := encode_loop insertLFs rest count in
      (lf ++ group ++ out, data, count)
  | _ => ([], data, count)
  end.

(** [base64Encode(data, len, out, insertLFs)].  The vector is grown to
    [outLength]; what the loops do not write is filled with '='. *)
Definition base64Encode (data : list Z) (insertLFs : bool) : list Z :=
  let len := Z.of_nat (length data) in
  if len =? 0 then []
  else
    (* If the input string is pathologically large, just return nothing. *)
    if (maxInputBufferSize <? len)%Z then []
    else
      let outLength := (len + 2) / 3 * 4 in
      let insertLFs := insertLFs && (76 <? outLength)%Z in
      let outLength := if insertLFs then outLength + (outLength - 1) / 76 else outLength in
      let '(out, rest, count) := encode_loop insertLFs data 0 in
      let out :=
        match rest with
        | [] => out
        | d0 :: tail =>
            let lf := if insertLFs && (0 <? count)%Z && (count mod 76 =? 0) then [10] else [] in
            out ++ lf ++ enc (Z.land (Z.shiftr d0 2) 63) ::
            match tail with
            | d1 :: _ =>
                [ enc (Z.lor (Z.land (Z.shiftr d1 4) 15) (Z.land (Z.shiftl d0 4) 63));
                  enc (Z.land (Z.shiftl d1 2) 63) ]
            | [] => [enc (Z.land (Z.shiftl d0 4) 63)]
            end
        end in
      out ++ replicate (Z.to_nat outLength - length out) 61.

Inductive Base64DecodePolicy := FailOnInvalidCharacter | IgnoreWhitespace | IgnoreInvalidCharacters.

#[global] Instance Base64DecodePolicy_eq_dec : EqDecision Base64DecodePolicy.
Proof. solve_decision. Defined.

Definition isBase64 (ch : Z) : bool :=
  ((48 <=? ch) && (ch <=? 57)) || ((65 <=? ch) && (ch <=? 90)) || ((97 <=? ch) && (ch <=? 122))
  || (ch =? 43) || (ch =? 47).

Section Decode.
(** [Unicode::direction(c) == WhiteSpaceNeutral], from the platform's Unicode
    tables: only consulted above 0x7F. *)
Context (whiteSpaceNeutral : Z -> bool).
(** The bytes of freshly grown vector storage: [Vector<char>::grow] does not
    initialise them. *)
Context (fresh : nat -> Z).

(** The first loop: [None] is a return of false; otherwise the digits stored
    from the front of [out], and [sawEqualsSign]. *)
Fixpoint decode_scan (policy : Base64DecodePolicy) (sawEqualsSign : bool) (data : list Z)
    : option (list Z * bool) :=
  match data with
  | [] => Some ([], sawEqualsSign)
  | ch :: rest =>
      if ch =? 61 then decode_scan policy true rest
      else if isBase64 ch then
        if sawEqualsSign then None
        else
          match decode_scan policy sawEqualsSign rest with
          | None => None
          | Some (out, saw) => Some (dec ch :: out, saw)
          end
      else if bool_decide (policy = FailOnInvalidCharacter)
           || (bool_decide (policy = IgnoreWhitespace) && negb (isSpaceOrNewline whiteSpaceNeutral ch)) then None
      else decode_scan policy sawEqualsSign rest
  end.

Definition low8 (out : list Z) (sidx : nat) : Z :=
  Z.lor (Z.land (Z.shiftl (at_ out sidx) 2) 255) (Z.land (Z.shiftr (at_ out (sidx + 1)) 4) 3).
Definition mid8 (out : list Z) (sidx : nat) : Z :=
  Z.lor (Z.land (Z.shiftl (at_ out (sidx + 1)) 4) 255) (Z.land (Z.shiftr (at_ out (sidx + 2)) 2) 15).
Definition high8 (out : list Z) (sidx : nat) : Z :=
  Z.lor (Z.land (Z.shiftl (at_ out (sidx + 2)) 6) 255) (Z.land (at_ out (sidx + 3)) 63).

(** [while (didx < outLength - 2)]: four digits to three bytes, in place. *)
Fixpoint decode_loop (fuel : nat) (outLength : nat) (out : list Z) (sidx didx : nat)
    : list Z * nat * nat :=
  match fuel with
  | O => (out, sidx, didx)
  | S fuel' =>
      if (didx <? outLength - 2)%nat then
        let out := <[didx := low8 out sidx]> out in
        let out := <[(didx + 1)%nat := mid8 out sidx]> out in
        let out := <[(didx + 2)%nat := high8 out sidx]> out in
        decode_loop fuel' outLength out (sidx + 4) (didx + 3)
      else (out, sidx, didx)
  end.

(** [base64DecodeInternal(data, len, out, policy)]: [None] for false. *)
Definition base64Decode (data : list Z) (policy : Base64DecodePolicy) : option (list Z) :=
  if (length data =? 0)%nat then Some []
  else
    match decode_scan policy false data with None => None | Some (digits, sawEqualsSign) =>
    (* out.grow(len): what the scan does not write stays uninitialised *)
    let out := digits ++ map fresh (seq (length digits) (length data - length digits)) in
    let outLength := length digits in
    if (outLength =? 0)%nat then
      if sawEqualsSign then None else Some out
    else if (outLength mod 4 =? 1)%nat then None
    else
      let outLength := (outLength - (outLength + 3) / 4)%nat in
      if (outLength =? 0)%nat then None
      else
        let '(out, sidx, didx) :=
          if (1 <? outLength)%nat then decode_loop outLength outLength out 0 0 else (out, 0%nat, 0%nat) in
        let out := if (didx <? outLength)%nat then <[didx := low8 out sidx]> out else out in
        let didx := S didx in
        let out := if (didx <? outLength)%nat then <[didx := mid8 out sidx]> out else out in
        Some (if (outLength <? length out)%nat then take outLength out else out)
    end.

End Decode.
End Code.

(** * RFC 4648 *)
Module Spec.

Definition alphabet : list Z :=
  str "ABCDEFGHIJKLMNOPQRSTUVWXYZabcdefghijklmnopqrstuvwxyz0123456789+/".
Definition digit (x : Z) : Z := at_ alphabet (Z.to_nat x).

(** The four 6-bit digits of three bytes taken as one number. *)
Definition digits24 (n : Z) : list Z :=
  [digit (n / 2 ^ 18); digit (n / 2 ^ 12 mod 64); digit (n / 2 ^ 6 mod 64); digit (n mod 64)].

Fixpoint b64 (data : list Z) : list Z :=
  match data with
  | a :: b :: c :: rest => digits24 (a * 2 ^ 16 + b * 2 ^ 8 + c) ++ b64 rest
  | [a; b] => take 3 (digits24 (a * 2 ^ 16 + b * 2 ^ 8)) ++ [61]
  | [a] => take 2 (digits24 (a * 2 ^ 16)) ++ [61; 61]
  | [] => []
  end.

(** A line feed before every character whose index is a positive multiple of
    76; [p] is the index of the first character of [l]. *)
Fixpoint with_LFs (p : Z) (l : list Z) : list Z :=
  match l with
  | [] => []
  | x :: l' =>
      (if negb (p =? 0) && (p mod 76 =? 0) then [10] else []) ++ x :: with_LFs (p + 1) l'
  end.

(** The value of an alphabet character, and the bytes of a digit sequence. *)
Definition value (ch : Z) : Z :=
  if (65 <=? ch) && (ch <=? 90) then ch - 65
  else if (97 <=? ch) && (ch <=? 122) then ch - 97 + 26
  else if (48 <=? ch) && (ch <=? 57) then ch - 48 + 52
  else if ch =? 43 then 62 else 63.

Fixpoint bytes_of (ds : list Z) : list Z :=
  match ds with
  | a :: b :: c :: d :: rest =>
      let n := a * 2 ^ 18 + b * 2 ^ 12 + c * 2 ^ 6 + d in
      [n / 2 ^ 16; n / 2 ^ 8 mod 256; n mod 256] ++ bytes_of rest
  | [a; b; c] => let n := a * 2 ^ 12 + b * 2 ^ 6 + c in [n / 2 ^ 10; n / 2 ^ 2 mod 256]
  | [a; b] => [(a * 2 ^ 6 + b) / 2 ^ 4]
  | _ => []
  end.

(** What a policy lets stand between the digits. *)
Definition skipped (ws : Z -> bool) (policy : Code.Base64DecodePolicy) (ch : Z) : bool :=
  match policy with
  | Code.FailOnInvalidCharacter => false
  | Code.IgnoreWhitespace => isSpaceOrNewline ws ch
  | Code.IgnoreInvalidCharacters => true
  end.

(** Every character is a digit, an equals sign or skipped, and no digit follows
    an equals sign. *)
Definition acceptable (ws : Z -> bool) (policy : Code.Base64DecodePolicy) (data : list Z) : bool :=
  forallb (fun ch => (ch =? 61) || Code.isBase64 ch || skipped ws policy ch) data &&
  forallb (fun ch => negb (Code.isBase64 ch)) (drop (span_len (fun ch => negb (ch =? 61)) data) data).

(** The digits of an input, in order. *)
Definition digits_of (data : list Z) : list Z := map value (List.filter Code.isBase64 data).

End Spec.

Module Base64Facts.
Import Code Spec.

(** ** Encoding *)

Lemma three_ind (P : list Z -> Prop) :
  P [] -> (forall a, P [a]) -> (forall a b, P [a; b]) ->
  (forall a b c l, P l -> P (a :: b :: c :: l)) -> forall l, P l.
Proof.
  intros H0 H1 H2 H3. fix IH 1. intros [|a [|b [|c l]]]; [done..|]. apply H3, IH.
Qed.

Lemma sextet1 a : is_byte a -> Z.land (Z.shiftr a 2) 63 = a / 4.
Proof.
  intros. change 63 with (Z.ones 6). rewrite Z.land_ones, Z.shiftr_div_pow2 by lia. dlia.
Qed.

Lemma sextet2 a b : is_byte b ->
  Z.lor (Z.land (Z.shiftr b 4) 15) (Z.land (Z.shiftl a 4) 63) = (a mod 4) * 16 + b / 16.
Proof.
  intros. change 63 with (Z.ones 6). change 15 with (Z.ones 4).
  rewrite !Z.land_ones, Z.shiftr_div_pow2, Z.shiftl_mul_pow2 by lia.
  replace ((a * 2 ^ 4) mod 2 ^ 6) with ((a mod 4) * 2 ^ 4) by dlia.
  rewrite Z.lor_comm, lor_add; dlia.
Qed.

Lemma sextet3 b c : is_byte c ->
  Z.lor (Z.land (Z.shiftr c 6) 3) (Z.land (Z.shiftl b 2) 63) = (b mod 16) * 4 + c / 64.
Proof.
  intros. change 63 with (Z.ones 6). change 3 with (Z.ones 2).
  rewrite !Z.land_ones, Z.shiftr_div_pow2, Z.shiftl_mul_pow2 by lia.
  replace ((b * 2 ^ 2) mod 2 ^ 6) with ((b mod 16) * 2 ^ 2) by dlia.
  rewrite Z.lor_comm, lor_add; dlia.
Qed.

Lemma sextet4 c : Z.land c 63 = c mod 64.
Proof. change 63 with (Z.ones 6). by rewrite Z.land_ones. Qed.

Lemma shl_sextet x k : 0 <= k -> Z.land (Z.shiftl x k) 63 = (x * 2 ^ k) mod 64.
Proof. intros. by rewrite sextet4, Z.shiftl_mul_pow2. Qed.

(** The digits the code computes for a group are those of the 24-bit number. *)
Lemma group_digits a b c :
  is_byte a -> is_byte b -> is_byte c ->
  [ enc (Z.land (Z.shiftr a 2) 63);
    enc (Z.lor (Z.land (Z.shiftr b 4) 15) (Z.land (Z.shiftl a 4) 63));
    enc (Z.lor (Z.land (Z.shiftr c 6) 3) (Z.land (Z.shiftl b 2) 63));
    enc (Z.land c 63) ] = digits24 (a * 2 ^ 16 + b * 2 ^ 8 + c).
Proof.
  intros. rewrite sextet1, sextet2, sextet3, sextet4 by done.
  unfold digits24. change enc with digit. cons_eq; apply f_equal; dlia.
Qed.

(** With or without line feeds. *)
Definition lay_out (insertLFs : bool) (p : Z) (l : list Z) : list Z :=
  if insertLFs then with_LFs p l else l.

Lemma with_LFs_app p l1 l2 :
  with_LFs p (l1 ++ l2) = with_LFs p l1 ++ with_LFs (p + Z.of_nat (length l1)) l2.
Proof.
  revert p. induction l1 as [|x l1 IH]; intros p; cbn [app with_LFs length].
  { by rewrite Z.add_0_r. }
  rewrite IH, <- app_assoc. cbn. do 4 f_equal. lia.
Qed.

(** Inside a line only the first character of a group can start a line. *)
Lemma with_LFs_group p x0 x1 x2 x3 :
  0 <= p -> p mod 4 = 0 ->
  with_LFs p [x0; x1; x2; x3] =
    (if negb (p =? 0) && (p mod 76 =? 0) then [10] else []) ++ [x0; x1; x2; x3].
Proof.
  intros H0 H4. cbn [with_LFs]. f_equal. cbn. do 3 f_equal;
    repeat match goal with |- context [if ?b then _ else _] =>
      replace b with false by (symmetry; apply andb_false_intro2; apply Z.eqb_neq; dlia)
    end; done.
Qed.

(** What the code writes after the loop, without the padding. *)
Definition tail_of (insertLFs : bool) (rest : list Z) (count : Z) : list Z :=
  match rest with
  | [] => []
  | d0 :: tail =>
      let lf := if insertLFs && (0 <? count)%Z && (count mod 76 =? 0) then [10] else [] in
      lf ++ enc (Z.land (Z.shiftr d0 2) 63) ::
      match tail with
      | d1 :: _ =>
          [ enc (Z.lor (Z.land (Z.shiftr d1 4) 15) (Z.land (Z.shiftl d0 4) 63));
            enc (Z.land (Z.shiftl d1 2) 63) ]
      | [] => [enc (Z.land (Z.shiftl d0 4) 63)]
      end
  end.

Definition pad_of (rest : list Z) : nat :=
  match rest with [] => 0 | [_] => 2 | _ => 1 end.

Lemma b64_two a b : is_byte a -> is_byte b ->
  [ enc (Z.land (Z.shiftr a 2) 63);
    enc (Z.lor (Z.land (Z.shiftr b 4) 15) (Z.land (Z.shiftl a 4) 63));
    enc (Z.land (Z.shiftl b 2) 63); 61 ] = b64 [a; b].
Proof.
  intros. rewrite sextet1, sextet2, shl_sextet by (done || lia).
  cbn -[digit Z.pow Z.modulo Z.div]. change enc with digit. cons_eq; try done; apply f_equal; dlia.
Qed.

Lemma b64_one a : is_byte a ->
  [ enc (Z.land (Z.shiftr a 2) 63); enc (Z.land (Z.shiftl a 4) 63); 61; 61 ] = b64 [a].
Proof.
  intros. rewrite sextet1, shl_sextet by (done || lia).
  cbn -[digit Z.pow Z.modulo Z.div]. change enc with digit. cons_eq; try done; apply f_equal; dlia.
Qed.

Lemma encode_loop_spec lf data count :
  bytes_ok data -> 0 <= count -> count mod 4 = 0 ->
  let '(out, rest, count') := encode_loop lf data count in
  (out ++ tail_of lf rest count') ++ replicate (pad_of rest) 61 = lay_out lf count (b64 data).
Proof.
  revert count. induction data as [|a|a b|a b c data IH] using three_ind;
    intros count Hd H0 H4; cbn [encode_loop].
  - by destruct lf.
  - apply bytes_ok_cons in Hd as [Ha _]. rewrite <- b64_one by done. destruct lf; cbn [lay_out]; [|done].
    rewrite with_LFs_group by done. cbn. rewrite <- app_assoc. f_equal.
    destruct (Z.ltb_spec 0 count), (Z.eqb_spec count 0); try lia; done.
  - apply bytes_ok_cons in Hd as [Ha [Hb _]%bytes_ok_cons]. rewrite <- b64_two by done.
    destruct lf; cbn [lay_out]; [|done].
    rewrite with_LFs_group by done. cbn. rewrite <- app_assoc. f_equal.
    destruct (Z.ltb_spec 0 count), (Z.eqb_spec count 0); try lia; done.
  - apply bytes_ok_cons in Hd as [Ha [Hb [Hc Hd]%bytes_ok_cons]%bytes_ok_cons].
    specialize (IH (if lf then count + 4 else count) Hd).
    destruct (encode_loop lf data (if lf then count + 4 else count)) as [[out rest] count'].
    rewrite group_digits by done. cbn [b64].
    destruct lf; cbn [lay_out andb] in *.
    + rewrite with_LFs_app. unfold digits24 at 2. rewrite with_LFs_group by done.
      change (Z.of_nat (length (digits24 (a * 2 ^ 16 + b * 2 ^ 8 + c)))) with 4.
      rewrite <- IH by dlia. by rewrite !app_assoc.
    + rewrite <- IH by done. by rewrite !app_assoc.
Qed.

Lemma length_b64 data : Z.of_nat (length (b64 data)) = (Z.of_nat (length data) + 2) / 3 * 4.
Proof.
  induction data as [|a|a b|a b c data IH] using three_ind; [done..|].
  cbn [b64]. rewrite length_app, Nat2Z.inj_add, IH. cbn [length digits24]. dlia.
Qed.

Lemma length_with_LFs p l :
  0 <= p ->
  Z.of_nat (length (with_LFs p l)) =
    Z.of_nat (length l) + ((p + Z.of_nat (length l) - 1) / 76 - (p - 1) / 76)
      - (if (p =? 0) && negb (length l =? 0)%nat then 1 else 0).
Proof.
  revert p. induction l as [|x l IH]; intros p Hp.
  { cbn. rewrite andb_false_r. rewrite Z.add_0_r. lia. }
  cbn [with_LFs length]. rewrite length_app, Nat2Z.inj_add. cbn [length].
  rewrite Nat2Z.inj_succ, IH by lia.
  replace ((p + 1 =? 0) && negb (length l =? 0)%nat) with false by lia.
  rewrite andb_true_r. destruct (Z.eqb_spec p 0), (Z.eqb_spec (p mod 76) 0); cbn [negb andb length];
    dlia.
Qed.

(** ** Decoding *)

Lemma dec_value ch : isBase64 ch = true -> dec ch = value ch.
Proof.
  intros H. assert (0 <= ch < 2 ^ Z.of_nat 7) as Hr by (unfold isBase64 in H; zpow; lia).
  pose proof (range_check 7 (fun c => negb (isBase64 c) || (dec c =? value c))
    ltac:(vm_compute; reflexivity) ch Hr) as E.
  cbv beta in E. rewrite H in E. cbn [negb orb] in E. by apply Z.eqb_eq.
Qed.

Section Decode.
Context (ws : Z -> bool) (fresh : nat -> Z).

Lemma digits_of_cons ch data :
  digits_of (ch :: data) = if isBase64 ch then value ch :: digits_of data else digits_of data.
Proof. unfold digits_of. simpl. by destruct (isBase64 ch). Qed.

Lemma scan_policy policy ch :
  bool_decide (policy = FailOnInvalidCharacter)
    || (bool_decide (policy = IgnoreWhitespace) && negb (isSpaceOrNewline ws ch))
  = negb (skipped ws policy ch).
Proof. by destruct policy. Qed.

Lemma decode_scan_after policy data :
  decode_scan ws policy true data =
    if forallb (fun ch => (ch =? 61) || isBase64 ch || skipped ws policy ch) data
       && forallb (fun ch => negb (isBase64 ch)) data
    then Some ([], true) else None.
Proof.
  induction data as [|ch data IH]; [done|]. cbn [decode_scan forallb].
  rewrite scan_policy, IH. destruct (Z.eqb_spec ch 61) as [->|]; [done|]. cbn [orb].
  destruct (isBase64 ch); cbn [orb negb andb]; [by rewrite andb_false_r|].
  by destruct (skipped ws policy ch).
Qed.

Lemma decode_scan_spec policy data :
  decode_scan ws policy false data =
    if acceptable ws policy data
    then Some (digits_of data, existsb (fun ch => ch =? 61) data) else None.
Proof.
  unfold acceptable.
  induction data as [|ch data IH]; [done|]. cbn [decode_scan forallb span_len existsb].
  rewrite scan_policy, digits_of_cons. destruct (Z.eqb_spec ch 61) as [->|]; cbn [negb orb].
  - rewrite decode_scan_after. cbn [drop forallb]. change (isBase64 61) with false. cbn [negb andb orb].
    destruct (forallb _ data && forallb _ data) eqn:E; [|done].
    apply andb_true_iff in E as [_ E]. do 2 f_equal.
    clear IH. induction data as [|c data IH]; [done|]. cbn [forallb] in E. bprop.
    rewrite digits_of_cons, H. by apply IH.
  - cbn [drop]. rewrite IH. destruct (isBase64 ch) eqn:E; cbn [orb].
    + rewrite dec_value by done. cbn [andb]. by destruct (_ && _).
    + by destruct (skipped ws policy ch).
Qed.

(** *** The in-place conversion *)

Definition sextets (l : list Z) : Prop := Forall (fun x => 0 <= x < 64) l.

Lemma value_range ch : isBase64 ch = true -> 0 <= value ch < 64.
Proof. unfold isBase64, value. intros. repeat casif; lia. Qed.

Lemma digits_of_sextets data : sextets (digits_of data).
Proof.
  unfold sextets. induction data as [|ch data IH]; [constructor|]. rewrite digits_of_cons.
  destruct (isBase64 ch) eqn:E; [|done]. constructor; [by apply value_range|done].
Qed.

Lemma octet1 a b : 0 <= a < 64 -> 0 <= b < 64 ->
  Z.lor (Z.land (Z.shiftl a 2) 255) (Z.land (Z.shiftr b 4) 3) = a * 4 + b / 16.
Proof.
  intros. change 255 with (Z.ones 8). change 3 with (Z.ones 2).
  rewrite !Z.land_ones, Z.shiftr_div_pow2, Z.shiftl_mul_pow2 by lia.
  replace ((a * 2 ^ 2) mod 2 ^ 8) with (a * 2 ^ 2) by dlia. rewrite lor_add; dlia.
Qed.

Lemma octet2 b c : 0 <= b < 64 -> 0 <= c < 64 ->
  Z.lor (Z.land (Z.shiftl b 4) 255) (Z.land (Z.shiftr c 2) 15) = b mod 16 * 16 + c / 4.
Proof.
  intros. change 255 with (Z.ones 8). change 15 with (Z.ones 4).
  rewrite !Z.land_ones, Z.shiftr_div_pow2, Z.shiftl_mul_pow2 by lia.
  replace ((b * 2 ^ 4) mod 2 ^ 8) with (b mod 16 * 2 ^ 4) by dlia. rewrite lor_add; dlia.
Qed.

Lemma octet3 c d : 0 <= c < 64 -> 0 <= d < 64 ->
  Z.lor (Z.land (Z.shiftl c 6) 255) (Z.land d 63) = c mod 4 * 64 + d.
Proof.
  intros. change 255 with (Z.ones 8). change 63 with (Z.ones 6).
  rewrite !Z.land_ones, Z.shiftl_mul_pow2 by lia.
  replace ((c * 2 ^ 6) mod 2 ^ 8) with (c mod 4 * 2 ^ 6) by dlia. rewrite lor_add; dlia.
Qed.

(** The buffer after some groups: [done_] bytes at its front, and the digits
    still to be converted, [ds], at [sidx]. *)
Definition view (out done_ ds : list Z) (sidx : nat) : Prop :=
  take (length done_) out = done_ /\ (length done_ <= sidx)%nat /\
  forall j, (j < length ds)%nat -> out !! (sidx + j)%nat = ds !! j.

Lemma view_at out done_ ds sidx j x :
  view out done_ ds sidx -> ds !! j = Some x -> at_ out (sidx + j) = x.
Proof.
  intros (_ & _ & H) E. unfold at_. rewrite H, E; [done|]. by eapply lookup_lt_Some.
Qed.

(** Writing the next byte keeps the digits behind it. *)
Lemma view_write out done_ d ds sidx x :
  view out done_ (d :: ds) sidx ->
  view (<[length done_ := x]> out) (done_ ++ [x]) ds (S sidx).
Proof.
  intros (H1 & H2 & H3).
  assert (length done_ < length out)%nat as Hl.
  { pose proof (H3 0%nat ltac:(simpl; lia)) as E. apply lookup_lt_Some in E. lia. }
  split_and!.
  - rewrite length_app. simpl length. rewrite insert_memcpy by done.
    rewrite (take_memcpy_at _ [x] out) by lia. by rewrite H1.
  - rewrite length_app. simpl. lia.
  - intros j Hj. rewrite list_lookup_insert_ne by lia.
    replace (S sidx + j)%nat with (sidx + S j)%nat by lia. apply H3. simpl. lia.
Qed.

Lemma view_skip out done_ d ds sidx :
  view out done_ (d :: ds) sidx -> view out done_ ds (S sidx).
Proof.
  intros (H1 & H2 & H3). split_and!; [done|lia|]. intros j Hj.
  replace (S sidx + j)%nat with (sidx + S j)%nat by lia. apply H3. simpl. lia.
Qed.

Lemma view_low out done_ a b ds sidx :
  view out done_ (a :: b :: ds) sidx -> 0 <= a < 64 -> 0 <= b < 64 ->
  low8 out sidx = a * 4 + b / 16.
Proof.
  intros V Ha Hb. unfold low8. rewrite <- (Nat.add_0_r sidx) at 1.
  rewrite (view_at _ _ _ _ 0 a V), (view_at _ _ _ _ 1 b V) by done. by apply octet1.
Qed.

Lemma view_mid out done_ b c ds sidx :
  view out done_ (b :: c :: ds) (S sidx) -> 0 <= b < 64 -> 0 <= c < 64 ->
  mid8 out sidx = b mod 16 * 16 + c / 4.
Proof.
  intros V Hb Hc. unfold mid8.
  replace (sidx + 1)%nat with (S sidx + 0)%nat by lia.
  replace (sidx + 2)%nat with (S sidx + 1)%nat by lia.
  rewrite (view_at _ _ _ _ 0 b V), (view_at _ _ _ _ 1 c V) by done. by apply octet2.
Qed.

Lemma view_high out done_ c d ds sidx :
  view out done_ (c :: d :: ds) (S (S sidx)) -> 0 <= c < 64 -> 0 <= d < 64 ->
  high8 out sidx = c mod 4 * 64 + d.
Proof.
  intros V Hc Hd. unfold high8.
  replace (sidx + 2)%nat with (S (S sidx) + 0)%nat by lia.
  replace (sidx + 3)%nat with (S (S sidx) + 1)%nat by lia.
  rewrite (view_at _ _ _ _ 0 c V), (view_at _ _ _ _ 1 d V) by done. by apply octet3.
Qed.

Lemma decode_step out done_ a b c d ds sidx :
  view out done_ (a :: b :: c :: d :: ds) sidx -> sextets (a :: b :: c :: d :: ds) ->
  let didx := length done_ in
  let out := <[didx := low8 out sidx]> out in
  let out := <[(didx + 1)%nat := mid8 out sidx]> out in
  let out := <[(didx + 2)%nat := high8 out sidx]> out in
  view out (done_ ++ take 3 (bytes_of [a; b; c; d])) ds (sidx + 4).
Proof.
  intros V S. unfold sextets in S. rewrite !Forall_cons_iff in S. destruct S as (Ha & Hb & Hc & Hd & _).
  cbv zeta. rewrite (view_low _ _ _ _ _ _ V) by done.
  pose proof (view_write _ _ _ _ _ (a * 4 + b / 16) V) as V1.
  rewrite (view_mid _ _ _ _ _ _ V1) by done.
  pose proof (view_write _ _ _ _ _ (b mod 16 * 16 + c / 4) V1) as V2.
  rewrite length_app in V2. simpl length in V2.
  rewrite (view_high _ _ _ _ _ _ V2) by done.
  pose proof (view_write _ _ _ _ _ (c mod 4 * 64 + d) V2) as V3.
  rewrite !length_app in V3. simpl length in V3. apply view_skip in V3.
  rewrite <- !app_assoc in V3. cbn [app] in V3.
  replace (sidx + 4)%nat with (Datatypes.S (Datatypes.S (Datatypes.S (Datatypes.S sidx)))) by lia.
  replace (length done_ + 2)%nat with (length done_ + 1 + 1)%nat by lia.
  replace (take 3 (bytes_of [a; b; c; d])) with [a * 4 + b / 16; b mod 16 * 16 + c / 4; c mod 4 * 64 + d];
    [exact V3|]. cbn -[Z.pow Z.div Z.modulo]. cons_eq; dlia.
Qed.

(** The number of bytes of [n] digits, as the code computes it. *)
Definition out_length (n : nat) : nat := (n - (n + 3) / 4)%nat.

Lemma bytes_of_step a b c d ds :
  bytes_of (a :: b :: c :: d :: ds) = take 3 (bytes_of [a; b; c; d]) ++ bytes_of ds.
Proof. done. Qed.

Lemma out_length_step n : out_length (n + 4) = (out_length n + 3)%nat.
Proof.
  unfold out_length. replace (n + 4 + 3)%nat with (n + 3 + 1 * 4)%nat by lia.
  rewrite Nat.div_add by lia. pose proof (Nat.div_mod_eq (n + 3) 4). lia.
Qed.

Lemma decode_loop_spec fuel out done_ ds sidx N :
  view out done_ ds sidx -> sextets ds -> (out_length (length ds) <= fuel)%nat ->
  (length ds mod 4 <> 1)%nat -> N = (length done_ + out_length (length ds))%nat ->
  exists out' done' ds' sidx',
    decode_loop fuel N out sidx (length done_) = (out', sidx', length done') /\
    view out' done' ds' sidx' /\ sextets ds' /\ done' ++ bytes_of ds' = done_ ++ bytes_of ds /\
    (length ds' < 4)%nat /\ length ds' <> 1%nat /\ N = (length done' + out_length (length ds'))%nat.
Proof.
  revert out done_ ds sidx. induction fuel as [|fuel IH]; intros out done_ ds sidx V S Hf Hm HN;
    cbn [decode_loop].
  { exists out, done_, ds, sidx. unfold out_length in Hf.
    pose proof (Nat.div_mod_eq (length ds + 3) 4). split_and!; auto with lia.
    intros E. by rewrite E in Hm. }
  destruct (Nat.ltb_spec (length done_) (N - 2)) as [Hlt|Hge].
  - destruct ds as [|a [|b [|c [|d ds]]]]; try (unfold out_length in HN; simpl in HN; lia).
    pose proof (decode_step _ _ _ _ _ _ _ _ V S) as V'. cbv zeta in V'.
    assert (length (done_ ++ take 3 (bytes_of [a; b; c; d])) = length done_ + 3)%nat as E
      by (rewrite length_app; done).
    assert (length (a :: b :: c :: d :: ds) = length ds + 4)%nat as El by (simpl; lia).
    rewrite El, ?out_length_step in *. rewrite <- E.
    edestruct IH as (out' & done' & ds' & sidx' & -> & H); [exact V'| | | | |].
    + unfold sextets in S. rewrite !Forall_cons_iff in S. apply S.
    + lia.
    + rewrite <- (Nat.Div0.mod_add _ 1 4). exact Hm.
    + rewrite E, HN. lia.
    + rewrite bytes_of_step, app_assoc. by exists out', done', ds', sidx'.
  - exists out, done_, ds, sidx. split_and!; auto.
    + destruct (Nat.ltb_spec (length ds) 4); [done|].
      unfold out_length in HN. pose proof (Nat.div_mod_eq (length ds + 3) 4). lia.
    + intros E. by rewrite E in Hm.
Qed.

(** What follows the loop. *)
Definition decode_finish (N : nat) (out : list Z) (sidx didx : nat) : list Z :=
  let out := if (didx <? N)%nat then <[didx := low8 out sidx]> out else out in
  let out := if (S didx <? N)%nat then <[S didx := mid8 out sidx]> out else out in
  if (N <? length out)%nat then take N out else out.

Lemma take_if n (l : list Z) : (if (n <? length l)%nat then take n l else l) = take n l.
Proof. destruct (Nat.ltb_spec n (length l)); [done|]. by rewrite take_ge. Qed.

Lemma decode_finish_spec out done_ ds sidx :
  view out done_ ds sidx -> sextets ds -> (length ds < 4)%nat -> length ds <> 1%nat ->
  decode_finish (length done_ + out_length (length ds)) out sidx (length done_) = done_ ++ bytes_of ds.
Proof.
  intros V S H4 H1. unfold decode_finish. unfold sextets in S.
  destruct ds as [|a [|b [|c [|d ds]]]]; simpl in H4, H1; try lia;
    rewrite ?Forall_cons_iff in S.
  - replace (length done_ + out_length (length (@nil Z)))%nat with (length done_) by (cbn; lia).
    destruct (Nat.ltb_spec (length done_) (length done_)); [lia|].
    destruct (Nat.ltb_spec (Datatypes.S (length done_)) (length done_)); [lia|].
    rewrite take_if, app_nil_r. apply V.
  - destruct S as (Ha & Hb & _). change (out_length (length [a; b])) with 1%nat.
    destruct (Nat.ltb_spec (length done_) (length done_ + 1)); [|lia].
    destruct (Nat.ltb_spec (Datatypes.S (length done_)) (length done_ + 1)); [lia|].
    rewrite take_if, (view_low _ _ _ _ _ _ V) by done.
    pose proof (view_write _ _ _ _ _ (a * 4 + b / 16) V) as [E _].
    rewrite length_app in E. cbn [length] in E. rewrite E.
    f_equal. cbn -[Z.pow Z.div Z.modulo]. cons_eq; dlia.
  - destruct S as (Ha & Hb & Hc & _). change (out_length (length [a; b; c])) with 2%nat.
    destruct (Nat.ltb_spec (length done_) (length done_ + 2)); [|lia].
    destruct (Nat.ltb_spec (Datatypes.S (length done_)) (length done_ + 2)); [|lia].
    rewrite take_if, (view_low _ _ _ _ _ _ V) by done.
    pose proof (view_write _ _ _ _ _ (a * 4 + b / 16) V) as V1.
    rewrite (view_mid _ _ _ _ _ _ V1) by done.
    pose proof (view_write _ _ _ _ _ (b mod 16 * 16 + c / 4) V1) as [E _].
    rewrite !length_app in E. cbn [length] in E. rewrite <- app_assoc in E. cbn [app] in E.
    replace (length done_ + 1 + 1)%nat with (length done_ + 2)%nat in E by lia.
    replace (length done_ + 1)%nat with (Datatypes.S (length done_)) in E by lia. rewrite E.
    f_equal. cbn -[Z.pow Z.div Z.modulo]. cons_eq; dlia.
Qed.

Lemma length_digits_of data : (length (digits_of data) <= length data)%nat.
Proof.
  induction data as [|ch data IH]; [done|]. rewrite digits_of_cons.
  destruct (isBase64 ch); simpl; lia.
Qed.

(** What an accepted input decodes to.  Without a digit or an equals sign the
    vector keeps its full, uninitialised, length. *)
Definition decoded (data : list Z) : option (list Z) :=
  let ds := digits_of data in
  if (length ds =? 0)%nat then
    if existsb (fun ch => ch =? 61) data then None else Some (map fresh (seq 0 (length data)))
  else if (length ds mod 4 =? 1)%nat then None
  else Some (bytes_of ds).

Lemma base64Decode_eq policy data :
  base64Decode ws fresh data policy = if acceptable ws policy data then decoded data else None.
Proof.
  unfold base64Decode. destruct (Nat.eqb_spec (length data) 0) as [E|E].
  { by apply nil_length_inv in E as ->. }
  rewrite decode_scan_spec. destruct (acceptable ws policy data); [|done].
  unfold decoded. pose proof (digits_of_sextets data) as S. pose proof (length_digits_of data) as L.
  set (ds := digits_of data) in *.
  destruct (Nat.eqb_spec (length ds) 0) as [E0|E0].
  { apply nil_length_inv in E0. rewrite E0. cbn [length app]. by rewrite Nat.sub_0_r. }
  destruct (Nat.eqb_spec (length ds mod 4) 1) as [E1|E1]; [done|].
  destruct (Nat.eqb_spec (length ds - (length ds + 3) / 4) 0) as [E2|E2].
  { exfalso. apply E1. pose proof (Nat.div_mod_eq (length ds + 3) 4).
    by assert (length ds = 1%nat) as -> by lia. }
  fold (out_length (length ds)). set (out := ds ++ _).
  assert (view out [] ds 0) as V.
  { split_and!; [done|simpl; lia|]. intros j Hj. unfold out. by rewrite lookup_app_l. }
  fold (decode_finish (out_length (length ds))).
  destruct (Nat.ltb_spec 1 (out_length (length ds))).
  - destruct (decode_loop_spec (out_length (length ds)) out [] ds 0 (out_length (length ds)) V S)
      as (out' & done' & ds' & sidx' & El & V' & S' & Eb & H4 & H1 & EN); [lia|done|done|].
    simpl in El. rewrite El. f_equal. rewrite EN.
    transitivity (done' ++ bytes_of ds'); [|by rewrite Eb].
    by apply decode_finish_spec.
  - f_equal. transitivity ([] ++ bytes_of ds); [|done].
    apply (decode_finish_spec out [] ds 0); auto.
    + unfold out_length in *. pose proof (Nat.div_mod_eq (length ds + 3) 4). lia.
    + intros E'. by rewrite E' in E1.
Qed.

(** ** Decoding what was encoded *)

Lemma value_digit x : 0 <= x < 64 -> value (digit x) = x /\ isBase64 (digit x) = true.
Proof.
  intros Hx.
  pose proof (range_check 6 (fun x => (value (digit x) =? x) && isBase64 (digit x))
    ltac:(vm_compute; reflexivity) x Hx) as E.
  cbv beta in E. bprop. done.
Qed.

Lemma digits_of_app l1 l2 : digits_of (l1 ++ l2) = digits_of l1 ++ digits_of l2.
Proof. unfold digits_of. by rewrite List.filter_app, map_app. Qed.

Lemma digits_of_digit x l : 0 <= x < 64 -> digits_of (digit x :: l) = x :: digits_of l.
Proof. intros Hx. destruct (value_digit x Hx) as [E1 E2]. by rewrite digits_of_cons, E2, E1. Qed.

Lemma bytes_of_b64 data : bytes_ok data -> bytes_of (digits_of (b64 data)) = data.
Proof.
  induction data as [|a|a b|a b c data IH] using three_ind; intros H; rewrite ?bytes_ok_cons in H.
  - done.
  - destruct H as [Ha _]. cbv [b64 digits24 firstn app].
    rewrite !digits_of_digit by dlia. cbn -[Z.pow Z.div Z.modulo]. cons_eq; dlia.
  - destruct H as (Ha & Hb & _). cbv [b64 digits24 firstn app].
    rewrite !digits_of_digit by dlia. cbn -[Z.pow Z.div Z.modulo]. cons_eq; dlia.
  - destruct H as (Ha & Hb & Hc & Hd). cbn [b64]. unfold digits24. cbn [app].
    rewrite !digits_of_digit by dlia. rewrite bytes_of_step, IH by done.
    cbn -[Z.pow Z.div Z.modulo]. cbv [firstn]. cbn [app]. cons_eq; dlia.
Qed.

End Decode.

Lemma with_LFs_short p l : 0 <= p -> p + Z.of_nat (length l) <= 76 -> with_LFs p l = l.
Proof.
  revert p. induction l as [|x l IH]; intros p H0 H; [done|]. cbn [with_LFs length] in *.
  rewrite IH by lia. destruct (Z.eqb_spec p 0); [done|].
  rewrite Z.mod_small by lia. destruct (Z.eqb_spec p 0); [lia|done].
Qed.

Lemma base64Encode_eq data lf :
  bytes_ok data -> Z.of_nat (length data) <= maxInputBufferSize ->
  base64Encode data lf = lay_out lf 0 (b64 data).
Proof.
  intros Hd Hmax. unfold base64Encode.
  destruct (Z.eqb_spec (Z.of_nat (length data)) 0) as [E|E].
  { destruct data; [by destruct lf|simpl in E; lia]. }
  destruct (Z.ltb_spec maxInputBufferSize (Z.of_nat (length data))); [lia|].
  rewrite <- length_b64. set (l := b64 data).
  assert (0 < Z.of_nat (length l)) by (unfold l; rewrite length_b64; dlia).
  set (lf' := lf && (76 <? Z.of_nat (length l))%Z).
  assert (lay_out lf 0 l = lay_out lf' 0 l) as ->.
  { unfold lf'. destruct lf; [|done]. cbn [andb]. destruct (Z.ltb_spec 76 (Z.of_nat (length l))); [done|].
    cbn [lay_out]. by rewrite with_LFs_short by lia. }
  assert (Z.of_nat (length (lay_out lf' 0 l)) =
    if lf' then Z.of_nat (length l) + (Z.of_nat (length l) - 1) / 76 else Z.of_nat (length l)) as Hlen.
  { destruct lf'; [|done]. cbn [lay_out]. rewrite length_with_LFs by lia.
    destruct (Nat.eqb_spec (length l) 0); [lia|].
    rewrite Z.add_0_l. change ((0 - 1) / 76) with (-1). cbn [Z.eqb andb negb]. lia. }
  rewrite <- Hlen, Nat2Z.id. unfold l.
  pose proof (encode_loop_spec lf' data 0 Hd ltac:(lia) eq_refl) as Hs.
  destruct (encode_loop lf' data 0) as [[out rest] count'].
  assert (forall w, w = out ++ tail_of lf' rest count' ->
    w ++ replicate (length (lay_out lf' 0 (b64 data)) - length w) 61 = lay_out lf' 0 (b64 data)) as Hw.
  { intros w ->. rewrite <- Hs at 2. do 2 f_equal. rewrite <- Hs, (length_app (out ++ _)), length_replicate. lia. }
  apply Hw. destruct rest; [by rewrite app_nil_r|done].
Qed.

(** The encoding is digits followed by equals signs. *)
Lemma b64_shape data :
  bytes_ok data ->
  exists ds eqs, b64 data = ds ++ eqs /\ Forall (fun c => isBase64 c = true) ds /\ Forall (eq 61) eqs.
Proof.
  assert (forall x, 0 <= x < 64 -> isBase64 (digit x) = true) as D by (intros; by apply value_digit).
  induction data as [|a|a b|a b c data IH] using three_ind; intros H; rewrite ?bytes_ok_cons in H.
  - by exists [], [].
  - destruct H as [Ha _]. exists (take 2 (digits24 (a * 2 ^ 16))), [61; 61].
    cbv [digits24 firstn]. split_and!; [done|repeat constructor; apply D; dlia|repeat constructor].
  - destruct H as (Ha & Hb & _). exists (take 3 (digits24 (a * 2 ^ 16 + b * 2 ^ 8))), [61].
    cbv [digits24 firstn]. split_and!; [done|repeat constructor; apply D; dlia|repeat constructor].
  - destruct H as (Ha & Hb & Hc & Hd). destruct (IH Hd) as (ds & eqs & E & H1 & H2).
    exists (digits24 (a * 2 ^ 16 + b * 2 ^ 8 + c) ++ ds), eqs. cbn [b64]. rewrite E.
    split_and!; [by rewrite app_assoc| |done]. apply Forall_app. split; [|done].
    unfold digits24. repeat constructor; apply D; dlia.
Qed.

Lemma with_LFs_all (P : Z -> Prop) p l : P 10 -> Forall P l -> Forall P (with_LFs p l).
Proof.
  intros H10 H. revert p. induction H as [|x l Hx _ IH]; intros p; cbn [with_LFs]; [done|].
  apply Forall_app. split; [|by constructor].
  destruct (_ && _); [by constructor|done].
Qed.

Lemma lay_out_app lf p l1 l2 :
  lay_out lf p (l1 ++ l2) = lay_out lf p l1 ++ lay_out lf (p + Z.of_nat (length l1)) l2.
Proof. destruct lf; [apply with_LFs_app|done]. Qed.

Lemma lay_out_all (P : Z -> Prop) lf p l : P 10 -> Forall P l -> Forall P (lay_out lf p l).
Proof. destruct lf; [apply with_LFs_all|done]. Qed.

Lemma forallb_of_Forall {A} (f : A -> bool) l : Forall (fun x => f x = true) l -> forallb f l = true.
Proof. induction 1 as [|x l Hx _ IH]; simpl; [done|]. by rewrite Hx. Qed.

Lemma after_first_equals l1 l2 :
  Forall (fun c => (c =? 61) = false) l1 -> Forall (fun c => isBase64 c = false) l2 ->
  forallb (fun c => negb (isBase64 c))
    (drop (span_len (fun c => negb (c =? 61)) (l1 ++ l2)) (l1 ++ l2)) = true.
Proof.
  intros H1 H2. apply forallb_of_Forall.
  induction H1 as [|x l1 Hx _ IH]; cbn [app span_len].
  - apply Forall_drop. eapply Forall_impl; [|exact H2]. intros x Hx. by rewrite Hx.
  - by rewrite Hx.
Qed.

Lemma isBase64_not_equals c : isBase64 c = true -> (c =? 61) = false.
Proof. intros H. apply Z.eqb_neq. by intros ->. Qed.

(** An encoding is accepted, line feeds included unless the policy is strict. *)
Lemma encoding_acceptable ws policy lf data :
  bytes_ok data -> (lf = true -> policy = FailOnInvalidCharacter -> Z.of_nat (length data) <= 57) ->
  acceptable ws policy (lay_out lf 0 (b64 data)) = true.
Proof.
  intros Hd Hp. unfold acceptable. destruct (b64_shape data Hd) as (ds & eqs & E & H1 & H2).
  apply andb_true_iff. split.
  - apply forallb_of_Forall.
    assert (Forall (fun c => (c =? 61) || isBase64 c || skipped ws policy c = true) (b64 data)) as Hall.
    { rewrite E. apply Forall_app. split.
      - eapply Forall_impl; [|exact H1]. intros c Hc. by rewrite Hc, orb_true_r.
      - eapply Forall_impl; [|exact H2]. by intros c <-. }
    destruct (decide (policy = FailOnInvalidCharacter)) as [->|Hne].
    + destruct lf; [|done]. cbn [lay_out]. rewrite with_LFs_short; [done|lia|].
      rewrite length_b64. specialize (Hp eq_refl eq_refl). dlia.
    + apply lay_out_all; [by destruct policy|done].
  - rewrite E, lay_out_app. apply after_first_equals.
    + apply lay_out_all; [done|]. eapply Forall_impl; [|exact H1]. apply isBase64_not_equals.
    + apply lay_out_all; [done|]. eapply Forall_impl; [|exact H2]. by intros x <-.
Qed.

Lemma digits_of_lay_out lf p l : digits_of (lay_out lf p l) = digits_of l.
Proof.
  destruct lf; [|done]. cbn [lay_out]. revert p.
  induction l as [|x l IH]; intros p; cbn [with_LFs]; [done|].
  rewrite digits_of_app, digits_of_cons, IH, digits_of_cons. by destruct (_ && _).
Qed.

Lemma length_digits_b64 data :
  bytes_ok data ->
  (length (digits_of (b64 data)) mod 4 <> 1)%nat /\ (length (digits_of (b64 data)) = 0%nat -> data = []).
Proof.
  induction data as [|a|a b|a b c data IH] using three_ind; intros H; rewrite ?bytes_ok_cons in H.
  - done.
  - destruct H as [Ha _]. cbv [b64 digits24 firstn app]. by rewrite !digits_of_digit by dlia.
  - destruct H as (Ha & Hb & _). cbv [b64 digits24 firstn app]. by rewrite !digits_of_digit by dlia.
  - destruct H as (Ha & Hb & Hc & Hd). cbn [b64]. unfold digits24. cbn [app].
    rewrite !digits_of_digit by dlia. destruct (IH Hd) as [IH1 _]. cbn [length]. split; [|done].
    set (n := length (digits_of (b64 data))) in *. rewrite <- (Nat.Div0.mod_add n 1 4) in IH1.
    by replace (S (S (S (S n)))) with (n + 1 * 4)%nat by lia.
Qed.

End Base64Facts.

Module Base64Props.
Import Code Spec Base64Facts.

(** below the size limit the encoder writes the RFC 4648 encoding, padding
    included, with a line feed before every 76th character when asked; above
    the limit it writes nothing. *)
Theorem base64Encode_correct (data : list Z) (insertLFs : bool) :
  bytes_ok data ->
  base64Encode data insertLFs =
    if (Z.of_nat (length data) <=? maxInputBufferSize)%Z
    then (if insertLFs then with_LFs 0 (b64 data) else b64 data) else [].
Proof.
  intros Hd. destruct (Z.leb_spec (Z.of_nat (length data)) maxInputBufferSize) as [H|H].
  - by apply base64Encode_eq.
  - unfold base64Encode. destruct (Z.eqb_spec (Z.of_nat (length data)) 0); [done|].
    by destruct (Z.ltb_spec maxInputBufferSize (Z.of_nat (length data))); [|lia].
Qed.

(** C36: the in-place decoder accepts exactly the inputs whose characters are
    digits, equals signs or skipped by the policy, with no digit after an
    equals sign and not one digit in excess of a group; it then yields the
    bytes of the digits.  An input without any digit and without equals sign
    is accepted with a vector that keeps the input's length and whatever the
    fresh storage holds. *)
Theorem base64Decode_exact (ws : Z -> bool) (fresh : nat -> Z) (policy : Base64DecodePolicy)
    (data : list Z) :
  base64Decode ws fresh data policy =
    if acceptable ws policy data then
      match digits_of data with
      | [] => if existsb (fun ch => ch =? 61) data then None
              else Some (map fresh (seq 0 (length data)))
      | ds => if (length ds mod 4 =? 1)%nat then None else Some (bytes_of ds)
      end
    else None.
Proof.
  rewrite base64Decode_eq. unfold decoded. destruct (acceptable ws policy data); [|done].
  by destruct (digits_of data).
Qed.

(** decoding an encoding gives the data back, whatever the policy; only
    the strict policy refuses the line feeds of an encoding longer than one
    line. *)
Theorem base64_roundtrip (ws : Z -> bool) (fresh : nat -> Z) (data : list Z) (insertLFs : bool)
    (policy : Base64DecodePolicy) :
  bytes_ok data -> Z.of_nat (length data) <= maxInputBufferSize ->
  (insertLFs = true -> policy = FailOnInvalidCharacter -> Z.of_nat (length data) <= 57) ->
  base64Decode ws fresh (base64Encode data insertLFs) policy = Some data.
Proof.
  intros Hd Hmax Hp. rewrite base64Encode_eq, base64Decode_eq, encoding_acceptable by done.
  unfold decoded. rewrite digits_of_lay_out.
  destruct (length_digits_b64 data Hd) as [H1 H0].
  destruct (Nat.eqb_spec (length (digits_of (b64 data))) 0) as [E|E].
  { rewrite (H0 E). by destruct insertLFs. }
  destruct (Nat.eqb_spec (length (digits_of (b64 data)) mod 4) 1); [done|].
  by rewrite bytes_of_b64.
Qed.

End Base64Props.

Module Base64Witness.
Import Code Spec.

Definition no_ws (c : Z) : bool := false.
Definition zeros (i : nat) : Z := 0.

Lemma base64Encode_correct_witness :
  bytes_ok (replicate 60 0xFF) /\
  base64Encode (replicate 60 0xFF) true = with_LFs 0 (b64 (replicate 60 0xFF)).
Proof.
  assert (H : bytes_ok (replicate 60 0xFF)) by by_eval. split; [exact H|].
  exact (Base64Props.base64Encode_correct _ true H).
Defined.

Lemma base64_roundtrip_witness :
  let data := replicate 61 0x5A in
  base64Decode no_ws zeros (base64Encode data true) IgnoreWhitespace = Some data.
Proof.
  cbv zeta. apply (Base64Props.base64_roundtrip no_ws zeros).
  - by_eval.
  - vm_compute. discriminate.
  - intros _ E. discriminate E.
Defined.

Example encode_foobar : base64Encode (str "foobar!") false = str "Zm9vYmFyIQ==".
Proof. vm_compute. reflexivity. Qed.

(** Two spaces are accepted and yield two bytes of uninitialised storage. *)
Example decode_blank fresh : base64Decode no_ws fresh (str "  ") IgnoreWhitespace = Some [fresh 0%nat; fresh 1%nat].
Proof. reflexivity. Qed.

End Base64Witness.
