(* ===== verification/WString.v ===== *)
(** * Strings (WTF/text/StringImpl.cpp, WTFString.cpp)

    A [StringImpl] is the list of its UTF-16 code units; a [String], which may
    be null, is an option of one.  [Impl] translates the searches, the
    replacements and the white-space functions of StringImpl; [Str] the
    operations of String, its UTF-8 conversions and the parsing of integers.
    A failed size check, where the code calls CRASH(), is [None]. *)
From S2P Require Import Prelude UTF8.

Module Impl.

(** ** Characters *)

(** [find(characters, length, matchCharacter, index)]: [None] is notFound. *)
Definition find_char (s : list Z) (c : Z) (index : nat) : option nat :=
  let n := span_len (fun x => negb (x =? c)) (drop index s) in
  if (index + n <? length s)%nat then Some (index + n)%nat else None.

(** [while (characters[index] != matchCharacter) if (!index--) return notFound]. *)
Fixpoint reverseFind_loop (s : list Z) (c : Z) (index : nat) : option nat :=
  if at_ s index =? c then Some index
  else match index with O => None | S i => reverseFind_loop s c i end.

Definition reverseFind_char (s : list Z) (c : Z) (index : nat) : option nat :=
  if (length s =? 0)%nat then None
  else reverseFind_loop s c (if (length s <=? index)%nat then (length s - 1)%nat else index).

Definition containsOnlyWhitespace (s : list Z) : bool := forallb isASCIISpace s.

Definition substring (s : list Z) (start len : nat) : list Z :=
  if (length s <=? start)%nat then []
  else
    let maxLength := (length s - start)%nat in
    if (maxLength <=? len)%nat then (if (start =? 0)%nat then s else take maxLength (drop start s))
    else take len (drop start s).

(** ** Searching with a rolling hash *)

Definition hash_sum (l : list Z) : Z := fold_left (fun h c => u32 (h + c)) l 0.

Definition same (a b : list Z) : bool := bool_decide (a = b).

(** The loop of [findInner]; [fuel] is the number of positions left. *)
Fixpoint find_loop (fuel : nat) (search mtch : list Z) (searchHash matchHash : Z) (i delta : nat)
    : option nat :=
  match fuel with
  | O => None
  | S fuel' =>
      if (searchHash =? matchHash) && same (take (length mtch) (drop i search)) mtch then Some i
      else if (i =? delta)%nat then None
      else
        let searchHash := u32 (searchHash + at_ search (i + length mtch)) in
        let searchHash := u32 (searchHash - at_ search i) in
        find_loop fuel' search mtch searchHash matchHash (S i) delta
  end.

Definition findInner (search mtch : list Z) (index searchLength matchLength : nat) : option nat :=
  let delta := (searchLength - matchLength)%nat in
  match find_loop (S delta) search mtch (hash_sum (take matchLength search)) (hash_sum mtch) 0 delta with
  | Some i => Some (index + i)%nat
  | None => None
  end.

(** [find(StringImpl* matchString, unsigned index)]. *)
Definition find (s mtch : list Z) (index : nat) : option nat :=
  let matchLength := length mtch in
  if (matchLength =? 1)%nat then find_char s (at_ mtch 0) index
  else if (matchLength =? 0)%nat then Some (Nat.min index (length s))
  else if (length s <? index)%nat then None
  else
    let searchLength := (length s - index)%nat in
    if (searchLength <? matchLength)%nat then None
    else findInner (drop index s) mtch index searchLength matchLength.

(** The loop of [reverseFindInner], downwards from [delta]. *)
Fixpoint reverseFindInner_loop (search mtch : list Z) (searchHash matchHash : Z) (delta : nat)
    : option nat :=
  if (searchHash =? matchHash) && same (take (length mtch) (drop delta search)) mtch then Some delta
  else match delta with
       | O => None
       | S d =>
           let searchHash := u32 (searchHash - at_ search (d + length mtch)) in
           let searchHash := u32 (searchHash + at_ search d) in
           reverseFindInner_loop search mtch searchHash matchHash d
       end.

(** [reverseFind(StringImpl* matchString, unsigned index)]. *)
Definition reverseFind (s mtch : list Z) (index : nat) : option nat :=
  let matchLength := length mtch in
  if (matchLength =? 0)%nat then Some (Nat.min index (length s))
  else if (matchLength =? 1)%nat then reverseFind_char s (at_ mtch 0) index
  else if (length s <? matchLength)%nat then None
  else
    let delta := Nat.min index (length s - matchLength) in
    reverseFindInner_loop s mtch (hash_sum (take matchLength (drop delta s))) (hash_sum mtch) delta.

Definition startsWith (s prefix : list Z) : bool := bool_decide (reverseFind s prefix 0 = Some 0%nat).

Definition endsWith (s suffix : list Z) : bool :=
  if (length suffix <=? length s)%nat then
    let start := (length s - length suffix)%nat in bool_decide (find s suffix start = Some start)
  else false.

(** ** White space and removal *)

(** [while (end && predicate(s[end])) end--]. *)
Fixpoint strip_end (p : Z -> bool) (s : list Z) (e : nat) : nat :=
  match e with O => 0 | S e' => if p (at_ s e) then strip_end p s e' else e end.

Definition stripMatchedCharacters (p : Z -> bool) (s : list Z) : list Z :=
  if (length s =? 0)%nat then []
  else
    let start := span_len p s in
    let e := (length s - 1)%nat in
    if (e <? start)%nat then []
    else
      let e := strip_end p s e in
      take (e + 1 - start) (drop start s).

(** The [while (true)] loop: drop a run of matches, keep a run of others. *)
Fixpoint remove_loop (fuel : nat) (p : Z -> bool) (from : list Z) (out : list Z) : list Z :=
  match fuel with
  | O => out
  | S fuel' =>
      let from := drop (span_len p from) from in
      let n := span_len (fun c => negb (p c)) from in
      let out := out ++ take n from in
      let from := drop n from in
      match from with [] => out | _ => remove_loop fuel' p from out end
  end.

Definition removeCharacters (p : Z -> bool) (s : list Z) : list Z :=
  let n := span_len (fun c => negb (p c)) s in
  if (n =? length s)%nat then s else remove_loop (length s) p (drop n s) (take n s).

Fixpoint simplify_loop (fuel : nat) (p : Z -> bool) (from : list Z) (out : list Z) : list Z :=
  match fuel with
  | O => out
  | S fuel' =>
      let from := drop (span_len p from) from in
      let n := span_len (fun c => negb (p c)) from in
      let out := out ++ take n from in
      let from := drop n from in
      match from with [] => out | _ => simplify_loop fuel' p from (out ++ [32]) end
  end.

Definition simplifyMatchedCharactersToSpace (p : Z -> bool) (s : list Z) : list Z :=
  let out := simplify_loop (S (length s)) p s [] in
  if (0 <? length out)%nat && (at_ out (length out - 1) =? 32) then take (length out - 1) out else out.

(** ** Replacement *)

Definition replace_char (oldC newC : Z) (s : list Z) : list Z :=
  if oldC =? newC then s
  else if (span_len (fun c => negb (c =? oldC)%Z) s =? length s)%nat then s
  else map (fun c => if c =? oldC then newC else c) s.

Definition UINT_MAX : Z := 2 ^ 32 - 1.

(** [replace(position, lengthToReplace, str)]. *)
Definition replace_range (s : list Z) (position lengthToReplace : nat) (r : list Z) : option (list Z) :=
  let position := Nat.min position (length s) in
  let lengthToReplace := Nat.min lengthToReplace (length s - position) in
  let lengthToInsert := length r in
  if (lengthToReplace =? 0)%nat && (lengthToInsert =? 0)%nat then Some s
  else if (UINT_MAX - Z.of_nat lengthToInsert <=? Z.of_nat (length s - lengthToReplace))%Z then None
  else Some (take position s ++ r ++ drop (position + lengthToReplace) s).

(** [while ((srcSegmentStart = find(pattern, srcSegmentStart)) != notFound)]
    counting the matches. *)
Fixpoint count_matches (fuel : nat) (s pattern : list Z) (srcSegmentStart matchCount : nat) : nat :=
  match fuel with
  | O => matchCount
  | S fuel' =>
      match find s pattern srcSegmentStart with
      | Some i => count_matches fuel' s pattern (i + length pattern) (S matchCount)
      | None => matchCount
      end
  end.

(** The loop that copies segments and replacements, and the last segment. *)
Fixpoint replace_loop (fuel : nat) (s pattern r : list Z) (srcSegmentStart : nat) (data : list Z)
    : list Z :=
  match fuel with
  | O => data ++ drop srcSegmentStart s
  | S fuel' =>
      match find s pattern srcSegmentStart with
      | Some srcSegmentEnd =>
          let srcSegmentLength := (srcSegmentEnd - srcSegmentStart)%nat in
          replace_loop fuel' s pattern r (srcSegmentEnd + length pattern)
            (data ++ take srcSegmentLength (drop srcSegmentStart s) ++ r)
      | None => data ++ drop srcSegmentStart s
      end
  end.

(** [replace(StringImpl* pattern, StringImpl* replacement)]; the variant whose
    pattern is one character makes the same steps. *)
Definition replace (s pattern r : list Z) : option (list Z) :=
  let patternLength := length pattern in
  if (patternLength =? 0)%nat then Some s
  else
    let repStrLength := Z.of_nat (length r) in
    let matchCount := Z.of_nat (count_matches (S (length s)) s pattern 0 0) in
    if matchCount =? 0 then Some s
    else
      let newSize := Z.of_nat (length s) - matchCount * Z.of_nat patternLength in
      if negb (repStrLength =? 0) && (UINT_MAX / repStrLength <? matchCount)%Z then None
      else if (UINT_MAX - matchCount * repStrLength <? newSize)%Z then None
      else Some (replace_loop (S (length s)) s pattern r 0 []).

End Impl.

Module Str.
Import Impl.

(** ** String: a possibly null StringImpl *)

Definition String := option (list Z).

Definition chars (s : String) : list Z := default [] s.

Definition append (m_impl s : String) : String :=
  match s with
  | None | Some [] => m_impl
  | Some l => match m_impl with Some m => Some (m ++ l) | None => s end
  end.

Definition substr (s : String) (pos len : nat) : String :=
  match s with None => None | Some l => Some (substring l pos len) end.

Definition insert_chars (s : String) (l : list Z) (position : nat) : String :=
  if (length (chars s) <=? position)%nat then
    (* append(charactersToInsert, lengthToInsert) *)
    match s with None => Some l | Some m => Some (m ++ l) end
  else Some (take position (chars s) ++ l ++ drop position (chars s)).

Definition truncate (s : list Z) (position : nat) : list Z :=
  if (length s <=? position)%nat then s else take position s.

Definition remove (s : list Z) (position : nat) (lengthToRemove : Z) : list Z :=
  if (lengthToRemove <=? 0)%Z then s
  else if (length s <=? position)%nat then s
  else
    let n := Nat.min (Z.to_nat lengthToRemove) (length s - position) in
    take position s ++ drop (position + n) s.

(** [split(separator, allowEmptyEntries, result)]; one unit of fuel per match. *)
Fixpoint split_loop (fuel : nat) (s separator : list Z) (allowEmptyEntries : bool) (startPos : nat)
    : option (list (list Z)) :=
  match fuel with
  | O => None
  | S fuel' =>
      match find s separator startPos with
      | Some endPos =>
          match split_loop fuel' s separator allowEmptyEntries (endPos + length separator) with
          | Some rest =>
              Some (if allowEmptyEntries || negb (startPos =? endPos)%nat
                    then substring s startPos (endPos - startPos) :: rest else rest)
          | None => None
          end
      | None =>
          Some (if allowEmptyEntries || negb (startPos =? length s)%nat
                then [substring s startPos (length s)] else [])
      end
  end.

(** [None]: the loop is still running after the fuel. *)
Definition split (s separator : list Z) (allowEmptyEntries : bool) : option (list (list Z)) :=
  split_loop (S (length s)) s separator allowEmptyEntries 0.

Definition ascii (s : list Z) : list Z :=
  map (fun ch => if negb (ch =? 0) && ((ch <? 0x20) || (0x7f <? ch))%Z then 63 else u8 ch) s.

Definition latin1 (s : list Z) : list Z := map (fun ch => if (0xff <? ch)%Z then 63 else ch) s.

(** ** UTF-8 *)
Import UTF8.Conv.

Definition putUTF8Triple (ch : Z) : list Z :=
  [ u8 (Z.lor (Z.land (Z.shiftr ch 12) 0x0F) 0xE0);
    u8 (Z.lor (Z.land (Z.shiftr ch 6) 0x3F) 0x80);
    u8 (Z.lor (Z.land ch 0x3F) 0x80) ].

(** [utf8(strict)]: the bytes of the CString, [None] for a null one. *)
Definition utf8 (is8Bit strict : bool) (s : list Z) : option (list Z) :=
  let len := length s in
  if (len =? 0)%nat then Some []
  else if (UINT_MAX / 3 <? Z.of_nat len)%Z then None
  else if is8Bit then Some (conv_target (convertLatin1ToUTF8 s (len * 3)))
  else
    let r := convertUTF16ToUTF8 s (len * 3) strict in
    match conv_result r with
    | sourceIllegal => None
    | sourceExhausted =>
        if strict then None else Some (conv_target r ++ putUTF8Triple (at_ (conv_source r) 0))
    | _ => Some (conv_target r)
    end.

(** [fromUTF8(stringStart, length)] on a non-null pointer. *)
Definition fromUTF8 (bytes : list Z) : String :=
  let r := convertUTF8ToUTF16 bytes (length bytes) true in
  if bool_decide (conv_result r = conversionOK) then Some (conv_target r) else None.

Definition fromUTF8WithLatin1Fallback (bytes : list Z) : String :=
  match fromUTF8 bytes with Some s => Some s | None => Some bytes end.

(** ** Integers *)

Definition isCharacterAllowedInBase (c base : Z) : bool :=
  if (0x7F <? c)%Z then false
  else if isASCIIDigit c then (c - 48 <? base)%Z
  else if isASCIIAlpha c then
    let base := if (36 <? base)%Z then 36 else base in
    ((97 <=? c) && (c <? 97 + base - 10) || (65 <=? c) && (c <? 65 + base - 10))%Z
  else false.

Definition digitValue (c : Z) : Z :=
  if isASCIIDigit c then c - 48 else if (97 <=? c)%Z then c - 97 + 10 else c - 65 + 10.

Section Integers.
Context (whiteSpaceNeutral : Z -> bool).

(** The digit loop: [None] is a jump to [bye]; otherwise the value and the
    data after the digits.  [wrap] is the arithmetic of [IntegralType]. *)
Fixpoint digits_loop (wrap : Z -> Z) (integralMax base : Z) (isNegative : bool) (data : list Z)
    (value : Z) : option (Z * list Z) :=
  match data with
  | c :: data' =>
      if isCharacterAllowedInBase c base then
        let maxMultiplier := integralMax / base in
        let d := digitValue c in
        if (maxMultiplier <? value)
           || ((value =? maxMultiplier) && (integralMax mod base + Z.b2z isNegative <? d))%Z
        then None
        else digits_loop wrap integralMax base isNegative data' (wrap (base * value + d))
      else Some (value, data)
  | [] => Some (value, [])
  end.

(** The value and [*ok]. *)
Definition toIntegralType (wrap : Z -> Z) (integralMax : Z) (isSigned : bool) (base : Z)
    (data : list Z) : Z * bool :=
  let space := isSpaceOrNewline whiteSpaceNeutral in
  let data := drop (span_len space data) data in
  let '(data, isNegative) :=
    match data with
    | c :: data' =>
        if isSigned && (c =? 45) then (data', true)
        else if c =? 43 then (data', false) else (data, false)
    | [] => ([], false)
    end in
  match data with
  | c :: _ =>
      if isCharacterAllowedInBase c base then
        match digits_loop wrap integralMax base isNegative data 0 with
        | None => (0, false)
        | Some (value, data) =>
            let value := if isNegative then wrap (- value) else value in
            let data := drop (span_len space data) data in
            if (length data =? 0)%nat then (value, true) else (0, false)
        end
      else (0, false)
  | [] => (0, false)
  end.

Definition lengthOfCharactersAsInteger (data : list Z) : nat :=
  let i := span_len (isSpaceOrNewline whiteSpaceNeutral) data in
  let i := if (i <? length data)%nat && ((at_ data i =? 43) || (at_ data i =? 45)) then S i else i in
  (i + span_len isASCIIDigit (drop i data))%nat.

Definition charactersToUIntStrict (data : list Z) : Z * bool := toIntegralType u32 (2 ^ 32 - 1) false 10 data.
Definition charactersToIntStrict (data : list Z) : Z * bool := toIntegralType s32 (2 ^ 31 - 1) true 10 data.
Definition charactersToUInt (data : list Z) : Z * bool :=
  charactersToUIntStrict (take (lengthOfCharactersAsInteger data) data).
Definition charactersToInt (data : list Z) : Z * bool :=
  charactersToIntStrict (take (lengthOfCharactersAsInteger data) data).

End Integers.
End Str.

Module SearchFacts.
Import Impl.

(** ** Occurrences *)

(** [m] occurs in [s] at position [p]. *)
Definition at_pos (s m : list Z) (p : nat) : Prop := take (length m) (drop p s) = m.

#[global] Instance at_pos_dec s m p : Decision (at_pos s m p).
Proof. unfold at_pos. apply _. Defined.

(** [r] is the first occurrence from [index] on. *)
Definition first_occurrence (s m : list Z) (index : nat) (r : option nat) : Prop :=
  match r with
  | Some p => (index <= p)%nat /\ at_pos s m p /\ forall q, (index <= q < p)%nat -> ~ at_pos s m q
  | None => forall q, (index <= q)%nat -> ~ at_pos s m q
  end.

(** [r] is the last occurrence up to [index]. *)
Definition last_occurrence (s m : list Z) (index : nat) (r : option nat) : Prop :=
  match r with
  | Some p => (p <= index)%nat /\ at_pos s m p /\ forall q, (p < q <= index)%nat -> ~ at_pos s m q
  | None => forall q, (q <= index)%nat -> ~ at_pos s m q
  end.

Lemma at_pos_bound s m p : m <> [] -> at_pos s m p -> (p + length m <= length s)%nat.
Proof.
  intros Hm H. apply (f_equal length) in H. rewrite length_take, length_drop in H.
  assert (0 < length m)%nat by (destruct m; simpl; [done|lia]). lia.
Qed.

Lemma at_pos_single s c p : at_pos s [c] p <-> s !! p = Some c.
Proof.
  unfold at_pos. cbn [length]. rewrite <- (Nat.add_0_r p) at 2. rewrite <- lookup_drop.
  destruct (drop p s) as [|x l]; simpl; [done|]. split; [by intros [= ->]|by intros [= ->]].
Qed.

Lemma at_pos_drop s m i p : at_pos (drop i s) m p <-> at_pos s m (i + p).
Proof. unfold at_pos. by rewrite drop_drop. Qed.

Lemma find_char_first s c index : first_occurrence s [c] index (find_char s c index).
Proof.
  unfold find_char. set (n := span_len _ _).
  assert (forall q, (index <= q < index + n)%nat -> ~ at_pos s [c] q) as Hno.
  { intros q Hq Hat%at_pos_single. pose proof (span_len_take (fun x => negb (x =? c)) (drop index s)) as HF.
    fold n in HF. rewrite Forall_lookup in HF.
    assert (take n (drop index s) !! (q - index)%nat = Some c) as E.
    { rewrite lookup_take_lt, lookup_drop by lia. by replace (index + (q - index))%nat with q by lia. }
    apply HF in E. by rewrite Z.eqb_refl in E. }
  destruct (Nat.ltb_spec (index + n) (length s)) as [Hlt|Hge].
  - split_and!; [lia| |done]. apply at_pos_single.
    destruct (lookup_lt_is_Some_2 s _ Hlt) as [x Hx]. rewrite Hx. f_equal.
    rewrite <- lookup_drop in Hx. apply span_len_stop in Hx. bprop. done.
  - intros q Hq Hat. pose proof (at_pos_bound s [c] q ltac:(done) Hat). simpl in *.
    apply (Hno q); [lia|done].
Qed.

(** ** The rolling hash *)

Lemma hash_sum_acc l h : fold_left (fun h c => u32 (h + c)) l (u32 h) = u32 (h + foldr Z.add 0 l).
Proof.
  revert h. induction l as [|x l IH]; intros h; cbn [fold_left foldr].
  { by rewrite Z.add_0_r. }
  unfold wrapN in *. rewrite Zplus_mod_idemp_l, IH. f_equal. lia.
Qed.

Lemma hash_sum_total l : hash_sum l = u32 (foldr Z.add 0 l).
Proof. unfold hash_sum. change 0 with (u32 0) at 1. by rewrite hash_sum_acc. Qed.

Lemma foldr_add_app l1 l2 : foldr Z.add 0 (l1 ++ l2) = foldr Z.add 0 l1 + foldr Z.add 0 l2.
Proof. induction l1; simpl; lia. Qed.

(** The window one position further. *)
Lemma window_sum s i n :
  (i + n < length s)%nat ->
  foldr Z.add 0 (take n (drop (S i) s)) =
    foldr Z.add 0 (take n (drop i s)) + at_ s (i + n) - at_ s i.
Proof.
  intros H. assert (drop i s = at_ s i :: drop (S i) s) as E by (apply drop_S, at_lt; lia).
  assert (take (S n) (drop i s) = take n (drop i s) ++ [at_ s (i + n)]) as E1.
  { apply take_S_r. rewrite lookup_drop. apply at_lt. lia. }
  assert (take (S n) (drop i s) = at_ s i :: take n (drop (S i) s)) as E2 by by rewrite E.
  rewrite E1 in E2. apply (f_equal (foldr Z.add 0)) in E2.
  rewrite foldr_add_app in E2. simpl in E2. lia.
Qed.

Lemma roll_forward s i n :
  (i + n < length s)%nat ->
  u32 (u32 (hash_sum (take n (drop i s)) + at_ s (i + n)) - at_ s i) = hash_sum (take n (drop (S i) s)).
Proof.
  intros H. rewrite !hash_sum_total, window_sum by done. dlia.
Qed.

Lemma roll_back s i n :
  (i + n < length s)%nat ->
  u32 (u32 (hash_sum (take n (drop (S i) s)) - at_ s (i + n)) + at_ s i) = hash_sum (take n (drop i s)).
Proof.
  intros H. rewrite !hash_sum_total, (window_sum s i n) by done. dlia.
Qed.

(** The hash never hides an occurrence. *)
Lemma hash_test s m i :
  (hash_sum (take (length m) (drop i s)) =? hash_sum m) && same (take (length m) (drop i s)) m
  = bool_decide (at_pos s m i).
Proof.
  unfold same. destruct (decide (take (length m) (drop i s) = m)) as [H|H].
  - rewrite !bool_decide_true by done. by rewrite H, Z.eqb_refl.
  - rewrite !bool_decide_false by done. apply andb_false_r.
Qed.

Lemma find_loop_first fuel s m i delta :
  m <> [] -> (i <= delta)%nat -> (delta + length m)%nat = length s -> (delta - i < fuel)%nat ->
  first_occurrence s m i
    (find_loop fuel s m (hash_sum (take (length m) (drop i s))) (hash_sum m) i delta).
Proof.
  intros Hm. revert i. induction fuel as [|fuel IH]; intros i Hi Hd Hf; [lia|].
  cbn [find_loop]. rewrite hash_test. case_bool_decide as Hat.
  { split_and!; [lia|done|lia]. }
  assert (forall q, (q = i \/ S i <= q)%nat -> q = i \/ (S i <= q)%nat) by done.
  destruct (Nat.eqb_spec i delta) as [->|].
  - intros q Hq Hq'. destruct (decide (q = delta)) as [->|]; [done|].
    pose proof (at_pos_bound s m q Hm Hq'). lia.
  - rewrite roll_forward by (destruct m; simpl in *; [done|lia]).
    specialize (IH (S i) ltac:(lia) Hd ltac:(lia)).
    destruct (find_loop _ _ _ _ _ _ _) as [p|]; cbn in *.
    + destruct IH as (? & ? & IH). split_and!; [lia|done|]. intros q Hq.
      destruct (decide (q = i)) as [->|]; [done|]. apply IH. lia.
    + intros q Hq. destruct (decide (q = i)) as [->|]; [done|]. apply IH. lia.
Qed.

Lemma first_occurrence_drop s m i r :
  first_occurrence (drop i s) m 0 r ->
  first_occurrence s m i (match r with Some p => Some (i + p)%nat | None => None end).
Proof.
  destruct r as [p|]; cbn.
  - intros (_ & H & Hno). split_and!; [lia|by apply at_pos_drop|].
    intros q Hq Hat. apply (Hno (q - i)%nat); [lia|]. apply at_pos_drop.
    by replace (i + (q - i))%nat with q by lia.
  - intros Hno q Hq Hat. apply (Hno (q - i)%nat); [lia|]. apply at_pos_drop.
    by replace (i + (q - i))%nat with q by lia.
Qed.

Lemma single_match m : length m = 1%nat -> m = [at_ m 0].
Proof. destruct m as [|c [|? ?]]; simpl; try lia. done. Qed.

Lemma find_first_occurrence s m index :
  (m <> [] \/ (index <= length s)%nat) -> first_occurrence s m index (find s m index).
Proof.
  intros Hor. unfold find. destruct (Nat.eqb_spec (length m) 1) as [E|E].
  { rewrite (single_match m E) at 1. apply find_char_first. }
  destruct (Nat.eqb_spec (length m) 0) as [E0|E0].
  { apply nil_length_inv in E0 as ->. destruct Hor; [done|]. rewrite Nat.min_l by done.
    split_and!; [lia|done|lia]. }
  assert (m <> []) as Hm by (intros ->; done).
  destruct (Nat.ltb_spec (length s) index) as [H1|H1].
  { intros q Hq Hat. pose proof (at_pos_bound s m q Hm Hat). lia. }
  destruct (Nat.ltb_spec (length s - index) (length m)) as [H2|H2].
  { intros q Hq Hat. pose proof (at_pos_bound s m q Hm Hat). lia. }
  unfold findInner. apply first_occurrence_drop.
  apply (find_loop_first _ _ _ 0); [done|lia|rewrite length_drop; lia|lia].
Qed.

Lemma reverse_loop_last s m delta :
  m <> [] -> (delta + length m <= length s)%nat ->
  last_occurrence s m delta
    (reverseFindInner_loop s m (hash_sum (take (length m) (drop delta s))) (hash_sum m) delta).
Proof.
  intros Hm. induction delta as [|d IH]; intros Hd; cbn [reverseFindInner_loop];
    rewrite hash_test; case_bool_decide as Hat.
  - split_and!; [lia|done|lia].
  - intros q Hq. by replace q with 0%nat by lia.
  - split_and!; [lia|done|lia].
  - rewrite roll_back by lia. specialize (IH ltac:(lia)).
    destruct (reverseFindInner_loop _ _ _ _ _) as [p|]; cbn in *.
    + destruct IH as (? & ? & IH). split_and!; [lia|done|]. intros q Hq.
      destruct (decide (q = S d)) as [->|]; [done|]. apply IH. lia.
    + intros q Hq. destruct (decide (q = S d)) as [->|]; [done|]. apply IH. lia.
Qed.

Lemma reverse_char_last s c index :
  (index < length s)%nat -> last_occurrence s [c] index (reverseFind_loop s c index).
Proof.
  assert (forall i, (i < length s)%nat -> (at_ s i =? c) = bool_decide (at_pos s [c] i)) as Ht.
  { intros i Hi. apply eq_bool_prop_intro. rewrite bool_decide_spec, at_pos_single, (at_lt s i Hi).
    destruct (Z.eqb_spec (at_ s i) c); split; intros; simpl in *; congruence || done. }
  induction index as [|i IH]; intros Hi; cbn [reverseFind_loop]; rewrite Ht by done;
    case_bool_decide as Hat.
  - split_and!; [lia|done|lia].
  - intros q Hq. by replace q with 0%nat by lia.
  - split_and!; [lia|done|lia].
  - specialize (IH ltac:(lia)). destruct (reverseFind_loop _ _ _) as [p|]; cbn in *.
    + destruct IH as (? & ? & IH). split_and!; [lia|done|]. intros q Hq.
      destruct (decide (q = S i)) as [->|]; [done|]. apply IH. lia.
    + intros q Hq. destruct (decide (q = S i)) as [->|]; [done|]. apply IH. lia.
Qed.

(** Positions past the end do not matter. *)
Lemma last_occurrence_cap s m i j r :
  m <> [] -> (i <= j)%nat -> (forall q, (i < q <= j)%nat -> (length s < q + length m)%nat) ->
  last_occurrence s m i r -> last_occurrence s m j r.
Proof.
  intros Hm Hij Hout H. assert (forall q, (i < q <= j)%nat -> ~ at_pos s m q) as Hno.
  { intros q Hq Hat. pose proof (at_pos_bound s m q Hm Hat). specialize (Hout q Hq). lia. }
  destruct r as [p|]; cbn in *.
  - destruct H as (? & ? & H). split_and!; [lia|done|]. intros q Hq.
    destruct (decide (q <= i)%nat); [apply H; lia|apply Hno; lia].
  - intros q Hq. destruct (decide (q <= i)%nat); [apply H; lia|apply Hno; lia].
Qed.

Lemma reverseFind_last_occurrence s m index :
  m <> [] -> last_occurrence s m index (reverseFind s m index).
Proof.
  intros Hm. unfold reverseFind.
  destruct (Nat.eqb_spec (length m) 0) as [E0|E0]; [by apply nil_length_inv in E0|].
  destruct (Nat.eqb_spec (length m) 1) as [E|E].
  - unfold reverseFind_char. rewrite (single_match m E) at 1.
    destruct (Nat.eqb_spec (length s) 0) as [Es|Es].
    { intros q Hq Hat. pose proof (at_pos_bound s [at_ m 0] q ltac:(done) Hat). simpl in *. lia. }
    destruct (Nat.leb_spec (length s) index).
    + eapply (last_occurrence_cap s [at_ m 0] (length s - 1)); [done|lia|simpl; lia|].
      apply reverse_char_last. lia.
    + by apply reverse_char_last.
  - destruct (Nat.ltb_spec (length s) (length m)).
    { intros q Hq Hat. pose proof (at_pos_bound s m q Hm Hat). lia. }
    eapply (last_occurrence_cap s m (Nat.min index (length s - length m))); [done|lia|lia|].
    apply reverse_loop_last; [done|lia].
Qed.

End SearchFacts.

Module StrFacts.
Import Impl Str SearchFacts.

(** ** Splitting and replacing *)

(** The pieces joined by the separator. *)
Fixpoint join (sep : list Z) (ps : list (list Z)) : list Z :=
  match ps with
  | [] => []
  | [p] => p
  | p :: ps' => p ++ sep ++ join sep ps'
  end.

Definition nonempty (p : list Z) : bool := negb (length p =? 0)%nat.

(** [sep] does not occur in [p]. *)
Definition absent (sep p : list Z) : Prop := forall q, ~ at_pos p sep q.

Lemma join_cons sep p ps : ps <> [] -> join sep (p :: ps) = p ++ sep ++ join sep ps.
Proof. by destruct ps. Qed.

Lemma substring_spec s a n : (a <= length s)%nat -> substring s a n = take n (drop a s).
Proof.
  intros H. unfold substring. cbv zeta. destruct (Nat.leb_spec (length s) a).
  { rewrite drop_ge by lia. by destruct n. }
  destruct (Nat.leb_spec (length s - a) n); [|done].
  rewrite !take_ge by (rewrite length_drop; lia). by destruct (Nat.eqb_spec a 0) as [->|].
Qed.

(** An occurrence inside a slice is one of the string. *)
Lemma at_pos_slice s sep a n q :
  sep <> [] -> at_pos (take n (drop a s)) sep q -> at_pos s sep (a + q) /\ (q + length sep <= n)%nat.
Proof.
  intros Hs H. pose proof (at_pos_bound _ _ _ Hs H) as Hb. rewrite length_take, length_drop in Hb.
  split; [|lia]. apply at_pos_drop. unfold at_pos in *.
  rewrite <- H at 2. rewrite <- (take_drop n (drop a s)) at 1.
  rewrite drop_app_le by (rewrite length_take, length_drop; lia).
  rewrite take_app_le; [done|]. rewrite length_drop, length_take, length_drop. lia.
Qed.

Lemma at_pos_glue s sep p : at_pos s sep p -> drop p s = sep ++ drop (p + length sep) s.
Proof. intros H. rewrite <- H at 1. by rewrite <- drop_drop, take_drop. Qed.

Lemma split_loop_spec fuel s sep start :
  sep <> [] -> (start <= length s)%nat -> (length s - start < fuel)%nat ->
  exists ps, split_loop fuel s sep true start = Some ps /\ ps <> [] /\
    join sep ps = drop start s /\ Forall (absent sep) ps /\
    split_loop fuel s sep false start = Some (List.filter nonempty ps) /\
    count_matches fuel s sep start 0 = (length ps - 1)%nat /\
    forall r data, replace_loop fuel s sep r start data = data ++ join r ps.
Proof.
  intros Hs. revert start. induction fuel as [|fuel IH]; intros start Hst Hf; [lia|].
  cbn [split_loop count_matches replace_loop].
  pose proof (find_first_occurrence s sep start (or_introl Hs)) as Hfirst.
  destruct (find s sep start) as [e|]; cbn in Hfirst.
  - destruct Hfirst as (Hse & Hat & Hno). pose proof (at_pos_bound _ _ _ Hs Hat) as Hb.
    assert (0 < length sep)%nat by (destruct sep; simpl; [done|lia]).
    destruct (IH (e + length sep)%nat ltac:(lia) ltac:(lia)) as (ps & E1 & Hne & Ej & Hab & E2 & Ec & Er).
    exists (take (e - start) (drop start s) :: ps).
    rewrite E1, E2, substring_spec by done.
    assert (length (take (e - start) (drop start s)) = (e - start)%nat) as Hl
      by (rewrite length_take, length_drop; lia).
    split_and!; [done|done| | | | |].
    + rewrite join_cons, Ej, <- at_pos_glue by done.
      rewrite <- (take_drop (e - start) (drop start s)) at 2. rewrite drop_drop. do 2 f_equal. lia.
    + constructor; [|done]. intros q Hq. apply at_pos_slice in Hq as [Hq1 Hq2]; [|done].
      apply (Hno (start + q)%nat); [lia|done].
    + assert (nonempty (take (e - start) (drop start s)) = negb (start =? e)%nat) as En.
      { unfold nonempty. rewrite Hl. f_equal.
        destruct (Nat.eqb_spec start e), (Nat.eqb_spec (e - start) 0); lia || done. }
      cbn [List.filter orb]. by rewrite En.
    + assert (forall f a n, count_matches f s sep a n = (count_matches f s sep a 0 + n)%nat) as Hacc.
      { clear. induction f as [|f IHf]; intros a n; cbn [count_matches]; [lia|].
        destruct (find s sep a); [|lia]. rewrite IHf, (IHf _ 1%nat). lia. }
      rewrite Hacc, Ec. destruct ps; [done|]. simpl. lia.
    + intros r data. by rewrite Er, join_cons, <- !app_assoc by done.
  - exists [drop start s]. rewrite substring_spec by done.
    rewrite (take_ge (drop start s)) by (rewrite length_drop; lia).
    split_and!; try done.
    + constructor; [|done]. intros q Hq%at_pos_drop. apply (Hfirst (start + q)%nat); [lia|done].
    + assert (nonempty (drop start s) = negb (start =? length s)%nat) as En.
      { unfold nonempty. rewrite length_drop. f_equal.
        destruct (Nat.eqb_spec start (length s)), (Nat.eqb_spec (length s - start) 0); lia || done. }
      cbn [List.filter orb]. by rewrite En.
Qed.

Lemma length_join sep ps :
  ps <> [] ->
  (length (join sep ps) + length sep = length (join [] ps) + length ps * length sep)%nat.
Proof.
  induction ps as [|p ps IH]; [done|]. intros _. destruct ps as [|p' ps]; [simpl; lia|].
  specialize (IH ltac:(done)). rewrite !(join_cons _ p) by done. rewrite !length_app. cbn [length] in *. lia.
Qed.

(** ** UTF-8 *)
Import UTF8.Spec UTF8.Conv UTF8.ConvFacts.

Lemma utf8_loop_all strict ls cs fuel cap :
  reads_all ls cs -> (length ls <= fuel)%nat -> (length (utf16s cs) <= cap)%nat ->
  utf8_loop fuel ls cap strict = mkconv conversionOK [] (utf16s cs).
Proof.
  intros H. revert fuel cap. induction H as [|l c ls cs Hr _ IH]; intros fuel cap Hf Hc.
  { by destruct fuel. }
  pose proof (reads_length l c Hr). rewrite length_app in Hf.
  destruct fuel as [|fuel]; [lia|]. rewrite utf16s_cons, length_app in Hc.
  assert (l ++ ls <> []) by (destruct l; simpl in *; [lia|done]).
  transitivity (match utf8_step (l ++ ls) cap strict with
    | inl r => mkconv r (l ++ ls) []
    | inr (w, rest) => conv_put w (utf8_loop fuel rest (cap - length w) strict)
    end); [by destruct (l ++ ls)|].
  rewrite (utf8_step_reads l c ls cap strict Hr).
  destruct (Nat.ltb_spec cap (length (UTF8.Spec.utf16 c))); [lia|].
  rewrite IH by lia. by rewrite utf16s_cons.
Qed.

Lemma put_room c cap (next : nat -> conv) source :
  0 <= c < 0x110000 -> (length (UTF8.Spec.utf8 c) <= cap)%nat ->
  (let '(n, c') := bytes_for c in
   if (cap <? n)%nat then mkconv targetExhausted source []
   else conv_put (put_bytes n c') (next (cap - n)%nat))
  = conv_put (UTF8.Spec.utf8 c) (next (cap - length (UTF8.Spec.utf8 c))%nat).
Proof.
  intros Hc Hcap. pose proof (put_bytes_utf8 c Hc) as Hput. pose proof (bytes_for_length c Hc) as Hlen.
  destruct (bytes_for c) as [n c']. cbn in Hput, Hlen. subst n. rewrite Hput.
  by destruct (Nat.ltb_spec cap (length (UTF8.Spec.utf8 c))); [lia|].
Qed.

Lemma scalar_cases c :
  scalar c ->
  (UTF8.Spec.utf16 c = [c] /\ is_lead c = false /\ is_trail c = false) \/
  (exists h t, UTF8.Spec.utf16 c = [h; t] /\ is_lead h = true /\ is_trail t = true /\
    Z.shiftl (h - 0xD800) 10 + (t - 0xDC00) + 0x10000 = c).
Proof.
  unfold scalar, UTF8.Spec.utf16, is_lead, is_trail. intros Hc.
  destruct (Z.ltb_spec c 0x10000).
  - left. split_and!; [done|lia|lia].
  - right. exists (0xD800 + (c - 0x10000) / 1024), (0xDC00 + (c - 0x10000) mod 1024).
    split_and!; [done|dlia|dlia|]. rewrite Z.shiftl_mul_pow2 by lia. dlia.
Qed.

Lemma utf16_to_utf8_all strict cs cap :
  Forall scalar cs -> (length (utf8s cs) <= cap)%nat ->
  convertUTF16ToUTF8 (utf16s cs) cap strict = mkconv conversionOK [] (utf8s cs).
Proof.
  intros H. revert cap. induction H as [|c cs Hc _ IH]; intros cap Hcap; [done|].
  rewrite utf16s_cons, utf8s_cons in *. rewrite length_app in Hcap.
  assert (0 <= c < 0x110000) by (unfold scalar in Hc; lia).
  destruct (scalar_cases c Hc) as [(-> & El & Et)|(h & t & -> & El & Et & Ec)]; cbn [app convertUTF16ToUTF8].
  - rewrite El, Et, andb_false_r.
    rewrite (put_room c cap (fun cap => convertUTF16ToUTF8 (utf16s cs) cap strict)) by (done || lia).
    by rewrite IH by lia.
  - rewrite El, Et, Ec.
    rewrite (put_room c cap (fun cap => convertUTF16ToUTF8 (utf16s cs) cap strict)) by (done || lia).
    by rewrite IH by lia.
Qed.

Lemma latin1_to_utf8_all cs cap :
  Forall is_byte cs -> (length (utf8s cs) <= cap)%nat ->
  convertLatin1ToUTF8 cs cap = mkconv conversionOK [] (utf8s cs).
Proof.
  intros H. revert cap. induction H as [|c cs Hc _ IH]; intros cap Hcap; [done|].
  rewrite utf8s_cons in *. rewrite length_app in Hcap. cbn [convertLatin1ToUTF8].
  assert (0 <= c < 256) as Hr by dlia.
  pose proof (put_room c cap (convertLatin1ToUTF8 cs) (c :: cs) ltac:(lia) ltac:(lia)) as E.
  unfold bytes_for in E. rewrite IH in E by lia.
  destruct (Z.ltb_spec c 0x80); [exact E|]. destruct (Z.ltb_spec c 0x800); [exact E|lia].
Qed.

Lemma putUTF8Triple_utf8 h : is_lead h = true -> putUTF8Triple h = UTF8.Spec.utf8 h.
Proof.
  unfold is_lead, putUTF8Triple, UTF8.Spec.utf8, cont. intros H. bprop.
  destruct (Z.ltb_spec h 0x80), (Z.ltb_spec h 0x800), (Z.ltb_spec h 0x10000); try lia.
  change 0x3F with (Z.ones 6). change 0x0F with (Z.ones 4).
  rewrite !Z.land_ones, !Z.shiftr_div_pow2, !(Z.lor_comm _ 0x80), (Z.lor_comm _ 0xE0) by lia.
  change 0x80 with (2 * 2 ^ 6) at 1 2. change 0xE0 with (14 * 2 ^ 4).
  rewrite !lor_add by dlia. cons_eq; dlia.
Qed.

Lemma utf16s_latin1 cs : Forall is_byte cs -> utf16s cs = cs.
Proof.
  induction 1 as [|c cs Hc _ IH]; [done|]. rewrite utf16s_cons, IH.
  unfold UTF8.Spec.utf16. by destruct (Z.ltb_spec c 0x10000); [|dlia].
Qed.

Lemma utf8_empty cs : utf16s cs = [] -> cs = [].
Proof.
  destruct cs as [|c cs]; [done|]. rewrite utf16s_cons. pose proof (utf16_length_pos c).
  destruct (UTF8.Spec.utf16 c); simpl in *; [lia|done].
Qed.

Lemma utf8s_app a b : utf8s (a ++ b) = utf8s a ++ utf8s b.
Proof. unfold utf8s. by rewrite fmap_app, join_app. Qed.

Lemma utf16s_app a b : utf16s (a ++ b) = utf16s a ++ utf16s b.
Proof. unfold utf16s. by rewrite fmap_app, join_app. Qed.

(** Encoding and decoding the string of given characters. *)
Lemma utf8_of_scalars strict cs :
  Forall scalar cs -> Z.of_nat (length (utf16s cs)) <= UINT_MAX / 3 ->
  Str.utf8 false strict (utf16s cs) = Some (utf8s cs).
Proof.
  intros Hcs Hmax. pose proof (utf8s_le_3_utf16s cs) as H3. unfold Str.utf8.
  destruct (Nat.eqb_spec (length (utf16s cs)) 0) as [E|_].
  { by apply nil_length_inv, utf8_empty in E as ->. }
  destruct (Z.ltb_spec (UINT_MAX / 3) (Z.of_nat (length (utf16s cs)))); [lia|].
  by rewrite utf16_to_utf8_all by (done || lia).
Qed.

Lemma fromUTF8_of_scalars cs :
  Forall scalar cs -> Z.of_nat (length (utf16s cs)) <= UINT_MAX / 3 -> fromUTF8 (utf8s cs) = Some (utf16s cs).
Proof.
  intros Hcs Hmax. unfold fromUTF8, convertUTF8ToUTF16. pose proof (utf16s_le_utf8s cs).
  by rewrite (utf8_loop_all true (utf8s cs) cs) by (lia || by apply reads_all_utf8s).
Qed.

End StrFacts.

Module IntFacts.
Import Impl Str.

Lemma allowed_base_10 c : isCharacterAllowedInBase c 10 = isASCIIDigit c.
Proof.
  unfold isCharacterAllowedInBase, isASCIIDigit, isASCIIAlpha, isASCIIUpper, isASCIILower.
  change (36 <? 10) with false. destruct (Z.ltb_spec 0x7F c); [lia|].
  destruct (Z.leb_spec 48 c), (Z.leb_spec c 57); cbn [andb]; try lia; casif; lia.
Qed.

(** The decimal value of a digit sequence that follows [v]. *)
Definition decimal_from (v : Z) (l : list Z) : Z := fold_left (fun v c => 10 * v + (c - 48)) l v.

Lemma decimal_from_ge v l : 0 <= v -> Forall (fun c => isASCIIDigit c = true) l -> v <= decimal_from v l.
Proof.
  intros Hv H. revert v Hv. unfold decimal_from.
  induction H as [|c l Hc _ IH]; intros v Hv; cbn [fold_left]; [lia|].
  unfold isASCIIDigit in Hc. bprop. specialize (IH (10 * v + (c - 48)) ltac:(lia)). lia.
Qed.

(** The overflow test of the loop is exact. *)
Lemma digits_loop_unsigned data v :
  0 <= v < 2 ^ 32 ->
  let n := span_len isASCIIDigit data in
  digits_loop u32 (2 ^ 32 - 1) 10 false data v =
    if (decimal_from v (take n data) <? 2 ^ 32)%Z
    then Some (decimal_from v (take n data), drop n data) else None.
Proof.
  revert v. induction data as [|c data IH]; intros v Hv; cbn [span_len digits_loop].
  { cbn. by destruct (Z.ltb_spec v (2 ^ 32)); [|lia]. }
  rewrite allowed_base_10. destruct (isASCIIDigit c) eqn:Hc.
  - cbn [take drop]. unfold digitValue. rewrite Hc.
    change (decimal_from v (c :: take (span_len isASCIIDigit data) data))
      with (decimal_from (10 * v + (c - 48)) (take (span_len isASCIIDigit data) data)).
    pose proof Hc as Hd. unfold isASCIIDigit in Hd. bprop.
    pose proof (decimal_from_ge (10 * v + (c - 48)) (take (span_len isASCIIDigit data) data)
      ltac:(lia) (span_len_take _ _)) as Hge.
    change ((2 ^ 32 - 1) / 10) with 429496729. change ((2 ^ 32 - 1) mod 10 + Z.b2z false) with 5.
    destruct (Z.lt_ge_cases (10 * v + (c - 48)) (2 ^ 32)) as [Hlt|Hov].
    + replace ((429496729 <? v) || (v =? 429496729) && (5 <? c - 48)) with false by lia.
      replace (u32 (10 * v + (c - 48))) with (10 * v + (c - 48)) by dlia.
      apply IH. lia.
    + replace ((429496729 <? v) || (v =? 429496729) && (5 <? c - 48)) with true by lia.
      by destruct (Z.ltb_spec (decimal_from (10 * v + (c - 48)) (take (span_len isASCIIDigit data) data)) (2 ^ 32)); [lia|].
  - cbn. by destruct (Z.ltb_spec v (2 ^ 32)); [|lia].
Qed.

Lemma drop_span_nil (p : Z -> bool) l : (length (drop (span_len p l) l) =? 0)%nat = forallb p l.
Proof.
  induction l as [|x l IH]; [done|]. cbn [span_len forallb]. destruct (p x); [exact IH|done].
Qed.

(** What a text stands for: optional white space, an optional plus sign, at
    least one digit, optional white space, and a value below 2^32. *)
Definition parse_unsigned (ws : Z -> bool) (data : list Z) : option Z :=
  let data := drop (span_len ws data) data in
  let data := match data with 43 :: data' => data' | _ => data end in
  let n := span_len isASCIIDigit data in
  let v := decimal_from 0 (take n data) in
  if (0 <? n)%nat && forallb ws (drop n data) && (v <? 2 ^ 32)%Z then Some v else None.

Lemma charactersToUIntStrict_eq ws data :
  charactersToUIntStrict ws data =
    match parse_unsigned (isSpaceOrNewline ws) data with Some v => (v, true) | None => (0, false) end.
Proof.
  unfold charactersToUIntStrict, toIntegralType, parse_unsigned.
  set (d := drop _ data). 
  assert (match d with
    | [] => ([], false)
    | c :: data' => if false && (c =? 45) then (data', true)
                    else if c =? 43 then (data', false) else (d, false)
    end = (match d with 43 :: data' => data' | _ => d end, false)) as ->.
  { destruct d as [|c d']; [done|]. cbn [andb]. destruct (Z.eqb_spec c 43) as [->|Hne]; [done|].
    f_equal. destruct c as [|p|p]; try done.
    repeat (destruct p as [p|p|]; try done). }
  generalize (match d with 43 :: data' => data' | _ => d end) as e. clear d. intros [|c e]; [done|].
  rewrite allowed_base_10, digits_loop_unsigned by lia.
  cbn [span_len]. destruct (isASCIIDigit c) eqn:Hc; [|done].
  cbn [Nat.ltb Nat.leb andb].
  destruct (_ <? 2 ^ 32) eqn:E; [|by rewrite andb_false_r].
  rewrite drop_span_nil, andb_true_r. by destruct (forallb _ _).
Qed.

End IntFacts.

Module StringProps.
Import Impl Str SearchFacts StrFacts IntFacts.

(** the rolling-hash search finds the first occurrence at or after the
    start index, and nothing when there is none; an empty pattern is found at
    the start index. *)
Theorem find_first (s mtch : list Z) (index : nat) :
  (index <= length s)%nat -> first_occurrence s mtch index (find s mtch index).
Proof. intros H. apply find_first_occurrence. by right. Qed.

(** the backward search finds the last occurrence at or before the start
    index, and nothing when there is none. *)
Theorem reverseFind_last (s mtch : list Z) (index : nat) :
  mtch <> [] -> last_occurrence s mtch index (reverseFind s mtch index).
Proof. apply reverseFind_last_occurrence. Qed.

(** the prefix and suffix tests, which go through the searches, decide
    whether one string is a prefix or a suffix of the other. *)
Theorem startsWith_endsWith (s m : list Z) :
  (startsWith s m = true <-> m `prefix_of` s) /\ (endsWith s m = true <-> m `suffix_of` s).
Proof.
  split.
  - unfold startsWith. rewrite bool_decide_eq_true. transitivity (at_pos s m 0).
    + destruct (decide (m = [])) as [->|Hm].
      { split; [done|]. done. }
      pose proof (reverseFind_last_occurrence s m 0 Hm) as H.
      destruct (reverseFind s m 0) as [p|]; cbn in H.
      * destruct H as (Hp & Hat & _). assert (p = 0%nat) as -> by lia. done.
      * split; [done|]. intros Hat. by destruct (H 0%nat ltac:(lia)).
    + unfold at_pos. rewrite drop_0. split.
      * intros <-. apply prefix_take.
      * intros [k ->]. apply take_app_length.
  - unfold endsWith. destruct (Nat.leb_spec (length m) (length s)) as [Hle|Hgt].
    + rewrite bool_decide_eq_true. transitivity (at_pos s m (length s - length m)).
      * pose proof (find_first_occurrence s m (length s - length m) ltac:(right; lia)) as H.
        destruct (find s m _) as [p|]; cbn in H.
        -- destruct H as (Hp & Hat & Hno). split; [by intros [= ->]|]. intros Hat'.
           f_equal. destruct (decide (p = length s - length m)%nat) as [->|]; [done|].
           exfalso. apply (Hno (length s - length m)%nat); [lia|done].
        -- split; [done|]. intros Hat. by destruct (H (length s - length m)%nat ltac:(lia)).
      * unfold at_pos. rewrite take_ge by (rewrite length_drop; lia). split.
        -- intros <-. apply suffix_drop.
        -- intros [k ->]. rewrite length_app. replace (length k + length m - length m)%nat with (length k) by lia.
           apply drop_app_length.
    + split; [done|]. intros [k ->]. rewrite length_app in Hgt. lia.
Qed.

(** splitting at a non-empty separator terminates; the pieces joined by
    the separator are the string, none contains the separator, and without
    empty entries exactly the empty pieces are left out. *)
Theorem split_pieces (s separator : list Z) :
  separator <> [] ->
  exists ps, split s separator true = Some ps /\ join separator ps = s /\
    Forall (absent separator) ps /\ split s separator false = Some (List.filter nonempty ps).
Proof.
  intros Hs. destruct (split_loop_spec (S (length s)) s separator 0 Hs ltac:(lia) ltac:(lia))
    as (ps & E1 & _ & Ej & Hab & E2 & _). by exists ps.
Qed.

(** replacing a pattern puts the replacement between the pieces the
    pattern separates, and fails only when the result would be longer than a
    string can be. *)
Theorem replace_is_join (s pattern r : list Z) :
  pattern <> [] -> Z.of_nat (length s) <= UINT_MAX ->
  exists ps, split s pattern true = Some ps /\
    replace s pattern r =
      if (Z.of_nat (length (join r ps)) <=? UINT_MAX)%Z then Some (join r ps) else None.
Proof.
  intros Hp Hmax.
  destruct (split_loop_spec (S (length s)) s pattern 0 Hp ltac:(lia) ltac:(lia))
    as (ps & E1 & Hne & Ej & _ & _ & Ec & Er).
  rewrite drop_0 in Ej.
  exists ps. split; [done|]. unfold replace. rewrite Ec, Er. cbn [app].
  destruct (Nat.eqb_spec (length pattern) 0) as [E|_]; [by apply nil_length_inv in E|].
  pose proof (length_join pattern ps Hne) as L1. pose proof (length_join r ps Hne) as L2.
  rewrite Ej in L1.
  assert (0 < length ps)%nat by (destruct ps; simpl; [done|lia]).
  destruct (Z.eqb_spec (Z.of_nat (length ps - 1)) 0) as [E|E].
  { destruct ps as [|p [|? ?]]; simpl in *; try lia. subst p.
    by destruct (Z.leb_spec (Z.of_nat (length s)) UINT_MAX); [|lia]. }
  assert (Z.of_nat (length s) - Z.of_nat (length ps - 1) * Z.of_nat (length pattern)
    = Z.of_nat (length (join [] ps))) as -> by nia.
  assert (Z.of_nat (length (join r ps)) = Z.of_nat (length (join [] ps))
    + Z.of_nat (length ps - 1) * Z.of_nat (length r)) as -> by nia.
  set (n := Z.of_nat (length ps - 1)) in *. set (k := Z.of_nat (length r)) in *.
  set (m := Z.of_nat (length (join [] ps))).
  destruct (Z.leb_spec (m + n * k) UINT_MAX) as [Hfit|Hover].
  - replace (negb (k =? 0) && (UINT_MAX / k <? n)) with false.
    + by destruct (Z.ltb_spec (UINT_MAX - n * k) m); [lia|].
    + symmetry. destruct (Z.eqb_spec k 0); [done|]. cbn [negb andb]. apply Z.ltb_ge.
      apply Z.div_le_lower_bound; lia.
  - destruct (negb (k =? 0) && (UINT_MAX / k <? n)); [done|].
    by destruct (Z.ltb_spec (UINT_MAX - n * k) m); [|lia].
Qed.

Import UTF8.Spec UTF8.Conv UTF8.ConvFacts.

(** C40: a well-formed string of any length a UTF-8 buffer can be allocated
    for converts to the UTF-8 form of its characters, strictly or not, from
    the Latin-1 representation as well, and converting back gives the string. *)
Theorem utf8_roundtrip (strict : bool) (cs : list Z) :
  Forall scalar cs -> Z.of_nat (length (utf16s cs)) <= UINT_MAX / 3 ->
  Str.utf8 false strict (utf16s cs) = Some (utf8s cs) /\
  (Forall is_byte cs -> Str.utf8 true strict cs = Some (utf8s cs)) /\
  fromUTF8 (utf8s cs) = Some (utf16s cs).
Proof.
  intros Hcs Hmax. split_and!; [by apply utf8_of_scalars| |by apply fromUTF8_of_scalars].
  pose proof (utf8s_le_3_utf16s cs) as H3.
  intros Hb. rewrite utf16s_latin1 in Hmax, H3 by done. unfold Str.utf8.
  destruct (Nat.eqb_spec (length cs) 0) as [E|_]; [by apply nil_length_inv in E as ->|].
  destruct (Z.ltb_spec (UINT_MAX / 3) (Z.of_nat (length cs))); [lia|].
  by rewrite latin1_to_utf8_all by (done || lia).
Qed.

(** a conversion that is not strict succeeds on any string that fits and
    writes the UTF-8 form of its code points, lone surrogates included, the
    one at the end too. *)
Theorem utf8_total (s : list Z) :
  units_ok s -> Z.of_nat (length s) <= UINT_MAX / 3 ->
  exists cs, Forall (codepoint false) cs /\ s = utf16s cs /\ Str.utf8 false false s = Some (utf8s cs).
Proof.
  intros Hu Hmax. unfold Str.utf8. destruct (Nat.eqb_spec (length s) 0) as [E|_].
  { apply nil_length_inv in E as ->. by exists []. }
  destruct (Z.ltb_spec (UINT_MAX / 3) (Z.of_nat (length s))); [lia|].
  destruct (convertUTF16ToUTF8_run s (length s * 3) false Hu) as (cs & Hcs & Es & Et & Hcap & Hstop).
  destruct (conv_result _) eqn:Er; cbn in Hstop.
  - exists cs. rewrite Hstop, app_nil_r in Es. by rewrite Et.
  - destruct Hstop as (h & Eh & Hh). exists (cs ++ [h]). rewrite Eh in *. cbn [at_ lookup list_lookup].
    assert (utf16s [h] = [h]) as E1.
    { unfold utf16s. cbn. unfold is_lead in Hh. rewrite utf16_single by lia. done. }
    split_and!.
    + apply Forall_app. split; [done|]. constructor; [|done]. unfold codepoint, is_lead in *.
      split; [lia|done].
    + by rewrite utf16s_app, E1.
    + rewrite Et, utf8s_app. f_equal. f_equal. change (at_ [h] 0) with h.
      rewrite putUTF8Triple_utf8 by done. unfold utf8s. cbn. by rewrite app_nil_r.
  - destruct Hstop as (c & rest & Hc & Erest & Hlt). exfalso.
    rewrite Es, Erest, !length_app in Hlt.
    pose proof (utf8s_le_3_utf16s cs). pose proof (utf8_le_3_utf16 c). lia.
  - by destruct Hstop.
Qed.

(** the strict unsigned conversion accepts exactly white space, an
    optional plus sign, digits and white space whose value is below 2^32, and
    returns that value; the overflow test never misses. *)
Theorem charactersToUIntStrict_exact (ws : Z -> bool) (data : list Z) :
  charactersToUIntStrict ws data =
    match parse_unsigned (isSpaceOrNewline ws) data with Some v => (v, true) | None => (0, false) end.
Proof. apply charactersToUIntStrict_eq. Qed.

End StringProps.

Module StringWitness.
Import Impl Str SearchFacts StrFacts IntFacts.
Import UTF8.Spec UTF8.Conv UTF8.ConvFacts.

Lemma find_first_witness :
  first_occurrence (str "abcabd") (str "abd") 1 (find (str "abcabd") (str "abd") 1) /\
  find (str "abcabd") (str "abd") 1 = Some 3%nat.
Proof. split; [apply StringProps.find_first; vm_compute; lia|vm_compute; reflexivity]. Defined.

Lemma reverseFind_last_witness :
  last_occurrence (str "a/b/c") (str "/") 9 (reverseFind (str "a/b/c") (str "/") 9) /\
  reverseFind (str "a/b/c") (str "/") 9 = Some 3%nat.
Proof. split; [by apply StringProps.reverseFind_last|vm_compute; reflexivity]. Defined.

Lemma split_pieces_witness :
  exists ps, split (str "a,,b") (str ",") true = Some ps /\ join (str ",") ps = str "a,,b" /\
    Forall (absent (str ",")) ps /\ split (str "a,,b") (str ",") false = Some (List.filter nonempty ps).
Proof. by apply StringProps.split_pieces. Defined.

Lemma replace_is_join_witness :
  exists ps, split (str "a&b") (str "&") true = Some ps /\
    replace (str "a&b") (str "&") (str "&amp;") =
      if (Z.of_nat (length (join (str "&amp;") ps)) <=? UINT_MAX)%Z then Some (join (str "&amp;") ps) else None.
Proof. apply StringProps.replace_is_join; [done|vm_compute; discriminate]. Defined.

Lemma utf8_roundtrip_witness :
  let cs := [0x41; 0xE9; 0x20AC; 0x1F600] in
  Str.utf8 false true (utf16s cs) = Some (utf8s cs) /\ fromUTF8 (utf8s cs) = Some (utf16s cs).
Proof.
  intros cs. destruct (StringProps.utf8_roundtrip true cs) as (H1 & _ & H2); [by_eval|vm_compute; discriminate|].
  split; [exact H1|exact H2].
Defined.

Lemma utf8_total_witness :
  exists cs, Forall (codepoint false) cs /\ [0x41; 0xD800] = utf16s cs /\
    Str.utf8 false false [0x41; 0xD800] = Some (utf8s cs).
Proof. apply StringProps.utf8_total; [by_eval|vm_compute; discriminate]. Defined.

Definition no_ws (c : Z) : bool := false.

(** A signed conversion that overflows is accepted: after INT_MIN the value is
    negative and the overflow test passes. *)
Example signed_overflow_accepted : charactersToIntStrict no_ws (str "-21474836480") = (0, true).
Proof. vm_compute. reflexivity. Qed.

(** An empty separator is found at every position without progress. *)
Example split_empty_separator : split (str "ab") [] false = None.
Proof. vm_compute. reflexivity. Qed.

End StringWitness.
