(* ===== verification/KURLParse.v ===== *)
(** * URL parsing (WebCore/platform/KURL.cpp)

    [KURL::parse] as two stages: [Scan] finds the ranges of the components in
    the input, [Assemble] writes the canonical text and records the offsets.
    A URL is a NUL-terminated byte buffer, read with [at_]; offsets are
    indices.  [KURL.v] has the accessors, the setters and the resolution of
    relative references. *)
From S2P Require Import Prelude WString.

(** ** Character classes *)
Module Class.

Definition SchemeFirstChar : Z := Z.shiftl 1 0.
Definition SchemeChar : Z := Z.shiftl 1 1.
Definition UserInfoChar : Z := Z.shiftl 1 2.
Definition HostnameChar : Z := Z.shiftl 1 3.
Definition IPv6Char : Z := Z.shiftl 1 4.
Definition PathSegmentEndChar : Z := Z.shiftl 1 5.
Definition BadChar : Z := Z.shiftl 1 6.

#[local] Infix ".|" := Z.lor (at level 50, left associativity).

(** The table, with runs of equal entries folded. *)
Definition characterClassTable : list Z :=
  replicate 1 (PathSegmentEndChar) ++
  replicate 32 (BadChar) ++
  replicate 1 (UserInfoChar) ++
  replicate 1 (BadChar) ++
  replicate 1 (PathSegmentEndChar .| BadChar) ++
  replicate 1 (UserInfoChar) ++
  replicate 1 (UserInfoChar .| HostnameChar .| IPv6Char .| BadChar) ++
  replicate 5 (UserInfoChar) ++
  replicate 1 (SchemeChar .| UserInfoChar) ++
  replicate 1 (UserInfoChar) ++
  replicate 1 (SchemeChar .| UserInfoChar .| HostnameChar) ++
  replicate 1 (SchemeChar .| UserInfoChar .| HostnameChar .| IPv6Char) ++
  replicate 1 (PathSegmentEndChar) ++
  replicate 10 (SchemeChar .| UserInfoChar .| HostnameChar .| IPv6Char) ++
  replicate 1 (UserInfoChar .| IPv6Char) ++
  replicate 1 (UserInfoChar) ++
  replicate 1 (BadChar) ++
  replicate 1 (UserInfoChar) ++
  replicate 1 (BadChar) ++
  replicate 1 (PathSegmentEndChar .| BadChar) ++
  replicate 1 (0) ++
  replicate 6 (SchemeFirstChar .| SchemeChar .| UserInfoChar .| HostnameChar .| IPv6Char) ++
  replicate 20 (SchemeFirstChar .| SchemeChar .| UserInfoChar .| HostnameChar) ++
  replicate 4 (0) ++
  replicate 1 (UserInfoChar .| HostnameChar) ++
  replicate 1 (0) ++
  replicate 6 (SchemeFirstChar .| SchemeChar .| UserInfoChar .| HostnameChar .| IPv6Char) ++
  replicate 20 (SchemeFirstChar .| SchemeChar .| UserInfoChar .| HostnameChar) ++
  replicate 3 (0) ++
  replicate 1 (UserInfoChar) ++
  replicate 129 (BadChar).

(** Characters are unsigned bytes; above 0xFF a UChar is in no class. *)
Definition has_class (m c : Z) : bool := negb (Z.land (at_ characterClassTable (Z.to_nat c)) m =? 0).
Definition isSchemeFirstChar : Z -> bool := has_class SchemeFirstChar.
Definition isSchemeChar : Z -> bool := has_class SchemeChar.
Definition isUserInfoChar : Z -> bool := has_class UserInfoChar.
Definition isHostnameChar : Z -> bool := has_class HostnameChar.
Definition isIPv6Char : Z -> bool := has_class IPv6Char.
Definition isPathSegmentEndChar : Z -> bool := has_class PathSegmentEndChar.
Definition isBadChar : Z -> bool := has_class BadChar.

Definition isLetterMatchIgnoringCase (character lowercaseLetter : Z) : bool :=
  Z.lor character 0x20 =? lowercaseLetter.

(** [isLetterMatchIgnoringCase(url[i], l[0]) && isLetterMatchIgnoringCase(url[i + 1], l[1]) ...]. *)
Fixpoint letters_at (url : list Z) (i : nat) (l : list Z) : bool :=
  match l with
  | [] => true
  | c :: l' => isLetterMatchIgnoringCase (at_ url i) c && letters_at url (S i) l'
  end.

End Class.

(** ** Finding the components *)
Module Scan.
Import Class.

(** [while (p(url[i])) i++]. *)
Definition skip_while (p : Z -> bool) (url : list Z) (i : nat) : nat := (i + span_len p (drop i url))%nat.

(** [url[from, to)]. *)
Definition slice (url : list Z) (from to : nat) : list Z := take (to - from) (drop from url).

Definition wsScheme := str "ws".
Definition ftpScheme := str "ftp".
Definition wssScheme := str "wss".
Definition fileScheme := str "file".
Definition httpScheme := str "http".
Definition httpsScheme := str "https".
Definition gopherScheme := str "gopher".
Definition ftpPort := str "21".
Definition httpPort := str "80".
Definition httpsPort := str "443".
Definition gopherPort := str "70".

(** [equal(a, b)] for a literal [b]: the first characters of [a]. *)
Definition equal (a b : list Z) : bool := bool_decide (take (length b) a = b).
Definition equal_len (a : list Z) (lengthA : nat) (b : list Z) : bool :=
  (lengthA =? length b)%nat && equal a b.

Definition isNonFileHierarchicalScheme (scheme : list Z) (schemeLength : nat) : bool :=
  match schemeLength with
  | 2%nat => equal scheme wsScheme
  | 3%nat => equal scheme ftpScheme || equal scheme wssScheme
  | 4%nat => equal scheme httpScheme
  | 5%nat => equal scheme httpsScheme
  | 6%nat => equal scheme gopherScheme
  | _ => false
  end.

Definition hostPortIsEmptyButCredentialsArePresent (hostStart portEnd : nat) (userEndChar : Z) : bool :=
  (userEndChar =? 64) && (hostStart =? portEnd)%nat.

Record authority := mkauth {
  userStart : nat; userEnd : nat; passwordStart : nat; passwordEnd : nat;
  hostStart : nat; hostEnd : nat; portStart : nat; portEnd : nat
}.

(** Everything empty at one position. *)
Definition empty_authority (i : nat) : authority := mkauth i i i i i i i i.

(** The loop over the characters of the user info; [colonPos] is the first
    colon, 0 for none. *)
Fixpoint scan_userinfo (l : list Z) (userEnd colonPos : nat) : nat * nat :=
  match l with
  | c :: l' =>
      if isUserInfoChar c then
        scan_userinfo l' (S userEnd) (if (c =? 58) && (colonPos =? 0)%nat then userEnd else colonPos)
      else (userEnd, colonPos)
  | [] => (userEnd, colonPos)
  end.

(** [while (url[i] == '/' && url[i + 1] == '/') i++]. *)
Fixpoint skip_double_slashes (l : list Z) : nat :=
  match l with
  | c :: l' => if (c =? 47) && (at_ l' 0 =? 47) then S (skip_double_slashes l') else 0
  | [] => 0
  end.

(** The user info: [Some (userEnd, passwordStart, passwordEnd, hostStart)], or
    [None] on an invalid character. *)
Definition scan_user (url : list Z) (userStart : nat) : option (nat * nat * nat * nat) :=
  let '(userEnd, colonPos) := scan_userinfo (drop userStart url) userStart 0 in
  let c := at_ url userEnd in
  if c =? 64 then
    (* actual end of the userinfo, start on the host *)
    if negb (colonPos =? 0)%nat then Some (colonPos, S colonPos, userEnd, S userEnd)
    else Some (userEnd, userEnd, userEnd, S userEnd)
  else if (c =? 91) || isPathSegmentEndChar c then
    (* no user, or an IPv6 host name: parse it as a host name *)
    Some (userStart, userStart, userStart, userStart)
  else None.

(** The end of the host that starts at [hostStart]. *)
Definition scan_host (url : list Z) (hostStart : nat) : option nat :=
  if at_ url hostStart =? 91 then
    let hostEnd := skip_while isIPv6Char url (S hostStart) in
    if at_ url hostEnd =? 93 then Some (S hostEnd) else None
  else Some (skip_while isHostnameChar url hostStart).

(** The port after the host: [(portStart, portEnd)]. *)
Definition scan_port (url : list Z) (hostEnd : nat) : nat * nat :=
  if at_ url hostEnd =? 58 then (S hostEnd, skip_while isASCIIDigit url (S hostEnd))
  else (hostEnd, hostEnd).

(** The branch that looks for an authority. *)
Definition scan_authority (url : list Z) (schemeEnd : nat)
    (hierarchical hasSecondSlash isFile isHTTP : bool) : option authority :=
  let userStart := S schemeEnd in
  let userStart := if hierarchical then S userStart else userStart in
  let userStart := if hasSecondSlash then S userStart else userStart in
  let userStart := if isHTTP then skip_while (fun c => c =? 47) url userStart else userStart in
  let userStart :=
    if isFile then (userStart + skip_double_slashes (drop userStart url))%nat else userStart in
  match scan_user url userStart with
  | None => None
  | Some (userEnd, passwordStart, passwordEnd, hostStart) =>
      match scan_host url hostStart with
      | None => None
      | Some hostEnd =>
          let '(portStart, portEnd) := scan_port url hostEnd in
          if negb (isPathSegmentEndChar (at_ url portEnd)) then None
          else
            let '(userEnd, hostStart) :=
              if hostPortIsEmptyButCredentialsArePresent hostStart portEnd (at_ url userEnd)
              then (userStart, userStart) else (userEnd, hostStart) in
            let a := mkauth userStart userEnd passwordStart passwordEnd hostStart hostEnd portStart portEnd in
            (* no authority found: an abs_path whose first two segments are empty *)
            let a := if (userStart =? portEnd)%nat && negb isHTTP && negb isFile
                     then empty_authority (userStart - 2) else a in
            Some (if isFile then empty_authority (Scan.userStart a) else a)
      end
  end.

Record scan := mkscan {
  schemeEnd : nat;
  auth : authority;
  hierarchical : bool;
  isFile : bool;
  isHTTP : bool;
  pathStart : nat; pathEnd : nat;
  queryStart : nat; queryEnd : nat;
  fragmentStart : nat; fragmentEnd : nat
}.

Definition is_file (url : list Z) (schemeEnd : nat) : bool :=
  (schemeEnd =? 4)%nat && letters_at url 0 (str "file").

(** [m_protocolIsInHTTPFamily]. *)
Definition is_http_family (url : list Z) : bool :=
  letters_at url 0 (str "http") &&
  ((at_ url 4 =? 58) || (isLetterMatchIgnoringCase (at_ url 4) 115 && (at_ url 5 =? 58))).

(** [None] is a jump to [invalidate()]. *)
Definition scan_url (url : list Z) : option scan :=
  if at_ url 0 =? 0 then None
  else if negb (isSchemeFirstChar (at_ url 0)) then None
  else
    let schemeEnd := skip_while isSchemeChar url 0 in
    if negb (at_ url schemeEnd =? 58) then None
    else
      let hierarchical := at_ url (schemeEnd + 1) =? 47 in
      let hasSecondSlash := hierarchical && (at_ url (schemeEnd + 2) =? 47) in
      let isFile := is_file url schemeEnd in
      let isHTTP := is_http_family url in
      let a :=
        if (hierarchical && hasSecondSlash) || isNonFileHierarchicalScheme url schemeEnd
        then scan_authority url schemeEnd hierarchical hasSecondSlash isFile isHTTP
        else Some (empty_authority (schemeEnd + 1)) in
      match a with
      | None => None
      | Some a =>
          let pathStart := portEnd a in
          let pathEnd := skip_while (fun c => negb (c =? 0) && negb (c =? 63) && negb (c =? 35)) url pathStart in
          let queryStart := pathEnd in
          let queryEnd :=
            if at_ url queryStart =? 63
            then skip_while (fun c => negb (c =? 0) && negb (c =? 35)) url queryStart else queryStart in
          let '(fragmentStart, fragmentEnd) :=
            if at_ url queryEnd =? 35
            then (S queryEnd, skip_while (fun c => negb (c =? 0)) url (S queryEnd))
            else (queryEnd, queryEnd) in
          Some (mkscan schemeEnd a hierarchical isFile isHTTP pathStart pathEnd queryStart queryEnd
                  fragmentStart fragmentEnd)
      end.

End Scan.

(** ** Writing the canonical text *)
Module Assemble.
Import Class Scan.

(** wtf/HexNumber.h: upper-case hexadecimal digits. *)
Definition hexDigit (x : Z) : Z := if (x <? 10)%Z then 48 + x else 65 + (x - 10).
Definition appendEscapedChar (c : Z) : list Z := [37; hexDigit (Z.shiftr c 4); hexDigit (Z.land c 15)].

(** What one character becomes; the loops append it for every character. *)
Definition escape_bad (c : Z) : list Z :=
  if isBadChar c then
    if (c =? 37) || (c =? 63) then [c]
    else if negb (c =? 9) && negb (c =? 10) && negb (c =? 13) then appendEscapedChar c else []
  else [c].
Fixpoint appendEscapingBadChars (s : list Z) : list Z :=
  match s with [] => [] | c :: s' => escape_bad c ++ appendEscapingBadChars s' end.

Definition escape_opaque (c : Z) : list Z :=
  if (c =? 9) || (c =? 10) || (c =? 13) then []
  else if ((c <? 0x20) || (127 <=? c))%Z then appendEscapedChar c else [c].
Fixpoint escapeAndAppendNonHierarchicalPart (s : list Z) : list Z :=
  match s with [] => [] | c :: s' => escape_opaque c ++ escapeAndAppendNonHierarchicalPart s' end.

(** [while (dst > bufferPathStart && dst[-1] != '/') dst--], the destination
    kept in reverse. *)
Fixpoint back_to_slash (dst : list Z) : list Z :=
  match dst with c :: dst' => if c =? 47 then dst else back_to_slash dst' | [] => [] end.

Definition rewind (dst : list Z) : list Z :=
  back_to_slash (if (1 <? length dst)%nat then tail dst else dst).

Section Dots.
(** The byte in front of the destination buffer: [dst[-1]] reads it once the
    rewinding has emptied the destination. *)
Context (before : Z).

(** The loop of [copyPathRemovingDots] over the rest of the path. *)
Fixpoint dots_loop (src dst : list Z) : list Z :=
  match src with
  | [] => dst
  | c :: src1 =>
      if (c =? 46) && (hd before dst =? 47) then
        match src1 with
        | [] => dst (* skip over "." segment *)
        | c1 :: src2 =>
            if c1 =? 47 then dots_loop src2 dst
            else if c1 =? 46 then
              (* skip over ".." segment and rewind the last segment *)
              match src2 with
              | [] => rewind dst
              | c2 :: src3 => if c2 =? 47 then dots_loop src3 (rewind dst) else dots_loop src1 (c :: dst)
              end
            else dots_loop src1 (c :: dst)
        end
      else dots_loop src1 (c :: dst)
  end.

(** [copyPathRemovingDots(dst, src, srcStart, srcEnd)]: what is written. *)
Definition copyPathRemovingDots (path : list Z) : list Z :=
  match path with [] => [] | c :: path' => rev (dots_loop path' [c]) end.

(** The loop of [hasSlashDotOrDotDot]; it stops at a NUL. *)
Fixpoint slash_dot_loop (pc : Z) (s : list Z) : bool :=
  match s with
  | [] => false
  | c :: s' =>
      if c =? 0 then false
      else if (c =? 46) && ((pc =? 47) || (pc =? 46)) then true else slash_dot_loop c s'
  end.
Definition hasSlashDotOrDotDot (s : list Z) : bool :=
  match s with [] => false | c :: s' => if c =? 0 then false else slash_dot_loop c s' end.

(** ** The URL *)

Record KURL := mkKURL {
  m_string : list Z;
  m_isValid : bool;
  m_protocolIsInHTTPFamily : bool;
  m_schemeEnd : nat;
  m_userStart : nat;
  m_userEnd : nat;
  m_passwordEnd : nat;
  m_hostEnd : nat;
  m_portEnd : nat;
  m_pathAfterLastSlash : nat;
  m_pathEnd : nat;
  m_queryEnd : nat;
  m_fragmentEnd : nat
}.

(** [m_string = s; invalidate()]. *)
Definition invalid (s : list Z) : KURL := mkKURL s false false 0 0 0 0 0 0 0 0 0 0.

Definition isCanonicalHostnameLowercaseForScheme (scheme : list Z) (schemeLength : nat) : bool :=
  match schemeLength with
  | 2%nat => equal scheme wsScheme
  | 3%nat => equal scheme ftpScheme || equal scheme wssScheme
  | 4%nat => equal scheme httpScheme || equal scheme fileScheme
  | 5%nat => equal scheme httpsScheme
  | 6%nat => equal scheme gopherScheme
  | _ => false
  end.

Definition isDefaultPortForScheme (port : list Z) (portLength : nat) (scheme : list Z) (schemeLength : nat)
    : bool :=
  match schemeLength with
  | 2%nat => equal scheme wsScheme && equal_len port portLength httpPort
  | 3%nat =>
      if equal scheme ftpScheme then equal_len port portLength ftpPort
      else if equal scheme wssScheme then equal_len port portLength httpsPort else false
  | 4%nat => equal scheme httpScheme && equal_len port portLength httpPort
  | 5%nat => equal scheme httpsScheme && equal_len port portLength httpsPort
  | 6%nat => equal scheme gopherScheme && equal_len port portLength gopherPort
  | _ => false
  end.

(** [for (i = m_pathEnd; i > m_portEnd; --i) if (buffer[i - 1] == '/') break]. *)
Fixpoint after_last_slash (buffer : list Z) (portEnd i : nat) : nat :=
  match i with
  | O => O
  | S i' => if (portEnd <? i)%nat then if at_ buffer i' =? 47 then i else after_last_slash buffer portEnd i'
            else i
  end.

(** The offsets of the authority, as they are recorded while it is written. *)
Record auth_out := mkout { o_text : list Z; o_userStart : nat; o_userEnd : nat; o_passwordEnd : nat;
  o_hostEnd : nat; o_portEnd : nat }.

(** From the scheme and its colon to the port. *)
Definition write_authority (url : list Z) (sc : scan) (p : list Z) (schemeEnd : nat) : auth_out :=
  let a := auth sc in
  let hostIsLocalHost := (portEnd a - userStart a =? 9)%nat && letters_at url (userStart a) (str "localhost") in
  let degenerateFilePath :=
    (pathStart sc =? pathEnd sc)%nat && ((hostStart a =? hostEnd a)%nat || hostIsLocalHost) in
  let haveNonHostAuthorityPart :=
    negb (userStart a =? userEnd a)%nat || negb (passwordStart a =? passwordEnd a)%nat
    || negb (portStart a =? portEnd a)%nat in
  if (if isFile sc then negb degenerateFilePath
      else haveNonHostAuthorityPart || negb (hostStart a =? hostEnd a)%nat)
  then
    let p := p ++ [47; 47] in
    let m_userStart := length p in
    let p := p ++ slice url (userStart a) (userEnd a) in
    let m_userEnd := length p in
    let p := if negb (passwordEnd a =? passwordStart a)%nat
             then p ++ 58 :: slice url (passwordStart a) (passwordEnd a) else p in
    let m_passwordEnd := length p in
    let p := if negb (length p =? m_userStart)%nat then p ++ [64] else p in
    let p :=
      if negb (isFile sc && hostIsLocalHost && negb haveNonHostAuthorityPart) then
        let host := slice url (hostStart a) (hostEnd a) in
        if isCanonicalHostnameLowercaseForScheme p schemeEnd
        then p ++ map toASCIILower host else p ++ host
      else p in
    let m_hostEnd := length p in
    let p :=
      if negb (hostEnd a =? portStart a)%nat then
        let portLength := (portEnd a - portStart a)%nat in
        if negb (portLength =? 0)%nat
           && negb (isDefaultPortForScheme (drop (portStart a) url) portLength p schemeEnd)
        then p ++ 58 :: slice url (portStart a) (portEnd a) else p
      else p in
    mkout p m_userStart m_userEnd m_passwordEnd m_hostEnd (length p)
  else
    let p := if isFile sc then p ++ [47; 47] else p in
    mkout p (length p) (length p) (length p) (length p) (length p).

(** The path, escaped and without its dot segments. *)
Definition write_path (url : list Z) (sc : scan) : list Z :=
  let path := slice url (pathStart sc) (pathEnd sc) in
  (if (isHTTP sc || isFile sc) && (pathEnd sc =? pathStart sc)%nat then [47] else []) ++
  (if isFile sc && negb (at_ url (pathStart sc) =? 47) then [47] else []) ++
  (if negb (hierarchical sc) then escapeAndAppendNonHierarchicalPart path
   else if negb (hasSlashDotOrDotDot url) then appendEscapingBadChars path
   else appendEscapingBadChars (copyPathRemovingDots path)).

Definition assemble (url : list Z) (sc : scan) : KURL :=
  (* copy in the scheme *)
  let p := map toASCIILower (slice url 0 (schemeEnd sc)) in
  let m_schemeEnd := length p in
  let o := write_authority url sc (p ++ [58]) m_schemeEnd in
  let p := o_text o ++ write_path url sc in
  let m_pathEnd := length p in
  let m_pathAfterLastSlash := after_last_slash p (o_portEnd o) m_pathEnd in
  let p := p ++ appendEscapingBadChars (slice url (queryStart sc) (queryEnd sc)) in
  let m_queryEnd := length p in
  let p :=
    if negb (fragmentEnd sc =? queryEnd sc)%nat
    then p ++ 35 :: escapeAndAppendNonHierarchicalPart (slice url (fragmentStart sc) (fragmentEnd sc))
    else p in
  mkKURL p true (isHTTP sc) m_schemeEnd (o_userStart o) (o_userEnd o) (o_passwordEnd o) (o_hostEnd o)
    (o_portEnd o) m_pathAfterLastSlash m_pathEnd m_queryEnd (length p).

(** [parse(url, originalString)].  A valid URL gets the canonical text; the
    reuse of [originalString] when it equals the buffer does not change it. *)
Definition parse (url originalString : list Z) : KURL :=
  match scan_url url with
  | None => invalid originalString
  | Some sc => assemble url sc
  end.

End Dots.
End Assemble.

(** * Facts about the scanner *)
Module ScanFacts.
Import Class Scan.

(** Printable ASCII without the space. *)
Definition plain (c : Z) : Prop := 0x21 <= c < 0x7F.

#[global] Instance plain_dec c : Decision (plain c).
Proof. unfold plain. apply _. Defined.

Lemma has_class_range m c : Z.land 32 m = 0 -> has_class m c = true -> 0 <= c < 256.
Proof.
  intros Hm. unfold has_class. destruct (Z.lt_ge_cases c 0) as [Hneg|Hpos].
  { rewrite Z2Nat.nonpos by lia. change (at_ characterClassTable 0) with 32. by rewrite Hm. }
  destruct (Z.lt_ge_cases c 256); [lia|]. rewrite at_ge; [done|].
  change (length characterClassTable) with (Z.to_nat 256). lia.
Qed.

(** A property of the characters of a class, checked on the table. *)
Lemma class_check m (P : Z -> bool) c :
  Z.land 32 m = 0 -> check_pow 8 0 (fun c => negb (has_class m c) || P c) = true ->
  has_class m c = true -> P c = true.
Proof.
  intros Hm Hck Hc. pose proof (has_class_range m c Hm Hc).
  pose proof (range_check 8 _ Hck c ltac:(zpow; lia)) as E. cbv beta in E. by rewrite Hc in E.
Qed.

Definition plainb (c : Z) : bool := (0x21 <=? c) && (c <? 0x7F).

Lemma scheme_plain c : isSchemeChar c = true -> plain c.
Proof. intros H. assert (plainb c = true) by (by apply (class_check SchemeChar)). unfold plainb, plain in *. lia. Qed.
Lemma userinfo_plain c : isUserInfoChar c = true -> plain c.
Proof. intros H. assert (plainb c = true) by (by apply (class_check UserInfoChar)). unfold plainb, plain in *. lia. Qed.
Lemma hostname_plain c : isHostnameChar c = true -> plain c.
Proof. intros H. assert (plainb c = true) by (by apply (class_check HostnameChar)). unfold plainb, plain in *. lia. Qed.
Lemma ipv6_plain c : isIPv6Char c = true -> plain c.
Proof. intros H. assert (plainb c = true) by (by apply (class_check IPv6Char)). unfold plainb, plain in *. lia. Qed.

Lemma segment_end c : isPathSegmentEndChar c = true -> c <= 0 \/ c = 35 \/ c = 47 \/ c = 63.
Proof.
  unfold isPathSegmentEndChar, has_class. intros H.
  destruct (Z.lt_ge_cases c 1); [lia|]. destruct (Z.lt_ge_cases c 256).
  - pose proof (range_check 8 (fun c => negb (has_class PathSegmentEndChar c)
      || (c =? 0) || (c =? 35) || (c =? 47) || (c =? 63)) ltac:(vm_compute; reflexivity) c ltac:(zpow; lia)) as E.
    cbv beta in E. unfold has_class in E. rewrite H in E. lia.
  - rewrite at_ge in H; [done|]. change (length characterClassTable) with (Z.to_nat 256). lia.
Qed.

(** The characters before position [n] are plain. *)
Definition plain_to (url : list Z) (n : nat) : Prop := forall i, (i < n)%nat -> plain (at_ url i).

Lemma plain_to_S url n : plain_to url n -> plain (at_ url n) -> plain_to url (S n).
Proof. intros H Hn i Hi. destruct (decide (i = n)) as [->|]; [done|]. apply H. lia. Qed.

Lemma plain_to_le url n m : (m <= n)%nat -> plain_to url n -> plain_to url m.
Proof. intros Hm H i Hi. apply H. lia. Qed.

Lemma at_drop url i j : at_ (drop i url) j = at_ url (i + j).
Proof. unfold at_. by rewrite lookup_drop. Qed.

Lemma span_at (p : Z -> bool) l i : (i < span_len p l)%nat -> p (at_ l i) = true.
Proof.
  revert i. induction l as [|x l IH]; simpl; intros i H; [lia|].
  destruct (p x) eqn:E; [|lia]. destruct i as [|i]; [done|]. apply IH. lia.
Qed.

Lemma span_stop (p : Z -> bool) l : p 0 = false -> p (at_ l (span_len p l)) = false.
Proof.
  intros H0. destruct (Nat.lt_ge_cases (span_len p l) (length l)) as [H|H].
  - apply at_lt in H. by apply span_len_stop in H.
  - by rewrite at_ge.
Qed.

Lemma skip_while_ge p url i : (i <= skip_while p url i)%nat.
Proof. unfold skip_while. lia. Qed.

Lemma skip_while_at p url i j : (i <= j < skip_while p url i)%nat -> p (at_ url j) = true.
Proof.
  unfold skip_while. intros Hj. replace j with (i + (j - i))%nat by lia.
  rewrite <- at_drop. apply span_at. lia.
Qed.

Lemma skip_while_stop p url i : p 0 = false -> p (at_ url (skip_while p url i)) = false.
Proof. intros H. unfold skip_while. rewrite <- at_drop. by apply span_stop. Qed.

(** Stopping at the first position where the test fails. *)
Lemma skip_while_unique p url i j :
  (i <= j)%nat -> (forall n, (i <= n < j)%nat -> p (at_ url n) = true) -> p 0 = false ->
  p (at_ url j) = false -> skip_while p url i = j.
Proof.
  intros Hij Hp H0 Hj. destruct (Nat.lt_trichotomy (skip_while p url i) j) as [H|[H|H]]; [|done|].
  - pose proof (skip_while_stop p url i H0) as E. rewrite Hp in E; [done|].
    pose proof (skip_while_ge p url i). lia.
  - by rewrite (skip_while_at p url i j) in Hj by lia.
Qed.

Lemma plain_skip p url i :
  (forall c, p c = true -> plain c) -> plain_to url i -> plain_to url (skip_while p url i).
Proof.
  intros Hp H n Hn. destruct (Nat.lt_ge_cases n i); [by apply H|]. apply Hp.
  by apply (skip_while_at p url i).
Qed.

(** ** The authority *)

Lemma scan_userinfo_fst url i n colon :
  (scan_userinfo (drop i url) n colon).1 = (n + span_len isUserInfoChar (drop i url))%nat.
Proof.
  generalize (drop i url) as l. intros l. revert n colon.
  induction l as [|c l IH]; intros n colon; cbn [scan_userinfo span_len]; [simpl; lia|].
  destruct (isUserInfoChar c); [rewrite IH; lia|simpl; lia].
Qed.

Lemma scan_userinfo_set l n colon : colon <> 0%nat -> (scan_userinfo l n colon).2 = colon.
Proof.
  intros H. revert n. induction l as [|c l IH]; intros n; cbn [scan_userinfo]; [done|].
  destruct (isUserInfoChar c); [|done].
  replace (colon =? 0)%nat with false by (symmetry; by apply Nat.eqb_neq). rewrite andb_false_r. apply IH.
Qed.

(** The colon position: 0 when the user info has none, else the first one. *)
Lemma scan_userinfo_colon l n :
  (0 < n)%nat ->
  let '(e, k) := scan_userinfo l n 0 in
  (k = 0 /\ forall i, (i < e - n)%nat -> at_ l i <> 58%Z)%nat \/
  (n <= k < e /\ at_ l (k - n) = 58%Z /\ forall i, (i < k - n)%nat -> at_ l i <> 58%Z)%nat.
Proof.
  revert n. induction l as [|c l IH]; intros n Hn; cbn [scan_userinfo].
  { left. split; [done|]. intros. lia. }
  destruct (isUserInfoChar c) eqn:Hc; [|left; split; [done|intros; lia]].
  destruct (Z.eqb_spec c 58) as [->|Hne]; cbn [andb Nat.eqb].
  - pose proof (scan_userinfo_set l (S n) n ltac:(lia)) as E.
    pose proof (scan_userinfo_fst l 0 (S n) n) as Ef. rewrite drop_0 in Ef.
    destruct (scan_userinfo l (S n) n) as [e k]. cbn in E, Ef. subst k. right.
    split_and!; [lia|lia|by rewrite Nat.sub_diag|]. intros. lia.
  - specialize (IH (S n) ltac:(lia)). pose proof (scan_userinfo_fst l 0 (S n) 0) as Ef. rewrite drop_0 in Ef.
    destruct (scan_userinfo l (S n) 0) as [e k]. cbn in Ef.
    destruct IH as [[-> H]|(Hk & Hat & H)]; [left|right].
    + split; [done|]. intros [|i] Hi; [done|]. apply H. lia.
    + split_and!; [lia|lia| |].
      * by replace (k - n)%nat with (S (k - S n)) by lia.
      * intros [|i] Hi; [done|]. apply H. lia.
Qed.

(** The sizes of what the assembler copies from an authority: with the
    separators they fit in the source range. *)
Definition auth_fits (a : authority) : Prop :=
  (userStart a <= userEnd a /\ passwordStart a <= passwordEnd a /\ hostStart a <= hostEnd a /\
   portStart a <= portEnd a /\ userStart a <= portEnd a /\
   (userEnd a - userStart a)
   + (if negb (passwordEnd a =? passwordStart a) then S (passwordEnd a - passwordStart a) else 0)
   + (if negb (userEnd a =? userStart a) || negb (passwordEnd a =? passwordStart a) then 1 else 0)
   + (hostEnd a - hostStart a)
   + (if negb (hostEnd a =? portStart a) then S (portEnd a - portStart a) else 0)
   <= portEnd a - userStart a /\
   userEnd a <= portEnd a /\ passwordEnd a <= portEnd a /\ hostEnd a <= portEnd a /\
   (hostEnd a = portStart a -> portEnd a = portStart a))%nat.

Lemma empty_authority_fits i : auth_fits (empty_authority i).
Proof. unfold auth_fits, empty_authority. cbn. rewrite Nat.eqb_refl. cbn. lia. Qed.

Lemma scan_user_spec url userStart userEnd passwordStart passwordEnd hostStart :
  (0 < userStart)%nat ->
  scan_user url userStart = Some (userEnd, passwordStart, passwordEnd, hostStart) ->
  (userStart <= userEnd <= passwordEnd /\ userEnd <= passwordStart <= passwordEnd /\
   passwordEnd <= hostStart)%nat /\
  ((passwordStart = userEnd /\ passwordEnd = userEnd /\ (hostStart = userEnd \/ hostStart = S userEnd)
     /\ (hostStart = userEnd -> userEnd = userStart))
   \/ (passwordStart = S userEnd /\ hostStart = S passwordEnd /\ at_ url userEnd = 58%Z))%nat /\
  (plain_to url userStart -> plain_to url hostStart).
Proof.
  intros Hpos. unfold scan_user.
  pose proof (scan_userinfo_fst url userStart userStart 0) as Ef.
  pose proof (scan_userinfo_colon (drop userStart url) userStart Hpos) as Hcol.
  destruct (scan_userinfo (drop userStart url) userStart 0) as [e k]. cbn in Ef.
  assert (plain_to url userStart -> plain_to url e) as Hpl
    by (rewrite Ef; intros; by apply plain_skip, H; apply userinfo_plain).
  destruct (Z.eqb_spec (at_ url e) 64) as [E64|_].
  - assert (plain_to url userStart -> plain_to url (S e)) as Hpl'.
    { intros H. apply plain_to_S; [auto|]. rewrite E64. by_eval. }
    destruct (Nat.eqb_spec k 0) as [->|Hk]; cbn [negb].
    + intros [= <- <- <- <-]. split_and!; auto; lia.
    + destruct Hcol as [[? _]|(Hk1 & Hat & _)]; [lia|].
      intros [= <- <- <- <-]. split_and!; auto; try lia. right. split_and!; auto.
      rewrite at_drop in Hat. by replace (userStart + (k - userStart))%nat with k in Hat by lia.
  - destruct (_ || _); [|done]. intros [= <- <- <- <-]. split_and!; auto; lia.
Qed.

Lemma scan_host_spec url hostStart hostEnd :
  scan_host url hostStart = Some hostEnd ->
  (hostStart <= hostEnd)%nat /\ (plain_to url hostStart -> plain_to url hostEnd).
Proof.
  unfold scan_host. destruct (Z.eqb_spec (at_ url hostStart) 91) as [E|_].
  - pose proof (skip_while_ge isIPv6Char url (S hostStart)).
    destruct (Z.eqb_spec (at_ url (skip_while isIPv6Char url (S hostStart))) 93) as [E'|_]; [|done].
    intros [= <-]. split; [lia|]. intros Hp. apply plain_to_S; [|rewrite E'; by_eval].
    apply plain_skip; [apply ipv6_plain|]. apply plain_to_S; [done|]. rewrite E. by_eval.
  - intros [= <-]. split; [apply skip_while_ge|]. apply plain_skip, hostname_plain.
Qed.

Lemma digit_plain c : isASCIIDigit c = true -> plain c.
Proof. unfold isASCIIDigit, plain. lia. Qed.

Lemma scan_port_spec url hostEnd :
  let '(portStart, portEnd) := scan_port url hostEnd in
  (hostEnd <= portStart <= S hostEnd)%nat /\ (portStart <= portEnd)%nat /\
  (portStart = hostEnd -> portEnd = hostEnd) /\
  (plain_to url hostEnd -> plain_to url portEnd).
Proof.
  unfold scan_port. destruct (Z.eqb_spec (at_ url hostEnd) 58) as [E|_].
  - pose proof (skip_while_ge isASCIIDigit url (S hostEnd)). split_and!; try lia.
    intros Hp. apply plain_skip; [apply digit_plain|]. apply plain_to_S; [done|]. rewrite E. by_eval.
  - split_and!; auto; lia.
Qed.

Lemma skip_double_slashes_at l i : (i < skip_double_slashes l)%nat -> at_ l i = 47.
Proof.
  revert i. induction l as [|c l IH]; intros i; cbn [skip_double_slashes]; [lia|].
  destruct (Z.eqb_spec c 47) as [->|]; [|simpl; lia]. cbn [andb].
  destruct (at_ l 0 =? 47); [|lia]. intros Hi. destruct i as [|i]; [done|]. apply IH. lia.
Qed.

Lemma scan_authority_spec url schemeEnd hier second isF isH a :
  (1 <= schemeEnd)%nat ->
  scan_authority url schemeEnd hier second isF isH = Some a ->
  (second = true -> hier = true) ->
  (hier = true -> at_ url (S schemeEnd) = 47) -> (second = true -> at_ url (S (S schemeEnd)) = 47) ->
  auth_fits a /\ (schemeEnd <= S (userStart a))%nat /\ (isF = true \/ second = true -> S schemeEnd <= userStart a)%nat /\
  (plain_to url (S schemeEnd) -> plain_to url (portEnd a)).
Proof.
  intros Hse Hsc Hsh Hh H2. unfold scan_authority in Hsc. cbv zeta in Hsc.
  set (u1 := if hier then S (S schemeEnd) else S schemeEnd) in Hsc.
  set (u2 := if second then S u1 else u1) in Hsc.
  set (u3 := if isH then skip_while (fun c => c =? 47) url u2 else u2) in Hsc.
  set (u := if isF then (u3 + skip_double_slashes (drop u3 url))%nat else u3) in Hsc.
  assert ((if second then 3 else 1) + schemeEnd <= u)%nat as Hu.
  { assert (u2 <= u3)%nat by (unfold u3; destruct isH; [apply skip_while_ge|lia]).
    assert (second = true -> hier = true) as Hsh' by done.
    unfold u. unfold u2, u1 in *. destruct isF, second, hier; try lia; by specialize (Hsh' eq_refl). }
  assert (plain_to url (S schemeEnd) -> plain_to url u) as Hpu.
  { intros Hp. assert (plain 47) as P47 by by_eval.
    assert (plain_to url u2) as Hp2.
    { unfold u2, u1. destruct second; [rewrite Hsh in * by done|destruct hier];
        repeat first [exact Hp | apply plain_to_S | rewrite Hh by done | rewrite H2 by done | exact P47]. }
    assert (plain_to url u3) as Hp3.
    { unfold u3. destruct isH; [|done]. apply plain_skip; [|done]. intros c Hc. bprop. by subst c. }
    unfold u. destruct isF; [|done]. intros i Hi. destruct (Nat.lt_ge_cases i u3); [by apply Hp3|].
    replace i with (u3 + (i - u3))%nat by lia. rewrite <- at_drop.
    rewrite skip_double_slashes_at by lia. done. }
  clearbody u. clear u1 u2 u3 Hh H2 Hsh.
  destruct (scan_user url u) as [[[[uE pS] pE] hS]|] eqn:Eu; [|done].
  destruct (scan_user_spec url u uE pS pE hS ltac:(destruct second; lia) Eu) as (B1 & B2 & Hp1).
  destruct (scan_host url hS) as [hE|] eqn:Eh; [|done].
  destruct (scan_host_spec url hS hE Eh) as (B3 & Hp2).
  pose proof (scan_port_spec url hE) as Hport.
  destruct (scan_port url hE) as [poS poE]. destruct Hport as (B4 & B5 & B6 & Hp3).
  destruct (negb (isPathSegmentEndChar (at_ url poE))); [done|].
  unfold hostPortIsEmptyButCredentialsArePresent in Hsc.
  destruct ((at_ url uE =? 64) && (hS =? poE)%nat) eqn:Ecred; cbn [userStart portEnd] in Hsc.
  - bprop. apply Nat.eqb_eq in H0.
    assert (auth_fits (mkauth u u pS pE u hE poS poE)) as Hfit.
    { unfold auth_fits. cbn. destruct B2 as [(-> & -> & ? & ?)|(-> & -> & E58)]; [|congruence].
      rewrite !Nat.eqb_refl. cbn. destruct (Nat.eqb_spec hE poS); cbn; lia. }
    destruct ((u =? poE)%nat && negb isH && negb isF) eqn:Eno; destruct isF; cbn [userStart] in Hsc;
      injection Hsc as <-; cbn [portEnd userStart]; rewrite ?andb_false_r in *; try done;
      (split_and!; try apply empty_authority_fits; try done; cbn; try (destruct second; lia)); try (intros [?|?]; try done; subst; lia);
      intros Hp; first [by apply Hp3, Hp2, Hp1, Hpu | eapply plain_to_le; [|by apply Hpu]; cbn; lia].
  - assert (auth_fits (mkauth u uE pS pE hS hE poS poE)) as Hfit.
    { unfold auth_fits. cbn. destruct B2 as [(-> & -> & ? & ?)|(-> & -> & _)].
      - rewrite !Nat.eqb_refl. cbn. destruct (Nat.eqb_spec hE poS), (Nat.eqb_spec uE u); cbn; lia.
      - destruct (Nat.eqb_spec hE poS), (Nat.eqb_spec uE u), (Nat.eqb_spec pE (S uE)); cbn; lia. }
    destruct ((u =? poE)%nat && negb isH && negb isF) eqn:Eno; destruct isF; cbn [userStart] in Hsc;
      injection Hsc as <-; cbn [portEnd userStart]; rewrite ?andb_false_r in *; try done;
      (split_and!; try apply empty_authority_fits; try done; cbn; try (destruct second; lia)); try (intros [?|?]; try done; subst; lia);
      intros Hp; first [by apply Hp3, Hp2, Hp1, Hpu | eapply plain_to_le; [|by apply Hpu]; cbn; lia].
Qed.

(** ** The whole scan *)

(** What a successful scan guarantees. *)
Record scan_ok (url : list Z) (sc : scan) : Prop := {
  ok_scheme : (1 <= schemeEnd sc)%nat;
  ok_scheme_chars : forall i, (i < schemeEnd sc)%nat -> isSchemeChar (at_ url i) = true;
  ok_colon : at_ url (schemeEnd sc) = 58;
  ok_fits : auth_fits (auth sc);
  ok_user : (S (schemeEnd sc) <= userStart (auth sc) \/
             schemeEnd sc <= S (userStart (auth sc)) /\ 2 <= schemeEnd sc /\ isFile sc = false)%nat;
  ok_path : pathStart sc = portEnd (auth sc);
  ok_path_end : (pathStart sc <= pathEnd sc)%nat;
  ok_query : queryStart sc = pathEnd sc /\ (pathEnd sc <= queryEnd sc)%nat;
  ok_fragment : (fragmentEnd sc = queryEnd sc \/
                 fragmentStart sc = S (queryEnd sc) /\ S (queryEnd sc) <= fragmentEnd sc)%nat;
  ok_plain : plain_to url (pathStart sc);
  ok_nonzero : forall i, (i < fragmentEnd sc)%nat -> at_ url i <> 0;
  ok_file : isFile sc = true -> schemeEnd sc = 4%nat;
  ok_http : isHTTP sc = true -> (4 <= schemeEnd sc)%nat
}.

Lemma nonfile_scheme_length url n : isNonFileHierarchicalScheme url n = true -> (2 <= n)%nat.
Proof. destruct n as [|[|n]]; [done|done|lia]. Qed.

Lemma letter_is_scheme c l : isLetterMatchIgnoringCase c l = true -> isASCIILower l = true -> isSchemeChar c = true.
Proof.
  unfold isLetterMatchIgnoringCase, isASCIILower. intros H Hl. bprop.
  assert (0 <= c < 256) as Hc.
  { destruct (Z.lt_ge_cases c 0) as [Hn|Hp].
    - assert (Z.lor c 32 < 0) by (apply Z.lor_neg; lia). lia.
    - split; [lia|]. assert (c <= Z.lor c 32); [|lia]. apply Z.ldiff_le; [apply Z.lor_nonneg; lia|].
      apply Z.bits_inj'. intros n Hn. rewrite Z.ldiff_spec, Z.lor_spec, Z.bits_0. by destruct (Z.testbit c n). }
  pose proof (range_check 8 (fun c => negb ((97 <=? Z.lor c 32) && (Z.lor c 32 <=? 122)) || isSchemeChar c)
    ltac:(vm_compute; reflexivity) c ltac:(zpow; lia)) as E.
  cbv beta in E. rewrite H in E. replace ((97 <=? l) && (l <=? 122)) with true in E by lia. exact E.
Qed.

Lemma http_scheme_end url : is_http_family url = true -> (4 <= skip_while isSchemeChar url 0)%nat.
Proof.
  unfold is_http_family. intros H. bprop. unfold letters_at, str in H. cbn in H. bprop.
  destruct (Nat.le_gt_cases 4 (skip_while isSchemeChar url 0)) as [|Hlt]; [done|exfalso].
  pose proof (skip_while_stop isSchemeChar url 0 eq_refl) as Hs.
  set (n := skip_while isSchemeChar url 0) in *.
  assert (isSchemeChar (at_ url n) = true); [|congruence].
  destruct n as [|[|[|[|n]]]]; [| | | |lia];
    (eapply letter_is_scheme; [eassumption|reflexivity]).
Qed.

Lemma scan_url_ok url sc : scan_url url = Some sc -> scan_ok url sc.
Proof.
  unfold scan_url. intros H. destruct (at_ url 0 =? 0); [done|].
  destruct (isSchemeFirstChar (at_ url 0)) eqn:Efirst; cbn [negb] in H; [|done].
  assert (isSchemeChar (at_ url 0) = true) as Efirst'.
  { apply (class_check SchemeFirstChar isSchemeChar); [done|vm_compute; reflexivity|done]. }
  set (se := skip_while isSchemeChar url 0) in *.
  assert (1 <= se)%nat as Hse.
  { unfold se, skip_while. cbn [drop]. destruct url as [|c url]; [done|]. cbn in Efirst'. simpl.
    change (at_ (c :: url) 0) with c in Efirst'. rewrite Efirst'. lia. }
  assert (forall i, (i < se)%nat -> isSchemeChar (at_ url i) = true) as Hsch
    by (intros; apply (skip_while_at _ url 0); fold se; lia).
  destruct (Z.eqb_spec (at_ url se) 58) as [Ecolon|]; cbn [negb] in H; [|done].
  assert (plain_to url (S se)) as Hpl.
  { apply plain_to_S; [|rewrite Ecolon; by_eval]. intros i Hi. by apply scheme_plain, Hsch. }
  rewrite !Nat.add_succ_r, Nat.add_0_r in H.
  set (hier := at_ url (S se) =? 47) in *. set (second := hier && (at_ url (S (S se)) =? 47)) in *.
  set (isF := is_file url se) in *. set (isH := is_http_family url) in *.
  assert (isF = true -> se = 4%nat) as HF by (unfold isF, is_file; intros; bprop; by apply Nat.eqb_eq).
  assert (isH = true -> (4 <= se)%nat) as HH by apply http_scheme_end.
  destruct (if (hier && second) || isNonFileHierarchicalScheme url se then _ else _) as [a|] eqn:Ea; [|done].
  assert (auth_fits a /\ plain_to url (portEnd a) /\
    (S se <= userStart a \/ se <= S (userStart a) /\ 2 <= se /\ isF = false)%nat) as (Hfits & Hplain & Huser).
  { destruct ((hier && second) || isNonFileHierarchicalScheme url se) eqn:Ebr.
    - destruct (scan_authority_spec url se hier second isF isH a Hse Ea) as (? & Hu & HuF & Hp).
      + unfold second. intros. by bprop.
      + unfold hier. intros. by bprop.
      + unfold second. intros. by bprop.
      + split_and!; auto. destruct isF; [left; auto|]. destruct second; [left; auto|].
        rewrite andb_false_r in Ebr. apply nonfile_scheme_length in Ebr. right. split_and!; auto.
    - injection Ea as <-. split_and!; [apply empty_authority_fits|done|left; cbn; lia]. }
  set (ps := portEnd a) in *. set (pe := skip_while _ url ps) in *.
  set (qe := if at_ url pe =? 63 then _ else _) in *.
  assert (ps <= pe)%nat by apply skip_while_ge.
  assert (pe <= qe)%nat by (unfold qe; destruct (at_ url pe =? 63); [apply skip_while_ge|lia]).
  assert (forall i, (i < qe)%nat -> at_ url i <> 0) as Hnz.
  { intros i Hi. destruct (Nat.lt_ge_cases i ps).
    { specialize (Hplain i ltac:(lia)). unfold plain in Hplain. lia. }
    destruct (Nat.lt_ge_cases i pe).
    { pose proof (skip_while_at (fun c => negb (c =? 0) && negb (c =? 63) && negb (c =? 35)) url ps i
        (conj H2 H3)) as E. cbv beta in E. by bprop. }
    unfold qe in Hi. destruct (at_ url pe =? 63); [|lia].
    pose proof (skip_while_at (fun c => negb (c =? 0) && negb (c =? 35)) url pe i (conj H3 Hi)) as E.
    cbv beta in E. by bprop. }
  destruct (Z.eqb_spec (at_ url qe) 35) as [E35|]; injection H as <-; split; cbn; auto; try lia.
  intros i Hi. destruct (Nat.lt_ge_cases i qe); [by apply Hnz|].
  destruct (decide (i = qe)) as [->|]; [by rewrite E35|].
  pose proof (skip_while_at (fun c => negb (c =? 0)) url (S qe) i) as E. unfold skip_while in E.
  specialize (E ltac:(lia)). cbv beta in E. by bprop.
Qed.

End ScanFacts.

Module AssembleFacts.
Import Class Scan ScanFacts Assemble.

(** ** Slices *)

Lemma slice_forall (P : Z -> Prop) url a b :
  (forall i, (a <= i < b)%nat -> P (at_ url i)) -> Forall P (slice url a b).
Proof.
  intros H. unfold slice. apply Forall_lookup. intros i x Hx.
  apply lookup_take_Some in Hx as [Hx Hi]. rewrite lookup_drop in Hx.
  replace x with (at_ url (a + i)); [apply H; lia|]. unfold at_. by rewrite Hx.
Qed.

Lemma slice_length url a b : (length (slice url a b) <= b - a)%nat.
Proof. unfold slice. rewrite length_take. lia. Qed.

(** Printable ASCII, the space included. *)
Definition printable (c : Z) : Prop := 0x20 <= c < 0x7F.

#[global] Instance printable_dec c : Decision (printable c).
Proof. unfold printable. apply _. Defined.

Lemma slice_plain url a b n : plain_to url n -> (b <= n)%nat -> Forall printable (slice url a b).
Proof.
  intros Hp Hb. apply slice_forall. intros i Hi. specialize (Hp i ltac:(lia)).
  unfold plain, printable in *. lia.
Qed.

Lemma toASCIILower_range c : isASCIIUpper c = true -> Z.lor c 0x20 = c + 32.
Proof.
  unfold isASCIIUpper. intros H. bprop.
  pose proof (range_check 7 (fun c => negb ((65 <=? c) && (c <=? 90)) || (Z.lor c 0x20 =? c + 32))
    ltac:(vm_compute; reflexivity) c ltac:(zpow; lia)) as E.
  cbv beta in E. lia.
Qed.

Lemma lower_printable l : Forall printable l -> Forall printable (map toASCIILower l).
Proof.
  intros H. induction H as [|c l Hc _ IH]; cbn; constructor; [|done].
  unfold toASCIILower. destruct (isASCIIUpper c) eqn:E; [|done].
  rewrite toASCIILower_range by done. unfold isASCIIUpper, printable in *. lia.
Qed.

(** ** The authority

    The pieces [write_authority] appends, one by one. *)

Section Pieces.
Context (url : list Z) (a : authority).

Definition user_text : list Z := slice url (userStart a) (userEnd a).
Definition pass_text : list Z :=
  if negb (passwordEnd a =? passwordStart a)%nat then 58 :: slice url (passwordStart a) (passwordEnd a) else [].
Definition at_text : list Z := if negb (length (user_text ++ pass_text) =? 0)%nat then [64] else [].
Definition host_text (skip : bool) (p : list Z) (schemeEnd : nat) : list Z :=
  if negb skip then
    if isCanonicalHostnameLowercaseForScheme p schemeEnd
    then map toASCIILower (slice url (hostStart a) (hostEnd a)) else slice url (hostStart a) (hostEnd a)
  else [].
Definition port_text (p : list Z) (schemeEnd : nat) : list Z :=
  let n := (portEnd a - portStart a)%nat in
  if negb (hostEnd a =? portStart a)%nat
     && (negb (n =? 0)%nat && negb (isDefaultPortForScheme (drop (portStart a) url) n p schemeEnd))
  then 58 :: slice url (portStart a) (portEnd a) else [].

Definition no_nonhost : bool :=
  (userStart a =? userEnd a)%nat && (passwordStart a =? passwordEnd a)%nat && (portStart a =? portEnd a)%nat.
Definition local : bool := (portEnd a - userStart a =? 9)%nat && letters_at url (userStart a) (str "localhost").

Definition writes_authority (isFile emptyPath : bool) : bool :=
  if isFile then negb (emptyPath && ((hostStart a =? hostEnd a)%nat || local))
  else negb (no_nonhost && (hostStart a =? hostEnd a)%nat).

End Pieces.

Lemma negb_length_eq (p t : list Z) : negb (length (p ++ t) =? length p)%nat = negb (length t =? 0)%nat.
Proof.
  rewrite length_app. f_equal.
  destruct (Nat.eqb_spec (length p + length t) (length p)), (Nat.eqb_spec (length t) 0); lia || done.
Qed.

(** The authority is the pieces one after the other, each offset recorded
    after its piece. *)
Lemma write_authority_eq url sc p se :
  let a := auth sc in
  write_authority url sc p se =
  if writes_authority url a (isFile sc) (pathStart sc =? pathEnd sc)%nat then
    let p1 := p ++ [47; 47] in
    let p2 := p1 ++ user_text url a in
    let p3 := p2 ++ pass_text url a in
    let p4 := p3 ++ at_text url a in
    let p5 := p4 ++ host_text url a (isFile sc && local url a && no_nonhost a) p4 se in
    let p6 := p5 ++ port_text url a p5 se in
    mkout p6 (length p1) (length p2) (length p3) (length p5) (length p6)
  else
    let p := if isFile sc then p ++ [47; 47] else p in
    mkout p (length p) (length p) (length p) (length p) (length p).
Proof.
  cbv zeta. unfold write_authority. cbv zeta. fold (local url (auth sc)).
  rewrite <- !negb_andb. fold (no_nonhost (auth sc)). rewrite negb_involutive.
  replace (if isFile sc then _ else _) with
    (writes_authority url (auth sc) (isFile sc) (pathStart sc =? pathEnd sc)%nat) by
    (unfold writes_authority; destruct (isFile sc); [done|by rewrite negb_andb]).
  destruct (writes_authority _ _ _ _); [|done].
  fold (user_text url (auth sc)). set (p2 := (p ++ [47; 47]) ++ user_text url (auth sc)).
  replace (if negb (passwordEnd (auth sc) =? passwordStart (auth sc))%nat then _ else p2)
    with (p2 ++ pass_text url (auth sc)) by
    (unfold pass_text; destruct (negb _); [done|apply app_nil_r]).
  set (p3 := p2 ++ pass_text url (auth sc)).
  replace (if negb (length p3 =? length (p ++ [47%Z; 47%Z]))%nat then p3 ++ [64] else p3)
    with (p3 ++ at_text url (auth sc)).
  2:{ unfold p3, p2. rewrite <- (app_assoc (p ++ [47; 47])), negb_length_eq. unfold at_text.
      destruct (negb _); [done|apply app_nil_r]. }
  set (p4 := p3 ++ at_text url (auth sc)).
  replace (if negb (isFile sc && local url (auth sc) && no_nonhost (auth sc)) then _ else p4)
    with (p4 ++ host_text url (auth sc) (isFile sc && local url (auth sc) && no_nonhost (auth sc)) p4 se).
  2:{ unfold host_text. destruct (negb _); [by destruct (isCanonicalHostnameLowercaseForScheme _ _)|apply app_nil_r]. }
  set (p5 := p4 ++ host_text _ _ _ _ _).
  replace (if negb (hostEnd (auth sc) =? portStart (auth sc))%nat then _ else p5)
    with (p5 ++ port_text url (auth sc) p5 se); [done|].
  unfold port_text. destruct (negb (hostEnd _ =? _)%nat); cbn [andb]; [casif|]; by rewrite ?app_nil_r.
Qed.

(** The pieces are printable and fit in the source range. *)
Lemma pieces_printable url a skip p se :
  plain_to url (portEnd a) -> auth_fits a ->
  Forall printable (user_text url a) /\ Forall printable (pass_text url a) /\ Forall printable (at_text url a) /\
  Forall printable (host_text url a skip p se) /\ Forall printable (port_text url a p se).
Proof.
  intros Hpl (F1 & F2 & F3 & F4 & F5 & F6 & F7 & F8 & F9 & F10).
  assert (forall x y, (y <= portEnd a)%nat -> Forall printable (slice url x y)) as Hsl
    by (intros; by eapply slice_plain).
  assert (printable 58) by by_eval. assert (printable 64) by by_eval. split_and!.
  - apply Hsl. lia.
  - unfold pass_text. casif; [|constructor]. constructor; [done|]. apply Hsl. lia.
  - unfold at_text. casif; [by constructor|constructor].
  - unfold host_text. destruct (negb skip); [|constructor].
    destruct (isCanonicalHostnameLowercaseForScheme _ _); [apply lower_printable|]; apply Hsl; lia.
  - unfold port_text. cbv zeta. casif; [|constructor]. constructor; [done|]. apply Hsl. lia.
Qed.

Lemma pieces_length url a skip p se p' se' :
  auth_fits a ->
  (length (user_text url a) + length (pass_text url a) + length (at_text url a)
   + length (host_text url a skip p se) + length (port_text url a p' se') <= portEnd a - userStart a)%nat.
Proof.
  intros (F1 & F2 & F3 & F4 & F5 & F6 & F7 & F8 & F9 & F10).
  pose proof (slice_length url (userStart a) (userEnd a)).
  pose proof (slice_length url (passwordStart a) (passwordEnd a)).
  pose proof (slice_length url (hostStart a) (hostEnd a)).
  pose proof (slice_length url (portStart a) (portEnd a)).
  assert (length (host_text url a skip p se) <= hostEnd a - hostStart a)%nat.
  { unfold host_text. destruct (negb skip); [|simpl; lia].
    destruct (isCanonicalHostnameLowercaseForScheme _ _); rewrite ?length_map; lia. }
  assert (length (port_text url a p' se') <=
    if negb (hostEnd a =? portStart a)%nat then S (portEnd a - portStart a) else 0)%nat.
  { unfold port_text. destruct (negb (hostEnd a =? _)%nat); cbn [andb]; [|simpl; lia]. casif; simpl; lia. }
  assert (length (pass_text url a) <=
    if negb (passwordEnd a =? passwordStart a)%nat then S (passwordEnd a - passwordStart a) else 0)%nat.
  { unfold pass_text. casif; simpl; lia. }
  assert (length (at_text url a) <=
    if negb (userEnd a =? userStart a)%nat || negb (passwordEnd a =? passwordStart a)%nat then 1 else 0)%nat.
  { unfold at_text. rewrite length_app. fold (user_text url a) in H.
    destruct (Nat.eqb_spec (length (user_text url a) + length (pass_text url a)) 0); [simpl; lia|].
    destruct (Nat.eqb_spec (userEnd a) (userStart a)), (Nat.eqb_spec (passwordEnd a) (passwordStart a));
      cbn in *; lia. }
  fold (user_text url a) in *. lia.
Qed.

Lemma writes_authority_room url a emptyPath :
  auth_fits a -> writes_authority url a false emptyPath = true -> (1 <= portEnd a - userStart a)%nat.
Proof.
  intros (F1 & F2 & F3 & F4 & F5 & F6 & F7 & F8 & F9 & F10). unfold writes_authority, no_nonhost.
  destruct (Nat.eqb_spec (userStart a) (userEnd a)), (Nat.eqb_spec (passwordStart a) (passwordEnd a)),
    (Nat.eqb_spec (portStart a) (portEnd a)), (Nat.eqb_spec (hostStart a) (hostEnd a)),
    (Nat.eqb_spec (hostEnd a) (portStart a)), (Nat.eqb_spec (passwordEnd a) (passwordStart a)),
    (Nat.eqb_spec (userEnd a) (userStart a)); cbn in *; intros; try lia; try done.
Qed.

Lemma write_authority_spec url sc p se :
  Forall printable p -> plain_to url (portEnd (auth sc)) -> auth_fits (auth sc) ->
  let o := write_authority url sc p se in
  (exists t, o_text o = p ++ t) /\ Forall printable (o_text o) /\
  (length p <= o_userStart o <= o_userEnd o /\ o_userEnd o <= o_passwordEnd o <= o_hostEnd o /\
   o_hostEnd o <= o_portEnd o /\ o_portEnd o = length (o_text o) /\
   length (o_text o) <= length p + 3 * (portEnd (auth sc) - userStart (auth sc)) + (if isFile sc then 2 else 0))%nat.
Proof.
  intros Hp Hpl Hfit. cbv zeta. rewrite write_authority_eq. cbv zeta. set (a := auth sc) in *.
  assert (Forall printable [47; 47]) by by_eval.
  destruct (writes_authority _ _ _ _) eqn:Ew; cbn [o_text o_userStart o_userEnd o_passwordEnd o_hostEnd o_portEnd].
  - assert (isFile sc = true \/ 1 <= portEnd a - userStart a)%nat as Hroom
      by (destruct (isFile sc); [by left|right; by apply writes_authority_room in Ew]).
    set (p4 := (((p ++ [47; 47]) ++ user_text url a) ++ pass_text url a) ++ at_text url a).
    set (skip := isFile sc && _ && _). set (host := host_text url a skip p4 se).
    pose proof (pieces_length url a skip p4 se (p4 ++ host) se Hfit) as Hlen. fold host in Hlen.
    destruct (pieces_printable url a skip p4 se Hpl Hfit) as (P1 & P2 & P3 & P4 & _).
    destruct (pieces_printable url a skip (p4 ++ host) se Hpl Hfit) as (_ & _ & _ & _ & P5).
    set (port := port_text url a (p4 ++ host) se) in *. split_and!.
    + exists ([47; 47] ++ user_text url a ++ pass_text url a ++ at_text url a ++ host ++ port).
      unfold p4. by rewrite <- !app_assoc.
    + unfold p4. repeat (apply Forall_app; split); done.
    + rewrite length_app. lia.
    + rewrite (length_app (_ ++ _) (user_text url a)). lia.
    + rewrite (length_app _ (pass_text url a)). lia.
    + rewrite (length_app p4). unfold p4. rewrite (length_app _ (at_text url a)). lia.
    + rewrite (length_app (p4 ++ host)). lia.
    + done.
    + unfold p4. rewrite !length_app. cbn [length]. destruct (isFile sc); destruct Hroom; try done; lia.
  - destruct (isFile sc); split_and!; rewrite ?length_app; cbn [length]; try lia.
    + by exists [47; 47].
    + by apply Forall_app.
    + exists []. by rewrite app_nil_r.
    + done.
Qed.

(** ** Escaping *)

Lemma hexDigit_printable x : 0 <= x < 16 -> printable (hexDigit x).
Proof. intros. unfold hexDigit, printable. destruct (Z.ltb_spec x 10); lia. Qed.

Lemma appendEscapedChar_printable c : is_byte c -> Forall printable (appendEscapedChar c).
Proof.
  intros H. unfold appendEscapedChar.
  constructor; [unfold printable; lia|].
  constructor; [apply hexDigit_printable|constructor; [apply hexDigit_printable|constructor]].
  - rewrite Z.shiftr_div_pow2 by lia. dlia.
  - change 15 with (Z.ones 4). rewrite Z.land_ones by lia. dlia.
Qed.

Lemma not_bad_printable c : is_byte c -> c <> 0 -> isBadChar c = false -> printable c.
Proof.
  intros H Hn Hb.
  pose proof (range_check 8 (fun c => (c =? 0) || isBadChar c || ((0x20 <=? c) && (c <? 0x7F)))
    ltac:(vm_compute; reflexivity) c ltac:(dlia)) as E.
  cbv beta in E. rewrite Hb, orb_false_r in E. unfold printable. lia.
Qed.

Definition char_ok (c : Z) : Prop := is_byte c /\ c <> 0.

Lemma escape_bad_spec c : char_ok c -> Forall printable (escape_bad c) /\ (length (escape_bad c) <= 3)%nat.
Proof.
  intros [H Hn]. unfold escape_bad. destruct (isBadChar c) eqn:E.
  - destruct (_ || _) eqn:E2.
    + split; [|simpl; lia]. constructor; [|constructor]. unfold printable. lia.
    + casif; [|split; [constructor|simpl; lia]]. split; [by apply appendEscapedChar_printable|simpl; lia].
  - split; [|simpl; lia]. constructor; [|constructor]. by apply not_bad_printable.
Qed.

Lemma escape_opaque_spec c : char_ok c -> Forall printable (escape_opaque c) /\ (length (escape_opaque c) <= 3)%nat.
Proof.
  intros [H Hn]. unfold escape_opaque. destruct (_ || _); [split; [constructor|simpl; lia]|].
  destruct (_ || _) eqn:E2; [split; [by apply appendEscapedChar_printable|simpl; lia]|].
  split; [|simpl; lia]. constructor; [|constructor]. unfold printable. bprop. lia.
Qed.

Lemma appendEscapingBadChars_spec l :
  Forall char_ok l ->
  Forall printable (appendEscapingBadChars l) /\ (length (appendEscapingBadChars l) <= 3 * length l)%nat.
Proof.
  intros H. induction H as [|c l Hc _ [IH1 IH2]]; [split; [constructor|simpl; lia]|].
  destruct (escape_bad_spec c Hc). cbn [appendEscapingBadChars]. rewrite length_app. cbn [length].
  split; [by apply Forall_app|lia].
Qed.

Lemma escapeNonHierarchical_spec l :
  Forall char_ok l ->
  Forall printable (escapeAndAppendNonHierarchicalPart l) /\
  (length (escapeAndAppendNonHierarchicalPart l) <= 3 * length l)%nat.
Proof.
  intros H. induction H as [|c l Hc _ [IH1 IH2]]; [split; [constructor|simpl; lia]|].
  destruct (escape_opaque_spec c Hc). cbn [escapeAndAppendNonHierarchicalPart]. rewrite length_app. cbn [length].
  split; [by apply Forall_app|lia].
Qed.

(** ** Removing dots only drops characters *)

Lemma back_to_slash_suffix dst : exists t, dst = t ++ back_to_slash dst.
Proof.
  induction dst as [|c dst [t IH]]; [by exists []|]. cbn. destruct (c =? 47); [by exists []|].
  exists (c :: t). cbn. by f_equal.
Qed.

Lemma rewind_suffix dst : exists t, dst = t ++ rewind dst.
Proof.
  unfold rewind. destruct (_ <? _)%nat; [|apply back_to_slash_suffix].
  destruct dst as [|c dst]; [by exists []|]. destruct (back_to_slash_suffix dst) as [t E].
  exists (c :: t). cbn [tail app]. by f_equal.
Qed.

Lemma dots_loop_ind (P : list Z -> Prop) before (n : nat) src dst :
  (forall c d, P d -> In c src -> P (c :: d)) -> (forall d, P d -> P (rewind d)) ->
  (length src <= n)%nat -> P dst -> P (dots_loop before src dst).
Proof.
  revert src dst. induction n as [|n IH]; intros src dst Hc Hr Hn Hd.
  { destruct src; [done|simpl in Hn; lia]. }
  destruct src as [|c src]; [done|]. simpl in Hn. cbn [dots_loop].
  assert (P (dots_loop before src (c :: dst))) as Hdef
    by (apply IH; [intros; apply Hc; [done|by right]|done|lia|apply Hc; [done|by left]]).
  destruct (_ && _); [|done]. destruct src as [|c1 src]; [done|]. simpl in Hn.
  destruct (c1 =? 47); [apply IH; [intros; apply Hc; [done|by right; right]|done|lia|done]|].
  destruct (c1 =? 46); [|done]. destruct src as [|c2 src]; [by apply Hr|]. simpl in Hn.
  destruct (c2 =? 47); [|done].
  apply IH; [intros; apply Hc; [done|by right; right; right]|done|lia|by apply Hr].
Qed.

Lemma copyPathRemovingDots_forall (P : Z -> Prop) before path :
  Forall P path -> Forall P (copyPathRemovingDots before path).
Proof.
  destruct path as [|c path]; [done|]. intros H. apply Forall_cons_iff in H as [Hc H]. cbn [copyPathRemovingDots].
  apply Forall_rev. eapply (dots_loop_ind (Forall P)); [| |apply Nat.le_refl|by repeat constructor].
  - intros x d Hd Hx. constructor; [|done]. by apply (proj1 (List.Forall_forall _ _) H).
  - intros d Hd. destruct (rewind_suffix d) as [t E]. rewrite E in Hd. by apply Forall_app in Hd as [_ ?].
Qed.

Lemma dots_loop_length before n src dst :
  (length src <= n)%nat -> (length (dots_loop before src dst) <= length dst + length src)%nat.
Proof.
  revert src dst. induction n as [|n IH]; intros src dst Hn; (destruct src as [|c src]; [simpl; lia|]);
    simpl in Hn; [lia|]. cbn [dots_loop].
  assert (length (dots_loop before src (c :: dst)) <= length dst + length (c :: src))%nat as Hdef
    by (etrans; [apply IH; lia|simpl; lia]).
  assert (length (rewind dst) <= length dst)%nat as Hr.
  { destruct (rewind_suffix dst) as [t E]. rewrite E at 2. rewrite length_app. lia. }
  destruct (_ && _); [|done]. destruct src as [|c1 src]; [simpl; lia|]. simpl in Hn.
  destruct (c1 =? 47); [etrans; [apply IH; lia|simpl; lia]|].
  destruct (c1 =? 46); [|done]. destruct src as [|c2 src]; [simpl; lia|]. simpl in Hn.
  destruct (c2 =? 47); [|done]. etrans; [apply IH; lia|simpl; lia].
Qed.

Lemma copyPathRemovingDots_length before path :
  (length (copyPathRemovingDots before path) <= length path)%nat.
Proof.
  destruct path as [|c path]; [done|]. cbn [copyPathRemovingDots]. rewrite length_rev.
  etrans; [by apply (dots_loop_length before (length path))|]. simpl. lia.
Qed.

Lemma write_path_spec before url sc :
  Forall char_ok (slice url (pathStart sc) (pathEnd sc)) ->
  Forall printable (write_path before url sc) /\
  (length (write_path before url sc) <= 3 * (pathEnd sc - pathStart sc) +
    (if isHTTP sc || isFile sc then 1 else 0) + (if isFile sc then 1 else 0))%nat.
Proof.
  intros H. unfold write_path. set (path := slice url _ _) in *.
  pose proof (slice_length url (pathStart sc) (pathEnd sc)) as Hlen. fold path in Hlen.
  assert (printable 47) by by_eval. rewrite !Forall_app, !length_app.
  assert (forall l, Forall char_ok l -> (length l <= length path)%nat ->
    Forall printable (appendEscapingBadChars l) /\ (length (appendEscapingBadChars l) <= 3 * length path)%nat) as Hbad.
  { intros l Hl Hn. destruct (appendEscapingBadChars_spec l Hl). split; [done|lia]. }
  assert (forall b : bool, Forall printable (if b then [47] else [])) as Hopt by (intros []; by repeat constructor).
  set (t := if negb (hierarchical sc) then _ else _).
  assert (Forall printable t /\ (length t <= 3 * length path)%nat) as [Ht1 Ht2].
  { unfold t. destruct (negb (hierarchical sc)); [by apply escapeNonHierarchical_spec|].
    destruct (negb (hasSlashDotOrDotDot url)); apply Hbad; auto.
    - by apply copyPathRemovingDots_forall.
    - apply copyPathRemovingDots_length. }
  split; [split_and!; done|].
  set (n1 := length (if (isHTTP sc || isFile sc) && _ then [47] else [])).
  assert (n1 <= if isHTTP sc || isFile sc then 1 else 0)%nat by
    (unfold n1; destruct (isHTTP sc || isFile sc), (pathEnd sc =? pathStart sc)%nat; simpl; lia).
  set (n2 := length (if isFile sc && _ then [47] else [])).
  assert (n2 <= if isFile sc then 1 else 0)%nat by
    (unfold n2; destruct (isFile sc), (negb (at_ url (pathStart sc) =? 47)); simpl; lia).
  lia.
Qed.

Lemma after_last_slash_range buffer portEnd i :
  (portEnd <= i)%nat -> (portEnd <= after_last_slash buffer portEnd i <= i)%nat.
Proof.
  induction i as [|i IH]; intros H; cbn [after_last_slash]; [lia|].
  destruct (Nat.ltb_spec portEnd (S i)); [|lia]. destruct (_ =? _); lia.
Qed.

End AssembleFacts.

(** ** Dot segments, as RFC 3986 section 5.2.4 defines their removal *)
Module DotSpec.

(** The segments of a path, between its slashes. *)
Fixpoint segments (l : list Z) : list (list Z) :=
  match l with
  | [] => [[]]
  | c :: l' =>
      if c =? 47 then [] :: segments l'
      else match segments l' with s :: r => (c :: s) :: r | [] => [[c]] end
  end.

Fixpoint join (segs : list (list Z)) : list Z :=
  match segs with
  | [] => []
  | [s] => s
  | s :: r => s ++ 47 :: join r
  end.

Definition dot : list Z := [46].
Definition dotdot : list Z := [46; 46].

(** A stack of the segments kept so far, the last one on top: a single dot is
    dropped, a double dot also drops the top, and one of them in the last
    place leaves an empty segment. *)
Fixpoint resolve (stack segs : list (list Z)) : list (list Z) :=
  match segs with
  | [] => rev stack
  | s :: rest =>
      let keep := if decide (s = dot) then stack else if decide (s = dotdot) then tail stack else s :: stack in
      match rest with
      | [] => rev (if decide (s = dot \/ s = dotdot) then [] :: keep else keep)
      | _ => resolve keep rest
      end
  end.

Definition no_slash (s : list Z) : Prop := Forall (fun c => c <> 47) s.
Definition not_dot (s : list Z) : Prop := s <> dot /\ s <> dotdot.

Lemma segments_join l : join (segments l) = l.
Proof.
  induction l as [|c l IH]; [done|]. cbn [segments]. destruct (Z.eqb_spec c 47) as [->|].
  - destruct (segments l) as [|s r] eqn:E; [by destruct l as [|x l]; cbn in E; [|destruct (x =? 47), (segments l)]|].
    change (join ([] :: s :: r)) with (47 :: join (s :: r)). by rewrite IH.
  - destruct (segments l) as [|s [|s' r]]; cbn [join app] in *; by rewrite <- IH.
Qed.

Lemma segments_no_slash l : Forall no_slash (segments l).
Proof.
  induction l as [|c l IH]; [by repeat constructor|]. cbn [segments].
  destruct (Z.eqb_spec c 47); [constructor; [constructor|done]|].
  destruct (segments l) as [|s r]; [by repeat constructor|].
  apply Forall_cons_iff in IH as [Hs Hr]. constructor; [by constructor|done].
Qed.

Lemma segments_app s l : no_slash s -> segments (s ++ 47 :: l) = s :: segments l.
Proof.
  intros H. induction H as [|c s Hc _ IH]; [done|]. cbn [app segments]. rewrite IH.
  by destruct (Z.eqb_spec c 47).
Qed.

Lemma segments_single s : no_slash s -> segments s = [s].
Proof.
  intros H. induction H as [|c s Hc _ IH]; [done|]. cbn [app segments]. rewrite IH.
  by destruct (Z.eqb_spec c 47).
Qed.

Lemma segments_of_join segs : segs <> [] -> Forall no_slash segs -> segments (join segs) = segs.
Proof.
  intros Hne H. induction H as [|s r Hs Hr IH]; [done|].
  destruct r as [|s' r]; [by apply segments_single|].
  cbn [join]. rewrite segments_app by done. f_equal. by apply IH.
Qed.

Lemma resolve_forall (P : list Z -> Prop) stack segs :
  P [] -> Forall P stack -> Forall (fun s => not_dot s -> P s) segs -> Forall P (resolve stack segs).
Proof.
  intros Hnil Hst H. revert stack Hst.
  induction H as [|s r Hs _ IH]; intros stack Hst; cbn [resolve]; [by apply Forall_rev|].
  set (keep := if decide (s = dot) then stack else _).
  assert (Forall P keep) as Hk.
  { unfold keep. destruct (decide (s = dot)); [done|]. destruct (decide (s = dotdot)).
    - destruct stack; [done|]. by apply Forall_cons_iff in Hst as [_ ?].
    - constructor; [by apply Hs|done]. }
  clearbody keep. destruct r; [|by apply IH]. apply Forall_rev.
  destruct (decide (s = dot \/ s = dotdot)); [by constructor|done].
Qed.

Lemma resolve_nonempty stack segs : segs <> [] -> resolve stack segs <> [].
Proof.
  revert stack. induction segs as [|s r IH]; intros stack Hne; [done|]. cbn [resolve].
  destruct r as [|s' r]; [|by apply IH]. intros E. apply (f_equal length) in E. rewrite length_rev in E.
  destruct (decide (s = dot \/ s = dotdot)) as [|Hn]; [done|].
  destruct (decide (s = dot)); [tauto|]. destruct (decide (s = dotdot)); [tauto|done].
Qed.

(** A path without dot segments is left alone. *)
Lemma resolve_id stack segs : segs <> [] -> Forall not_dot segs -> resolve stack segs = rev stack ++ segs.
Proof.
  intros Hne H. revert stack Hne. induction H as [|s r [H1 H2] _ IH]; intros stack Hne; [done|].
  cbn [resolve]. destruct (decide (s = dot)); [done|]. destruct (decide (s = dotdot)); [done|].
  destruct r as [|s' r].
  - rewrite decide_False by tauto. done.
  - rewrite IH by done. cbn [rev]. by rewrite <- app_assoc.
Qed.

End DotSpec.

Module DotFacts.
Import Assemble DotSpec.

(** The text of the kept segments, each followed by a slash. *)
Definition text (stack : list (list Z)) : list Z := 47 :: concat (map (fun s => s ++ [47]) (rev stack)).

Lemma text_cons s stack : text (s :: stack) = text stack ++ s ++ [47].
Proof. unfold text. cbn [rev]. rewrite map_app, concat_app. cbn. by rewrite app_nil_r. Qed.

Lemma rev_text stack : exists t, rev (text stack) = 47 :: t.
Proof.
  destruct stack as [|s stack]; [by exists []|]. rewrite text_cons, !rev_app_distr. cbn. by eexists.
Qed.

Lemma back_to_slash_skip s t : no_slash s -> back_to_slash (rev s ++ 47 :: t) = 47 :: t.
Proof.
  intros H. apply Forall_rev in H. induction H as [|c r Hc _ IH]; [done|]. cbn.
  by destruct (Z.eqb_spec c 47).
Qed.

Lemma rewind_text stack : Forall no_slash stack -> rewind (rev (text stack)) = rev (text (tail stack)).
Proof.
  intros H. destruct stack as [|s stack]; [done|]. apply Forall_cons_iff in H as [Hs H].
  rewrite text_cons. cbn [tail]. unfold rewind. rewrite !rev_app_distr. cbn [rev app length].
  destruct (rev_text stack) as [t E]. rewrite E, length_app. cbn [length].
  replace (1 <? _)%nat with true by (symmetry; apply Nat.ltb_lt; lia). cbn [tail]. by apply back_to_slash_skip.
Qed.

(** The rest of a segment is copied. *)
Lemma dots_loop_copy before s rest dst :
  no_slash s -> hd before dst <> 47 ->
  dots_loop before (s ++ rest) dst = dots_loop before rest (rev s ++ dst).
Proof.
  intros H. revert dst. induction H as [|c s Hc _ IH]; intros dst Hd; [done|].
  cbn [app dots_loop]. destruct (Z.eqb_spec (hd before dst) 47) as [|_]; [done|]. rewrite andb_false_r.
  rewrite IH by done. cbn [rev]. by rewrite <- app_assoc.
Qed.

(** A segment that is no dot segment is copied from its beginning. *)
Lemma dots_loop_segment before s rest t :
  no_slash s -> not_dot s -> (rest = [] \/ exists r, rest = 47 :: r) ->
  dots_loop before (s ++ rest) (47 :: t) = dots_loop before rest (rev s ++ 47 :: t).
Proof.
  intros Hs [Hd Hdd] Hrest. destruct s as [|c s]; [done|]. apply Forall_cons_iff in Hs as [Hc Hs].
  cbn [app rev]. rewrite <- app_assoc. cbn [app].
  assert (dots_loop before (s ++ rest) (c :: 47 :: t) = dots_loop before rest (rev s ++ c :: 47 :: t)) as Hcopy
    by (by apply dots_loop_copy).
  cbn [dots_loop hd]. destruct (Z.eqb_spec c 46) as [->|]; cbn [andb Z.eqb Pos.eqb]; [|done].
  destruct s as [|c1 s]; [done|]. cbn [app] in *. apply Forall_cons_iff in Hs as [Hc1 Hs].
  destruct (Z.eqb_spec c1 47) as [|_]; [done|]. destruct (Z.eqb_spec c1 46) as [->|_]; [|done].
  destruct s as [|c2 s]; [done|]. cbn [app] in *. apply Forall_cons_iff in Hs as [Hc2 Hs].
  by destruct (Z.eqb_spec c2 47) as [|_].
Qed.

Lemma dots_loop_slash before rest s stack :
  no_slash s ->
  dots_loop before (47 :: rest) (rev s ++ rev (text stack)) = dots_loop before rest (rev (text (s :: stack))).
Proof.
  intros H. rewrite text_cons, !rev_app_distr. cbn [rev app]. by cbn [dots_loop Z.eqb Pos.eqb andb].
Qed.

(** The loop on the joined segments computes [resolve]. *)
Lemma dots_loop_resolve before segs stack :
  segs <> [] -> Forall no_slash segs -> Forall no_slash stack ->
  rev (dots_loop before (join segs) (rev (text stack))) = 47 :: join (resolve stack segs).
Proof.
  intros Hne H. revert stack Hne. induction H as [|s r Hs Hr IH]; intros stack Hne Hst; [done|]. clear Hne.
  assert (forall st x, Forall no_slash st -> 47 :: join (rev (x :: st)) = text st ++ x) as Hjoin.
  { intros st x _. cbn [rev]. unfold text. generalize (rev st) as m. intros m.
    cut (join (m ++ [x]) = concat (map (fun s0 => s0 ++ [47]) m) ++ x); [by intros ->|].
    induction m as [|y m IHm]; [done|]. cbn [map concat app]. rewrite <- !app_assoc, <- IHm. cbn [app join].
    by destruct (m ++ [x]) eqn:E; [destruct m|]. }
  destruct (rev_text stack) as [t Et].
  assert (Forall no_slash (tail stack)) as Htl.
  { destruct stack; [done|]. by apply Forall_cons_iff in Hst as [_ ?]. }
  cbn [resolve]. destruct r as [|s' r].
  - cbn [join]. destruct (decide (s = dot)) as [->|Hd].
    { rewrite decide_True by by left. rewrite Hjoin, app_nil_r by done.
      rewrite Et. cbn [dot dots_loop hd Z.eqb Pos.eqb andb]. rewrite <- Et. apply rev_involutive. }
    destruct (decide (s = dotdot)) as [->|Hdd].
    { rewrite decide_True by by right. rewrite Hjoin, app_nil_r by done.
      rewrite Et. cbn [dotdot dots_loop hd Z.eqb Pos.eqb andb]. rewrite <- Et, rewind_text by done. apply rev_involutive. }
    rewrite decide_False by tauto. rewrite Hjoin by done.
    rewrite <- (app_nil_r s) at 1. rewrite Et, dots_loop_segment by (auto; by split). cbn [dots_loop].
    rewrite <- Et, rev_app_distr, !rev_involutive. done.
  - replace (join (s :: s' :: r)) with (s ++ 47 :: join (s' :: r)) by done.
    destruct (decide (s = dot)) as [->|Hd].
    { rewrite Et. cbn [app dot dots_loop hd Z.eqb Pos.eqb andb]. rewrite <- Et. by apply IH. }
    destruct (decide (s = dotdot)) as [->|Hdd].
    { rewrite Et. cbn [app dotdot dots_loop hd Z.eqb Pos.eqb andb]. rewrite <- Et, rewind_text by done. by apply IH. }
    rewrite Et, dots_loop_segment by (eauto; by split). rewrite <- Et, dots_loop_slash by done.
    apply IH; [done|by constructor].
Qed.

(** Without a "/." or a ".." nothing is removed. *)
Lemma dots_loop_id before src dst :
  slash_dot_loop (hd before dst) src = false -> (forall c, In c src -> c <> 0) ->
  dots_loop before src dst = rev src ++ dst.
Proof.
  revert dst. induction src as [|c src IH]; intros dst H Hz; [done|]. cbn [slash_dot_loop] in H.
  assert (c <> 0) as Hc by (apply Hz; by left). destruct (Z.eqb_spec c 0); [done|].
  cbn [dots_loop rev]. rewrite <- app_assoc. cbn [app].
  destruct (c =? 46) eqn:Ec; cbn [andb] in *.
  - destruct ((hd before dst =? 47) || (hd before dst =? 46)) eqn:E; [done|]. bprop.
    replace (hd before dst =? 47) with false by lia. apply IH; [done|]. intros. apply Hz. by right.
  - apply IH; [done|]. intros. apply Hz. by right.
Qed.

End DotFacts.

(** ** Canonical text *)
Module Canonical.
Import Class Scan Assemble DotSpec.

(** The components of a URL with an authority. *)
Record parts := mkparts {
  scheme : list Z; user : list Z; pass : option (list Z); host : list Z; port : option (list Z);
  path : list Z; query : option (list Z); frag : option (list Z)
}.

Definition opt_text (c : Z) (o : option (list Z)) : list Z := match o with Some s => c :: s | None => [] end.

Definition userinfo (p : parts) : list Z := user p ++ opt_text 58 (pass p).
Definition at_sign (p : parts) : list Z := if decide (userinfo p = []) then [] else [64].
Definition port_part (p : parts) : list Z := opt_text 58 (port p).
Definition query_part (p : parts) : list Z := opt_text 63 (query p).
Definition frag_part (p : parts) : list Z := opt_text 35 (frag p).

Definition tail_text (p : parts) : list Z := path p ++ query_part p ++ frag_part p.
Definition print (p : parts) : list Z :=
  scheme p ++ [58; 47; 47] ++ userinfo p ++ at_sign p ++ host p ++ port_part p ++ tail_text p.

(** Components that [print] writes the way the parser does, up to the dot
    segments of the path: a lower-case scheme that is not "file", a lower-case
    host, no default port and nothing to escape. *)
Record canonical (p : parts) : Prop := {
  c_scheme : Forall (fun c => isSchemeChar c = true /\ toASCIILower c = c) (scheme p);
  c_first : isSchemeFirstChar (at_ (scheme p) 0) = true;
  c_not_file : scheme p <> fileScheme;
  c_user : Forall (fun c => isUserInfoChar c = true /\ c <> 58) (user p);
  c_pass : forall w, pass p = Some w -> w <> [] /\ Forall (fun c => isUserInfoChar c = true) w;
  c_host : host p <> [] /\ Forall (fun c => isHostnameChar c = true /\ toASCIILower c = c) (host p);
  c_port : forall d, port p = Some d -> d <> [] /\ Forall (fun c => isASCIIDigit c = true) d /\
             isDefaultPortForScheme d (length d) (scheme p) (length (scheme p)) = false;
  c_path : exists q, path p = 47 :: q;
  c_path_chars : Forall (fun c => c <> 0 /\ c <> 63 /\ c <> 35 /\ escape_bad c = [c]) (path p);
  c_query : forall q, query p = Some q -> Forall (fun c => c <> 0 /\ c <> 35 /\ escape_bad c = [c]) q;
  c_frag : forall f, frag p = Some f -> Forall (fun c => c <> 0 /\ escape_opaque c = [c]) f;
  c_bytes : bytes_ok (tail_text p)
}.

(** The path without its dot segments. *)
Definition undot_path (l : list Z) : list Z :=
  match l with [] => [] | c :: q => c :: join (resolve [] (segments q)) end.
Definition undot (p : parts) : parts :=
  mkparts (scheme p) (user p) (pass p) (host p) (port p) (undot_path (path p)) (query p) (frag p).

(** The offsets of the components in the printed text. *)
Definition canonical_url (p : parts) : KURL :=
  let schemeEnd := length (scheme p) in
  let userStart := (schemeEnd + 3)%nat in
  let userEnd := (userStart + length (user p))%nat in
  let passwordEnd := (userStart + length (userinfo p))%nat in
  let hostEnd := (passwordEnd + length (at_sign p) + length (host p))%nat in
  let portEnd := (hostEnd + length (port_part p))%nat in
  let pathEnd := (portEnd + length (path p))%nat in
  let queryEnd := (pathEnd + length (query_part p))%nat in
  mkKURL (print p) true (bool_decide (scheme p = httpScheme \/ scheme p = httpsScheme))
    schemeEnd userStart userEnd passwordEnd hostEnd portEnd
    (after_last_slash (print p) portEnd pathEnd) pathEnd queryEnd (queryEnd + length (frag_part p)).

End Canonical.

Module CanonicalFacts.
Import Class Scan Assemble DotSpec DotFacts ScanFacts AssembleFacts Canonical.

(** ** Reading a text whose rest at a position is known *)

Lemma drop_next (url s r : list Z) i : drop i url = s ++ r -> drop (i + length s) url = r.
Proof. intros H. by rewrite <- drop_drop, H, drop_app_length. Qed.

Lemma drop_next1 (url r : list Z) i c : drop i url = c :: r -> drop (S i) url = r.
Proof. intros H. rewrite <- Nat.add_1_r, <- drop_drop, H. done. Qed.

Lemma at_rest url r i : drop i url = r -> at_ url i = at_ r 0.
Proof. intros <-. by rewrite at_drop, Nat.add_0_r. Qed.

Lemma span_app (p : Z -> bool) s r :
  Forall (fun c => p c = true) s -> p (at_ r 0) = false -> span_len p (s ++ r) = length s.
Proof.
  intros H Hr. induction H as [|c s Hc _ IH]; cbn [app span_len length].
  - destruct r as [|c r]; [done|]. cbn in Hr |- *. by rewrite Hr.
  - by rewrite Hc, IH.
Qed.

Lemma skip_rest p url s r i :
  drop i url = s ++ r -> Forall (fun c => p c = true) s -> p (at_ r 0) = false ->
  skip_while p url i = (i + length s)%nat.
Proof. intros H Hs Hr. unfold skip_while. by rewrite H, span_app. Qed.

Lemma slice_rest url s r i j : drop i url = s ++ r -> j = (i + length s)%nat -> slice url i j = s.
Proof. intros H ->. unfold slice. rewrite H, Nat.add_comm, Nat.add_sub. apply take_app_length. Qed.

(** A window of a text without "/." and ".." has none either. *)
Lemma slash_dot_tail pc s c r : slash_dot_loop pc s = false -> Forall (fun c => c <> 0) s ->
  s = c :: r -> slash_dot_loop c r = false.
Proof.
  intros H Hz ->. apply Forall_cons_iff in Hz as [Hc _]. cbn [slash_dot_loop] in H.
  destruct (Z.eqb_spec c 0); [done|]. by destruct ((c =? 46) && _).
Qed.

Lemma slash_dot_drop n url c r :
  hasSlashDotOrDotDot url = false -> Forall (fun c => c <> 0) (take n url) -> drop n url = c :: r -> c <> 0 ->
  slash_dot_loop c r = false.
Proof.
  intros H Hz Hd Hc. destruct url as [|c0 s]; [by rewrite drop_nil in Hd|]. destruct n as [|n].
  { injection Hd as -> ->. cbn in H. by destruct (Z.eqb_spec c 0). }
  cbn in Hz, Hd. apply Forall_cons_iff in Hz as [Hc0 Hz]. cbn in H. destruct (Z.eqb_spec c0 0); [done|].
  clear Hc0 n0. revert c0 s H Hz Hd. induction n as [|n IH]; intros c0 s H Hz Hd.
  - rewrite drop_0 in Hd. subst s. cbn [slash_dot_loop] in H. destruct (Z.eqb_spec c 0); [done|].
    by destruct ((c =? 46) && _).
  - destruct s as [|c1 s]; [done|]. cbn in Hz, Hd. apply Forall_cons_iff in Hz as [Hc1 Hz].
    apply (IH c1 s); [|done|done]. cbn [slash_dot_loop] in H. destruct (Z.eqb_spec c1 0); [done|].
    by destruct ((c1 =? 46) && _).
Qed.

Lemma slash_dot_take pc s n : slash_dot_loop pc s = false -> slash_dot_loop pc (take n s) = false.
Proof.
  revert pc n. induction s as [|c s IH]; intros pc [|n] H; try done. cbn [take slash_dot_loop firstn] in *.
  destruct (c =? 0); [done|]. destruct ((c =? 46) && _); [done|]. by apply IH.
Qed.

Lemma slash_dot_slice url a b c s :
  hasSlashDotOrDotDot url = false -> (forall i, (i < b)%nat -> at_ url i <> 0) -> slice url a b = c :: s ->
  slash_dot_loop c s = false.
Proof.
  intros H Hz Hs. assert (a < b)%nat as Hab by (pose proof (slice_length url a b) as Hl; rewrite Hs in Hl; simpl in Hl; lia).
  unfold slice in Hs. replace (b - a)%nat with (S (b - a - 1)) in Hs by lia.
  destruct (drop a url) as [|c' r] eqn:Ed; [done|]. cbn in Hs. injection Hs as -> <-.
  apply slash_dot_take. apply (slash_dot_drop a url); [done| |done|].
  - apply Forall_lookup. intros i x Hx. apply lookup_take_Some in Hx as [Hx Hi].
    specialize (Hz i ltac:(lia)). unfold at_ in Hz. by rewrite Hx in Hz.
  - specialize (Hz a Hab). by rewrite (at_rest _ _ _ Ed) in Hz.
Qed.

Lemma scan_userinfo_rest s r n :
  Forall (fun c => isUserInfoChar c = true) s -> isUserInfoChar (at_ r 0) = false ->
  (scan_userinfo (s ++ r) n 0).1 = (n + length s)%nat.
Proof.
  intros Hs Hr. pose proof (scan_userinfo_fst (s ++ r) 0 n 0) as E. rewrite drop_0 in E.
  by rewrite E, span_app.
Qed.

(** ** The user info *)

Section Parse.
Context (p : parts) (Hp : canonical p).

Lemma host_userinfo : Forall (fun c => isUserInfoChar c = true) (host p).
Proof.
  destruct (c_host p Hp) as [_ H]. eapply Forall_impl; [|exact H]. intros c [Hc _].
  by apply (class_check HostnameChar isUserInfoChar).
Qed.

Lemma port_userinfo : Forall (fun c => isUserInfoChar c = true) (port_part p).
Proof.
  unfold port_part, opt_text. destruct (port p) as [d|] eqn:E; [|constructor].
  constructor; [by_eval|]. destruct (c_port p Hp d E) as (_ & H & _).
  eapply Forall_impl; [|exact H]. intros c Hc. unfold isASCIIDigit in Hc. bprop.
  pose proof (range_check 6 (fun c => negb ((48 <=? c) && (c <=? 57)) || isUserInfoChar c)
    ltac:(vm_compute; reflexivity) c ltac:(zpow; lia)) as E'. cbv beta in E'.
  by replace ((48 <=? c) && (c <=? 57)) with true in E' by lia.
Qed.

Lemma tail_first : exists r, tail_text p = 47 :: r.
Proof. unfold tail_text. destruct (c_path p Hp) as (q & ->). by eexists. Qed.

(** The position of the host. *)
Lemma scan_user_rest url u :
  (0 < u)%nat -> drop u url = userinfo p ++ at_sign p ++ host p ++ port_part p ++ tail_text p ->
  scan_user url u = Some
    ((u + length (user p))%nat,
     (match pass p with Some _ => S (u + length (user p)) | None => u + length (user p) end)%nat,
     (u + length (userinfo p))%nat, (u + length (userinfo p) + length (at_sign p))%nat).
Proof.
  intros Hu H. unfold scan_user. rewrite H. destruct tail_first as [r Er].
  unfold at_sign in *. destruct (decide (userinfo p = [])) as [E|E].
  - unfold userinfo in *. apply app_eq_nil in E as [Eu Ew].
    assert (pass p = None) as Ep by (destruct (pass p); [discriminate Ew|done]).
    rewrite Eu, Ep in *. cbn [opt_text app length] in *.
    pose proof (scan_userinfo_rest (host p ++ port_part p) (tail_text p) u) as E1.
    rewrite <- app_assoc in E1. specialize (E1 ltac:(apply Forall_app; split; [apply host_userinfo|apply port_userinfo])).
    rewrite Er in E1 at 1. specialize (E1 ltac:(by_eval)).
    destruct (scan_userinfo _ u 0) as [e k]. cbn in E1. subst e.
    rewrite app_assoc in H. rewrite (at_rest _ _ _ (drop_next _ _ _ _ H)), Er. cbn. by rewrite !Nat.add_0_r.
  - assert (Forall (fun c => isUserInfoChar c = true) (userinfo p)) as Hui.
    { unfold userinfo. apply Forall_app. split.
      - eapply Forall_impl; [|apply (c_user p Hp)]. by intros c [? _].
      - destruct (pass p) as [w|] eqn:Ew; [|constructor]. cbn. constructor; [by_eval|]. by apply (c_pass p Hp). }
    pose proof (scan_userinfo_rest (userinfo p) ([64] ++ host p ++ port_part p ++ tail_text p) u Hui eq_refl) as E1.
    pose proof (scan_userinfo_colon (userinfo p ++ [64] ++ host p ++ port_part p ++ tail_text p) u Hu) as E2.
    destruct (scan_userinfo _ u 0) as [e k]. cbn [fst] in E1. subst e.
    rewrite (at_rest _ _ _ (drop_next _ _ _ _ H)). cbn [app at_ lookup list_lookup default Z.eqb Pos.eqb].
    change (at_ (64 :: host p ++ port_part p ++ tail_text p) 0) with 64. cbn [Z.eqb Pos.eqb].
    assert (forall i, (i < length (user p))%nat -> forall t, at_ (user p ++ t) i <> 58) as Hnocolon.
    { intros i Hi t. unfold at_. rewrite lookup_app_l by done. destruct (lookup_lt_is_Some_2 _ _ Hi) as [c Ec].
      rewrite Ec. cbn. by apply (Forall_lookup_1 _ _ _ _ (c_user p Hp)) in Ec as [_ ?]. }
    unfold userinfo in *. rewrite <- !app_assoc in *. rewrite length_app in *.
    destruct (pass p) as [w|] eqn:Ew; cbn [opt_text] in *.
    + assert (at_ (user p ++ (58 :: w) ++ [64] ++ host p ++ port_part p ++ tail_text p) (length (user p)) = 58) as Hat.
      { unfold at_. cbn [app]. by rewrite list_lookup_middle. }
      destruct E2 as [[-> E2]|(Hk & E2 & E3)]; [exfalso; apply (E2 (length (user p))); [cbn; lia|done]|].
      assert (k = u + length (user p))%nat as ->.
      { destruct (Nat.lt_trichotomy (k - u) (length (user p))) as [Hlt|[Heq|Hgt]]; [|lia|].
        - by apply Hnocolon with (t := (58 :: w) ++ [64] ++ host p ++ port_part p ++ tail_text p) in Hlt.
        - by apply E3 in Hgt. }
      replace (u + length (user p) =? 0)%nat with false by (symmetry; apply Nat.eqb_neq; lia). cbn [negb length].
      do 2 f_equal; lia.
    + cbn [length app] in *. rewrite Nat.add_0_r in *.
      destruct E2 as [[-> _]|(Hk & E2 & _)].
      * cbn. do 2 f_equal; lia.
      * exfalso. eapply (Hnocolon (k - u)%nat); [lia|exact E2].
Qed.

Lemma scan_host_rest url h :
  drop h url = host p ++ port_part p ++ tail_text p ->
  scan_host url h = Some (h + length (host p))%nat.
Proof.
  intros H. unfold scan_host. destruct (c_host p Hp) as [Hne Hh].
  assert ((at_ url h =? 91) = false) as ->.
  { rewrite (at_rest _ _ _ H). destruct (host p) as [|c l]; [done|]. apply Forall_cons_iff in Hh as [[Hc _] _].
    change (at_ ((c :: l) ++ port_part p ++ tail_text p) 0) with c. apply Z.eqb_neq. by intros ->. }
  f_equal. eapply skip_rest; [exact H| |].
  - eapply Forall_impl; [|exact Hh]. by intros c [? _].
  - destruct tail_first as [r ->]. unfold port_part. by destruct (port p).
Qed.

Lemma scan_port_rest url h :
  drop h url = port_part p ++ tail_text p ->
  scan_port url h = (match port p with Some _ => S h | None => h end, h + length (port_part p))%nat.
Proof.
  intros H. unfold scan_port. rewrite (at_rest _ _ _ H). destruct tail_first as [r Er].
  unfold port_part in *. destruct (port p) as [d|] eqn:E; cbn [opt_text app length] in *.
  - change (at_ (58 :: d ++ tail_text p) 0) with 58. cbn [Z.eqb Pos.eqb]. f_equal.
    rewrite (skip_rest _ url d (tail_text p)); [lia|by apply drop_next1 in H| |by rewrite Er].
    by apply (c_port p Hp).
  - rewrite Er. cbn. f_equal. lia.
Qed.

(** The whole authority. *)
Definition canonical_authority (u : nat) : authority :=
  let hS := (u + length (userinfo p) + length (at_sign p))%nat in
  let hE := (hS + length (host p))%nat in
  mkauth u (u + length (user p))
    (match pass p with Some _ => S (u + length (user p)) | None => u + length (user p) end)
    (u + length (userinfo p)) hS hE (match port p with Some _ => S hE | None => hE end)
    (hE + length (port_part p)).

Lemma authority_first : exists c r,
  userinfo p ++ at_sign p ++ host p ++ port_part p ++ tail_text p = c :: r /\ c <> 47.
Proof.
  assert (forall c, isUserInfoChar c = true -> c <> 47) as Hne by (intros c Hc ->; discriminate Hc).
  unfold at_sign. destruct (decide (userinfo p = [])) as [->|E]; cbn [app].
  - pose proof host_userinfo as H. destruct (c_host p Hp) as [Hh _]. destruct (host p) as [|c h]; [done|].
    apply Forall_cons_iff in H as [Hc _]. eexists c, _. split; [done|by apply Hne].
  - unfold userinfo in *. destruct (user p) as [|c l] eqn:Eu.
    + destruct (pass p) as [w|]; [|done]. eexists 58, _. by split.
    + pose proof (c_user p Hp) as H. rewrite Eu in H. apply Forall_cons_iff in H as [[Hc _] _].
      eexists c, _. split; [done|by apply Hne].
Qed.

Lemma scan_authority_rest url se isH :
  at_ url se = 58 ->
  drop (se + 3) url = userinfo p ++ at_sign p ++ host p ++ port_part p ++ tail_text p ->
  scan_authority url se true true false isH = Some (canonical_authority (se + 3)).
Proof.
  intros Hc H. unfold scan_authority. cbv zeta. replace (S (S (S se))) with (se + 3)%nat by lia.
  assert ((if isH then skip_while (fun c => (c =? 47)%Z) url (se + 3) else se + 3) = se + 3)%nat as ->.
  { destruct isH; [|done]. destruct authority_first as (c & r & E & Hne).
    rewrite (skip_rest _ url [] (c :: r)); [simpl; lia|by rewrite H, E|done|by apply Z.eqb_neq]. }
  rewrite (scan_user_rest url (se + 3)) by (done || lia).
  assert (drop (se + 3 + length (userinfo p) + length (at_sign p)) url = host p ++ port_part p ++ tail_text p) as Hh.
  { rewrite !app_assoc in H. rewrite <- (app_assoc (userinfo p)), <- !app_assoc in H.
    rewrite <- Nat.add_assoc, <- length_app. apply drop_next. by rewrite <- app_assoc. }
  rewrite (scan_host_rest url _ Hh). pose proof (drop_next _ _ _ _ Hh) as Hpo.
  rewrite (scan_port_rest url _ Hpo). pose proof (drop_next _ _ _ _ Hpo) as Ht.
  rewrite (at_rest _ _ _ Ht). destruct tail_first as [r ->]. cbn [negb].
  change (at_ (47 :: r) 0) with 47. change (isPathSegmentEndChar 47) with true. cbn [negb].
  destruct (c_host p Hp) as [Hne _]. assert (0 < length (host p))%nat by (destruct (host p); [done|simpl; lia]).
  unfold hostPortIsEmptyButCredentialsArePresent.
  set (hS := (se + 3 + length (userinfo p) + length (at_sign p))%nat) in *.
  replace (hS =? hS + length (host p) + length (port_part p))%nat with false by (symmetry; apply Nat.eqb_neq; lia).
  rewrite andb_false_r.
  replace (se + 3 =? hS + length (host p) + length (port_part p))%nat with false
    by (symmetry; apply Nat.eqb_neq; unfold hS; lia).
  done.
Qed.

(** ** The scheme *)

Lemma lower_match c l : isSchemeChar c = true -> toASCIILower c = c ->
  isLetterMatchIgnoringCase c l = true -> isASCIILower l = true -> c = l.
Proof.
  intros Hs Hl Hm Hlow. pose proof (scheme_plain c Hs) as Hc. unfold isLetterMatchIgnoringCase in Hm. bprop.
  pose proof (range_check 7 (fun c => negb (toASCIILower c =? c) || negb (isASCIILower (Z.lor c 32)) || (c =? Z.lor c 32))
    ltac:(vm_compute; reflexivity) c ltac:(unfold plain in Hc; zpow; lia)) as E.
  cbv beta in E. rewrite Hl, Z.eqb_refl, Hm, Hlow in E. cbn in E. by apply Z.eqb_eq in E.
Qed.

Lemma scheme_at url i :
  drop 0 url = scheme p ++ 58 :: 47 :: 47 :: userinfo p ++ at_sign p ++ host p ++ port_part p ++ tail_text p ->
  (i < length (scheme p))%nat -> at_ url i = at_ (scheme p) i /\ isSchemeChar (at_ url i) = true
    /\ toASCIILower (at_ url i) = at_ url i.
Proof.
  intros H Hi. rewrite drop_0 in H. assert (at_ url i = at_ (scheme p) i) as E.
  { rewrite H. unfold at_. by rewrite lookup_app_l. }
  split; [done|]. rewrite E. pose proof (at_lt _ _ Hi) as El.
  apply (Forall_lookup_1 _ _ _ _ (c_scheme p Hp) El).
Qed.

(** A literal scheme is recognised when the scheme is that literal. *)
Lemma scheme_literal url l :
  drop 0 url = scheme p ++ 58 :: 47 :: 47 :: userinfo p ++ at_sign p ++ host p ++ port_part p ++ tail_text p ->
  Forall (fun c => isASCIILower c = true) l -> length (scheme p) = length l ->
  (forall i, (i < length l)%nat -> isLetterMatchIgnoringCase (at_ url i) (at_ l i) = true) -> scheme p = l.
Proof.
  intros H Hl Hlen Hm. apply list_eq_same_length with (n := length l); [done|done|].
  intros i x y Hi Hx Hy. destruct (scheme_at url i H ltac:(lia)) as (E & Hs & Hlow).
  specialize (Hm i Hi). rewrite (at_lt (scheme p)) in Hx by lia. rewrite (at_lt l) in Hy by done.
  injection Hx as <-. injection Hy as <-. rewrite <- E. apply lower_match; [done|done|done|].
  by apply (Forall_lookup_1 _ _ _ _ Hl (at_lt _ _ Hi)).
Qed.

Lemma scheme_end url :
  drop 0 url = scheme p ++ 58 :: 47 :: 47 :: userinfo p ++ at_sign p ++ host p ++ port_part p ++ tail_text p ->
  skip_while isSchemeChar url 0 = length (scheme p).
Proof.
  intros H. rewrite (skip_rest _ _ _ _ _ H); [done| |done].
  eapply Forall_impl; [|apply (c_scheme p Hp)]. by intros c [? _].
Qed.

Lemma not_is_file url :
  drop 0 url = scheme p ++ 58 :: 47 :: 47 :: userinfo p ++ at_sign p ++ host p ++ port_part p ++ tail_text p ->
  is_file url (length (scheme p)) = false.
Proof.
  intros H. unfold is_file. destruct (Nat.eqb_spec (length (scheme p)) 4) as [E|]; [|done].
  destruct (letters_at url 0 (str "file")) eqn:El; [|done]. exfalso. apply (c_not_file p Hp).
  eapply scheme_literal; [exact H|by repeat constructor|done|].
  unfold letters_at, str in El. cbn in El. bprop. intros [|[|[|[|i]]]] Hi; try done. simpl in Hi. lia.
Qed.

Lemma http_family url :
  drop 0 url = scheme p ++ 58 :: 47 :: 47 :: userinfo p ++ at_sign p ++ host p ++ port_part p ++ tail_text p ->
  is_http_family url = bool_decide (scheme p = httpScheme \/ scheme p = httpsScheme).
Proof.
  intros H. pose proof H as H0. rewrite drop_0 in H0. case_bool_decide as E.
  - destruct E as [E|E]; rewrite E in H0; by rewrite H0.
  - destruct (is_http_family url) eqn:Eh; [|done]. exfalso. apply E.
    pose proof (http_scheme_end url Eh) as Hend. rewrite (scheme_end url H) in Hend.
    assert (at_ url (length (scheme p)) = 58) as Hcol.
    { rewrite H0. unfold at_. by rewrite list_lookup_middle. }
    assert (forall i, at_ url i = 58 -> (length (scheme p) <= i)%nat) as Hle.
    { intros i Hi. destruct (Nat.le_gt_cases (length (scheme p)) i) as [|Hlt]; [done|].
      destruct (scheme_at url i H Hlt) as (_ & Hs & _). by rewrite Hi in Hs. }
    unfold is_http_family in Eh. apply andb_true_iff in Eh as [Eh Eo].
    unfold letters_at, str in Eh. cbn in Eh. bprop. apply orb_true_iff in Eo as [Eo|Eo];
      [|apply andb_true_iff in Eo as [Eo E5]]; bprop.
    + left. apply Hle in Eo. eapply scheme_literal; [exact H|by repeat constructor|simpl; lia|].
      intros [|[|[|[|i]]]] Hi; try done. simpl in Hi. lia.
    + assert (length (scheme p) <> 4)%nat as Hn4 by (intros E4; rewrite E4 in Hcol; by rewrite Hcol in Eo).
      right. apply Hle in E5.
      eapply scheme_literal; [exact H|by repeat constructor|simpl; lia|].
      intros [|[|[|[|[|i]]]]] Hi; try done. simpl in Hi. lia.
Qed.

Lemma print_rest :
  drop 0 (print p) =
    scheme p ++ 58 :: 47 :: 47 :: userinfo p ++ at_sign p ++ host p ++ port_part p ++ tail_text p.
Proof. done. Qed.

(** The scan of the printed text finds the components. *)
Definition canonical_scan : scan :=
  let se := length (scheme p) in
  let a := canonical_authority (se + 3) in
  let pathEnd := (portEnd a + length (path p))%nat in
  let queryEnd := (pathEnd + length (query_part p))%nat in
  mkscan se a true false (bool_decide (scheme p = httpScheme \/ scheme p = httpsScheme))
    (portEnd a) pathEnd pathEnd queryEnd
    (match frag p with Some _ => S queryEnd | None => queryEnd end) (queryEnd + length (frag_part p)).

Lemma print_colon :
  drop (length (scheme p)) (print p) =
    58 :: 47 :: 47 :: userinfo p ++ at_sign p ++ host p ++ port_part p ++ tail_text p.
Proof. exact (drop_next _ _ _ _ print_rest). Qed.

Lemma rest_host : drop (length (scheme p) + 3) (print p) =
  userinfo p ++ at_sign p ++ host p ++ port_part p ++ tail_text p.
Proof.
  by rewrite <- drop_drop, print_colon.
Qed.

Lemma rest_tail : drop (portEnd (canonical_authority (length (scheme p) + 3))) (print p) = tail_text p.
Proof.
  cbn [portEnd canonical_authority]. pose proof rest_host as H.
  do 4 apply drop_next in H. exact H.
Qed.

Lemma query_scan url i :
  drop i url = query_part p ++ frag_part p ->
  (if at_ url i =? 63 then skip_while (fun c => negb (c =? 0) && negb (c =? 35)) url i else i)
  = (i + length (query_part p))%nat.
Proof.
  intros H. rewrite (at_rest _ _ _ H). unfold query_part in *. destruct (query p) as [q|] eqn:Eq; cbn [opt_text] in *.
  - change (at_ ((63 :: q) ++ frag_part p) 0) with 63. cbn [Z.eqb Pos.eqb].
    apply (skip_rest _ _ _ _ _ H).
    + constructor; [done|]. eapply Forall_impl; [|apply (c_query p Hp q Eq)]. intros c (? & ? & _).
      cbv beta. apply andb_true_iff; split; apply negb_true_iff; by apply Z.eqb_neq.
    + unfold frag_part. by destruct (frag p).
  - unfold frag_part. destruct (frag p); simpl; lia.
Qed.

Lemma frag_scan url i :
  drop i url = frag_part p ->
  (if at_ url i =? 35 then (S i, skip_while (fun c => negb (c =? 0)) url (S i)) else (i, i))
  = (match frag p with Some _ => S i | None => i end, i + length (frag_part p))%nat.
Proof.
  intros H. rewrite (at_rest _ _ _ H). unfold frag_part in *. destruct (frag p) as [f|] eqn:Ef; cbn [opt_text] in *.
  - change (at_ (35 :: f) 0) with 35. cbn [Z.eqb Pos.eqb]. f_equal.
    rewrite (skip_rest _ url f []); [simpl; lia|by rewrite app_nil_r; apply drop_next1 in H| |done].
    eapply Forall_impl; [|apply (c_frag p Hp f Ef)]. intros c (? & _). cbv beta.
    apply negb_true_iff. by apply Z.eqb_neq.
  - cbn. f_equal. lia.
Qed.

Lemma path_scan url i :
  drop i url = tail_text p ->
  skip_while (fun c => negb (c =? 0) && negb (c =? 63) && negb (c =? 35)) url i = (i + length (path p))%nat.
Proof.
  intros H. apply (skip_rest _ _ _ _ _ H).
  - eapply Forall_impl; [|apply (c_path_chars p Hp)]. intros c (? & ? & ? & _). cbv beta.
    rewrite !andb_true_iff. split_and!; apply negb_true_iff; by apply Z.eqb_neq.
  - unfold query_part, frag_part. destruct (query p), (frag p); done.
Qed.

Lemma scan_print : scan_url (print p) = Some canonical_scan.
Proof.
  pose proof print_rest as H. assert (Hfirst : at_ (print p) 0 = at_ (scheme p) 0).
  { pose proof (c_first p Hp) as E. change (drop 0 (print p)) with (print p) in H. rewrite H.
    by destruct (scheme p). }
  unfold scan_url. rewrite Hfirst, (c_first p Hp), (scheme_end _ H). cbn [negb].
  destruct (Z.eqb_spec (at_ (scheme p) 0) 0) as [E0|_].
  { pose proof (c_first p Hp) as E. by rewrite E0 in E. }
  rewrite (at_rest _ _ _ print_colon).
  assert (H1 : drop (length (scheme p) + 1) (print p) =
    47 :: 47 :: userinfo p ++ at_sign p ++ host p ++ port_part p ++ tail_text p)
    by (by rewrite <- drop_drop, print_colon).
  assert (H2 : drop (length (scheme p) + 2) (print p) =
    47 :: userinfo p ++ at_sign p ++ host p ++ port_part p ++ tail_text p)
    by (by rewrite <- drop_drop, print_colon).
  rewrite (at_rest _ _ _ H1), (at_rest _ _ _ H2).
  set (rest := userinfo p ++ at_sign p ++ host p ++ port_part p ++ tail_text p).
  change (at_ (58 :: 47 :: 47 :: rest) 0) with 58. change (at_ (47 :: 47 :: rest) 0) with 47.
  change (at_ (47 :: rest) 0) with 47. cbn [Z.eqb Pos.eqb negb andb orb].
  rewrite (not_is_file _ H), (http_family _ H).
  rewrite scan_authority_rest; [|apply (at_rest _ _ _ print_colon)|apply rest_host].
  set (ps := portEnd (canonical_authority (length (scheme p) + 3))).
  pose proof rest_tail as Ht. fold ps in Ht.
  rewrite (path_scan _ _ Ht). pose proof (drop_next _ _ _ _ Ht) as Hq.
  rewrite (query_scan _ _ Hq). rewrite (frag_scan _ _ (drop_next _ _ _ _ Hq)). done.
Qed.

(** ** Writing the components *)

Lemma slice_empty (url : list Z) i : slice url i i = [].
Proof. unfold slice. by rewrite Nat.sub_diag. Qed.

Lemma equal_app (a r b : list Z) : (length b <= length a)%nat -> equal (a ++ r) b = equal a b.
Proof. intros H. unfold equal. by rewrite take_app_le. Qed.

Lemma lower_map l (P : Z -> Prop) : Forall (fun c => P c /\ toASCIILower c = c) l -> map toASCIILower l = l.
Proof. intros H. induction H as [|c l [_ Hc] _ IH]; [done|]. cbn. by rewrite Hc, IH. Qed.

Lemma equal_len_app d r b : equal_len (d ++ r) (length d) b = equal_len d (length d) b.
Proof.
  unfold equal_len. destruct (Nat.eqb_spec (length d) (length b)); [|done]. cbn [andb]. apply equal_app. lia.
Qed.

Lemma default_port_app d r s t :
  isDefaultPortForScheme (d ++ r) (length d) (s ++ t) (length s) = isDefaultPortForScheme d (length d) s (length s).
Proof.
  unfold isDefaultPortForScheme.
  destruct s as [|? [|? [|? [|? [|? [|? [|? s]]]]]]]; cbn [length]; rewrite ?equal_len_app, ?equal_app by done; done.
Qed.

Lemma bad_chars_id l : Forall (fun c => escape_bad c = [c]) l -> appendEscapingBadChars l = l.
Proof. intros H. induction H as [|c l Hc _ IH]; [done|]. cbn. by rewrite Hc, IH. Qed.

Lemma opaque_id l : Forall (fun c => escape_opaque c = [c]) l -> escapeAndAppendNonHierarchicalPart l = l.
Proof. intros H. induction H as [|c l Hc _ IH]; [done|]. cbn. by rewrite Hc, IH. Qed.

Lemma segments_nonempty q : segments q <> [].
Proof. destruct q as [|c q]; [done|]. cbn. destruct (c =? 47); [done|]. by destruct (segments q). Qed.

Lemma copy_undot before q : copyPathRemovingDots before (47 :: q) = undot_path (47 :: q).
Proof.
  cbn [copyPathRemovingDots undot_path]. rewrite <- (segments_join q) at 1.
  change [47] with (rev (text [])).
  apply dots_loop_resolve; [apply segments_nonempty|apply segments_no_slash|constructor].
Qed.

(** Without "/." and ".." in the text there is nothing to remove. *)
Lemma copy_shortcut before url a b :
  hasSlashDotOrDotDot url = false -> (forall i, (i < b)%nat -> at_ url i <> 0) ->
  copyPathRemovingDots before (slice url a b) = slice url a b.
Proof.
  intros H Hz. destruct (slice url a b) as [|c s] eqn:Es; [done|]. cbn [copyPathRemovingDots].
  rewrite dots_loop_id; [by rewrite rev_app_distr, rev_involutive|by eapply slash_dot_slice|].
  intros x Hx. assert (Forall (fun c => c <> 0) (slice url a b)) as Hnz by (apply slice_forall; intros; apply Hz; lia).
  rewrite Es in Hnz. apply Forall_cons_iff in Hnz as [_ Hnz]. by apply (proj1 (List.Forall_forall _ _) Hnz).
Qed.

Lemma write_path_print before : write_path before (print p) canonical_scan = undot_path (path p).
Proof.
  unfold write_path. set (sc := canonical_scan).
  assert (slice (print p) (pathStart sc) (pathEnd sc) = path p) as Es
    by (apply (slice_rest _ _ (query_part p ++ frag_part p)); [apply rest_tail|done]).
  destruct (c_path p Hp) as (q & Eq).
  assert ((pathEnd sc =? pathStart sc)%nat = false) as ->
    by (apply Nat.eqb_neq; unfold sc; cbn [pathEnd pathStart canonical_scan]; rewrite Eq; cbn [length]; lia).
  rewrite andb_false_r. change (isFile sc) with false. change (hierarchical sc) with true. cbn [andb negb app].
  assert (appendEscapingBadChars (undot_path (path p)) = undot_path (path p)) as Hb.
  { apply bad_chars_id. rewrite Eq, <- (copy_undot before), <- Eq. apply copyPathRemovingDots_forall.
    eapply Forall_impl; [|apply (c_path_chars p Hp)]. by intros c (_ & _ & _ & ?). }
  pose proof (copy_undot before q) as Ecopy. rewrite <- Eq in Ecopy.
  destruct (hasSlashDotOrDotDot (print p)) eqn:E; cbn [negb].
  - by rewrite Es, Ecopy.
  - rewrite <- (copy_shortcut before _ _ _ E), Es, Ecopy; [done|].
    intros i Hi. apply (ok_nonzero _ _ (scan_url_ok _ _ scan_print)). fold sc.
    assert (pathEnd sc <= fragmentEnd sc)%nat by (cbn; lia). lia.
Qed.

Lemma write_authority_print :
  write_authority (print p) canonical_scan (scheme p ++ [58]) (length (scheme p)) =
  let u := (length (scheme p) + 3)%nat in
  let a := canonical_authority u in
  mkout (scheme p ++ [58; 47; 47] ++ userinfo p ++ at_sign p ++ host p ++ port_part p)
    u (u + length (user p)) (u + length (userinfo p)) (hostEnd a) (portEnd a).
Proof.
  rewrite write_authority_eq. cbv zeta. change (auth canonical_scan) with (canonical_authority (length (scheme p) + 3)).
  set (u := (length (scheme p) + 3)%nat). set (a := canonical_authority u).
  change (isFile canonical_scan) with false. destruct (c_host p Hp) as [Hh Hlow].
  assert (writes_authority (print p) a false (pathStart canonical_scan =? pathEnd canonical_scan)%nat = true) as ->.
  { unfold writes_authority. replace (hostStart a =? hostEnd a)%nat with false; [by rewrite andb_false_r|].
    symmetry. apply Nat.eqb_neq. cbn. destruct (host p); [done|]. cbn [length]. lia. }
  pose proof rest_host as H. fold u in H.
  assert (user_text (print p) a = user p) as ->.
  { apply (slice_rest _ _ (opt_text 58 (pass p) ++ at_sign p ++ host p ++ port_part p ++ tail_text p)); [|done].
    cbn. rewrite H. unfold userinfo. by rewrite <- app_assoc. }
  assert (pass_text (print p) a = opt_text 58 (pass p)) as Epass.
  { unfold pass_text. cbn [passwordEnd passwordStart a canonical_authority]. unfold userinfo. rewrite length_app.
    destruct (pass p) as [w|] eqn:Ew; cbn [opt_text length].
    - destruct (c_pass p Hp w Ew) as [Hw _]. assert (0 < length w)%nat by (destruct w; [done|simpl; lia]).
      replace (_ =? _)%nat with false by (symmetry; apply Nat.eqb_neq; lia). cbn [negb]. f_equal.
      apply (slice_rest _ _ (at_sign p ++ host p ++ port_part p ++ tail_text p)); [|lia].
      unfold userinfo in H. rewrite <- app_assoc, Ew in H. by apply drop_next, drop_next1 in H.
    - by rewrite Nat.add_0_r, Nat.eqb_refl. }
  rewrite Epass.
  assert (at_text (print p) a = at_sign p) as ->.
  { unfold at_text. rewrite Epass. unfold user_text.
    rewrite (slice_rest _ (user p) (opt_text 58 (pass p) ++ at_sign p ++ host p ++ port_part p ++ tail_text p));
      [|cbn; rewrite H; unfold userinfo; by rewrite <- app_assoc|done].
    fold (userinfo p). unfold at_sign. by destruct (userinfo p). }
  set (p4 := (((scheme p ++ [58]) ++ [47; 47]) ++ user p) ++ _).
  assert (slice (print p) (hostStart a) (hostEnd a) = host p) as Ehost.
  { apply (slice_rest _ _ (port_part p ++ tail_text p)); [|done]. by do 2 apply drop_next in H. }
  assert (host_text (print p) a (false && local (print p) a && no_nonhost a) (p4 ++ at_sign p)
            (length (scheme p)) = host p) as ->.
  { unfold host_text. cbn [andb negb]. rewrite Ehost, (lower_map _ _ Hlow). by casif. }
  assert (port_text (print p) a ((p4 ++ at_sign p) ++ host p) (length (scheme p)) = port_part p) as ->.
  { unfold port_text. cbn [portEnd portStart hostEnd a canonical_authority]. unfold port_part.
    assert (drop (hostEnd a) (print p) = port_part p ++ tail_text p) as Hpo by (by do 3 apply drop_next in H).
    unfold port_part in Hpo. destruct (port p) as [d|] eqn:Ed; cbn [opt_text length].
    - destruct (c_port p Hp d Ed) as (Hd & _ & Hdef).
      assert (0 < length d)%nat by (destruct d; [done|simpl; lia]). cbn [opt_text app] in Hpo.
      apply drop_next1 in Hpo. cbn [hostEnd a canonical_authority] in Hpo. rewrite Hpo.
      set (h := (_ + length (host p))%nat) in *.
      replace (h + S (length d) - S h)%nat with (length d) by lia.
      unfold p4. rewrite <- !app_assoc. rewrite default_port_app, Hdef.
      replace (h =? S h)%nat with false by (symmetry; apply Nat.eqb_neq; lia).
      replace (length d =? 0)%nat with false by (symmetry; apply Nat.eqb_neq; lia). cbn [negb andb]. f_equal.
      apply (slice_rest _ _ (tail_text p)); [done|lia].
    - by rewrite Nat.eqb_refl. }
  unfold p4, u, a. cbn [hostEnd portEnd canonical_authority]. unfold userinfo.
  f_equal; rewrite ?length_app, <- ?app_assoc; cbn [length app]; try done; lia.
Qed.

Lemma after_last_slash_app b t portEnd i :
  (i <= length b)%nat -> after_last_slash (b ++ t) portEnd i = after_last_slash b portEnd i.
Proof.
  induction i as [|i IH]; intros H; [done|]. cbn [after_last_slash]. rewrite IH by lia.
  unfold at_. by rewrite lookup_app_l by lia.
Qed.

Lemma assemble_print before : assemble before (print p) canonical_scan = canonical_url (undot p).
Proof.
  unfold assemble. change (schemeEnd canonical_scan) with (length (scheme p)).
  assert (slice (print p) 0 (length (scheme p)) = scheme p) as -> by (eapply slice_rest; [apply print_rest|done]).
  rewrite (lower_map _ _ (c_scheme p Hp)), write_authority_print, write_path_print. cbv zeta.
  cbn [o_text o_userStart o_userEnd o_passwordEnd o_hostEnd o_portEnd].
  set (u := (length (scheme p) + 3)%nat). set (a := canonical_authority u).
  pose proof rest_tail as Ht. fold u a in Ht. pose proof (drop_next _ _ _ _ Ht) as Hq.
  pose proof (drop_next _ _ _ _ Hq) as Hf.
  assert (appendEscapingBadChars (slice (print p) (queryStart canonical_scan) (queryEnd canonical_scan)) = query_part p) as ->.
  { rewrite (slice_rest _ (query_part p) (frag_part p)); [|exact Hq|done]. apply bad_chars_id.
    unfold query_part. destruct (query p) as [q|] eqn:Eq; [|constructor]. constructor; [done|].
    eapply Forall_impl; [|apply (c_query p Hp q Eq)]. by intros c (_ & _ & ?). }
  set (front := (scheme p ++ [58; 47; 47] ++ userinfo p ++ at_sign p ++ host p ++ port_part p) ++ undot_path (path p)).
  assert ((front ++ query_part p) ++ frag_part p = print (undot p)) as Epr
    by (unfold front, print, tail_text; by rewrite <- !app_assoc).
  assert ((if negb (fragmentEnd canonical_scan =? queryEnd canonical_scan)%nat then
      (front ++ query_part p) ++ 35 :: escapeAndAppendNonHierarchicalPart
        (slice (print p) (fragmentStart canonical_scan) (fragmentEnd canonical_scan))
    else front ++ query_part p) = print (undot p)) as ->.
  { rewrite <- Epr. cbn [fragmentEnd queryEnd fragmentStart canonical_scan]. unfold frag_part in *. fold u a.
    destruct (frag p) as [f|] eqn:Ef; cbn [opt_text length] in *.
    - replace (_ =? _)%nat with false by (symmetry; apply Nat.eqb_neq; lia). cbn [negb]. do 2 f_equal.
      apply drop_next1 in Hf. rewrite (slice_rest _ f []); [|by rewrite app_nil_r|lia].
      apply opaque_id. eapply Forall_impl; [|apply (c_frag p Hp f Ef)]. by intros c [_ ?].
    - rewrite Nat.add_0_r, Nat.eqb_refl. by rewrite app_nil_r. }
  assert (length front = portEnd a + length (path (undot p)))%nat as Hlf.
  { unfold front, a, u, userinfo. cbn [portEnd canonical_authority path undot]. unfold userinfo.
    rewrite !length_app. cbn [length]. lia. }
  assert (forall x y, (y <= length front)%nat ->
    after_last_slash (print (undot p)) x y = after_last_slash front x y) as Hals
    by (intros; rewrite <- Epr, <- app_assoc; by apply after_last_slash_app).
  unfold canonical_url. rewrite Hals by (rewrite Hlf; apply Nat.le_refl).
  rewrite (length_app front), Hlf. change (isHTTP canonical_scan) with
    (bool_decide (scheme p = httpScheme \/ scheme p = httpsScheme)).
  f_equal; try done; try (cbn; lia).
  rewrite <- Epr, !length_app, Hlf. reflexivity.
Qed.

Lemma parse_canonical before orig : parse before (print p) orig = canonical_url (undot p).
Proof. unfold parse. rewrite scan_print. by apply assemble_print. Qed.

Lemma undot_id : Forall not_dot (segments (tail (path p))) -> undot p = p.
Proof.
  intros Hd. destruct (c_path p Hp) as [q Eq]. unfold undot.
  destruct p as [sc us pa ho po pt qu fr]. f_equal. cbn [path] in *. subst pt. cbn [undot_path tail] in *.
  rewrite resolve_id by (done || apply segments_nonempty). cbn [rev app]. by rewrite segments_join.
Qed.

Lemma printable_byte c : printable c -> is_byte c.
Proof. unfold printable. dlia. Qed.

Lemma canonical_bytes : bytes_ok (print p).
Proof.
  assert (forall l (P : Z -> Prop), Forall P l -> (forall c, P c -> plain c) -> bytes_ok l) as Hall.
  { intros l P H HP. eapply Forall_impl; [|exact H]. intros c Hc. apply HP in Hc. unfold plain in Hc. dlia. }
  unfold print. rewrite !bytes_ok_app. split_and!.
  - eapply Hall; [apply (c_scheme p Hp)|]. intros c [Hc _]. by apply scheme_plain.
  - by_eval.
  - unfold userinfo. rewrite bytes_ok_app. split.
    + eapply Hall; [apply (c_user p Hp)|]. intros c [Hc _]. by apply userinfo_plain.
    + destruct (pass p) as [w|] eqn:E; [|constructor]. cbn. apply bytes_ok_cons. split; [by_eval|].
      eapply Hall; [by apply (c_pass p Hp)|]. apply userinfo_plain.
  - unfold at_sign. casif; by_eval.
  - eapply Hall; [apply (c_host p Hp)|]. intros c [Hc _]. by apply hostname_plain.
  - eapply Hall; [apply port_userinfo|]. apply userinfo_plain.
  - apply (c_bytes p Hp).
Qed.

End Parse.
End CanonicalFacts.

(** * Properties *)
Module KURLParseProps.
Import Class Scan Assemble DotSpec DotFacts ScanFacts AssembleFacts Canonical CanonicalFacts.

(** The last slash of [portEnd, i): [r] is just after it, or [portEnd]. *)
Definition is_after_last_slash (s : list Z) (portEnd i r : nat) : Prop :=
  (portEnd <= r <= i)%nat /\ (r = portEnd \/ at_ s (r - 1) = 47) /\
  forall k, (r <= k < i)%nat -> at_ s k <> 47.

Lemma after_last_slash_spec s portEnd i :
  (portEnd <= i)%nat -> is_after_last_slash s portEnd i (after_last_slash s portEnd i).
Proof.
  induction i as [|i IH]; intros H; cbn [after_last_slash]; unfold is_after_last_slash.
  { split_and!; [lia|lia|left; lia|]. intros. lia. }
  destruct (Nat.ltb_spec portEnd (S i)) as [Hlt|Hge].
  - destruct (Z.eqb_spec (at_ s i) 47) as [E|E].
    + split_and!; [lia|lia|right; by rewrite Nat.sub_1_r|]. intros. lia.
    + destruct (IH ltac:(lia)) as ([H1 H2] & H3 & H4). split_and!; [lia|lia|done|].
      intros k Hk. destruct (decide (k = i)) as [->|]; [done|]. apply H4. lia.
  - split_and!; [lia|lia|left; lia|]. intros. lia.
Qed.

(** The text and the offsets of an assembled URL. *)
Lemma assemble_spec before url sc :
  bytes_ok url -> scan_ok url sc ->
  let u := assemble before url sc in
  Forall printable (m_string u) /\ at_ (m_string u) (m_schemeEnd u) = 58 /\
  (m_schemeEnd u < m_userStart u <= m_userEnd u /\ m_userEnd u <= m_passwordEnd u <= m_hostEnd u /\
   m_hostEnd u <= m_portEnd u <= m_pathEnd u /\ m_pathEnd u <= m_queryEnd u <= m_fragmentEnd u /\
   m_fragmentEnd u = length (m_string u) /\ m_fragmentEnd u <= 3 * fragmentEnd sc + 1)%nat /\
  is_after_last_slash (m_string u) (m_portEnd u) (m_pathEnd u) (m_pathAfterLastSlash u).
Proof.
  intros Hb H. destruct H. unfold assemble. cbv zeta.
  set (scheme := slice url 0 (schemeEnd sc)).
  assert (Forall printable (map toASCIILower scheme)) as Hs.
  { apply lower_printable, slice_forall. intros i Hi. pose proof (scheme_plain _ (ok_scheme_chars0 i (proj2 Hi))) as Hpl.
    unfold plain, printable in *. lia. }
  assert (length (map toASCIILower scheme) = schemeEnd sc) as Hls.
  { rewrite length_map. unfold scheme, slice. rewrite length_take, drop_0, Nat.sub_0_r.
    destruct (Nat.le_gt_cases (schemeEnd sc) (length url)) as [|Hlt]; [lia|].
    rewrite at_ge in ok_colon0 by lia. done. }
  rewrite Hls. set (p0 := map toASCIILower scheme ++ [58]).
  assert (Forall printable p0) as Hp0 by (apply Forall_app; split; [done|by_eval]).
  assert (length p0 = S (schemeEnd sc)) as Hl0 by (unfold p0; rewrite length_app, Hls; simpl; lia).
  rewrite ok_path0 in *.
  destruct (write_authority_spec url sc p0 (schemeEnd sc) Hp0 ok_plain0 ok_fits0) as ([t Et] & Ho & Hoff).
  set (o := write_authority url sc p0 (schemeEnd sc)) in *.
  assert (forall a b, (b <= fragmentEnd sc)%nat -> Forall char_ok (slice url a b)) as Hok.
  { intros a b Hle. apply slice_forall. intros i Hi. split; [by apply at_byte|]. apply ok_nonzero0. lia. }
  destruct ok_query0 as [Eq Hq].
  destruct (write_path_spec before url sc) as [Hw Hwl]; [apply Hok; lia|].
  set (pt := write_path before url sc) in *.
  destruct (appendEscapingBadChars_spec (slice url (queryStart sc) (queryEnd sc))) as [Hqt Hql]; [apply Hok; lia|].
  set (qt := appendEscapingBadChars _) in *.
  set (ft := if negb (fragmentEnd sc =? queryEnd sc)%nat then
    35 :: escapeAndAppendNonHierarchicalPart (slice url (fragmentStart sc) (fragmentEnd sc)) else []).
  replace (if negb (fragmentEnd sc =? queryEnd sc)%nat then _ else (o_text o ++ pt) ++ qt)
    with (((o_text o ++ pt) ++ qt) ++ ft) by (unfold ft; casif; [done|apply app_nil_r]).
  destruct (escapeNonHierarchical_spec (slice url (fragmentStart sc) (fragmentEnd sc))) as [Hft Hfl]; [apply Hok; lia|].
  assert (Forall printable ft /\ (length ft <= 3 * (fragmentEnd sc - queryEnd sc))%nat) as [Hf1 Hf2].
  { unfold ft. destruct (Nat.eqb_spec (fragmentEnd sc) (queryEnd sc)); cbn [negb]; [split; [done|simpl; lia]|].
    split; [constructor; [by_eval|done]|]. cbn [length].
    pose proof (slice_length url (fragmentStart sc) (fragmentEnd sc)). lia. }
  pose proof (slice_length url (queryStart sc) (queryEnd sc)) as Hsq.
  assert (portEnd (auth sc) <= pathEnd sc)%nat as Hpp by lia.
  assert (userStart (auth sc) <= portEnd (auth sc))%nat as Hup by apply ok_fits0.
  cbn [m_string m_schemeEnd m_userStart m_userEnd m_passwordEnd m_hostEnd m_portEnd m_pathEnd m_queryEnd m_fragmentEnd
    m_pathAfterLastSlash].
  split_and!; try lia.
  - rewrite !Forall_app. by split_and!.
  - rewrite Et. unfold p0. rewrite <- !app_assoc. unfold at_. cbn [app]. by rewrite list_lookup_middle.
  - rewrite length_app. lia.
  - rewrite (length_app _ qt). lia.
  - rewrite (length_app _ ft). lia.
  - rewrite !length_app. destruct (isFile sc) eqn:Efile.
    + specialize (ok_file0 eq_refl). rewrite orb_true_r in Hwl. lia.
    + rewrite orb_false_r in Hwl. destruct (isHTTP sc) eqn:Ehttp; [specialize (ok_http0 eq_refl)|]; lia.
  - destruct (after_last_slash_spec (o_text o ++ pt) (o_portEnd o) (length (o_text o ++ pt))) as (R1 & R2 & R3).
    { rewrite length_app. lia. }
    set (r := after_last_slash _ _ _) in *.
    assert (forall k, (k < length (o_text o ++ pt))%nat ->
      at_ (((o_text o ++ pt) ++ qt) ++ ft) k = at_ (o_text o ++ pt) k) as Hat.
    { intros k Hk. unfold at_. rewrite <- app_assoc, lookup_app_l by done. done. }
    split; [done|]. split.
    + destruct R2 as [|R2]; [by left|]. destruct (decide (r = o_portEnd o)); [by left|]. right.
      rewrite Hat by lia. done.
    + intros k Hk. rewrite Hat by lia. by apply R3.
Qed.

Lemma parse_valid before url orig :
  m_isValid (parse before url orig) = true ->
  exists sc, scan_ok url sc /\ scan_url url = Some sc /\ parse before url orig = assemble before url sc.
Proof.
  unfold parse. destruct (scan_url url) as [sc|] eqn:E; [|done]. intros _. exists sc.
  split; [by apply scan_url_ok|done].
Qed.

(** C26: the offsets of a valid URL are ordered, the scheme ends at a colon,
    the last offset is the length of the text, and the file name starts after
    the last slash of the path. *)
Theorem parse_offsets before url orig :
  bytes_ok url -> m_isValid (parse before url orig) = true ->
  let u := parse before url orig in
  at_ (m_string u) (m_schemeEnd u) = 58 /\
  (0 < m_schemeEnd u < m_userStart u)%nat /\ (m_userStart u <= m_userEnd u <= m_passwordEnd u)%nat /\
  (m_passwordEnd u <= m_hostEnd u <= m_portEnd u)%nat /\ (m_portEnd u <= m_pathEnd u <= m_queryEnd u)%nat /\
  (m_queryEnd u <= m_fragmentEnd u)%nat /\ m_fragmentEnd u = length (m_string u) /\
  is_after_last_slash (m_string u) (m_portEnd u) (m_pathEnd u) (m_pathAfterLastSlash u).
Proof.
  intros Hb Hv. destruct (parse_valid _ _ _ Hv) as (sc & Hok & Esc & ->). cbv zeta.
  destruct (assemble_spec before url sc Hb Hok) as (H1 & H2 & H3 & H4).
  assert (0 < m_schemeEnd (assemble before url sc))%nat.
  { cbn. rewrite length_map. destruct Hok. unfold slice. rewrite length_take, drop_0.
    destruct (Nat.le_gt_cases (schemeEnd sc) (length url)) as [|Hlt]; [lia|].
    rewrite at_ge in ok_colon0 by lia. done. }
  split_and!; try lia; auto.
Qed.

(** C27: whatever the bytes of the input, the text of a valid URL is
    printable ASCII. *)
Theorem parse_printable before url orig :
  bytes_ok url -> m_isValid (parse before url orig) = true ->
  Forall (fun c => 0x20 <= c < 0x7F) (m_string (parse before url orig)).
Proof.
  intros Hb Hv. destruct (parse_valid _ _ _ Hv) as (sc & Hok & _ & ->).
  by destruct (assemble_spec before url sc Hb Hok) as (H & _).
Qed.

(** C28: the text fits the buffer of [3 * fragmentEnd + 1] bytes that the
    parser writes it to. *)
Theorem parse_fits_buffer before url orig sc :
  bytes_ok url -> scan_url url = Some sc ->
  (length (m_string (parse before url orig)) <= 3 * fragmentEnd sc + 1)%nat.
Proof.
  intros Hb Hsc. unfold parse. rewrite Hsc.
  destruct (assemble_spec before url sc Hb (scan_url_ok _ _ Hsc)) as (_ & _ & H & _). lia.
Qed.

(** C37: on a path that begins with a slash, [copyPathRemovingDots] removes
    the dot segments as RFC 3986 says, and none is left. *)
Theorem copyPathRemovingDots_correct before q :
  copyPathRemovingDots before (47 :: q) = 47 :: join (resolve [] (segments q)) /\
  Forall not_dot (segments (tail (copyPathRemovingDots before (47 :: q)))).
Proof.
  assert (segments q <> []) as Hne.
  { destruct q as [|c q]; [done|]. cbn. destruct (c =? 47); [done|]. by destruct (segments q). }
  assert (copyPathRemovingDots before (47 :: q) = 47 :: join (resolve [] (segments q))) as E.
  { cbn [copyPathRemovingDots]. rewrite <- (segments_join q) at 1. change [47] with (rev (text [])).
    apply dots_loop_resolve; [done|apply segments_no_slash|constructor]. }
  split; [done|]. rewrite E. cbn [tail]. rewrite segments_of_join.
  - apply resolve_forall; [by split|constructor|]. apply Forall_forall. intros s _ ?. done.
  - by apply resolve_nonempty.
  - apply resolve_forall; [constructor|constructor|].
    eapply Forall_impl; [|apply segments_no_slash]. by intros s ? ?.
Qed.

(** the shortcut for URLs without "/." and ".." changes nothing: the path
    is written as if its dot segments had been removed. *)
Theorem dot_shortcut_sound before url orig sc :
  scan_url url = Some sc -> hierarchical sc = true ->
  let path := slice url (pathStart sc) (pathEnd sc) in
  write_path before url sc =
  (if (isHTTP sc || isFile sc) && (pathEnd sc =? pathStart sc)%nat then [47] else []) ++
  (if isFile sc && negb (at_ url (pathStart sc) =? 47) then [47] else []) ++
  appendEscapingBadChars (copyPathRemovingDots before path) /\
  m_pathEnd (parse before url orig) =
    (m_portEnd (parse before url orig) + length (write_path before url sc))%nat.
Proof.
  intros Hsc Hh. cbv zeta. pose proof (scan_url_ok _ _ Hsc) as Hok. split.
  - unfold write_path. rewrite Hh. cbn [negb].
    destruct (hasSlashDotOrDotDot url) eqn:E; cbn [negb]; [done|]. do 3 f_equal.
    symmetry. apply copy_shortcut; [done|]. intros i Hi. destruct Hok. apply ok_nonzero0. lia.
  - unfold parse. rewrite Hsc. cbn [assemble m_pathEnd m_portEnd]. rewrite length_app. f_equal.
    symmetry. rewrite write_authority_eq. cbv zeta. by casif.
Qed.

(** C36: parsing the text of canonical components finds these components, the
    path without its dot segments; a path that has none is left alone. *)
Theorem parse_print before p orig :
  canonical p ->
  parse before (print p) orig = canonical_url (undot p) /\
  (Forall not_dot (segments (tail (path p))) -> undot p = p).
Proof. intros Hp. split; [by apply parse_canonical|by apply undot_id]. Qed.

End KURLParseProps.

Module KURLParseWitness.
Import Scan Assemble DotSpec Canonical KURLParseProps.

Definition sample : list Z := str "HTTP://User:pw@Ex.COM:80/a/./b c/../d?q=1#f".

Example parse_sample : m_string (parse 0 sample []) = str "http://User:pw@ex.com/a/d?q=1#f".
Proof. vm_compute. reflexivity. Qed.

Lemma parse_offsets_witness :
  bytes_ok sample /\ m_isValid (parse 0 sample []) = true /\
  (0 < m_schemeEnd (parse 0 sample []) < m_userStart (parse 0 sample []))%nat.
Proof.
  assert (bytes_ok sample) as Hb by by_eval. assert (m_isValid (parse 0 sample []) = true) as Hv by reflexivity.
  split; [exact Hb|]. split; [exact Hv|]. apply (parse_offsets 0 sample [] Hb Hv).
Defined.

Lemma parse_printable_witness :
  bytes_ok sample /\ m_isValid (parse 0 sample []) = true /\
  Forall (fun c => 0x20 <= c < 0x7F) (m_string (parse 0 sample [])).
Proof.
  assert (bytes_ok sample) as Hb by by_eval. assert (m_isValid (parse 0 sample []) = true) as Hv by reflexivity.
  split; [exact Hb|]. split; [exact Hv|]. exact (parse_printable 0 sample [] Hb Hv).
Defined.

Lemma parse_fits_buffer_witness :
  exists sc, bytes_ok sample /\ scan_url sample = Some sc /\
  (length (m_string (parse 0 sample [])) <= 3 * fragmentEnd sc + 1)%nat.
Proof.
  assert (bytes_ok sample) as Hb by by_eval.
  eexists. split; [exact Hb|]. split; [vm_compute; reflexivity|].
  apply (parse_fits_buffer 0 sample [] _ Hb). vm_compute. reflexivity.
Defined.

Definition undotted : list Z := str "ftp://h/a b".

Lemma dot_shortcut_sound_witness :
  exists sc, scan_url undotted = Some sc /\ hierarchical sc = true /\ hasSlashDotOrDotDot undotted = false /\
  m_pathEnd (parse 0 undotted []) = (m_portEnd (parse 0 undotted []) + length (write_path 0 undotted sc))%nat.
Proof.
  eexists. split; [vm_compute; reflexivity|]. split; [reflexivity|]. split; [reflexivity|].
  apply (dot_shortcut_sound 0 undotted []); vm_compute; reflexivity.
Defined.

Definition sample_parts : parts :=
  mkparts (str "https") (str "me") (Some (str "pw")) (str "example.com") (Some (str "8080"))
    (str "/a/../b.html") (Some (str "q=1")) (Some (str "top")).

Lemma sample_canonical : canonical sample_parts.
Proof.
  split; cbn [sample_parts scheme user pass host port path query frag].
  - by_eval.
  - reflexivity.
  - discriminate.
  - by_eval.
  - intros w [= <-]. split; [discriminate|by_eval].
  - split; [discriminate|by_eval].
  - intros d [= <-]. split; [discriminate|]. split; [by_eval|reflexivity].
  - exists (str "a/../b.html"). reflexivity.
  - by_eval.
  - intros q [= <-]. by_eval.
  - intros f [= <-]. by_eval.
  - by_eval.
Qed.

Lemma parse_print_witness :
  canonical sample_parts /\ print sample_parts = str "https://me:pw@example.com:8080/a/../b.html?q=1#top" /\
  parse 0 (print sample_parts) [] = canonical_url (undot sample_parts) /\
  path (undot sample_parts) = str "/b.html".
Proof.
  split; [exact sample_canonical|]. split; [reflexivity|]. split; [|reflexivity].
  apply (parse_print 0 sample_parts [] sample_canonical).
Defined.

(** "ws:" has no second slash, and the empty authority starts two bytes back:
    the path takes the colon and the last letter of the scheme with it. *)
Example ws_without_slashes : m_string (parse 0 (str "ws:") []) = str "ws:s:".
Proof. vm_compute. reflexivity. Qed.

(** A control character that is dropped with the escapes hides a dot segment
    from [copyPathRemovingDots]. *)
Example hidden_dot_segment : m_string (parse 0 (str "http://h/a/." ++ [9] ++ str "./b/./c") []) = str "http://h/a/../b/c".
Proof. vm_compute. reflexivity. Qed.

(** The scheme comparison of the scanner is case-sensitive. *)
Example scheme_case :
  m_string (parse 0 (str "http:foo") []) = str "http://foo/" /\
  m_string (parse 0 (str "HTTP:foo") []) = str "http:foo".
Proof. vm_compute. split; reflexivity. Qed.

(** A file path that does not begin with a slash. *)
Example file_dotdot : m_string (parse 0 (str "file://a/../../b") []) = str "file:///../b".
Proof. vm_compute. reflexivity. Qed.

End KURLParseWitness.
