(* ===== verification/KURL.v ===== *)
(** * URLs: accessors, setters and resolution (WebCore/platform/KURL.cpp)

    The operations on a parsed [KURL]: the component accessors, the setters,
    which rebuild the text and parse it again, the resolution of a relative
    reference ([init]), the encoding of host names, and the questions asked
    about URLs (ports, schemes, equality).  The theorems compare them with the
    record of components of [KURLParse.Canonical] and with RFC 3986. *)
From S2P Require Import Prelude UTF8 WString KURLParse.
Import KURLParse.Class KURLParse.Scan KURLParse.Assemble.

(** ** Accessors *)
Module Access.

(** [s.left(n)] and [s.substring(n)]. *)
Definition left (s : list Z) (n : nat) : list Z := Impl.substring s 0 n.
Definition from (s : list Z) (n : nat) : list Z := Impl.substring s n (length s).

Definition hostStart (u : KURL) : nat :=
  if (m_passwordEnd u =? m_userStart u)%nat then m_passwordEnd u else S (m_passwordEnd u).

Definition hasPath (u : KURL) : bool := negb (m_pathEnd u =? m_portEnd u)%nat.

(** [reverseFind] returning [notFound] wraps to 0 when it is incremented. *)
Definition lastPathComponent (u : KURL) : option (list Z) :=
  if negb (hasPath u) then None
  else
    let e := (m_pathEnd u - 1)%nat in
    let e := if at_ (m_string u) e =? 47 then (e - 1)%nat else e in
    match Impl.reverseFind_char (m_string u) 47 e with
    | Some start =>
        if (start <? m_portEnd u)%nat then None
        else Some (Impl.substring (m_string u) (S start) (e - S start + 1))
    | None => Some (Impl.substring (m_string u) 0 (e + 1))
    end.

Definition protocol (u : KURL) : list Z := left (m_string u) (m_schemeEnd u).

Definition host (u : KURL) : list Z := Impl.substring (m_string u) (hostStart u) (m_hostEnd u - hostStart u).

Definition maximumValidPortNumber : Z := 0xFFFE.
Definition invalidPortNumber : Z := 0xFFFF.

Definition port (ws : Z -> bool) (u : KURL) : Z :=
  if (m_hostEnd u =? m_portEnd u)%nat || (S (m_hostEnd u) =? m_portEnd u)%nat then 0
  else
    let '(number, ok) :=
      Str.charactersToUIntStrict ws
        (Impl.substring (m_string u) (S (m_hostEnd u)) (m_portEnd u - m_hostEnd u - 1)) in
    if negb ok || (maximumValidPortNumber <? number)%Z then invalidPortNumber else number.

Definition fragmentIdentifier (u : KURL) : option (list Z) :=
  if (m_fragmentEnd u =? m_queryEnd u)%nat then None
  else Some (Impl.substring (m_string u) (S (m_queryEnd u)) (m_fragmentEnd u - S (m_queryEnd u))).

Definition hasFragmentIdentifier (u : KURL) : bool := negb (m_fragmentEnd u =? m_queryEnd u)%nat.

Definition baseAsString (u : KURL) : list Z := left (m_string u) (m_pathAfterLastSlash u).

Definition query (u : KURL) : option (list Z) :=
  if (m_queryEnd u =? m_pathEnd u)%nat then None
  else Some (Impl.substring (m_string u) (S (m_pathEnd u)) (m_queryEnd u - S (m_pathEnd u))).

Definition path (u : KURL) : list Z := Impl.substring (m_string u) (m_portEnd u) (m_pathEnd u - m_portEnd u).

Definition isSchemeCharacterMatchIgnoringCase (character schemeCharacter : Z) : bool :=
  Z.lor character 0x20 =? schemeCharacter.

(** The loop of [KURL::protocolIs]; the argument has lower-case characters. *)
Fixpoint scheme_matches (scheme p : list Z) : bool :=
  match scheme, p with
  | [], [] => true
  | c :: s, d :: p => isSchemeCharacterMatchIgnoringCase c d && scheme_matches s p
  | _, _ => false
  end.
Definition protocolIs (u : KURL) (p : list Z) : bool :=
  if negb (m_isValid u) then false else scheme_matches (take (m_schemeEnd u) (m_string u)) p.

(** The free function on a text. *)
Definition protocolIs_text (url p : list Z) : bool := letters_at url 0 p && (at_ url (length p) =? 58).
Definition protocolIsJavaScript (url : list Z) : bool := protocolIs_text url (str "javascript").

Definition isHierarchical (u : KURL) : bool :=
  if negb (m_isValid u) then false else at_ (m_string u) (S (m_schemeEnd u)) =? 47.

Definition isLocalFile (u : KURL) : bool := protocolIs u (str "file").

Definition isValidProtocol (p : list Z) : bool :=
  match p with
  | [] => false
  | c :: p' => isSchemeFirstChar c && forallb isSchemeChar p'
  end.

(** ** Comparisons *)

Definition equalIgnoringFragmentIdentifier (a b : KURL) : bool :=
  if negb (m_queryEnd a =? m_queryEnd b)%nat then false
  else forallb (fun i => at_ (m_string a) i =? at_ (m_string b) i) (seq 0 (m_queryEnd a)).

Definition protocolHostAndPortAreEqual (ws : Z -> bool) (a b : KURL) : bool :=
  if negb (m_schemeEnd a =? m_schemeEnd b)%nat then false
  else
    let hostLengthA := (m_hostEnd a - hostStart a)%nat in
    let hostLengthB := (m_hostEnd b - hostStart b)%nat in
    if negb (hostLengthA =? hostLengthB)%nat then false
    else if negb (forallb (fun i => at_ (m_string a) i =? at_ (m_string b) i) (seq 0 (m_schemeEnd a))) then false
    else if negb (forallb (fun i => at_ (m_string a) (hostStart a + i) =? at_ (m_string b) (hostStart b + i))
                    (seq 0 hostLengthA)) then false
    else port ws a =? port ws b.

(** ** Ports *)

(** The default ports, the keys compared without case. *)
Definition defaultPorts : list (list Z * Z) :=
  [(str "http", 80); (str "https", 443); (str "ftp", 21); (str "ftps", 990)].

(** [HashMap::get] gives 0 for a missing key. *)
Definition defaultPorts_get (protocol : list Z) : Z :=
  match List.find (fun e => bool_decide (map toASCIILower (fst e) = map toASCIILower protocol)) defaultPorts with
  | Some e => snd e
  | None => 0
  end.

Definition isDefaultPortForProtocol (port : Z) (protocol : list Z) : bool :=
  match protocol with [] => false | _ => defaultPorts_get protocol =? port end.

Definition blockedPortList : list Z :=
  [1; 7; 9; 11; 13; 15; 17; 19; 20; 21; 22; 23; 25; 37; 42; 43; 53; 77; 79; 87; 95; 101; 102; 103; 104; 109;
   110; 111; 113; 115; 117; 119; 123; 135; 139; 143; 179; 389; 465; 512; 513; 514; 515; 526; 530; 531; 532;
   540; 556; 563; 587; 601; 636; 993; 995; 2049; 3659; 4045; 6000; 6665; 6666; 6667; 6668; 6669;
   invalidPortNumber].

(** [std::lower_bound] on [first, first + len); [std::binary_search]. *)
Fixpoint lower_bound (fuel : nat) (l : list Z) (value : Z) (first len : nat) : nat :=
  match fuel with
  | O => first
  | S fuel' =>
      if (len =? 0)%nat then first
      else
        let half := (len / 2)%nat in
        let middle := (first + half)%nat in
        if (at_ l middle <? value)%Z then lower_bound fuel' l value (S middle) (len - half - 1)
        else lower_bound fuel' l value first half
  end.
Definition binary_search (l : list Z) (value : Z) : bool :=
  let i := lower_bound (S (length l)) l value 0 (length l) in
  negb (i =? length l)%nat && negb (value <? at_ l i)%Z.

Definition portAllowed (ws : Z -> bool) (url : KURL) : bool :=
  let port := port ws url in
  if port =? 0 then true
  else if negb (binary_search blockedPortList port) then true
  else if ((port =? 21) || (port =? 22)) && protocolIs url (str "ftp") then true
  else if protocolIs url (str "file") then true
  else false.

Definition mimeTypeFromDataURL (url : list Z) : list Z :=
  let index := match Impl.find_char url 59 0 with Some i => Some i | None => Impl.find_char url 44 0 end in
  match index with
  | Some index => if (5 <? index)%nat then Impl.substring url 5 (index - 5) else str "text/plain"
  | None => []
  end.

End Access.

(** ** Host names inside a text *)
Module HostNames.
Import Access.

(** [findFirstOf(s, sLen, startPos, toFind)], [None] for -1. *)
Definition findFirstOf (s : list Z) (startPos : nat) (toFind : list Z) : option nat :=
  let n := span_len (fun c => negb (bool_decide (c ∈ toFind))) (drop startPos s) in
  if (startPos + n <? length s)%nat then Some (startPos + n)%nat else None.

(** The loop over a quoted string, from [p]: the position after the closing
    quote, [None] when the text ends first. *)
Fixpoint skip_quoted (fuel : nat) (s : list Z) (p : nat) : option nat :=
  match fuel with
  | O => None
  | S fuel' =>
      match findFirstOf s p [34; 92] with
      | None => None
      | Some i =>
          if at_ s i =? 34 then Some (S i)
          else if (S i =? length s)%nat then None
          else skip_quoted fuel' s (S (S i))
      end
  end.

(** The ranges of the host names of a mailto: URL.  Every round moves [p]
    forward, so the length of the text is fuel enough. *)
Fixpoint mailto_loop (fuel : nat) (s : list Z) (p : nat) : list (nat * nat) :=
  match fuel with
  | O => []
  | S fuel' =>
      match findFirstOf s p [34; 64; 63] with
      | None => []
      | Some i =>
          let c := at_ s i in
          if c =? 63 then []
          else if c =? 64 then
            match findFirstOf s (S i) [62; 44; 63] with
            | None => [(S i, length s)]
            | Some e => (S i, e) :: mailto_loop fuel' s e
            end
          else
            match skip_quoted (S (length s)) s (S i) with
            | None => []
            | Some p => mailto_loop fuel' s p
            end
      end
  end.
Definition findHostnamesInMailToURL (s : list Z) : list (nat * nat) := mailto_loop (S (length s)) s 0.

Definition findHostnameInHierarchicalURL (s : list Z) : option (nat * nat) :=
  match findFirstOf s 0 [58] with
  | None => None
  | Some separator =>
      if (length s <=? separator + 2)%nat || negb (at_ s (separator + 1) =? 47)
         || negb (at_ s (separator + 2) =? 47) then None
      else if negb (isSchemeFirstChar (at_ s 0)) then None
      else if negb (forallb (fun i => isSchemeChar (at_ s i)) (seq 1 (separator - 1))) then None
      else
        let authorityStart := (separator + 3)%nat in
        let hostnameEnd :=
          (authorityStart + span_len (fun c => negb ((c =? 58) || isPathSegmentEndChar c && negb (c =? 0))%Z)
             (drop authorityStart s))%nat in
        let hostnameStart :=
          match findFirstOf s authorityStart [64] with
          | Some userInfoTerminator =>
              if (hostnameEnd <? userInfoTerminator)%nat then authorityStart else S userInfoTerminator
          | None => authorityStart
          end in
        Some (hostnameStart, hostnameEnd)
  end.

Section Encode.
(** The platform's IDN conversion: the converted name, [None] for a failure. *)
Context (idnFromUnicode : list Z -> option (list Z)).

Definition hostnameBufferLength : nat := 2048.

(** What is appended for a host name. *)
Definition encodedHostname (name : list Z) : list Z :=
  if (hostnameBufferLength <? length name)%nat || forallb isASCII name then name
  else match idnFromUnicode name with Some r => r | None => [] end.

(** The loop over the ranges of a mailto: URL, and the rest of the text. *)
Fixpoint encode_ranges (s : list Z) (p : nat) (ranges : list (nat * nat)) : list Z :=
  match ranges with
  | [] => drop p s
  | (first, second) :: rest =>
      slice s p first ++ encodedHostname (slice s first second) ++ encode_ranges s second rest
  end.

Definition encodeHostnames (s : list Z) : list Z :=
  if protocolIs_text s (str "mailto") then encode_ranges s 0 (findHostnamesInMailToURL s)
  else
    match findHostnameInHierarchicalURL s with
    | Some (hostStart, hostEnd) =>
        slice s 0 hostStart ++ encodedHostname (slice s hostStart hostEnd) ++ drop hostEnd s
    | None => s
    end.

(** The text encodings: the codecs belong to the platform.  [pathEncoding] is
    UTF-8, [encoding] the encoding of the document, used after the path when
    [otherEncoding] holds (it is valid and not UTF-8). *)
Context (pathEncoding encoding : list Z -> list Z) (otherEncoding : bool).

Definition encodeRelativeString (rel : list Z) : list Z :=
  let s := encodeHostnames rel in
  let pathEnd :=
    if otherEncoding && negb (protocolIs_text rel (str "mailto")) && negb (protocolIs_text rel (str "data"))
       && negb (protocolIsJavaScript rel)
    then findFirstOf s 0 [35; 63] else None in
  match pathEnd with
  | None => pathEncoding s
  | Some pathEnd => pathEncoding (take pathEnd s) ++ encoding (drop pathEnd s)
  end.

End Encode.

Definition substituteBackslashes (string : list Z) : list Z :=
  let questionPos := Impl.find_char string 63 0 in
  let hashPos := Impl.find_char string 35 0 in
  let pathEnd :=
    match hashPos, questionPos with
    | Some h, None => h
    | Some h, Some q => if (h <? q)%nat then h else q
    | None, Some q => q
    | None, None => length string
    end in
  Impl.replace_char 92 47 (left string pathEnd) ++ from string pathEnd.

Definition encodeWithURLEscapeSequences (notEncodedString : list Z) : list Z :=
  (* the lenient conversion fails for an over-long text only: a null CString *)
  let asUTF8 := default [] (Str.utf8 false false notEncodedString) in
  flat_map (fun c => if isBadChar c then appendEscapedChar c else [c]) asUTF8.

End HostNames.

(** ** Setters and resolution *)
Module Update.
Import Access HostNames.

Section Update.
Context (before : Z).

(** [parse(const String&)]: the characters are cut to bytes. *)
Definition parse_string (s : list Z) : KURL := parse before (map u8 s) s.

(** [KURL(ParsedURLString, url)]. *)
Definition parsedURL (url : list Z) : KURL := parse_string url.

Definition setProtocol (u : KURL) (s : list Z) : KURL * bool :=
  let newProtocol :=
    match Impl.find_char s 58 0 with
    | Some separatorPosition => Impl.substring s 0 separatorPosition
    | None => s
    end in
  if negb (isValidProtocol newProtocol) then (u, false)
  else if negb (m_isValid u) then (parse_string (newProtocol ++ [58] ++ m_string u), true)
  else (parse_string (newProtocol ++ from (m_string u) (m_schemeEnd u)), true).

(** The empty position of an authority that is not there. *)
Definition slashSlashNeeded (u : KURL) : bool := (m_userStart u =? S (m_schemeEnd u))%nat.

(** [idn] is the platform's conversion of a 16-bit host name. *)
Definition setHost (idn : list Z -> option (list Z)) (is8Bit : bool) (u : KURL) (s : list Z) : KURL :=
  if negb (m_isValid u) then u
  else
    let s := if is8Bit then s else match idn s with Some r => r | None => s end in
    parse_string (left (m_string u) (hostStart u) ++ (if slashSlashNeeded u then [47; 47] else []) ++ s
                  ++ from (m_string u) (m_hostEnd u)).

Definition removePort (u : KURL) : KURL :=
  if (m_hostEnd u =? m_portEnd u)%nat then u
  else parse_string (left (m_string u) (m_hostEnd u) ++ from (m_string u) (m_portEnd u)).

(** [String::number(i)]. *)
Fixpoint number_loop (fuel : nat) (i : Z) (out : list Z) : list Z :=
  match fuel with
  | O => out
  | S fuel' =>
      let out := (48 + i mod 10) :: out in
      if (i / 10 =? 0)%Z then out else number_loop fuel' (i / 10) out
  end.
Definition number (i : Z) : list Z := number_loop 20 i [].

Definition setPort (u : KURL) (i : Z) : KURL :=
  if negb (m_isValid u) then u
  else
    let colonNeeded := (m_portEnd u =? m_hostEnd u)%nat in
    let portStart := if colonNeeded then m_hostEnd u else S (m_hostEnd u) in
    parse_string (left (m_string u) portStart ++ (if colonNeeded then [58] else []) ++ number i
                  ++ from (m_string u) (m_portEnd u)).

Definition setHostAndPort (u : KURL) (hostAndPort : list Z) : KURL :=
  if negb (m_isValid u) then u
  else
    parse_string (left (m_string u) (hostStart u) ++ (if slashSlashNeeded u then [47; 47] else []) ++ hostAndPort
                  ++ from (m_string u) (m_portEnd u)).

Definition setUser (u : KURL) (user : list Z) : KURL :=
  if negb (m_isValid u) then u
  else
    let e := m_userEnd u in
    let s := m_string u in
    match user with
    | _ :: _ =>
        let t := if slashSlashNeeded u then [47; 47] ++ user else user in
        (* add '@' if there was none before *)
        let t := if (e =? m_hostEnd u)%nat || ((e =? m_passwordEnd u)%nat && negb (at_ s e =? 64))
                 then t ++ [64] else t in
        parse_string (left s (m_userStart u) ++ t ++ from s e)
    | [] =>
        (* remove '@' if there is now neither user nor password *)
        let e := if (m_userEnd u =? m_passwordEnd u)%nat && negb (e =? m_hostEnd u)%nat && (at_ s e =? 64)
                 then S e else e in
        if negb (m_userStart u =? e)%nat then parse_string (left s (m_userStart u) ++ from s e) else u
    end.

Definition setPass (u : KURL) (password : list Z) : KURL :=
  if negb (m_isValid u) then u
  else
    let e := m_passwordEnd u in
    let s := m_string u in
    match password with
    | _ :: _ =>
        let p := [58] ++ password ++ [64] in
        let p := if (m_userEnd u =? S (m_schemeEnd u))%nat then [47; 47] ++ p else p in
        (* eat the existing '@' *)
        let e := if negb (e =? m_hostEnd u)%nat && (at_ s e =? 64) then S e else e in
        parse_string (left s (m_userEnd u) ++ p ++ from s e)
    | [] =>
        let e := if (m_userStart u =? m_userEnd u)%nat && negb (e =? m_hostEnd u)%nat && (at_ s e =? 64)
                 then S e else e in
        if negb (m_userEnd u =? e)%nat then parse_string (left s (m_userEnd u) ++ from s e) else u
    end.

Definition setFragmentIdentifier (u : KURL) (s : list Z) : KURL :=
  if negb (m_isValid u) then u else parse_string (left (m_string u) (m_queryEnd u) ++ [35] ++ s).

Definition removeFragmentIdentifier (u : KURL) : KURL :=
  if negb (m_isValid u) then u else parse_string (left (m_string u) (m_queryEnd u)).

(** [None] is the null string. *)
Definition setQuery (u : KURL) (query : option (list Z)) : KURL :=
  if negb (m_isValid u) then u
  else
    let head := left (m_string u) (m_pathEnd u) in
    let rest := from (m_string u) (m_queryEnd u) in
    match query with
    | None => parse_string (head ++ rest)
    | Some q =>
        if (length q =? 0)%nat || negb (at_ q 0 =? 63) then parse_string (head ++ [63] ++ q ++ rest)
        else parse_string (head ++ q ++ rest)
    end.

Definition setPath (u : KURL) (s : list Z) : KURL :=
  if negb (m_isValid u) then u
  else
    let path := if (length s =? 0)%nat || negb (at_ s 0 =? 47) then 47 :: s else s in
    parse_string (left (m_string u) (m_portEnd u) ++ encodeWithURLEscapeSequences path
                  ++ from (m_string u) (m_pathEnd u)).

Definition strippedForUseAsReferrer (u : KURL) : list Z :=
  m_string (removeFragmentIdentifier (setPass (setUser u []) [])).

(** ** Resolving a reference *)

Definition shouldTrimFromURL (c : Z) : bool := (c <=? 32)%Z.

(** Leading and trailing white space and control characters. *)
Definition trim (str : list Z) : list Z :=
  let str := drop (span_len shouldTrimFromURL str) str in
  rev (drop (span_len shouldTrimFromURL (rev str)) (rev str)).

(** The scheme of a reference: the position of its colon. *)
Definition reference_scheme (str : list Z) : option nat :=
  if isSchemeFirstChar (at_ str 0) then
    let p := skip_while isSchemeChar str 1 in
    if at_ str p =? 58 then Some p else None
  else None.

(** The rewinding of the destination, which keeps the leading slash. *)
Fixpoint rel_back (dst : list Z) : list Z :=
  match dst with
  | c :: ((_ :: _) as dst') => if c =? 47 then dst else rel_back dst'
  | _ => dst
  end.
Definition rel_rewind (dst : list Z) : list Z :=
  rel_back (if (1 <? length dst)%nat then tail dst else dst).

(** The loop over the path of the reference; the destination is the path
    written so far, in reverse, [last] the byte in front of it.  It returns
    the destination and what is left of the reference. *)
Fixpoint rel_loop (last : Z) (rel dst : list Z) : list Z * list Z :=
  match rel with
  | [] => (dst, [])
  | c :: r1 =>
      if (c =? 0) || (c =? 63) || (c =? 35) then (dst, rel)
      else if (c =? 46) && (hd last dst =? 47) then
        if isPathSegmentEndChar (at_ r1 0) then
          match r1 with
          | c1 :: r2 => if c1 =? 47 then rel_loop last r2 dst else rel_loop last r1 dst
          | [] => (dst, [])
          end
        else if (at_ r1 0 =? 46) && isPathSegmentEndChar (at_ r1 1) then
          match r1 with
          | _ :: r2 =>
              match r2 with
              | c2 :: r3 => if c2 =? 47 then rel_loop last r3 (rel_rewind dst)
                            else rel_loop last r2 (rel_rewind dst)
              | [] => (rel_rewind dst, [])
              end
          | [] => (dst, [])
          end
        else rel_loop last r1 (c :: dst)
      else rel_loop last r1 (c :: dst)
  end.

(** [strncpy]: up to the terminator. *)
Definition cstring (s : list Z) : list Z := take (span_len (fun c => negb (c =? 0)) s) s.

(** The text of a relative-path reference: the base up to its path, the base
    path up to its last slash, the path of the reference, the rest. *)
Definition resolve_path (base : KURL) (str : list Z) : list Z :=
  let baseString := map u8 (m_string base) in
  let front := take (m_portEnd base) baseString in
  let baseStringEnd := after_last_slash baseString (m_portEnd base) (m_pathEnd base) in
  let path :=
    if (baseStringEnd =? m_portEnd base)%nat then
      (* no path in base, add a path separator if necessary *)
      if negb (S (m_schemeEnd base) =? m_pathEnd base)%nat
         && negb (at_ str 0 =? 0) && negb (at_ str 0 =? 63) && negb (at_ str 0 =? 35)
      then [47] else []
    else copyPathRemovingDots (List.last front 0) (slice baseString (m_portEnd base) baseStringEnd) in
  let '(dst, rest) := rel_loop (List.last front 0) str (rev path) in
  front ++ rev dst ++ cstring rest.

Context (idn : list Z -> option (list Z)) (pathEncoding encoding : list Z -> list Z) (otherEncoding : bool).

Definition init (base : KURL) (relative : list Z) : KURL :=
  if negb (m_isValid base) && negb (length (m_string base) =? 0)%nat then invalid relative
  else
    let rel :=
      if bool_decide (Impl.find_char relative 92 0 <> None)
         && negb (protocolIsJavaScript relative || protocolIs_text relative (str "data"))
      then substituteBackslashes relative else relative in
    let str := if forallb isASCII rel then rel
               else cstring (encodeRelativeString idn pathEncoding encoding otherEncoding rel) in
    let str := trim str in
    let scheme := reference_scheme str in
    let absolute :=
      match scheme with
      | Some p =>
          negb (negb (at_ str (S p) =? 47)
                && bool_decide (map toASCIILower (protocol base) = map toASCIILower (take p str))
                && isHierarchical base)
      | None => false
      end in
    let str' := match scheme with Some p => drop (S p) str | None => str end in
    let parse t := parse before t relative in
    if absolute then parse str
    else if negb (isHierarchical base) then
      if at_ str' 0 =? 35 then parse (map u8 (left (m_string base) (m_queryEnd base)) ++ str')
      else invalid relative
    else if at_ str' 0 =? 0 then removeFragmentIdentifier base
    else if at_ str' 0 =? 35 then parse (map u8 (left (m_string base) (m_queryEnd base)) ++ str')
    else if at_ str' 0 =? 63 then parse (map u8 (left (m_string base) (m_pathEnd base)) ++ str')
    else if at_ str' 0 =? 47 then
      if at_ str' 1 =? 47 then parse (map u8 (left (m_string base) (S (m_schemeEnd base))) ++ str')
      else parse (map u8 (left (m_string base) (m_portEnd base)) ++ str')
    else parse (resolve_path base str').

End Update.
End Update.

(** * Facts about the operations on canonical URLs *)
Module UpdateFacts.
Import Access HostNames Update WString.StrFacts DotSpec ScanFacts AssembleFacts Canonical CanonicalFacts.

Lemma substring_rest s t r i n : drop i s = t ++ r -> n = length t -> Impl.substring s i n = t.
Proof.
  intros H ->. destruct (Nat.le_gt_cases i (length s)) as [Hle|Hgt].
  - rewrite substring_spec, H by done. apply take_app_length.
  - rewrite drop_ge in H by lia. symmetry in H. apply app_eq_nil in H as [-> ->].
    unfold Impl.substring. destruct (Nat.leb_spec (length s) i); [done|lia].
Qed.

Lemma left_app a b n : n = length a -> left (a ++ b) n = a.
Proof. intros ->. unfold left. by apply (substring_rest _ _ b). Qed.

Lemma from_app a b n : n = length a -> from (a ++ b) n = b.
Proof.
  intros ->. unfold from. rewrite substring_spec by (rewrite length_app; lia).
  rewrite drop_app_length, take_ge; [done|]. rewrite length_app. lia.
Qed.

Lemma bytes_u8 l : bytes_ok l -> map u8 l = l.
Proof. intros H. induction H as [|c l Hc _ IH]; [done|]. cbn. rewrite IH. f_equal. dlia. Qed.

(** The parser on the text of canonical components. *)
Lemma parse_string_print before p : canonical p -> parse_string before (print p) = canonical_url (undot p).
Proof. intros Hp. unfold parse_string. rewrite bytes_u8 by by apply canonical_bytes. by apply parse_canonical. Qed.

(** ** The text around a component *)

Section Canonical.
Context (p : parts) (Hp : canonical p).
#[local] Abbreviation u := (canonical_url p).

Lemma userinfo_length : length (userinfo p) = (length (user p) + length (opt_text 58 (pass p)))%nat.
Proof. apply length_app. Qed.

Lemma hostStart_canonical :
  Access.hostStart u = (length (scheme p) + 3 + length (userinfo p) + length (at_sign p))%nat.
Proof.
  unfold Access.hostStart. cbn [m_passwordEnd m_userStart canonical_url]. unfold at_sign.
  destruct (decide (userinfo p = [])) as [->|E].
  - cbn [length]. rewrite Nat.eqb_refl || rewrite Nat.add_0_r, Nat.eqb_refl. lia.
  - assert (0 < length (userinfo p))%nat by (destruct (userinfo p); [done|simpl; lia]).
    destruct (Nat.eqb_spec (length (scheme p) + 3 + length (userinfo p)) (length (scheme p) + 3)); simpl; lia.
Qed.

Lemma hostEnd_canonical :
  m_hostEnd u = (length (scheme p) + 3 + length (userinfo p) + length (at_sign p) + length (host p))%nat.
Proof. done. Qed.

(** Cutting the text before and after each component. *)
Lemma cut_at a b n : print p = a ++ b -> n = length a -> left (m_string u) n = a /\ from (m_string u) n = b.
Proof. intros E Hn. cbn [m_string canonical_url]. rewrite E. by split; [apply left_app|apply from_app]. Qed.

Ltac cut := apply cut_at; [unfold print, tail_text, userinfo; rewrite <- ?app_assoc; done
  |cbn [m_schemeEnd m_userStart m_userEnd m_passwordEnd m_hostEnd m_portEnd m_pathEnd m_queryEnd canonical_url];
   rewrite ?hostStart_canonical; unfold userinfo; rewrite ?length_app; cbn [length]; lia].

Lemma cut_scheme : left (m_string u) (m_schemeEnd u) = scheme p /\ from (m_string u) (m_schemeEnd u) =
  [58; 47; 47] ++ userinfo p ++ at_sign p ++ host p ++ port_part p ++ tail_text p.
Proof. cut. Qed.

Lemma cut_user_start : left (m_string u) (m_userStart u) = scheme p ++ [58; 47; 47] /\
  from (m_string u) (m_userStart u) = userinfo p ++ at_sign p ++ host p ++ port_part p ++ tail_text p.
Proof. cut. Qed.

Lemma cut_user_end : left (m_string u) (m_userEnd u) = scheme p ++ [58; 47; 47] ++ user p /\
  from (m_string u) (m_userEnd u) = opt_text 58 (pass p) ++ at_sign p ++ host p ++ port_part p ++ tail_text p.
Proof. cut. Qed.

Lemma cut_password_end : left (m_string u) (m_passwordEnd u) = scheme p ++ [58; 47; 47] ++ userinfo p /\
  from (m_string u) (m_passwordEnd u) = at_sign p ++ host p ++ port_part p ++ tail_text p.
Proof. cut. Qed.

Lemma cut_host_start : left (m_string u) (Access.hostStart u) = scheme p ++ [58; 47; 47] ++ userinfo p ++ at_sign p /\
  from (m_string u) (Access.hostStart u) = host p ++ port_part p ++ tail_text p.
Proof. cut. Qed.

Lemma cut_host_end :
  left (m_string u) (m_hostEnd u) = scheme p ++ [58; 47; 47] ++ userinfo p ++ at_sign p ++ host p /\
  from (m_string u) (m_hostEnd u) = port_part p ++ tail_text p.
Proof. cut. Qed.

Lemma cut_port_end :
  left (m_string u) (m_portEnd u) = scheme p ++ [58; 47; 47] ++ userinfo p ++ at_sign p ++ host p ++ port_part p /\
  from (m_string u) (m_portEnd u) = path p ++ query_part p ++ frag_part p.
Proof. cut. Qed.

Lemma cut_path_end :
  left (m_string u) (m_pathEnd u) =
    scheme p ++ [58; 47; 47] ++ userinfo p ++ at_sign p ++ host p ++ port_part p ++ path p /\
  from (m_string u) (m_pathEnd u) = query_part p ++ frag_part p.
Proof. cut. Qed.

Lemma cut_query_end :
  left (m_string u) (m_queryEnd u) =
    scheme p ++ [58; 47; 47] ++ userinfo p ++ at_sign p ++ host p ++ port_part p ++ path p ++ query_part p /\
  from (m_string u) (m_queryEnd u) = frag_part p.
Proof. cut. Qed.

Lemma slashes_there : slashSlashNeeded u = false.
Proof. unfold slashSlashNeeded. cbn. apply Nat.eqb_neq. lia. Qed.

(** ** The components *)

Lemma drop_from n : drop n (m_string u) = from (m_string u) n.
Proof.
  unfold from. destruct (Nat.le_gt_cases n (length (m_string u))).
  - rewrite substring_spec by done. by rewrite take_ge by (rewrite length_drop; lia).
  - rewrite drop_ge by lia. unfold Impl.substring. destruct (Nat.leb_spec (length (m_string u)) n); [done|lia].
Qed.

Lemma component n t r : from (m_string u) n = t ++ r -> forall k, k = length t -> Impl.substring (m_string u) n k = t.
Proof. intros H k Hk. eapply substring_rest; [rewrite drop_from; exact H|done]. Qed.

Lemma next_component n c t r : from (m_string u) n = (c :: t) ++ r ->
  forall k, k = length t -> Impl.substring (m_string u) (S n) k = t.
Proof.
  intros H k Hk. eapply substring_rest; [|done]. rewrite <- drop_from in H. cbn [app] in H.
  by apply drop_next1 in H.
Qed.

Lemma optional_component n o r c :
  from (m_string u) n = opt_text c o ++ r ->
  (if (n + length (opt_text c o) =? n)%nat then None
   else Some (Impl.substring (m_string u) (S n) (n + length (opt_text c o) - S n))) = o.
Proof.
  intros H. destruct o as [t|]; cbn [opt_text length] in *.
  - destruct (Nat.eqb_spec (n + S (length t)) n); [lia|]. f_equal. eapply next_component; [exact H|lia].
  - by rewrite Nat.add_0_r, Nat.eqb_refl.
Qed.

Lemma protocol_canonical : protocol u = scheme p.
Proof. apply cut_scheme. Qed.

Lemma host_canonical : Access.host u = host p.
Proof.
  unfold Access.host. eapply component; [apply cut_host_start|]. rewrite hostStart_canonical, hostEnd_canonical. lia.
Qed.

Lemma path_canonical : Access.path u = path p.
Proof. unfold Access.path. eapply component; [apply cut_port_end|]. cbn. lia. Qed.

Lemma query_canonical : Access.query u = query p.
Proof. unfold Access.query. cbn [m_queryEnd m_pathEnd canonical_url]. eapply optional_component. apply cut_path_end. Qed.

Lemma fragment_canonical : fragmentIdentifier u = frag p.
Proof.
  unfold fragmentIdentifier. cbn [m_fragmentEnd m_queryEnd canonical_url]. eapply (optional_component _ _ []).
  rewrite app_nil_r. apply cut_query_end.
Qed.

(** The value of the digits of a port: 65535 stands for every invalid port. *)
Definition port_value (o : option (list Z)) : Z :=
  match o with
  | None => 0
  | Some d => let v := WString.IntFacts.decimal_from 0 d in if (v <? 0xFFFF)%Z then v else 0xFFFF
  end.

Lemma digits_value ws d :
  d <> [] -> Forall (fun c => isASCIIDigit c = true) d ->
  Str.charactersToUIntStrict ws d =
    let v := WString.IntFacts.decimal_from 0 d in if (v <? 2 ^ 32)%Z then (v, true) else (0, false).
Proof.
  intros Hne Hd. rewrite WString.IntFacts.charactersToUIntStrict_eq. unfold WString.IntFacts.parse_unsigned.
  assert (forall r, span_len isASCIIDigit (d ++ r) = span_len isASCIIDigit r + length d)%nat as Hspan.
  { intros r. induction Hd as [|c d Hc _ IH]; [by rewrite Nat.add_0_r|]. cbn [app span_len length]. rewrite Hc.
    destruct d; [by cbn; lia|]. rewrite IH by done. lia. }
  destruct d as [|c d]; [done|]. pose proof Hd as Hd'. apply Forall_cons_iff in Hd' as [Hc _].
  assert (48 <= c <= 57) as Hr by (unfold isASCIIDigit in Hc; lia).
  assert (isSpaceOrNewline ws c = false) as Hsp.
  { unfold isSpaceOrNewline, isASCIISpace. destruct (Z.leb_spec c 0x7F); lia. }
  assert (drop (span_len (isSpaceOrNewline ws) (c :: d)) (c :: d) = c :: d) as ->
    by (cbn [span_len]; by rewrite Hsp).
  assert ((match c :: d with 43 :: data' => data' | _ => c :: d end) = c :: d) as ->.
  { assert (c = 48 \/ c = 49 \/ c = 50 \/ c = 51 \/ c = 52 \/ c = 53 \/ c = 54 \/ c = 55 \/ c = 56 \/ c = 57) as Hc10
      by lia.
    by destruct Hc10 as [->|[->|[->|[->|[->|[->|[->|[->|[->| ->]]]]]]]]]. }
  specialize (Hspan []). rewrite app_nil_r in Hspan. cbn [span_len Nat.add] in Hspan |- *. rewrite Hspan.
  rewrite take_ge, drop_ge by (simpl; lia). cbn [length forallb Nat.ltb Nat.leb andb].
  by destruct (_ <? 2 ^ 32).
Qed.

Lemma port_canonical ws : Access.port ws u = port_value (port p).
Proof.
  unfold Access.port. cbn [m_hostEnd m_portEnd canonical_url]. unfold port_part.
  set (h := (_ + length (host p))%nat). destruct (port p) as [d|] eqn:E; cbn [opt_text length].
  - destruct (c_port p Hp d E) as (Hne & Hd & _). assert (0 < length d)%nat by (destruct d; [done|simpl; lia]).
    replace (h =? h + S (length d))%nat with false by (symmetry; apply Nat.eqb_neq; lia).
    replace (S h =? h + S (length d))%nat with false by (symmetry; apply Nat.eqb_neq; lia). cbn [orb].
    rewrite (next_component h 58 d (tail_text p)).
    + rewrite digits_value by done. unfold port_value, maximumValidPortNumber, invalidPortNumber. cbv zeta.
      set (v := WString.IntFacts.decimal_from 0 d). zbool; try lia; done.
    + change h with (m_hostEnd u). destruct cut_host_end as [_ ->]. unfold port_part. by rewrite E.
    + lia.
  - by rewrite Nat.add_0_r, Nat.eqb_refl.
Qed.

End Canonical.
(** ** The setters *)

Definition undotted (p : parts) : Prop := Forall not_dot (segments (tail (path p))).

(** The setters on the record of components. *)
Inductive edit :=
  | SetProtocol (s : list Z)
  | SetHost (s : list Z)
  | SetPort (i : Z)
  | RemovePort
  | SetUser (s : list Z)
  | SetPass (s : list Z)
  | SetQuery (q : option (list Z))
  | SetFragment (s : list Z)
  | RemoveFragment.

Definition nonempty_opt (s : list Z) : option (list Z) := match s with [] => None | _ => Some s end.

Definition apply_edit (e : edit) (p : parts) : parts :=
  let '(mkparts sc us pa ho po pt qu fr) := p in
  match e with
  | SetProtocol s => mkparts s us pa ho po pt qu fr
  | SetHost s => mkparts sc us pa s po pt qu fr
  | SetPort i => mkparts sc us pa ho (Some (number i)) pt qu fr
  | RemovePort => mkparts sc us pa ho None pt qu fr
  | SetUser s => mkparts sc s pa ho po pt qu fr
  | SetPass s => mkparts sc us (nonempty_opt s) ho po pt qu fr
  | SetQuery q =>
      mkparts sc us pa ho po pt (match q with Some (63 :: q') => Some q' | _ => q end) fr
  | SetFragment s => mkparts sc us pa ho po pt qu (Some s)
  | RemoveFragment => mkparts sc us pa ho po pt qu None
  end.

(** The setters on the URL. *)
Definition run_edit (before : Z) (e : edit) (u : KURL) : KURL :=
  match e with
  | SetProtocol s => fst (setProtocol before u s)
  | SetHost s => setHost before (fun _ => None) true u s
  | SetPort i => setPort before u i
  | RemovePort => removePort before u
  | SetUser s => setUser before u s
  | SetPass s => setPass before u s
  | SetQuery q => setQuery before u q
  | SetFragment s => setFragmentIdentifier before u s
  | RemoveFragment => removeFragmentIdentifier before u
  end.

Section Edit.
Context (before : Z) (p : parts) (Hp : canonical p) (Hu : undotted p).
#[local] Abbreviation u := (canonical_url p).

Lemma edit_path e : path (apply_edit e p) = path p.
Proof. destruct p, e; reflexivity. Qed.

Lemma parse_edit e t :
  canonical (apply_edit e p) -> t = print (apply_edit e p) -> parse_string before t = canonical_url (apply_edit e p).
Proof.
  intros Hc ->. rewrite parse_string_print by done. f_equal. apply undot_id; [done|]. by rewrite edit_path.
Qed.

Lemma at_from n : at_ (m_string u) n = at_ (from (m_string u) n) 0.
Proof. apply at_rest. apply drop_from. Qed.

Lemma host_first r : (at_ (host p ++ r) 0 =? 64) = false.
Proof.
  destruct (c_host p Hp) as [Hne Hh]. destruct (host p) as [|c h]; [done|].
  apply Forall_cons_iff in Hh as [[Hc _] _]. apply Z.eqb_neq. change (at_ ((c :: h) ++ r) 0) with c.
  by intros ->.
Qed.

Lemma host_nonempty : (0 < length (host p))%nat.
Proof. destruct (c_host p Hp) as [Hne _]. destruct (host p); [done|simpl; lia]. Qed.

(** The character after the password tells whether there is user info. *)
Lemma at_sign_test : (at_ (m_string u) (m_passwordEnd u) =? 64) = negb (bool_decide (userinfo p = [])).
Proof.
  rewrite at_from. destruct (cut_password_end p) as [_ ->]. unfold at_sign.
  destruct (decide (userinfo p = [])) as [E|E].
  - rewrite bool_decide_true by done. apply host_first.
  - by rewrite bool_decide_false.
Qed.

Lemma from_at_sign : userinfo p <> [] ->
  from (m_string u) (S (m_passwordEnd u)) = host p ++ port_part p ++ tail_text p.
Proof.
  intros Hne. rewrite <- drop_from. destruct (cut_password_end p) as [_ E].
  rewrite <- drop_from in E. unfold at_sign in E. rewrite decide_False in E by done. by apply drop_next1 in E.
Qed.

Lemma sound_protocol s : canonical (apply_edit (SetProtocol s) p) -> Forall (fun c => c <> 58) s ->
  run_edit before (SetProtocol s) u = canonical_url (apply_edit (SetProtocol s) p).
Proof.
  intros Hc Hcol. cbn [run_edit]. unfold setProtocol.
  assert (Impl.find_char s 58 0 = None) as ->.
  { pose proof (WString.SearchFacts.find_char_first s 58 0) as H. destruct (Impl.find_char s 58 0) as [i|]; [|done].
    destruct H as (_ & H & _). apply WString.SearchFacts.at_pos_single in H.
    by apply (Forall_lookup_1 _ _ _ _ Hcol) in H. }
  assert (isValidProtocol s = true) as ->.
  { destruct p as [sc us pa ho po pt qu fr]. destruct Hc. cbn in c_scheme0, c_first0.
    destruct s as [|c s]; [done|]. cbn. change (at_ (c :: s) 0) with c in c_first0. rewrite c_first0.
    apply Forall_cons_iff in c_scheme0 as [_ H]. clear - H. induction H as [|x s [Hx _] _ IH]; [done|].
    cbn. by rewrite Hx. }
  change (m_isValid u) with true. cbn [negb fst]. apply parse_edit; [done|].
  destruct (cut_scheme p) as [_ E]. rewrite E. by destruct p.
Qed.

Lemma sound_host s : canonical (apply_edit (SetHost s) p) ->
  run_edit before (SetHost s) u = canonical_url (apply_edit (SetHost s) p).
Proof.
  intros Hc. cbn [run_edit]. unfold setHost. rewrite (slashes_there p). change (m_isValid u) with true. cbn [negb app].
  apply parse_edit; [done|]. destruct (cut_host_start p) as [E _]. destruct (cut_host_end p) as [_ E'].
 rewrite E, E'. destruct p. unfold print. by rewrite <- ?app_assoc.
Qed.

Lemma sound_port i : canonical (apply_edit (SetPort i) p) ->
  run_edit before (SetPort i) u = canonical_url (apply_edit (SetPort i) p).
Proof.
  intros Hc. cbn [run_edit]. unfold setPort. change (m_isValid u) with true. cbn [negb].
  apply parse_edit; [done|]. destruct (cut_port_end p) as [_ E'].
  destruct (cut_host_end p) as [E _]. unfold port_part in E'.
  set (h := m_hostEnd u) in *.
  destruct (port p) as [d|] eqn:Ed.
  - replace (m_portEnd u =? h)%nat with false
      by (symmetry; apply Nat.eqb_neq; unfold h; cbn; unfold port_part; rewrite Ed; simpl; lia).
    cbn [app]. rewrite E'.
    destruct (cut_at p (scheme p ++ [58; 47; 47] ++ userinfo p ++ at_sign p ++ host p ++ [58]) (d ++ tail_text p) (S h))
      as [E2 _].
    { unfold print, port_part. rewrite Ed, <- ?app_assoc. done. }
    { unfold h. cbn. rewrite !length_app. cbn [length]. rewrite !length_app. cbn [length]. lia. }
    rewrite E2. destruct p. unfold print, tail_text. by rewrite <- ?app_assoc.
  - replace (m_portEnd u =? h)%nat with true
      by (symmetry; apply Nat.eqb_eq; unfold h; cbn; unfold port_part; rewrite Ed; simpl; lia).
    rewrite E, E'.
    destruct p. unfold print, tail_text. by rewrite <- ?app_assoc.
Qed.

Lemma sound_removePort : canonical (apply_edit RemovePort p) ->
  run_edit before RemovePort u = canonical_url (apply_edit RemovePort p).
Proof.
  intros Hc. cbn [run_edit]. unfold removePort.
  destruct (Nat.eqb_spec (m_hostEnd u) (m_portEnd u)) as [E|E].
  - f_equal. cbn in E. unfold port_part in E. destruct p as [sc us pa ho po pt qu fr]. cbn in *.
    destruct po; [cbn in E; lia|done].
  - apply parse_edit; [done|]. destruct (cut_host_end p) as [E1 _]. destruct (cut_port_end p) as [_ E2].
    rewrite E1, E2. destruct p. unfold print, tail_text. by rewrite <- ?app_assoc.
Qed.

Lemma sound_query q : canonical (apply_edit (SetQuery q) p) ->
  run_edit before (SetQuery q) u = canonical_url (apply_edit (SetQuery q) p).
Proof.
  intros Hc. cbn [run_edit]. unfold setQuery. change (m_isValid u) with true. cbn [negb].
  destruct (cut_path_end p) as [E1 _]. destruct (cut_query_end p) as [_ E2].
  rewrite E1, E2.
  assert (forall c t, match c :: t with 63 :: q' => Some q' | _ => Some (c :: t) end =
    if c =? 63 then Some t else Some (c :: t)) as Hm.
  { intros c t. destruct (Z.eqb_spec c 63) as [->|Hc']; [done|].
    destruct c as [|c|c]; try done. repeat (destruct c as [c|c|]; try done). }
  destruct q as [[|c q]|]; cbn [length Nat.eqb orb].
  - apply parse_edit; [done|]. destruct p. unfold print, tail_text. by rewrite <- ?app_assoc.
  - change (at_ (c :: q) 0) with c. specialize (Hm c q). destruct (Z.eqb_spec c 63) as [->|Hne]; cbn [negb];
      (apply parse_edit; [done|]); destruct p; unfold print, tail_text, query_part; cbn [apply_edit query];
      rewrite ?Hm; by rewrite <- ?app_assoc.
  - apply parse_edit; [done|]. destruct p. unfold print, tail_text. by rewrite <- ?app_assoc.
Qed.

Lemma sound_fragment s : canonical (apply_edit (SetFragment s) p) ->
  run_edit before (SetFragment s) u = canonical_url (apply_edit (SetFragment s) p).
Proof.
  intros Hc. cbn [run_edit]. unfold setFragmentIdentifier. change (m_isValid u) with true. cbn [negb].
  apply parse_edit; [done|]. destruct (cut_query_end p) as [E _].
  rewrite E.
  destruct p. unfold print, tail_text. by rewrite <- ?app_assoc.
Qed.

Lemma sound_removeFragment : canonical (apply_edit RemoveFragment p) ->
  run_edit before RemoveFragment u = canonical_url (apply_edit RemoveFragment p).
Proof.
  intros Hc. cbn [run_edit]. unfold removeFragmentIdentifier. change (m_isValid u) with true. cbn [negb].
  apply parse_edit; [done|]. destruct (cut_query_end p) as [E _].
  rewrite E.
  destruct p. unfold print, tail_text. rewrite <- ?app_assoc. cbn. by rewrite app_nil_r.
Qed.

Lemma userEnd_test : (m_userEnd u =? m_passwordEnd u)%nat = bool_decide (pass p = None).
Proof.
  cbn [m_userEnd m_passwordEnd canonical_url]. rewrite userinfo_length.
  destruct (pass p) as [w|] eqn:E; cbn [opt_text length].
  - rewrite bool_decide_false by done. apply Nat.eqb_neq. lia.
  - rewrite bool_decide_true by done. apply Nat.eqb_eq. lia.
Qed.

Lemma userStart_test : (m_userStart u =? m_userEnd u)%nat = bool_decide (user p = []).
Proof.
  cbn [m_userEnd m_userStart canonical_url]. destruct (user p) as [|c l]; cbn [length].
  - rewrite bool_decide_true by done. apply Nat.eqb_eq. lia.
  - rewrite bool_decide_false by done. apply Nat.eqb_neq. lia.
Qed.

Lemma passwordEnd_test : (m_passwordEnd u =? m_hostEnd u)%nat = false.
Proof.
  pose proof host_nonempty. apply Nat.eqb_neq. cbn [m_passwordEnd m_hostEnd canonical_url].
  lia.
Qed.

Lemma userEnd_hostEnd_test : (m_userEnd u =? m_hostEnd u)%nat = false.
Proof.
  pose proof host_nonempty. apply Nat.eqb_neq. cbn [m_userEnd m_hostEnd canonical_url].
  rewrite userinfo_length. lia.
Qed.

Lemma userinfo_empty : userinfo p = [] <-> user p = [] /\ pass p = None.
Proof.
  unfold userinfo. split.
  - intros E. apply app_eq_nil in E as [E1 E2]. split; [done|]. by destruct (pass p).
  - by intros [-> ->].
Qed.

Lemma sound_user s : canonical (apply_edit (SetUser s) p) ->
  run_edit before (SetUser s) u = canonical_url (apply_edit (SetUser s) p).
Proof.
  intros Hc. cbn [run_edit]. unfold setUser. change (m_isValid u) with true. cbn [negb].
  rewrite (slashes_there p), userEnd_test, userEnd_hostEnd_test.
  destruct (cut_user_start p) as [E1 _]. destruct (cut_user_end p) as [_ E2].
  destruct s as [|c s]; cbn [orb andb negb].
  - (* removing the user *)
    case_bool_decide as Epass; cbn [andb].
    + assert (m_userEnd u = m_passwordEnd u) as Eu
        by (apply Nat.eqb_eq; rewrite userEnd_test; by rewrite bool_decide_true).
      rewrite Eu, at_sign_test. case_bool_decide as Eui; cbn [negb].
      * apply userinfo_empty in Eui as [Eus _]. rewrite <- Eu, userStart_test, bool_decide_true by done. cbn [negb].
        destruct p as [sc us pa ho po pt qu fr]. cbn in *. by subst.
      * replace (m_userStart u =? S (m_passwordEnd u))%nat with false
          by (symmetry; apply Nat.eqb_neq; cbn; lia). cbn [negb].
        apply parse_edit; [done|]. rewrite E1, from_at_sign by done.
        destruct p as [sc us pa ho po pt qu fr]. cbn in *. subst pa. unfold print, userinfo, at_sign, userinfo, tail_text.
        cbn. by rewrite <- ?app_assoc.
    + rewrite userStart_test. case_bool_decide as Eus; cbn [negb].
      * destruct p as [sc us pa ho po pt qu fr]. cbn in *. by subst.
      * apply parse_edit; [done|]. rewrite E1, E2.
        destruct p as [sc us pa ho po pt qu fr]. cbn in *. destruct pa as [w|]; [|done].
        unfold print, at_sign, userinfo, tail_text. cbn. rewrite decide_False by (by destruct us).
        by rewrite <- ?app_assoc.
  - (* setting a user *)
    apply parse_edit; [done|]. rewrite E1, E2.
    assert (at_sign (apply_edit (SetUser (c :: s)) p) = [64]) as Eat by (by destruct p).
    assert ((if bool_decide (pass p = None) && negb (at_ (m_string u) (m_userEnd u) =? 64)
             then (c :: s) ++ [64] else c :: s) ++ opt_text 58 (pass p) ++ at_sign p
            = (c :: s) ++ opt_text 58 (pass p) ++ [64]) as Et.
    { case_bool_decide as Epass; cbn [andb].
      - assert (m_userEnd u = m_passwordEnd u) as ->
          by (apply Nat.eqb_eq; rewrite userEnd_test; by rewrite bool_decide_true).
        rewrite at_sign_test, Epass. unfold at_sign. case_bool_decide as Eui; cbn [negb].
        + rewrite decide_True by done. cbn [opt_text app]. by rewrite app_nil_r.
        + by rewrite decide_False.
      - unfold at_sign. rewrite decide_False; [done|]. rewrite userinfo_empty. tauto. }
    transitivity ((scheme p ++ [58; 47; 47]) ++
      ((c :: s) ++ opt_text 58 (pass p) ++ [64]) ++ host p ++ port_part p ++ tail_text p).
    + rewrite <- Et. by rewrite <- ?app_assoc.
    + unfold print. rewrite Eat. destruct p. unfold userinfo, tail_text. by rewrite <- ?app_assoc.
Qed.

Lemma sound_pass s : canonical (apply_edit (SetPass s) p) ->
  run_edit before (SetPass s) u = canonical_url (apply_edit (SetPass s) p).
Proof.
  intros Hc. cbn [run_edit]. unfold setPass. change (m_isValid u) with true. cbn [negb].
  rewrite passwordEnd_test, at_sign_test. destruct (cut_user_end p) as [E1 _].
  destruct (cut_password_end p) as [_ E2]. cbn [andb negb].
  assert (forall e, e = (if negb (bool_decide (userinfo p = [])) then S (m_passwordEnd u) else m_passwordEnd u) ->
    from (m_string u) e = host p ++ port_part p ++ tail_text p) as Hfrom.
  { intros e ->. case_bool_decide as Eui; cbn [negb]; [|by apply from_at_sign].
    rewrite E2. unfold at_sign. by rewrite decide_True. }
  destruct s as [|c s].
  - (* removing the password *)
    rewrite userStart_test. destruct (bool_decide_reflect (user p = [])) as [Eus|Eus]; cbn [andb].
    + destruct (pass p) as [w|] eqn:Epass.
      * assert (userinfo p <> []) as Hne by (rewrite userinfo_empty; intros [_ ?]; congruence).
        rewrite (bool_decide_false _ Hne). cbn [negb].
        replace (m_userEnd u =? S (m_passwordEnd u))%nat with false
          by (symmetry; apply Nat.eqb_neq; cbn; rewrite userinfo_length; lia). cbn [negb].
        apply parse_edit; [done|]. rewrite E1, from_at_sign by done.
        destruct p as [sc us pa ho po pt qu fr]. cbn in *. subst us. unfold print, at_sign, userinfo, tail_text.
        cbn. by rewrite <- ?app_assoc.
      * rewrite bool_decide_true by by apply userinfo_empty. cbn [negb].
        rewrite userEnd_test, Epass. cbn. destruct p as [sc us pa ho po pt qu fr]. cbn in *. by subst.
    + rewrite userEnd_test. destruct (bool_decide_reflect (pass p = None)) as [Epass|Epass]; cbn [negb].
      * destruct p as [sc us pa ho po pt qu fr]. cbn in *. by subst.
      * apply parse_edit; [done|]. rewrite E1, E2.
        destruct p as [sc us pa ho po pt qu fr]. cbn in *. unfold print, at_sign, userinfo, tail_text. cbn.
        rewrite app_nil_r. rewrite !decide_False by (done || (intros E; apply app_eq_nil in E as [? _]; done)).
        by rewrite <- ?app_assoc.
  - (* setting a password *)
    replace (m_userEnd u =? S (m_schemeEnd u))%nat with false by (symmetry; apply Nat.eqb_neq; cbn; lia).
    apply parse_edit; [done|]. rewrite E1, (Hfrom _ eq_refl).
    destruct p as [sc us pa ho po pt qu fr]. cbn in *. unfold print, at_sign, userinfo, tail_text. cbn.
    rewrite decide_False by (by destruct us). cbn. rewrite <- ?app_assoc. cbn. by rewrite <- ?app_assoc.
Qed.

End Edit.

(** One setter, on a URL whose text is canonical. *)
Definition edit_ok (e : edit) : Prop :=
  match e with SetProtocol s => Forall (fun c => c <> 58) s | _ => True end.

Lemma run_edit_sound before p e :
  canonical p -> undotted p -> edit_ok e -> canonical (apply_edit e p) ->
  run_edit before e (canonical_url p) = canonical_url (apply_edit e p).
Proof.
  intros Hp Hu He Hc. destruct e.
  - by apply sound_protocol.
  - by apply sound_host.
  - by apply sound_port.
  - by apply sound_removePort.
  - by apply sound_user.
  - by apply sound_pass.
  - by apply sound_query.
  - by apply sound_fragment.
  - by apply sound_removeFragment.
Qed.

End UpdateFacts.

(** ** Resolving a reference, after RFC 3986 section 5.2.2 *)
Module ResolveSpec.
Import DotSpec Canonical.

(** A reference: the components after the scheme; the ones of the authority
    count when [r_net] holds. *)
Record reference := mkref { r_net : bool; r_parts : parts }.

Definition text_of (r : reference) : list Z :=
  let q := r_parts r in
  (if r_net r then [47; 47] ++ userinfo q ++ at_sign q ++ host q ++ port_part q else []) ++ tail_text q.

(** The path up to its last slash. *)
Definition up_to_slash (l : list Z) : list Z :=
  rev (drop (span_len (fun c => negb (c =? 47)) (rev l)) (rev l)).

(** The components of the target, before the dot segments are removed. *)
Definition merged (p : parts) (r : reference) : parts :=
  let q := r_parts r in
  if r_net r then mkparts (scheme p) (user q) (pass q) (host q) (port q) (path q) (query q) (frag q)
  else
    let path' :=
      match path q with
      | [] => path p
      | c :: _ => if c =? 47 then path q else up_to_slash (path p) ++ path q
      end in
    let query' := match path q, query q with [], None => query p | _, o => o end in
    mkparts (scheme p) (user p) (pass p) (host p) (port p) path' query' (frag q).

Definition target (p : parts) (r : reference) : parts := undot (merged p r).

(** References that [init] takes as they are: ASCII, nothing to trim, no
    backslash, no scheme, and no path that looks like an authority. *)
Record ref_ok (r : reference) : Prop := {
  r_ascii : forallb isASCII (text_of r) = true;
  r_trimmed : Update.trim (text_of r) = text_of r;
  r_no_backslash : Forall (fun c => c <> 92) (text_of r);
  r_no_scheme : Update.reference_scheme (text_of r) = None;
  r_path : r_net r = false -> at_ (path (r_parts r)) 0 = 47 -> at_ (path (r_parts r)) 1 <> 47
}.

End ResolveSpec.

Module ResolveFacts.
Import Access HostNames Update WString.StrFacts DotSpec DotFacts ScanFacts AssembleFacts Canonical CanonicalFacts
  UpdateFacts ResolveSpec.

(** ** Segments *)

Lemma join_snoc m x : join (m ++ [x]) = concat (map (fun s => s ++ [47]) m) ++ x.
Proof.
  induction m as [|y m IH]; [done|]. cbn [map concat app]. rewrite <- !app_assoc, <- IH. cbn [app join].
  by destruct (m ++ [x]) eqn:E; [destruct m|].
Qed.

Lemma text_join stack x : text stack ++ x = 47 :: join (rev stack ++ [x]).
Proof. unfold text. by rewrite join_snoc. Qed.

Lemma segments_text init rel :
  Forall no_slash init -> segments (concat (map (fun s => s ++ [47]) init) ++ rel) = init ++ segments rel.
Proof.
  intros H. induction H as [|s init Hs _ IH]; [done|]. cbn [map concat app].
  rewrite <- !app_assoc. cbn [app]. by rewrite segments_app, IH.
Qed.

Lemma resolve_app stack a b : Forall not_dot a -> b <> [] -> resolve stack (a ++ b) = resolve (rev a ++ stack) b.
Proof.
  intros H Hb. revert stack. induction H as [|s a [H1 H2] _ IH]; intros stack; [done|].
  cbn [app resolve rev]. destruct (decide (s = dot)); [done|]. destruct (decide (s = dotdot)); [done|].
  destruct (a ++ b) as [|x l] eqn:E; [by apply app_eq_nil in E as [_ ?]|]. rewrite IH.
  by rewrite <- app_assoc.
Qed.

(** A path is its directory and its last segment. *)
Lemma path_split q : exists init lst, segments q = init ++ [lst] /\ 47 :: q = text (rev init) ++ lst /\
  Forall no_slash init /\ no_slash lst.
Proof.
  pose proof (segments_no_slash q) as Hns. pose proof (segments_nonempty q) as Hne.
  destruct (exists_last Hne) as (init & lst & E). exists init, lst. rewrite E in Hns.
  apply Forall_app in Hns as [H1 H2]. apply Forall_cons_iff in H2 as [H2 _]. split_and!; try done.
  rewrite text_join, rev_involutive, <- E. by rewrite segments_join.
Qed.

Lemma up_to_slash_text stack lst : no_slash lst -> up_to_slash (text stack ++ lst) = text stack.
Proof.
  intros H. unfold up_to_slash. destruct (rev_text stack) as [t E]. rewrite rev_app_distr, E.
  rewrite span_app; [|apply Forall_rev; eapply Forall_impl; [|exact H]; intros c Hc; apply negb_true_iff; by apply Z.eqb_neq|done].
  rewrite drop_app_length, <- E. apply rev_involutive.
Qed.

(** ** The loop over the path of the reference *)

Definition ref_char (c : Z) : Prop := 0 < c /\ c <> 63 /\ c <> 35.

Definition ends_path (rest : list Z) : Prop := at_ rest 0 = 0 \/ at_ rest 0 = 63 \/ at_ rest 0 = 35.

Lemma not_segment_end c : ref_char c -> c <> 47 -> isPathSegmentEndChar c = false.
Proof.
  intros (H & H1 & H2) H3. destruct (isPathSegmentEndChar c) eqn:E; [|done]. apply segment_end in E. lia.
Qed.

Lemma rel_loop_end last rest dst : ends_path rest -> rel_loop last rest dst = (dst, rest).
Proof.
  intros H. destruct rest as [|c rest]; [done|]. unfold ends_path in H. change (at_ (c :: rest) 0) with c in H.
  cbn [rel_loop]. by destruct H as [->|[->| ->]].
Qed.

Lemma rel_loop_copy last s rest dst :
  no_slash s -> Forall ref_char s -> hd last dst <> 47 ->
  rel_loop last (s ++ rest) dst = rel_loop last rest (rev s ++ dst).
Proof.
  intros Hs. revert dst. induction Hs as [|c s Hc _ IH]; intros dst Hr Hd; [done|].
  apply Forall_cons_iff in Hr as [(H0 & H63 & H35) Hr]. cbn [app rel_loop].
  destruct (Z.eqb_spec c 0); [lia|]. destruct (Z.eqb_spec c 63); [done|]. destruct (Z.eqb_spec c 35); [done|].
  cbn [orb]. destruct (Z.eqb_spec (hd last dst) 47) as [|_]; [done|]. rewrite andb_false_r.
  rewrite IH by done. cbn [rev]. by rewrite <- app_assoc.
Qed.

Lemma rel_loop_segment last s rest t :
  no_slash s -> Forall ref_char s -> not_dot s ->
  rest = [] \/ ends_path rest \/ (exists r, rest = 47 :: r) ->
  rel_loop last (s ++ rest) (47 :: t) = rel_loop last rest (rev s ++ 47 :: t).
Proof.
  intros Hs Hr [Hd Hdd] Hrest. destruct s as [|c s]; [done|].
  apply Forall_cons_iff in Hs as [Hc Hs]. apply Forall_cons_iff in Hr as [(H0 & H63 & H35) Hr].
  cbn [app rev]. rewrite <- app_assoc. cbn [app].
  assert (rel_loop last (s ++ rest) (c :: 47 :: t) = rel_loop last rest (rev s ++ c :: 47 :: t)) as Hcopy
    by (by apply rel_loop_copy).
  cbn [rel_loop hd]. destruct (Z.eqb_spec c 0); [lia|]. destruct (Z.eqb_spec c 63); [done|].
  destruct (Z.eqb_spec c 35); [done|]. cbn [orb]. destruct (Z.eqb_spec c 46) as [->|]; cbn [andb Z.eqb Pos.eqb]; [|done].
  destruct s as [|c1 s]; [done|]. cbn [app] in *.
  apply Forall_cons_iff in Hs as [Hc1 Hs]. apply Forall_cons_iff in Hr as [Hr1 Hr].
  change (at_ (c1 :: s ++ rest) 0) with c1. rewrite not_segment_end by done.
  destruct (Z.eqb_spec c1 46) as [->|_]; cbn [andb]; [|done].
  destruct s as [|c2 s]; [done|]. cbn [app] in *.
  apply Forall_cons_iff in Hs as [Hc2 _]. apply Forall_cons_iff in Hr as [Hr2 _].
  change (at_ (46 :: c2 :: s ++ rest) 1) with c2. by rewrite not_segment_end by done.
Qed.

Lemma rel_back_skip s t : no_slash s -> rel_back (rev s ++ 47 :: t) = 47 :: t.
Proof.
  intros H. apply Forall_rev in H. induction H as [|c r Hc _ IH]; [by destruct t|]. cbn [app rel_back].
  destruct (r ++ 47 :: t) as [|c' r'] eqn:E; [by destruct r|]. destruct (Z.eqb_spec c 47); [done|]. exact IH.
Qed.

Lemma rel_rewind_text stack : Forall no_slash stack -> rel_rewind (rev (text stack)) = rev (text (tail stack)).
Proof.
  intros H. destruct stack as [|s stack]; [done|]. apply Forall_cons_iff in H as [Hs H].
  rewrite text_cons. cbn [tail]. unfold rel_rewind. rewrite !rev_app_distr. cbn [rev app length].
  destruct (rev_text stack) as [t E]. rewrite E, length_app. cbn [length].
  replace (1 <? _)%nat with true by (symmetry; apply Nat.ltb_lt; lia). cbn [tail]. by apply rel_back_skip.
Qed.

Lemma rel_loop_slash last rest s stack :
  no_slash s -> rel_loop last (47 :: rest) (rev s ++ rev (text stack)) = rel_loop last rest (rev (text (s :: stack))).
Proof. intros H. rewrite text_cons, !rev_app_distr. cbn [rev app]. by cbn [rel_loop Z.eqb Pos.eqb andb orb]. Qed.

Lemma segment_end_rest rest : ends_path rest -> isPathSegmentEndChar (at_ rest 0) = true.
Proof. by intros [->|[->| ->]]. Qed.

(** A dot segment at the end of the path. *)
Lemma rel_loop_dot_end last rest t : ends_path rest -> rel_loop last (dot ++ rest) (47 :: t) = (47 :: t, rest).
Proof.
  intros H. cbn [dot app rel_loop Z.eqb Pos.eqb orb andb hd]. rewrite (segment_end_rest _ H).
  destruct rest as [|c rest]; [done|]. unfold ends_path in H. change (at_ (c :: rest) 0) with c in H.
  destruct (Z.eqb_spec c 47); [lia|]. by apply rel_loop_end.
Qed.

Lemma rel_loop_dotdot_end last rest stack : Forall no_slash stack -> ends_path rest ->
  rel_loop last (dotdot ++ rest) (rev (text stack)) = (rev (text (tail stack)), rest).
Proof.
  intros Hst H. destruct (rev_text stack) as [t E]. rewrite <- (rel_rewind_text stack) by done. rewrite E.
  cbn [dotdot app rel_loop Z.eqb Pos.eqb orb andb hd].
  change (at_ (46 :: rest) 0) with 46. change (isPathSegmentEndChar 46) with false. cbn [Z.eqb Pos.eqb andb].
  change (at_ (46 :: rest) 1) with (at_ rest 0). rewrite (segment_end_rest _ H).
  destruct rest as [|c rest]; [done|]. unfold ends_path in H. change (at_ (c :: rest) 0) with c in H.
  destruct (Z.eqb_spec c 47); [lia|]. by apply rel_loop_end.
Qed.

Lemma rel_loop_resolve last rest segs stack :
  segs <> [] -> Forall no_slash segs -> Forall ref_char (join segs) -> Forall no_slash stack -> ends_path rest ->
  rel_loop last (join segs ++ rest) (rev (text stack)) = (rev (47 :: join (resolve stack segs)), rest).
Proof.
  intros Hne H. revert stack Hne. induction H as [|s r Hs Hr IH]; intros stack Hne Hch Hst Hrest; [done|]. clear Hne.
  destruct (rev_text stack) as [t Et].
  assert (Forall no_slash (tail stack)) as Htl.
  { destruct stack; [done|]. by apply Forall_cons_iff in Hst as [_ ?]. }
  cbn [resolve]. destruct r as [|s' r].
  - cbn [join] in *. destruct (decide (s = dot)) as [->|Hd].
    { rewrite decide_True by by left. change (rev ([] :: stack)) with (rev stack ++ [[]]).
      rewrite <- text_join, app_nil_r, Et. by apply rel_loop_dot_end. }
    destruct (decide (s = dotdot)) as [->|Hdd].
    { rewrite decide_True by by right. change (rev ([] :: tail stack)) with (rev (tail stack) ++ [[]]).
      rewrite <- text_join, app_nil_r. by apply rel_loop_dotdot_end. }
    rewrite decide_False by tauto. change (rev (s :: stack)) with (rev stack ++ [s]). rewrite <- text_join.
    rewrite Et, rel_loop_segment by (auto; by split). rewrite rel_loop_end by done. by rewrite <- Et, rev_app_distr.
  - replace (join (s :: s' :: r)) with (s ++ 47 :: join (s' :: r)) in * by done. rewrite <- app_assoc. cbn [app].
    apply Forall_app in Hch as [Hch1 Hch2]. apply Forall_cons_iff in Hch2 as [_ Hch2].
    destruct (decide (s = dot)) as [->|Hd].
    { rewrite Et. cbn [app dot rel_loop hd Z.eqb Pos.eqb andb orb].
      change (at_ (47 :: join (s' :: r) ++ rest) 0) with 47. change (isPathSegmentEndChar 47) with true. cbn [Z.eqb Pos.eqb].
      rewrite <- Et. by apply IH. }
    destruct (decide (s = dotdot)) as [->|Hdd].
    { rewrite Et. cbn [app dotdot rel_loop hd Z.eqb Pos.eqb andb orb].
      change (at_ (46 :: 47 :: join (s' :: r) ++ rest) 0) with 46. change (isPathSegmentEndChar 46) with false.
      change (at_ (46 :: 47 :: join (s' :: r) ++ rest) 1) with 47. change (isPathSegmentEndChar 47) with true.
      cbn [Z.eqb Pos.eqb andb]. rewrite <- Et, rel_rewind_text by done. by apply IH. }
    rewrite Et, rel_loop_segment by (eauto; by split). rewrite <- Et, rel_loop_slash by done.
    apply IH; [done|done|by constructor|done].
Qed.

(** ** The base *)

Lemma after_last_slash_skip a s post pe :
  no_slash s -> (pe <= length a)%nat ->
  after_last_slash (a ++ s ++ post) pe (length a + length s) = after_last_slash (a ++ s ++ post) pe (length a).
Proof.
  intros Hs Hpe. assert (forall k, (k <= length s)%nat ->
    after_last_slash (a ++ s ++ post) pe (length a + k) = after_last_slash (a ++ s ++ post) pe (length a)) as H;
    [|by apply H].
  induction k as [|k IH]; intros Hk; [by rewrite Nat.add_0_r|]. rewrite Nat.add_succ_r. cbn [after_last_slash].
  destruct (Nat.ltb_spec pe (S (length a + k))); [|lia].
  assert (at_ (a ++ s ++ post) (length a + k) <> 47) as Hat.
  { unfold at_. rewrite lookup_app_r by lia. replace (length a + k - length a)%nat with k by lia.
    rewrite lookup_app_l by lia. destruct (lookup_lt_is_Some_2 s k ltac:(lia)) as [c Ec]. rewrite Ec. cbn.
    by apply (Forall_lookup_1 _ _ _ _ Hs Ec). }
  destruct (Z.eqb_spec (at_ (a ++ s ++ post) (length a + k)) 47); [done|]. apply IH. lia.
Qed.

Lemma after_last_slash_here a c post pe :
  (pe <= length a)%nat -> after_last_slash ((a ++ [47]) ++ c ++ post) pe (length (a ++ [47])) = length (a ++ [47]).
Proof.
  intros H. rewrite length_app, Nat.add_1_r. cbn [after_last_slash].
  destruct (Nat.ltb_spec pe (S (length a))); [|lia]. rewrite <- app_assoc. unfold at_.
  cbn [app]. by rewrite list_lookup_middle.
Qed.

Section Base.
Context (before : Z) (p : parts) (Hp : canonical p) (Hu : undotted p).
#[local] Abbreviation u := (canonical_url p).

Lemma base_bytes : map u8 (m_string u) = m_string u.
Proof. apply bytes_u8. by apply canonical_bytes. Qed.

Lemma bytes_left n : map u8 (left (m_string u) n) = left (m_string u) n.
Proof.
  apply bytes_u8. unfold left. rewrite substring_spec by lia. rewrite drop_0. apply Forall_take.
  by apply canonical_bytes.
Qed.

Definition front : list Z := scheme p ++ [58; 47; 47] ++ userinfo p ++ at_sign p ++ host p ++ port_part p.

Lemma print_front : print p = front ++ path p ++ query_part p ++ frag_part p.
Proof. unfold print, front, tail_text. by rewrite <- !app_assoc. Qed.

Lemma front_length : length front = m_portEnd u.
Proof. unfold front. cbn. rewrite !length_app. cbn [length]. rewrite !length_app. lia. Qed.

(** The text [resolve_path] builds for a relative path. *)
Lemma resolve_path_canonical rel rest q0 :
  path p = 47 :: q0 -> Forall ref_char rel -> ends_path rest -> Forall (fun c => c <> 0) rest ->
  resolve_path u (rel ++ rest) = front ++ undot_path (up_to_slash (path p) ++ rel) ++ rest.
Proof.
  intros Eq Hrel Hend Hz. unfold resolve_path. rewrite base_bytes. rewrite <- front_length.
  cbn [m_string canonical_url]. rewrite print_front. rewrite take_app_length.
  destruct (path_split q0) as (init & lst & Eseg & Etext & Hinit & Hlst). rewrite <- Eq in Etext.
  assert (Forall not_dot init) as Hnd.
  { unfold undotted in Hu. rewrite Eq in Hu. cbn [tail] in Hu. rewrite Eseg in Hu. by apply Forall_app in Hu as [? _]. }
  rewrite Etext. set (d := text (rev init)).
  destruct (rev_text (rev init)) as [t Et]. assert (d = rev t ++ [47]) as Ed.
  { unfold d. rewrite <- (rev_involutive (text (rev init))), Et. done. }
  assert (after_last_slash (front ++ (d ++ lst) ++ query_part p ++ frag_part p) (length front) (m_pathEnd u)
          = length (front ++ d)) as Hals.
  { assert (m_pathEnd u = length (front ++ d) + length lst)%nat as ->.
    { transitivity (m_portEnd u + length (path p))%nat; [done|]. rewrite <- front_length, Etext, !length_app. unfold d. lia. }
    replace (front ++ (d ++ lst) ++ query_part p ++ frag_part p)
      with ((front ++ d) ++ lst ++ query_part p ++ frag_part p) by by rewrite <- !app_assoc.
    rewrite after_last_slash_skip by (done || rewrite length_app; lia).
    rewrite Ed, (app_assoc front (rev t) [47]). apply after_last_slash_here. rewrite length_app. lia. }
  rewrite Hals. replace (length (front ++ d) =? length front)%nat with false
    by (symmetry; apply Nat.eqb_neq; rewrite length_app, Ed, length_app; simpl; lia).
  assert (slice (front ++ (d ++ lst) ++ query_part p ++ frag_part p) (length front) (length (front ++ d)) = d) as ->.
  { apply (slice_rest _ _ (lst ++ query_part p ++ frag_part p)); [|by rewrite length_app].
    rewrite drop_app_length. by rewrite <- app_assoc. }
  set (last := List.last front 0).
  assert (copyPathRemovingDots last d = d) as ->.
  { unfold d. rewrite <- (app_nil_r (text (rev init))), text_join, rev_involutive, copy_undot. cbn [undot_path].
    rewrite segments_of_join; [|by destruct init|apply Forall_app; split; [done|by repeat constructor]].
    rewrite resolve_id; [done|by destruct init|]. apply Forall_app. split; [done|]. by repeat constructor. }
  rewrite <- (segments_join rel) at 1. change (rev d) with (rev (text (rev init))).
  rewrite rel_loop_resolve; [|apply segments_nonempty|apply segments_no_slash|by rewrite segments_join
    |by apply Forall_rev|done].
  rewrite rev_involutive. unfold cstring. rewrite <- (app_nil_r rest) at 1.
  rewrite span_app; [|eapply Forall_impl; [|exact Hz]; intros c Hc; apply negb_true_iff; by apply Z.eqb_neq|done].
  rewrite take_ge by lia. f_equal. f_equal.
  unfold d. rewrite up_to_slash_text by done. unfold text. cbn [app undot_path]. do 2 f_equal.
  rewrite rev_involutive, segments_text, resolve_app by (done || apply segments_nonempty). by rewrite app_nil_r.
Qed.

End Base.

(** ** The reference *)

Lemma undot_path_first p : (exists q, path p = 47 :: q) -> exists q, path (undot p) = 47 :: q.
Proof. intros [q Eq]. cbn. rewrite Eq. by eexists. Qed.

Lemma canonical_undot p : canonical p -> canonical (undot p).
Proof.
  intros Hp. pose proof (c_path p Hp) as [q Eq]. destruct Hp.
  assert (forall P : Z -> Prop, Forall P (path p) -> Forall P (undot_path (path p))) as Hfor.
  { intros P H. rewrite Eq in *. rewrite <- (copy_undot 0). by apply copyPathRemovingDots_forall. }
  split; try done; cbn [path undot].
  - rewrite Eq. by eexists.
  - by apply Hfor.
  - unfold tail_text in *. apply bytes_ok_app in c_bytes0 as [H1 H2]. apply bytes_ok_app. split; [by apply Hfor|done].
Qed.

Lemma undot_undotted p : canonical p -> undotted (undot p).
Proof.
  intros Hp. destruct (c_path p Hp) as [q Eq]. unfold undotted. cbn [path undot]. rewrite Eq. cbn [undot_path tail].
  rewrite segments_of_join.
  - apply resolve_forall; [by split|constructor|]. apply List.Forall_forall. by intros s _ ?.
  - apply resolve_nonempty, segments_nonempty.
  - apply resolve_forall; [constructor|constructor|].
    eapply Forall_impl; [|apply segments_no_slash]. by intros s ? ?.
Qed.

Lemma undot_undot p : canonical p -> undot (undot p) = undot p.
Proof. intros Hp. apply undot_id; [by apply canonical_undot|by apply undot_undotted]. Qed.

Lemma ends_tail p : ends_path (query_part p ++ frag_part p).
Proof. unfold ends_path, query_part, frag_part. destruct (query p); [right; by left|]. destruct (frag p); [right; by right|by left]. Qed.

(** Texts assembled from the same pieces. *)
Ltac print_eq :=
  unfold print, tail_text, userinfo, at_sign, port_part, query_part, frag_part, userinfo;
  cbn [scheme user pass host port path query frag opt_text]; rewrite <- ?app_assoc;
  cbn [app]; rewrite <- ?app_assoc; cbn [app]; reflexivity.

Lemma parse_canonical' before q s orig : canonical q -> s = print q ->
  parse before s orig = canonical_url (undot q).
Proof. intros Hq ->. by apply parse_canonical. Qed.

Section Init.
Context (before : Z) (idn : list Z -> option (list Z)) (pathEncoding encoding : list Z -> list Z) (other : bool).
Context (p : parts) (r : reference) (Hp : canonical p) (Hu : undotted p) (Hm : canonical (merged p r)) (Hr : ref_ok r).
#[local] Abbreviation u := (canonical_url p).
#[local] Abbreviation t := (text_of r).

Lemma base_hierarchical : isHierarchical u = true.
Proof.
  unfold isHierarchical. change (m_isValid u) with true. cbn [negb]. rewrite at_from.
  assert (from (m_string u) (S (m_schemeEnd u)) = [47; 47] ++ userinfo p ++ at_sign p ++ host p ++ port_part p ++ tail_text p) as ->; [|done].
  rewrite <- drop_from. destruct (cut_scheme p) as [_ E]. rewrite <- drop_from in E. by apply drop_next1 in E.
Qed.

(** Which text is parsed. *)
Lemma init_dispatch :
  init before idn pathEncoding encoding other u t =
  (if at_ t 0 =? 0 then removeFragmentIdentifier before u
   else if at_ t 0 =? 35 then parse before (left (m_string u) (m_queryEnd u) ++ t) t
   else if at_ t 0 =? 63 then parse before (left (m_string u) (m_pathEnd u) ++ t) t
   else if at_ t 0 =? 47 then
     if at_ t 1 =? 47 then parse before (left (m_string u) (S (m_schemeEnd u)) ++ t) t
     else parse before (left (m_string u) (m_portEnd u) ++ t) t
   else parse before (resolve_path u t) t).
Proof.
  destruct Hr. unfold init. change (m_isValid u) with true. cbn [negb andb].
  assert (Impl.find_char t 92 0 = None) as ->.
  { pose proof (WString.SearchFacts.find_char_first t 92 0) as H. destruct (Impl.find_char t 92 0) as [i|]; [|done].
    destruct H as (_ & H & _). apply WString.SearchFacts.at_pos_single in H.
    by apply (Forall_lookup_1 _ _ _ _ r_no_backslash0) in H. }
  rewrite bool_decide_false by (by intros H). cbn [andb].
  rewrite r_ascii0, r_trimmed0, r_no_scheme0, base_hierarchical. cbn [negb].
  by rewrite !(bytes_left p Hp).
Qed.

Lemma parse_merged : parse before (print (merged p r)) t = canonical_url (target p r).
Proof. apply parse_canonical. exact Hm. Qed.

Lemma init_net : r_net r = true -> init before idn pathEncoding encoding other u t = canonical_url (target p r).
Proof.
  intros Hn. rewrite init_dispatch.
  assert (exists t', t = 47 :: 47 :: t') as [t' Et] by (unfold text_of; rewrite Hn; by eexists).
  rewrite Et. change (at_ (47 :: 47 :: t') 0) with 47. change (at_ (47 :: 47 :: t') 1) with 47. cbn [Z.eqb Pos.eqb].
  rewrite <- Et, <- parse_merged. f_equal.
  destruct (cut_at p (scheme p ++ [58]) ([47; 47] ++ userinfo p ++ at_sign p ++ host p ++ port_part p ++ tail_text p)
    (S (m_schemeEnd u))) as [-> _].
  { unfold print. by rewrite <- !app_assoc. }
  { rewrite length_app. cbn. lia. }
  unfold text_of, merged. rewrite Hn. print_eq.
Qed.

Lemma init_empty : r_net r = false -> path (r_parts r) = [] ->
  init before idn pathEncoding encoding other u t = canonical_url (target p r).
Proof.
  intros Hn Hpath. rewrite init_dispatch. unfold text_of, tail_text. rewrite Hn, Hpath. cbn [app].
  assert (target p r = merged p r) as Et.
  { apply undot_id; [done|]. unfold merged. by rewrite Hn, Hpath. }
  unfold query_part, frag_part. destruct (query (r_parts r)) as [q|] eqn:Eq; cbn [opt_text app].
  - change (at_ (63 :: q ++ opt_text 35 (frag (r_parts r))) 0) with 63. cbn [Z.eqb Pos.eqb].
    rewrite parse_canonical' with (q := merged p r); [done|done|].
    destruct (cut_path_end p) as [-> _]. unfold merged. rewrite Hn, Hpath, Eq. print_eq.
  - destruct (frag (r_parts r)) as [f|] eqn:Ef; cbn [opt_text].
    + change (at_ (35 :: f) 0) with 35. cbn [Z.eqb Pos.eqb].
      rewrite parse_canonical' with (q := merged p r); [done|done|].
      destruct (cut_query_end p) as [-> _]. unfold merged. rewrite Hn, Hpath, Eq, Ef. print_eq.
    + cbn. assert (merged p r = apply_edit RemoveFragment p) as Em.
      { unfold merged. rewrite Hn, Hpath, Eq, Ef. by destruct p. }
      rewrite Et, Em. apply sound_removeFragment; [done|done|]. by rewrite <- Em.
Qed.

Lemma init_absolute_path : r_net r = false -> at_ (path (r_parts r)) 0 = 47 ->
  init before idn pathEncoding encoding other u t = canonical_url (target p r).
Proof.
  intros Hn Hpath. rewrite init_dispatch. pose proof (r_path r Hr Hn Hpath) as H1.
  assert (t = tail_text (r_parts r)) as Et by (unfold text_of; by rewrite Hn).
  destruct (path (r_parts r)) as [|c l] eqn:Epath; [done|]. change (at_ (c :: l) 0) with c in Hpath. subst c.
  assert (at_ t 0 = 47) as -> by (rewrite Et; unfold tail_text; by rewrite Epath). cbn [Z.eqb Pos.eqb].
  assert ((at_ t 1 =? 47) = false) as ->.
  { apply Z.eqb_neq. rewrite Et. unfold tail_text. rewrite Epath. destruct l as [|c l]; [|done]. cbn [app].
    unfold query_part, frag_part. by destruct (query (r_parts r)), (frag (r_parts r)). }
  apply parse_canonical'; [done|]. destruct (cut_port_end p) as [-> _]. rewrite Et.
  unfold merged. rewrite Hn, Epath. cbn [Z.eqb Pos.eqb]. unfold tail_text. rewrite Epath. print_eq.
Qed.

Lemma merged_path_chars : Forall (fun c => 0 < c /\ c <> 63 /\ c <> 35) (path (merged p r)).
Proof.
  pose proof (c_path_chars _ Hm) as H. pose proof (c_bytes _ Hm) as Hb. unfold tail_text in Hb.
  apply bytes_ok_app in Hb as [Hb _]. apply List.Forall_forall. intros c Hc.
  apply (proj1 (List.Forall_forall _ _)) with (x := c) in H as (H0 & H63 & H35 & _); [|done].
  apply (proj1 (List.Forall_forall _ _)) with (x := c) in Hb; [|done]. split_and!; [dlia|done|done].
Qed.

Lemma init_relative_path : r_net r = false -> path (r_parts r) <> [] -> at_ (path (r_parts r)) 0 <> 47 ->
  init before idn pathEncoding encoding other u t = canonical_url (target p r).
Proof.
  intros Hn Hne Hpath. rewrite init_dispatch.
  assert (t = path (r_parts r) ++ query_part (r_parts r) ++ frag_part (r_parts r)) as Et
    by (unfold text_of; by rewrite Hn).
  assert (path (merged p r) = up_to_slash (path p) ++ path (r_parts r)) as Emp.
  { unfold merged. rewrite Hn. destruct (path (r_parts r)) as [|c l]; [done|]. cbn [path].
    change (at_ (c :: l) 0) with c in Hpath. by destruct (Z.eqb_spec c 47). }
  pose proof merged_path_chars as Hch. rewrite Emp in Hch. apply Forall_app in Hch as [_ Hch].
  assert (at_ t 0 = at_ (path (r_parts r)) 0) as Eat by (rewrite Et; by destruct (path (r_parts r))).
  assert (ref_char (at_ (path (r_parts r)) 0)) as (C0 & C63 & C35).
  { destruct (path (r_parts r)); [done|]. by apply Forall_cons_iff in Hch as [? _]. }
  rewrite Eat. destruct (Z.eqb_spec (at_ (path (r_parts r)) 0) 0); [lia|].
  destruct (Z.eqb_spec (at_ (path (r_parts r)) 0) 35); [done|].
  destruct (Z.eqb_spec (at_ (path (r_parts r)) 0) 63); [done|].
  destruct (Z.eqb_spec (at_ (path (r_parts r)) 0) 47); [done|].
  unfold target. rewrite <- (undot_undot _ Hm). apply parse_canonical'; [by apply canonical_undot|].
  destruct (c_path p Hp) as [q0 Eq0].
  rewrite Et, (resolve_path_canonical p Hp Hu _ _ q0); [|done|done|apply ends_tail|].
  2:{ assert (query_part (r_parts r) ++ frag_part (r_parts r) = query_part (merged p r) ++ frag_part (merged p r)) as ->.
      { unfold merged. rewrite Hn. destruct (path (r_parts r)); [done|]. done. }
      apply Forall_app. split; unfold query_part, frag_part.
      - destruct (query (merged p r)) as [q|] eqn:Eq; [|constructor]. constructor; [done|].
        eapply Forall_impl; [|apply (c_query _ Hm q Eq)]. by intros c (? & _).
      - destruct (frag (merged p r)) as [f|] eqn:Ef; [|constructor]. constructor; [done|].
        eapply Forall_impl; [|apply (c_frag _ Hm f Ef)]. by intros c (? & _). }
  rewrite <- Emp. unfold front. unfold undot, print, tail_text. cbn [path].
  assert (query (merged p r) = query (r_parts r) /\ frag (merged p r) = frag (r_parts r)) as [Hq Hf].
  { unfold merged. rewrite Hn. destruct (path (r_parts r)); done. }
  assert (scheme (merged p r) = scheme p /\ user (merged p r) = user p /\ pass (merged p r) = pass p /\
    host (merged p r) = host p /\ port (merged p r) = port p) as (H1 & H2 & H3 & H4 & H5)
    by (unfold merged; by rewrite Hn).
  rewrite H1, H2, H3, H4, H5, Hq, Hf. print_eq.
Qed.

Lemma init_sound : init before idn pathEncoding encoding other u t = canonical_url (target p r).
Proof.
  destruct (r_net r) eqn:Hn; [by apply init_net|].
  destruct (path (r_parts r)) as [|c l] eqn:Epath; [by apply init_empty|].
  destruct (decide (at_ (path (r_parts r)) 0 = 47)); [by apply init_absolute_path|].
  apply init_relative_path; [done| |done]. by rewrite Epath.
Qed.

End Init.
End ResolveFacts.

(** ** Ports and host names *)
Module SearchingFacts.
Import Access HostNames WString.StrFacts.

Definition increasing (l : list Z) : Prop := forall i j, (i < j < length l)%nat -> at_ l i < at_ l j.

Lemma lower_bound_spec fuel l v first len :
  increasing l -> (len < fuel)%nat -> (first + len <= length l)%nat ->
  (forall i, (i < first)%nat -> at_ l i < v) ->
  (forall i, (first + len <= i < length l)%nat -> v <= at_ l i) ->
  let r := lower_bound fuel l v first len in
  (first <= r <= first + len)%nat /\ (forall i, (i < r)%nat -> at_ l i < v) /\
  (forall i, (r <= i < length l)%nat -> v <= at_ l i).
Proof.
  intros Hinc. revert first len. induction fuel as [|fuel IH]; intros first len Hf Hb Hlo Hhi; [lia|].
  cbn [lower_bound]. destruct (Nat.eqb_spec len 0) as [->|Hne].
  { split_and!; [lia|lia|done|]. intros i Hi. apply Hhi. lia. }
  pose proof (Nat.div_lt len 2 ltac:(lia) ltac:(lia)) as Hhalf. set (half := (len / 2)%nat) in *.
  destruct (Z.ltb_spec (at_ l (first + half)) v) as [Hlt|Hge].
  - destruct (IH (S (first + half)) (len - half - 1)%nat) as (R1 & R2 & R3); try lia.
    + intros i Hi. destruct (decide (i = first + half)%nat) as [->|]; [done|].
      pose proof (Hinc i (first + half)%nat ltac:(lia)). lia.
    + intros i Hi. apply Hhi. lia.
    + split_and!; auto; lia.
  - destruct (IH first half) as (R1 & R2 & R3); try lia; [done| |split_and!; auto; lia].
    intros i Hi. destruct (decide (i = first + half)%nat) as [->|]; [done|].
    pose proof (Hinc (first + half)%nat i ltac:(lia)). lia.
Qed.

Lemma binary_search_spec l v : increasing l -> binary_search l v = bool_decide (v ∈ l).
Proof.
  intros Hinc. unfold binary_search.
  destruct (lower_bound_spec (S (length l)) l v 0 (length l)) as (R1 & R2 & R3); try done; try lia.
  set (r := lower_bound _ _ _ _ _) in *. destruct (Nat.eqb_spec r (length l)) as [Er|Er]; cbn [negb andb].
  - symmetry. apply bool_decide_false. intros H. apply list_elem_of_lookup in H as [i Hi].
    pose proof (lookup_lt_Some _ _ _ Hi). rewrite (at_lt l i) in Hi by done. injection Hi as Hi.
    specialize (R2 i ltac:(lia)). lia.
  - specialize (R3 r ltac:(lia)) as Hr. destruct (Z.ltb_spec v (at_ l r)) as [Hlt|Hge]; cbn [negb].
    + symmetry. apply bool_decide_false. intros H. apply list_elem_of_lookup in H as [i Hi].
      pose proof (lookup_lt_Some _ _ _ Hi). rewrite (at_lt l i) in Hi by done. injection Hi as Hi.
      destruct (Nat.lt_ge_cases i r) as [Hir|Hir]; [specialize (R2 i Hir); lia|].
      destruct (decide (i = r)) as [->|]; [lia|]. pose proof (Hinc r i ltac:(lia)). lia.
    + symmetry. apply bool_decide_true. replace v with (at_ l r) by lia.
      apply list_elem_of_lookup. exists r. apply at_lt. lia.
Qed.

(** A strictly increasing list, checked on its neighbours. *)
Fixpoint ascending (l : list Z) : bool :=
  match l with x :: ((y :: _) as l') => (x <? y) && ascending l' | _ => true end.

Lemma ascending_increasing l : ascending l = true -> increasing l.
Proof.
  induction l as [|x l IH]; intros H i j Hij; [simpl in Hij; lia|].
  destruct l as [|y l]; [simpl in Hij; lia|]. cbn [ascending] in H. apply andb_true_iff in H as [Hxy H].
  apply Z.ltb_lt in Hxy. specialize (IH H). destruct i as [|i], j as [|j]; try lia.
  - change (at_ (x :: y :: l) 0) with x. change (at_ (x :: y :: l) (S j)) with (at_ (y :: l) j).
    destruct j as [|j]; [done|]. specialize (IH 0%nat (S j) ltac:(simpl in *; lia)).
    change (at_ (y :: l) 0) with y in IH. lia.
  - change (at_ (x :: y :: l) (S i)) with (at_ (y :: l) i). change (at_ (x :: y :: l) (S j)) with (at_ (y :: l) j).
    apply IH. simpl in *. lia.
Qed.

(** ** Host name ranges *)

Lemma findFirstOf_spec s p l i : findFirstOf s p l = Some i -> (p <= i < length s)%nat /\ at_ s i ∈ l.
Proof.
  unfold findFirstOf. set (n := span_len _ _). destruct (Nat.ltb_spec (p + n) (length s)); [|done].
  intros [= <-]. split; [lia|]. assert (drop p s !! n = Some (at_ s (p + n))) as E.
  { rewrite lookup_drop. by apply at_lt. }
  apply span_len_stop in E. apply negb_false_iff in E. by apply bool_decide_eq_true in E.
Qed.

Lemma findFirstOf_none s p l i : findFirstOf s p l = None -> (p <= i < length s)%nat -> at_ s i ∉ l.
Proof.
  unfold findFirstOf. set (n := span_len _ _) in *. destruct (Nat.ltb_spec (p + n) (length s)) as [|Hge]; [done|].
  intros _ Hi Hin. pose proof (ScanFacts.span_at (fun c => negb (bool_decide (c ∈ l))) (drop p s) (i - p)) as E.
  fold n in E. specialize (E ltac:(lia)). cbv beta in E. rewrite ScanFacts.at_drop in E.
  replace (p + (i - p))%nat with i in E by lia. rewrite bool_decide_true in E; done.
Qed.

Lemma skip_quoted_spec fuel s p q : skip_quoted fuel s p = Some q -> (p < q <= length s)%nat.
Proof.
  revert p. induction fuel as [|fuel IH]; intros p; cbn [skip_quoted]; [done|].
  destruct (findFirstOf s p [34; 92]) as [i|] eqn:E; [|done]. apply findFirstOf_spec in E as [Hi _].
  destruct (at_ s i =? 34); [intros [= <-]; lia|]. destruct (S i =? length s)%nat; [done|].
  intros H. apply IH in H. lia.
Qed.

Lemma skip_quoted_fuel fuel s p : (length s < fuel + p)%nat -> forall k, skip_quoted (fuel + k) s p = skip_quoted fuel s p.
Proof.
  revert p. induction fuel as [|fuel IH]; intros p Hf k.
  - cbn [Nat.add]. destruct k as [|k]; [done|]. cbn [skip_quoted].
    destruct (findFirstOf s p [34; 92]) as [i|] eqn:E; [|done]. apply findFirstOf_spec in E as [Hi _]. lia.
  - cbn [Nat.add skip_quoted]. destruct (findFirstOf s p [34; 92]) as [i|] eqn:E; [|done].
    apply findFirstOf_spec in E as [Hi _]. destruct (at_ s i =? 34); [done|].
    destruct (S i =? length s)%nat; [done|]. apply IH. lia.
Qed.

Lemma mailto_fuel fuel s p : (length s < fuel + p)%nat -> forall k, mailto_loop (fuel + k) s p = mailto_loop fuel s p.
Proof.
  revert p. induction fuel as [|fuel IH]; intros p Hf k.
  - cbn [Nat.add]. destruct k as [|k]; [done|]. cbn [mailto_loop].
    destruct (findFirstOf s p [34; 64; 63]) as [i|] eqn:E; [|done]. apply findFirstOf_spec in E as [Hi _]. lia.
  - cbn [Nat.add mailto_loop]. destruct (findFirstOf s p [34; 64; 63]) as [i|] eqn:E; [|done].
    apply findFirstOf_spec in E as [Hi _]. destruct (at_ s i =? 63); [done|]. destruct (at_ s i =? 64).
    + destruct (findFirstOf s (S i) [62; 44; 63]) as [e|] eqn:E; [|done]. apply findFirstOf_spec in E as [He _].
      f_equal. apply IH. lia.
    + destruct (skip_quoted (S (length s)) s (S i)) as [q|] eqn:E; [|done]. apply skip_quoted_spec in E.
      apply IH. lia.
Qed.

(** Ranges in order, each after an '@', none holding a separator. *)
Fixpoint ranges_from (s : list Z) (p : nat) (ranges : list (nat * nat)) : Prop :=
  match ranges with
  | [] => True
  | (a, b) :: rest =>
      (p < a <= b)%nat /\ (b <= length s)%nat /\ at_ s (a - 1) = 64 /\
      Forall (fun c => c <> 62 /\ c <> 44 /\ c <> 63) (Scan.slice s a b) /\ ranges_from s b rest
  end.

Lemma findFirstOf_before s p l e i : findFirstOf s p l = Some e -> (p <= i < e)%nat -> at_ s i ∉ l.
Proof.
  unfold findFirstOf. set (n := span_len _ _) in *. destruct (Nat.ltb_spec (p + n) (length s)) as [|Hge]; [|done].
  intros [= <-] Hi Hin. pose proof (ScanFacts.span_at (fun c => negb (bool_decide (c ∈ l))) (drop p s) (i - p)) as E.
  fold n in E. specialize (E ltac:(lia)). cbv beta in E. rewrite ScanFacts.at_drop in E.
  replace (p + (i - p))%nat with i in E by lia. rewrite bool_decide_true in E; done.
Qed.

Lemma slice_separators s a b :
  (forall i, (a <= i < b)%nat -> at_ s i ∉ [62; 44; 63]) ->
  Forall (fun c => c <> 62 /\ c <> 44 /\ c <> 63) (Scan.slice s a b).
Proof.
  intros H. apply AssembleFacts.slice_forall. intros i Hi. specialize (H i Hi).
  split_and!; intros E; rewrite E in H; apply H; repeat constructor.
Qed.

Lemma mailto_ranges fuel s p q : (q <= p)%nat -> ranges_from s q (mailto_loop fuel s p).
Proof.
  revert p q. induction fuel as [|fuel IH]; intros p q Hq; cbn [mailto_loop]; [done|].
  destruct (findFirstOf s p [34; 64; 63]) as [i|] eqn:E; [|done]. apply findFirstOf_spec in E as [Hi _].
  destruct (at_ s i =? 63); [done|]. destruct (Z.eqb_spec (at_ s i) 64) as [E64|_].
  - destruct (findFirstOf s (S i) [62; 44; 63]) as [e|] eqn:Ee; cbn [ranges_from].
    + pose proof (findFirstOf_spec _ _ _ _ Ee) as [He _]. split_and!; try lia.
      * by rewrite Nat.sub_1_r.
      * apply slice_separators. intros k Hk. by apply (findFirstOf_before _ _ _ _ _ Ee).
      * by apply IH.
    + split_and!; try lia; [by rewrite Nat.sub_1_r|].
      apply slice_separators. intros k Hk. by apply (findFirstOf_none _ _ _ _ Ee).
  - destruct (skip_quoted (S (length s)) s (S i)) as [r|] eqn:E; [|done]. apply skip_quoted_spec in E.
    apply IH. lia.
Qed.

Lemma slice_glue s p a : (p <= a)%nat -> Scan.slice s p a ++ drop a s = drop p s.
Proof.
  intros H. unfold Scan.slice. replace (drop a s) with (drop (a - p) (drop p s)) by (rewrite drop_drop; f_equal; lia).
  apply take_drop.
Qed.

Lemma ascii_slice s a b : forallb isASCII s = true -> forallb isASCII (Scan.slice s a b) = true.
Proof.
  rewrite !forallb_forall. intros H c Hc. apply H. unfold Scan.slice in Hc.
  apply list_elem_of_In in Hc. apply list_elem_of_In.
  rewrite <- (take_drop a s), elem_of_app. right. rewrite <- (take_drop (b - a) (drop a s)), elem_of_app. by left.
Qed.

End SearchingFacts.

(** * Properties *)
Module KURLProps.
Import Access HostNames Update DotSpec Canonical CanonicalFacts UpdateFacts ResolveSpec ResolveFacts SearchingFacts.

(** the accessors of a URL with canonical text return its components:
    nothing for an absent query, fragment or port, 65535 for a port number
    that does not fit. *)
Theorem accessors_canonical (ws : Z -> bool) (p : parts) :
  canonical p ->
  let u := canonical_url p in
  Access.protocol u = scheme p /\ Access.host u = host p /\ Access.port ws u = port_value (port p) /\
  Access.path u = path p /\ Access.query u = query p /\ fragmentIdentifier u = frag p /\
  isHierarchical u = true /\ hasPath u = true.
Proof.
  intros Hp u. split_and!; [apply protocol_canonical|apply host_canonical|by apply port_canonical|apply path_canonical
    |apply query_canonical|apply fragment_canonical|apply base_hierarchical|].
  destruct (c_path p Hp) as [q Eq]. unfold hasPath, u. cbn. rewrite Eq. apply negb_true_iff, Nat.eqb_neq.
  cbn [length]. lia.
Qed.

(** Every setting of the sequence gives canonical components. *)
Fixpoint edits_ok (p : parts) (es : list edit) : Prop :=
  match es with
  | [] => True
  | e :: es => edit_ok e /\ canonical (apply_edit e p) /\ edits_ok (apply_edit e p) es
  end.

(** C18: the setters refine the update of one component: after any sequence of
    settings, the URL, its text and all its offsets, is the one of the updated
    components. *)
Theorem setters_refine (before : Z) (p : parts) (es : list edit) :
  canonical p -> undotted p -> edits_ok p es ->
  fold_left (fun u e => run_edit before e u) es (canonical_url p) =
  canonical_url (fold_left (fun p e => apply_edit e p) es p).
Proof.
  revert p. induction es as [|e es IH]; intros p Hp Hu He; [done|]. destruct He as (He & Hc & He').
  cbn [fold_left]. rewrite run_edit_sound by done. apply IH; [done| |done].
  unfold undotted. by rewrite edit_path.
Qed.

(** C17: [init] resolves a reference against a hierarchical base as RFC 3986
    section 5.2.2 says. *)
Theorem init_resolves before idn pathEncoding encoding other (p : parts) (r : reference) :
  canonical p -> undotted p -> canonical (merged p r) -> ref_ok r ->
  init before idn pathEncoding encoding other (canonical_url p) (text_of r) = canonical_url (target p r).
Proof. intros. by apply init_sound. Qed.

(** a port is allowed when it is not on the list, or is an FTP port of an
    ftp URL, or the URL is a file; the binary search finds every listed port. *)
Theorem portAllowed_exact (ws : Z -> bool) (u : KURL) :
  portAllowed ws u =
    bool_decide (Access.port ws u ∉ blockedPortList) ||
    (bool_decide (Access.port ws u = 21 \/ Access.port ws u = 22) && protocolIs u (str "ftp")) ||
    protocolIs u (str "file").
Proof.
  unfold portAllowed. set (v := Access.port ws u).
  assert (binary_search blockedPortList v = bool_decide (v ∈ blockedPortList)) as ->
    by (apply binary_search_spec, ascending_increasing; reflexivity).
  destruct (Z.eqb_spec v 0) as [->|_]; [by rewrite (bool_decide_true (0 ∉ _)) by by_eval|].
  destruct (bool_decide_reflect (v ∈ blockedPortList)) as [Hin|Hin]; cbn [negb].
  - rewrite (bool_decide_false (v ∉ _)) by (intros H; by apply H). cbn [orb].
    destruct (bool_decide_reflect (v = 21 \/ v = 22)) as [H|H].
    + replace ((v =? 21) || (v =? 22)) with true by lia. cbn [andb]. by destruct (protocolIs u (str "ftp")), (protocolIs u (str "file")).
    + replace ((v =? 21) || (v =? 22)) with false by lia. cbn [andb orb]. by destruct (protocolIs u (str "file")).
  - by rewrite (bool_decide_true (v ∉ _)) by done.
Qed.

(** the search of a mailto: URL terminates within the length of the text
    and returns host names in order, each after an '@' and without a separator;
    with ASCII names the encoding returns the text unchanged. *)
Theorem findHostnames_ordered (idn : list Z -> option (list Z)) (s : list Z) (fuel : nat) :
  (length s < fuel)%nat ->
  mailto_loop fuel s 0 = findHostnamesInMailToURL s /\
  match findHostnamesInMailToURL s with
  | [] => True
  | (a, b) :: rest =>
      (0 < a <= b)%nat /\ (b <= length s)%nat /\ at_ s (a - 1) = 64 /\ ranges_from s b rest
  end /\
  (forallb isASCII s = true -> encodeHostnames idn s = s).
Proof.
  intros Hf. split_and!.
  - unfold findHostnamesInMailToURL. replace fuel with (S (length s) + (fuel - S (length s)))%nat by lia.
    by rewrite mailto_fuel by lia.
  - pose proof (mailto_ranges (S (length s)) s 0 0 ltac:(lia)) as H. unfold findHostnamesInMailToURL.
    destruct (mailto_loop _ s 0) as [|[a b] rest]; [done|]. cbn [ranges_from] in H. tauto.
  - intros Ha. assert (forall a b, encodedHostname idn (Scan.slice s a b) = Scan.slice s a b) as Hname.
    { intros a b. unfold encodedHostname. by rewrite ascii_slice, orb_true_r. }
    unfold encodeHostnames. destruct (protocolIs_text s (str "mailto")).
    + assert (forall p ranges, ranges_from s p ranges -> encode_ranges idn s p ranges = drop p s) as H.
      { intros p ranges. revert p. induction ranges as [|[a b] rest IH]; intros p Hr; [done|].
        cbn [encode_ranges ranges_from] in *. destruct Hr as (H1 & _ & _ & _ & H2).
        rewrite Hname, IH by done. rewrite slice_glue by lia. apply slice_glue. lia. }
      rewrite H; [done|]. by apply mailto_ranges.
    + destruct (findHostnameInHierarchicalURL s) as [[a b]|] eqn:E; [|done]. rewrite Hname.
      assert (a <= b)%nat as Hab.
      { unfold findHostnameInHierarchicalURL in E. destruct (findFirstOf s 0 [58]) as [sep|]; [|done].
        do 3 match type of E with (if ?b then None else _) = _ => destruct b; [done|] end.
        injection E as <- <-. set (e := (_ + span_len _ _)%nat).
        destruct (findFirstOf s (sep + 3) [64]) as [k|] eqn:Ek; [|unfold e; lia].
        destruct (Nat.ltb_spec e k); [unfold e; lia|]. apply findFirstOf_spec in Ek as [Hk H64].
        destruct (decide (k = e)) as [Eq|]; [|lia]. exfalso.
        pose proof (span_len_stop (fun c => negb ((c =? 58) || Class.isPathSegmentEndChar c && negb (c =? 0)))
          (drop (sep + 3) s) (at_ s e)) as Hstop.
        rewrite lookup_drop in Hstop. fold e in Hstop. specialize (Hstop (at_lt s e ltac:(lia))).
        rewrite <- Eq in Hstop. apply list_elem_of_singleton in H64. by rewrite H64 in Hstop. }
      rewrite slice_glue by lia. by rewrite slice_glue by lia.
Qed.

End KURLProps.

Module KURLWitness.
Import Access HostNames Update DotSpec Canonical UpdateFacts ResolveSpec KURLProps.

Definition base : parts :=
  mkparts (str "http") [] None (str "a") None (str "/b/c/d;p") (Some (str "q")) None.

Ltac prove_canonical :=
  split; cbn [base merged r_parts r_net apply_edit scheme user pass host port path query frag];
  [ by_eval | reflexivity | discriminate | by_eval
  | first [discriminate | intros w [= <-]; split; [discriminate|by_eval]]
  | split; [discriminate|by_eval]
  | first [discriminate | intros d [= <-]; split; [discriminate|]; split; [by_eval|reflexivity]]
  | eexists; reflexivity | by_eval
  | first [discriminate | intros q [= <-]; by_eval] | first [discriminate | intros f [= <-]; by_eval] | by_eval ].

Lemma base_canonical : canonical base.
Proof. prove_canonical. Qed.

Lemma base_undotted : undotted base.
Proof. unfold undotted, not_dot. by_eval. Qed.

Lemma accessors_canonical_witness :
  canonical base /\ Access.host (canonical_url base) = str "a" /\ Access.query (canonical_url base) = Some (str "q").
Proof.
  split; [exact base_canonical|].
  pose proof (accessors_canonical (fun _ => false) base base_canonical) as (_ & H1 & _ & _ & H2 & _).
  split; [exact H1|exact H2].
Defined.

Definition sample_edits : list edit :=
  [SetUser (str "me"); SetPass (str "pw"); SetPort 8080; SetUser []; SetPass []; SetQuery None; SetFragment (str "f")].

Lemma setters_refine_witness :
  edits_ok base sample_edits /\
  m_string (fold_left (fun u e => run_edit 0 e u) sample_edits (canonical_url base)) = str "http://a:8080/b/c/d;p#f".
Proof.
  assert (edits_ok base sample_edits) as He.
  { cbn [sample_edits edits_ok edit_ok]. repeat (split; [exact I|split; [prove_canonical|]]). exact I. }
  split; [exact He|].
  pose proof (setters_refine 0 base sample_edits base_canonical base_undotted He) as H.
  rewrite H. vm_compute. reflexivity.
Defined.

Definition dotted_ref : reference :=
  mkref false (mkparts [] [] None [] None (str "../../g") (Some (str "y")) None).

Lemma init_resolves_witness :
  canonical (merged base dotted_ref) /\ text_of dotted_ref = str "../../g?y" /\
  m_string (init 0 (fun _ => None) (fun s => s) (fun s => s) false (canonical_url base) (text_of dotted_ref))
    = str "http://a/g?y".
Proof.
  assert (canonical (merged base dotted_ref)) as Hm by prove_canonical.
  split; [exact Hm|]. split; [reflexivity|].
  assert (ref_ok dotted_ref) as Hr by (split; [reflexivity|reflexivity|by_eval|reflexivity|discriminate]).
  pose proof (init_resolves 0 (fun _ => None) (fun s => s) (fun s => s) false base dotted_ref
    base_canonical base_undotted Hm Hr) as H.
  rewrite H. vm_compute. reflexivity.
Defined.

Lemma findHostnames_ordered_witness :
  (length (str "mailto:a@b,c@d?x") < 40)%nat /\
  findHostnamesInMailToURL (str "mailto:a@b,c@d?x") = [(9, 10); (13, 14)]%nat /\
  mailto_loop 40 (str "mailto:a@b,c@d?x") 0 = findHostnamesInMailToURL (str "mailto:a@b,c@d?x").
Proof.
  assert (length (str "mailto:a@b,c@d?x") < 40)%nat as H by (vm_compute; lia).
  split; [exact H|]. split; [reflexivity|].
  exact (proj1 (findHostnames_ordered (fun _ => None) (str "mailto:a@b,c@d?x") 40 H)).
Defined.

(** With credentials the host name found is the user name. *)
Example hostname_with_password :
  findHostnameInHierarchicalURL (str "http://user:pw@host/") = Some (7, 11)%nat.
Proof. reflexivity. Qed.

(** Without a slash in the text the last path component is the whole text. *)
Example last_component_without_slash :
  lastPathComponent (parse 0 (str "mailto:abc") []) = Some (str "mailto:abc").
Proof. vm_compute. reflexivity. Qed.

End KURLWitness.
