(* ===== verification/TextCodec.v ===== *)
(** * Text codecs (WebCore/platform/text/TextCodecLatin1.cpp,
    TextCodecUTF16.cpp, TextCodec.cpp and wtf/text/ASCIIFastPath.h)

    [FastPath] is the copying of ASCII text by machine words, which the Latin-1
    and UTF-8 decoders share; [Latin1Codec] and [UTF16Codec] are the classes.  A
    source pointer is the list of the bytes still to read together with its
    address, on which the choice between bytes and words depends.  A read behind
    the last byte and a write behind the buffer are [None].

    Theorems: what the Latin-1 decoder makes of any bytes at any address, with
    the one character it gets wrong; that the encoder inverts the table; that the
    UTF-16 decoder does not depend on how its input is cut. *)
From S2P Require Import Prelude UTF8 KURL.
#[local] Open Scope Z_scope.

(** ** wtf/text/ASCIIFastPath.h and TextCodecASCIIFastPath.h *)
Module FastPath.

(** A machine word has four bytes. *)
Definition machineWordAlignmentMask : Z := 3.
Definition isAlignedToMachineWord (pointer : Z) : bool := Z.land pointer machineWordAlignmentMask =? 0.
Definition alignToMachineWord (pointer : Z) : Z := Z.land pointer (Z.lnot machineWordAlignmentMask).

(** The word at a pointer, least significant byte first. *)
Definition load_word (source : list Z) : option Z :=
  match source with
  | b0 :: b1 :: b2 :: b3 :: _ =>
      Some (Z.lor b0 (Z.lor (Z.shiftl b1 8) (Z.lor (Z.shiftl b2 16) (Z.shiftl b3 24))))
  | _ => None
  end.

Definition NonASCIIMask : Z := 0x80808080.
Definition isAllASCII (word : Z) : bool := Z.land word NonASCIIMask =? 0.

(** [while (source < alignedEnd)]: copies words as long as they are ASCII.  The
    units written, what is left of the source, and whether the loop was left
    because of a word that is not ASCII. *)
Fixpoint copy_words (fuel : nat) (source : list Z) (address alignedEnd : Z) : option (list Z * list Z * bool) :=
  if address <? alignedEnd then
    match fuel with
    | O => None
    | S fuel =>
        chunk ← load_word source;
        if isAllASCII chunk then
          '(copied, rest, broke) ← copy_words fuel (drop 4 source) (address + 4) alignedEnd;
          Some (take 4 source ++ copied, rest, broke)
        else Some ([], source, true)
    end
  else Some ([], source, false).
End FastPath.

(** ** TextCodec.cpp *)
Module Codec.

Inductive UnencodableHandling := QuestionMarksForUnencodables | EntitiesForUnencodables | URLEncodedEntitiesForUnencodables.

(** The text [snprintf] leaves in the array of 32 characters, which has room for
    it. *)
Definition getUnencodableReplacement (codePoint : Z) (handling : UnencodableHandling) : list Z :=
  match handling with
  | QuestionMarksForUnencodables => str "?"
  | EntitiesForUnencodables => str "&#" ++ Update.number codePoint ++ str ";"
  | URLEncodedEntitiesForUnencodables => str "%26%23" ++ Update.number codePoint ++ str "%3B"
  end.

(** [U16_IS_LEAD], [U16_IS_TRAIL], [U16_GET_SUPPLEMENTARY] and [U16_NEXT] of
    unicode/UnicodeMacrosFromICU.h. *)
Definition U16_IS_LEAD (c : Z) : bool := Z.land c 0xfffffc00 =? 0xd800.
Definition U16_IS_TRAIL (c : Z) : bool := Z.land c 0xfffffc00 =? 0xdc00.
Definition U16_SURROGATE_OFFSET : Z := Z.shiftl 0xd800 10 + 0xdc00 - 0x10000.
Definition U16_GET_SUPPLEMENTARY (lead trail : Z) : Z := Z.shiftl lead 10 + trail - U16_SURROGATE_OFFSET.
Definition U16_NEXT (c : Z) (s : list Z) : Z * list Z :=
  if U16_IS_LEAD c then
    match s with
    | c2 :: s' => if U16_IS_TRAIL c2 then (U16_GET_SUPPLEMENTARY c c2, s') else (c, s)
    | [] => (c, s)
    end
  else (c, s).
End Codec.

(** ** TextCodecLatin1.cpp *)
Module Latin1Codec.
Import FastPath Codec.

Definition table : list Z :=
  map Z.of_nat (seq 0 0x80) ++
  [0x20AC; 0x0081; 0x201A; 0x0192; 0x201E; 0x2026; 0x2020; 0x2021;
   0x02C6; 0x2030; 0x0160; 0x2039; 0x0152; 0x008D; 0x017D; 0x008F;
   0x0090; 0x2018; 0x2019; 0x201C; 0x201D; 0x2022; 0x2013; 0x2014;
   0x02DC; 0x2122; 0x0161; 0x203A; 0x0153; 0x009D; 0x017E; 0x0178] ++
  map Z.of_nat (seq 0xA0 0x60).

(** The loop [while (source < end)]. *)
Fixpoint decode_loop (fuel : nat) (source : list Z) (address alignedEnd : Z) : option (list Z) :=
  match source with
  | [] => Some []
  | c :: rest =>
      match fuel with
      | O => None
      | S fuel =>
          if isASCII c then
            if isAlignedToMachineWord address then
              '(copied, source', useLookupTable) ← copy_words (length source) source address alignedEnd;
              match source' with
              | [] => Some copied
              | d :: rest' =>
                  out ← decode_loop fuel rest' (address + Z.of_nat (length copied) + 1) alignedEnd;
                  Some (copied ++ (if useLookupTable : bool then at_ table (Z.to_nat d) else d) :: out)
              end
            else out ← decode_loop fuel rest (address + 1) alignedEnd; Some (c :: out)
          else out ← decode_loop fuel rest (address + 1) alignedEnd; Some (at_ table (Z.to_nat c) :: out)
      end
  end.

Definition decode (address : Z) (bytes : list Z) : option (list Z) :=
  decode_loop (length bytes) bytes address (alignToMachineWord (address + Z.of_nat (length bytes))).

(** [for (b = 0x80; b < 0xA0; ++b) if (table[b] == c)]. *)
Fixpoint search_table (n : nat) (b c : Z) : option Z :=
  match n with
  | O => None
  | S n => if at_ table (Z.to_nat b) =? c then Some b else search_table n (b + 1) c
  end.

(** [bytes] has room for [capacity] of them; [result] is what was written. *)
Fixpoint complex_loop (fuel : nat) (handling : UnencodableHandling) (characters : list Z)
    (capacity : nat) (result : list Z) : option (list Z) :=
  match characters with
  | [] => Some result
  | c0 :: characters' =>
      match fuel with
      | O => None
      | S fuel =>
          let '(c, rest) := U16_NEXT c0 characters' in
          let put b := if (length result <? capacity)%nat
                       then complex_loop fuel handling rest capacity (result ++ [b]) else None in
          let b := u8 c in
          if negb (b =? c) || (Z.land c 0xE0 =? 0x80) then
            match search_table 0x20 0x80 c with
            | Some b => put b
            | None =>
                let replacement := getUnencodableReplacement c handling in
                complex_loop fuel handling rest (length result + length replacement + length rest)
                  (result ++ replacement)
            end
          else put b
      end
  end.

Definition encodeComplexWindowsLatin1 (handling : UnencodableHandling) (characters : list Z) : option (list Z) :=
  complex_loop (length characters) handling characters (length characters) [].

Definition encode (handling : UnencodableHandling) (characters : list Z) : option (list Z) :=
  let ored := fold_left Z.lor characters 0 in
  if Z.land ored 0xFF80 =? 0 then Some (map u8 characters)
  else encodeComplexWindowsLatin1 handling characters.
End Latin1Codec.

(** ** TextCodecUTF16.cpp *)
Module UTF16Codec.

Record TextCodecUTF16 := mkCodec {
  m_littleEndian : bool;
  m_haveBufferedByte : bool;
  m_bufferedByte : Z;
}.

(** The constructor leaves [m_bufferedByte] as it is. *)
Definition TextCodecUTF16_new (littleEndian : bool) (garbage : Z) : TextCodecUTF16 :=
  mkCodec littleEndian false garbage.

Definition unit_of (littleEndian : bool) (p0 p1 : Z) : Z :=
  if littleEndian then Z.lor p0 (Z.shiftl p1 8) else Z.lor (Z.shiftl p0 8) p1.

(** [for (i = 0; i < numChars; ++i)]; what is left of the source as well. *)
Fixpoint decode_pairs (littleEndian : bool) (numChars : nat) (p : list Z) : option (list Z * list Z) :=
  match numChars with
  | O => Some ([], p)
  | S numChars =>
      match p with
      | p0 :: p1 :: p' =>
          '(out, rest) ← decode_pairs littleEndian numChars p';
          Some (unit_of littleEndian p0 p1 :: out, rest)
      | _ => None
      end
  end.

Definition decode (t : TextCodecUTF16) (bytes : list Z) : option (TextCodecUTF16 * list Z) :=
  if (length bytes =? 0)%nat then Some (t, []) else
  let numBytes := (length bytes + if m_haveBufferedByte t then 1 else 0)%nat in
  let numChars := (numBytes / 2)%nat in
  '(q, p, numChars) ←
    (if m_haveBufferedByte t then
       p0 ← head bytes;
       if (numChars =? 0)%nat then None else
       Some ([unit_of (m_littleEndian t) (m_bufferedByte t) p0], tail bytes, (numChars - 1)%nat)
     else Some ([], bytes, numChars));
  '(out, p) ← decode_pairs (m_littleEndian t) numChars p;
  if Nat.odd numBytes then
    p0 ← head p; Some (mkCodec (m_littleEndian t) true p0, q ++ out)
  else Some (mkCodec (m_littleEndian t) false (m_bufferedByte t), q ++ out).

Definition encode (t : TextCodecUTF16) (characters : list Z) : list Z :=
  concat (map (fun c => if m_littleEndian t then [u8 c; u8 (Z.shiftr c 8)] else [u8 (Z.shiftr c 8); u8 c]) characters).
End UTF16Codec.

(** ** The fast path *)
Module FastPathFacts.
Import FastPath.

Lemma mask_byte k b : (k = 0 \/ k = 8 \/ k = 16 \/ k = 24) -> is_byte b ->
  (Z.land (Z.shiftl b k) NonASCIIMask =? 0) = isASCII b.
Proof.
  intros Hk Hb. apply eqb_true_iff.
  destruct Hk as [->|[->|[->| ->]]];
    (match goal with |- eqb (Z.land (Z.shiftl b ?k) _ =? 0) _ = _ =>
       apply (range_check 8 (fun b => eqb (Z.land (Z.shiftl b k) NonASCIIMask =? 0) (isASCII b)))
     end; [vm_compute; reflexivity|exact Hb]).
Qed.

Lemma isAllASCII_bytes source w :
  bytes_ok source -> load_word source = Some w -> isAllASCII w = forallb isASCII (take 4 source).
Proof.
  intros Hb. destruct source as [|b0 [|b1 [|b2 [|b3 rest]]]]; try done. intros [= <-].
  rewrite !bytes_ok_cons in Hb. destruct Hb as (? & ? & ? & ? & _).
  unfold isAllASCII. rewrite !Z.land_lor_distr_l.
  cbn [firstn forallb]. rewrite andb_true_r.
  rewrite <- (mask_byte 0 b0), <- (mask_byte 8 b1), <- (mask_byte 16 b2), <- (mask_byte 24 b3) by tauto.
  rewrite Z.shiftl_0_r. apply eq_true_iff_eq. rewrite !andb_true_iff, !Z.eqb_eq, !Z.lor_eq_0_iff. done.
Qed.

(** The alignment of addresses. *)
Lemma aligned_mod a : isAlignedToMachineWord a = (a mod 4 =? 0).
Proof. unfold isAlignedToMachineWord, machineWordAlignmentMask. change 3 with (Z.ones 2). by rewrite Z.land_ones by lia. Qed.

Lemma align_spec a : alignToMachineWord a = a - a mod 4.
Proof.
  unfold alignToMachineWord, machineWordAlignmentMask. change 3 with (Z.ones 2).
  rewrite <- Z.ldiff_land, Z.ldiff_ones_r, Z.shiftr_div_pow2, Z.shiftl_mul_pow2 by lia. dlia.
Qed.

(** [ends address alignedEnd n]: a buffer of [n] bytes at [address] ends in the
    word at [alignedEnd]. *)
Definition ends (address alignedEnd n : Z) : Prop :=
  alignedEnd mod 4 = 0 /\ alignedEnd <= address + n < alignedEnd + 4.

Lemma ends_align a n : ends a (alignToMachineWord (a + n)) n.
Proof. unfold ends. rewrite align_spec. split; dlia. Qed.

(** What the word loop copies, and where it stops. *)
Record copied_words (source copied rest : list Z) (broke : bool) (address alignedEnd : Z) : Prop := {
  cw_split : source = copied ++ rest;
  cw_ascii : Forall (fun c => isASCII c = true) copied;
  cw_words : Z.of_nat (length copied) mod 4 = 0;
  cw_end : if broke then address + Z.of_nat (length copied) < alignedEnd /\ forallb isASCII (take 4 rest) = false
           else address + Z.of_nat (length copied) = alignedEnd;
}.

Lemma copy_words_spec fuel source address alignedEnd :
  bytes_ok source -> ends address alignedEnd (Z.of_nat (length source)) -> address mod 4 = 0 ->
  (length source <= fuel)%nat ->
  exists copied rest broke,
    copy_words fuel source address alignedEnd = Some (copied, rest, broke)
    /\ copied_words source copied rest broke address alignedEnd.
Proof.
  revert source address. induction fuel as [|fuel IH]; intros source address Hb [He1 He2] Ha Hf;
    cbn [copy_words]; (destruct (Z.ltb_spec address alignedEnd) as [Hlt|Hge];
      [|exists [], source, false; split; [done|]; constructor; [done|done|done|cbn; dlia]]).
  { destruct source; [cbn in *; dlia|cbn in Hf; lia]. }
  assert (4 <= Z.of_nat (length source)) as Hlen by dlia.
  destruct source as [|b0 [|b1 [|b2 [|b3 tl]]]]; try (cbn in Hlen; lia).
  destruct (load_word _) as [w|] eqn:Hw; [|done]. cbn [mbind option_bind].
  rewrite (isAllASCII_bytes _ w Hb Hw).
  destruct (forallb isASCII (take 4 _)) eqn:Hall.
  2: { exists [], (b0 :: b1 :: b2 :: b3 :: tl), true. split; [done|]. constructor; [done|done|done|].
       split; [cbn [length]; lia|done]. }
  cbn [skipn]. rewrite drop_0. cbn [length] in *.
  assert (ends (address + 4) alignedEnd (Z.of_nat (length tl))) as He by (split; lia).
  destruct (IH tl (address + 4)) as (copied & rest & broke & -> & [H1 H2 H3 H4]); [|done|dlia|lia|].
  { rewrite !bytes_ok_cons in Hb. tauto. }
  cbn [mbind option_bind].
  exists (b0 :: b1 :: b2 :: b3 :: copied), rest, broke. split; [done|]. constructor.
  - cbn. by rewrite H1.
  - cbn [firstn forallb] in Hall. rewrite !andb_true_iff in Hall. destruct_and! Hall. by repeat constructor.
  - cbn [length]. dlia.
  - cbn [length]. destruct broke; [destruct H4 as [H4 ?]; split; [lia|done]|lia].
Qed.
End FastPathFacts.

(** ** Reading UTF-16 *)
Module CodecFacts.
Import UTF8.Spec Codec.

Lemma lead_test c : is_unit c -> U16_IS_LEAD c = ((0xD800 <=? c) && (c <? 0xDC00)).
Proof.
  intros Hc. unfold U16_IS_LEAD. apply eqb_true_iff.
  apply (range_check 16 (fun c => eqb (Z.land c 0xfffffc00 =? 0xd800) ((0xD800 <=? c) && (c <? 0xDC00))));
    [vm_compute; reflexivity|exact Hc].
Qed.

Lemma trail_test c : is_unit c -> U16_IS_TRAIL c = ((0xDC00 <=? c) && (c <? 0xE000)).
Proof.
  intros Hc. unfold U16_IS_TRAIL. apply eqb_true_iff.
  apply (range_check 16 (fun c => eqb (Z.land c 0xfffffc00 =? 0xdc00) ((0xDC00 <=? c) && (c <? 0xE000))));
    [vm_compute; reflexivity|exact Hc].
Qed.

(** [U16_NEXT] reads the encoding form of a scalar value. *)
Lemma utf16_next c rest :
  scalar c -> exists c0 tl, utf16 c ++ rest = c0 :: tl /\ U16_NEXT c0 tl = (c, rest).
Proof.
  intros Hc. unfold utf16, scalar in *. destruct (Z.ltb_spec c 0x10000).
  - exists c, rest. split; [done|]. unfold U16_NEXT. rewrite lead_test by dlia.
    destruct (Z.leb_spec 0xD800 c), (Z.ltb_spec c 0xDC00); cbn [andb]; try done; lia.
  - eexists _, _. split; [done|]. unfold U16_NEXT. rewrite lead_test by dlia.
    rewrite (proj2 (Z.leb_le _ _)), (proj2 (Z.ltb_lt _ _)) by dlia. cbn [andb].
    rewrite trail_test by dlia. rewrite (proj2 (Z.leb_le _ _)), (proj2 (Z.ltb_lt _ _)) by dlia. cbn [andb].
    f_equal. unfold U16_GET_SUPPLEMENTARY, U16_SURROGATE_OFFSET. rewrite !Z.shiftl_mul_pow2 by lia. dlia.
Qed.

Lemma utf16_length_next c rest c0 tl :
  utf16 c ++ rest = c0 :: tl -> (length rest <= length tl)%nat.
Proof.
  intros H. apply (f_equal length) in H. rewrite length_app in H. cbn [length] in H.
  pose proof (utf16_length_pos c). lia.
Qed.
End CodecFacts.

(** ** Latin-1 *)
Module Latin1Facts.
Import UTF8.Spec FastPath FastPathFacts Codec CodecFacts Latin1Codec.

(** The character of a byte. *)
Definition character (b : Z) : Z := at_ table (Z.to_nat b).

Lemma character_ascii b : is_byte b -> isASCII b = true -> character b = b.
Proof.
  intros Hb Ha. unfold isASCII in Ha. bprop.
  assert (is_byte b -> (negb (isASCII b) || (character b =? b)) = true) as H.
  { intros H. by apply (range_check 8 (fun b => negb (isASCII b) || (character b =? b))); [vm_compute|]. }
  specialize (H Hb). unfold isASCII in H. rewrite (proj2 (Z.leb_le b 0x7F)) in H by done.
  by apply Z.eqb_eq in H.
Qed.

(** The byte at the end of the last word is copied as it is when this word is
    ASCII: [image] is the table, less that byte. *)
Definition unconverted (address alignedEnd : Z) (bytes : list Z) : option nat :=
  let k := Z.to_nat (alignedEnd - address) in
  if (4 <=? k)%nat && forallb isASCII (take 4 (drop (k - 4) bytes)) then Some k else None.

Definition image (address alignedEnd : Z) (bytes : list Z) : list Z :=
  match unconverted address alignedEnd bytes with
  | Some k => <[k := at_ bytes k]> (map character bytes)
  | None => map character bytes
  end.

Lemma image_short address alignedEnd bytes :
  alignedEnd < address + 4 -> image address alignedEnd bytes = map character bytes.
Proof.
  intros H. unfold image, unconverted.
  destruct (Nat.leb_spec 4 (Z.to_nat (alignedEnd - address))); [lia|done].
Qed.

Lemma image_cons address alignedEnd c rest :
  (alignedEnd = address + 4 -> forallb isASCII (take 4 (c :: rest)) = false) ->
  image address alignedEnd (c :: rest) = character c :: image (address + 1) alignedEnd rest.
Proof.
  intros H. destruct (Z.lt_trichotomy alignedEnd (address + 4)) as [Hlt|[Heq|Hgt]].
  - rewrite !image_short by lia. done.
  - rewrite (image_short (address + 1)) by lia. unfold image, unconverted.
    rewrite Heq. replace (Z.to_nat (address + 4 - address)) with 4%nat by lia.
    change (4 - 4)%nat with 0%nat. rewrite drop_0, H by done. done.
  - unfold image, unconverted. set (k := Z.to_nat (alignedEnd - (address + 1))).
    replace (Z.to_nat (alignedEnd - address)) with (S k) by lia.
    assert (4 <= k)%nat as Hk by lia.
    replace (S k - 4)%nat with (S (k - 4)) by lia. cbn [drop].
    destruct (Nat.leb_spec 4 (S k)); [|lia]. destruct (Nat.leb_spec 4 k); [|lia]. cbn [andb skipn].
    by destruct (forallb isASCII (take 4 (drop (k - 4) rest))).
Qed.

Lemma image_app address alignedEnd pre rest :
  address + Z.of_nat (length pre) + 4 <= alignedEnd ->
  image address alignedEnd (pre ++ rest) = map character pre ++ image (address + Z.of_nat (length pre)) alignedEnd rest.
Proof.
  revert address. induction pre as [|c pre IH]; intros address H; cbn [app length map] in *.
  { by rewrite Z.add_0_r. }
  rewrite image_cons, IH by lia. do 3 f_equal. lia.
Qed.

Lemma map_character_ascii l : bytes_ok l -> Forall (fun c => isASCII c = true) l -> map character l = l.
Proof.
  intros Hb Hl. induction Hl as [|c l Hc Hl IH]; [done|]. apply bytes_ok_cons in Hb as [Hc' Hb].
  cbn [map]. rewrite IH by done. by rewrite character_ascii.
Qed.

Lemma decode_loop_image fuel source address alignedEnd :
  bytes_ok source -> ends address alignedEnd (Z.of_nat (length source)) -> (length source <= fuel)%nat ->
  decode_loop fuel source address alignedEnd = Some (image address alignedEnd source).
Proof.
  revert source address. induction fuel as [|fuel IH]; intros source address Hb He Hf;
    (destruct source as [|c rest]; [by rewrite image_short by (destruct He; cbn in *; lia)|]); [cbn in Hf; lia|].
  cbn [decode_loop]. pose proof (proj1 (bytes_ok_cons _ _) Hb) as [Hc Hrest].
  assert (forall n, (n <= length rest)%nat ->
    ends (address + Z.of_nat n + 1) alignedEnd (Z.of_nat (length rest - n))) as He'.
  { intros n Hn. destruct He as [? He]. cbn [length] in He. split; lia. }
  pose proof (He' 0%nat ltac:(lia)) as He1. rewrite Z.add_0_r, Nat.sub_0_r in He1.
  cbn [length] in Hf.
  destruct (isASCII c) eqn:Hac.
  2: { rewrite IH by (done || lia). cbn [mbind option_bind]. rewrite image_cons; [done|].
       intros _. cbn. by rewrite Hac. }
  destruct (isAlignedToMachineWord address) eqn:Hal; rewrite aligned_mod in Hal; bprop.
  2: { rewrite IH by (done || lia). cbn [mbind option_bind].
       rewrite image_cons; [by rewrite character_ascii|]. destruct He. intros ->. exfalso. dlia. }
  destruct (copy_words_spec (length (c :: rest)) (c :: rest) address alignedEnd)
    as (copied & source' & broke & -> & [Hsplit Hasc Hw Hend]); [done..|].
  cbn [mbind option_bind].
  destruct source' as [|d rest'].
  { destruct broke; [by destruct Hend|]. rewrite app_nil_r in Hsplit. rewrite <- Hsplit in *.
    unfold image, unconverted. replace (Z.to_nat (alignedEnd - address)) with (length (c :: rest)) by (rewrite <- Hend; lia).
    rewrite map_character_ascii by done.
    destruct (_ && _); [by rewrite list_insert_ge|done]. }
  assert (bytes_ok copied /\ is_byte d /\ bytes_ok rest') as (Hbc & Hd & Hbr).
  { rewrite Hsplit, bytes_ok_app, bytes_ok_cons in Hb. tauto. }
  assert (length (c :: rest) = length copied + S (length rest'))%nat as Hlen.
  { rewrite Hsplit, length_app. done. }
  cbn [length] in Hlen.
  specialize (He' (length copied) ltac:(lia)).
  replace (length rest - length copied)%nat with (length rest') in He' by lia.
  rewrite IH by (done || lia). cbn [mbind option_bind]. f_equal. symmetry. rewrite Hsplit.
  destruct broke.
  - destruct Hend as [Hlt Hword].
    rewrite image_app by (destruct He as [He _]; dlia). rewrite map_character_ascii by done.
    rewrite image_cons; [done|]. intros _. done.
  - rewrite (image_short (_ + 1)) by lia. unfold image, unconverted.
    replace (Z.to_nat (alignedEnd - address)) with (length copied) by (rewrite <- Hend; lia).
    rewrite map_app, map_character_ascii by done. cbn [map].
    destruct (Nat.leb_spec 4 (length copied)) as [H4|H4].
    + replace (forallb isASCII _) with true.
      { cbn [andb]. rewrite insert_app_r_alt, Nat.sub_diag by lia. unfold at_.
        by rewrite lookup_app_r, Nat.sub_diag by lia. }
      symmetry. apply forallb_forall, List.Forall_forall.
      rewrite drop_app_le, take_app_le by (rewrite ?length_drop; lia). by apply Forall_take, Forall_drop.
    + assert (copied = []) as -> by (destruct copied; [done|cbn [length] in *; exfalso; dlia]).
      injection Hsplit as -> ->. cbn. by rewrite character_ascii.
Qed.

(** *** The encoder *)

(** What a character is written as. *)
Definition encoded (handling : UnencodableHandling) (c : Z) (part : list Z) : Prop :=
  (exists b, is_byte b /\ character b = c /\ part = [b])
  \/ (forall b, is_byte b -> character b <> c) /\ part = getUnencodableReplacement c handling.

Lemma search_table_spec n b c :
  match search_table n b c with
  | Some b' => b <= b' < b + Z.of_nat n /\ character b' = c
  | None => forall b', b <= b' < b + Z.of_nat n -> character b' <> c
  end.
Proof.
  revert b. induction n as [|n IH]; intros b; cbn [search_table]; [lia|].
  destruct (Z.eqb_spec (at_ table (Z.to_nat b)) c) as [Heq|Hne]; [split; [lia|done]|].
  specialize (IH (b + 1)). destruct (search_table n (b + 1) c); [destruct IH; split; [lia|done]|].
  intros b' Hb'. destruct (decide (b' = b)) as [->|]; [done|]. apply IH. lia.
Qed.

(** Outside the row of 0x80 a byte stands for itself. *)
Lemma character_direct b : is_byte b -> (b < 0x80 \/ 0xA0 <= b) -> character b = b.
Proof.
  intros Hb Hr.
  assert ((((0x80 <=? b) && (b <? 0xA0)) || (character b =? b)) = true) as H.
  { by apply (range_check 8 (fun b => ((0x80 <=? b) && (b <? 0xA0)) || (character b =? b))); [vm_compute|]. }
  destruct (Z.leb_spec 0x80 b), (Z.ltb_spec b 0xA0); cbn [andb orb] in H; try lia; by apply Z.eqb_eq in H.
Qed.

Lemma row_test b : is_byte b -> (Z.land b 0xE0 =? 0x80) = ((0x80 <=? b) && (b <? 0xA0)).
Proof.
  intros Hb. apply eqb_true_iff.
  by apply (range_check 8 (fun b => eqb (Z.land b 0xE0 =? 0x80) ((0x80 <=? b) && (b <? 0xA0)))); [vm_compute|].
Qed.

Lemma complex_loop_spec handling cs fuel capacity result :
  Forall scalar cs -> (length (utf16s cs) <= fuel)%nat -> (length result + length (utf16s cs) <= capacity)%nat ->
  exists parts, Forall2 (encoded handling) cs parts
    /\ complex_loop fuel handling (utf16s cs) capacity result = Some (result ++ concat parts).
Proof.
  intros Hcs. revert fuel capacity result. induction Hcs as [|c cs Hc Hcs IH]; intros fuel capacity result Hf Hcap.
  { exists []. split; [constructor|]. destruct fuel; cbn; by rewrite app_nil_r. }
  rewrite utf16s_cons in *. destruct (utf16_next c (utf16s cs) Hc) as (c0 & tl & Heq & Hnext).
  pose proof (utf16_length_next _ _ _ _ Heq) as Htl. rewrite Heq in *. cbn [length] in Hf, Hcap.
  destruct fuel as [|fuel]; [lia|]. cbn [complex_loop]. rewrite Hnext.
  assert (forall b, is_byte b -> character b = c ->
    exists parts, Forall2 (encoded handling) (c :: cs) parts
    /\ (if (length result <? capacity)%nat
        then complex_loop fuel handling (utf16s cs) capacity (result ++ [b]) else None) = Some (result ++ concat parts)) as Hput.
  { intros b Hb Hbc. destruct (Nat.ltb_spec (length result) capacity); [|lia].
    destruct (IH fuel capacity (result ++ [b])) as (parts & Hp & ->); [lia|rewrite length_app; cbn; lia|].
    exists ([b] :: parts). split; [constructor; [left; by exists b|done]|]. cbn. by rewrite <- app_assoc. }
  assert (c < 0 \/ 256 <= c \/ is_byte c) as Hrange by (unfold in_width; lia).
  destruct (negb (u8 c =? c) || (Z.land c 0xE0 =? 0x80)) eqn:Htest.
  - pose proof (search_table_spec 0x20 0x80 c) as Hs.
    destruct (search_table 0x20 0x80 c) as [b|]; [apply Hput; [dlia|tauto]|].
    destruct (IH fuel (length result + length (getUnencodableReplacement c handling) + length (utf16s cs))%nat
      (result ++ getUnencodableReplacement c handling)) as (parts & Hp & ->); [lia|rewrite length_app; lia|].
    exists (getUnencodableReplacement c handling :: parts). split; [|cbn; by rewrite <- app_assoc].
    constructor; [right; split; [|done]|done]. intros b Hb Hbc.
    destruct (decide (0x80 <= b < 0xA0)) as [|Hout]; [by apply (Hs b); [lia|]|].
    rewrite character_direct in Hbc by (done || lia). subst c. rewrite row_test in Htest by done.
    replace (u8 b) with b in Htest by dlia. rewrite Z.eqb_refl in Htest. cbn [negb orb] in Htest. bprop. lia.
  - apply orb_false_iff in Htest as [Hlow Hrow]. apply negb_false_iff, Z.eqb_eq in Hlow. assert (is_byte c) as Hb by dlia.
    rewrite row_test in Hrow by done. replace (u8 c) with c by done. apply Hput; [done|]. apply character_direct; [done|].
    destruct (Z.leb_spec 0x80 c), (Z.ltb_spec c 0xA0); cbn [andb] in Hrow; try done; lia.
Qed.

Lemma ored_ascii l ored : is_unit ored -> units_ok l ->
  (Z.land (fold_left Z.lor l ored) 0xFF80 =? 0) = forallb (fun c => Z.land c 0xFF80 =? 0) (ored :: l).
Proof.
  revert ored. induction l as [|c l IH]; intros ored Ho Hl; cbn [fold_left forallb]; [by rewrite andb_true_r|].
  apply units_ok_cons in Hl as [Hc Hl]. rewrite IH; [|split|done].
  - cbn [forallb]. rewrite andb_assoc. f_equal. rewrite Z.land_lor_distr_l.
    apply eq_true_iff_eq. rewrite andb_true_iff, !Z.eqb_eq, Z.lor_eq_0_iff. done.
  - apply Z.lor_nonneg. unfold in_width in *. lia.
  - assert (Z.lor ored c = Z.lor ored c mod 2 ^ 16) as ->; [|apply Z.mod_pos_bound; lia].
    by rewrite lor_mod_pow2, !Z.mod_small by (done || lia).
Qed.

Lemma utf16s_units cs : Forall scalar cs -> units_ok (utf16s cs).
Proof.
  induction 1; [constructor|]. rewrite utf16s_cons. apply units_ok_app. split; [by apply scalar_utf16_units|done].
Qed.

Lemma encode_spec handling cs : Forall scalar cs ->
  exists parts, Forall2 (encoded handling) cs parts /\ encode handling (utf16s cs) = Some (concat parts).
Proof.
  intros Hcs. pose proof (utf16s_units cs Hcs) as Hu. unfold encode. rewrite ored_ascii by done.
  cbn [forallb]. change (Z.land 0 0xFF80 =? 0) with true. cbn [andb].
  destruct (forallb _ (utf16s cs)) eqn:Hall.
  2: { apply complex_loop_spec; [done|lia|cbn; lia]. }
  exists (map (fun c => [c]) cs). clear Hu. induction Hcs as [|c cs Hc Hcs IH]; [done|].
  rewrite utf16s_cons, forallb_app in *. apply andb_true_iff in Hall as [Hc' Hall].
  destruct (IH Hall) as [Hf Heq].
  assert (utf16 c = [c] /\ 0 <= c < 0x80) as [Hone Hlt].
  { unfold utf16, scalar in *. destruct (Z.ltb_spec c 0x10000).
    - split; [done|]. cbn [forallb] in Hc'. rewrite andb_true_r in Hc'.
      assert ((negb (Z.land c 0xFF80 =? 0) || (c <? 0x80)) = true) as H'.
      { apply (range_check 16 (fun c => negb (Z.land c 0xFF80 =? 0) || (c <? 0x80))); [by vm_compute|zpow; lia]. }
      rewrite Hc' in H'. cbn [negb orb] in H'. bprop. lia.
    - exfalso. cbn [forallb] in Hc'. bprop.
      set (x := 0xD800 + _) in *. assert (is_unit x /\ 0xD800 <= x) as [Hx ?] by (subst x; dlia).
      assert ((negb (Z.land x 0xFF80 =? 0) || (x <? 0x80)) = true) as H'.
      { by apply (range_check 16 (fun c => negb (Z.land c 0xFF80 =? 0) || (c <? 0x80))); [vm_compute|]. }
      replace (Z.land x 0xFF80) with 0 in H' by done. cbn in H'. bprop. lia. }
  rewrite Hone. cbn [map app concat]. injection Heq as Heq. rewrite Heq. split.
  - constructor; [|done]. left. exists c. split_and!; [dlia| |done]. apply character_direct; [dlia|lia].
  - f_equal. cbn [app]. f_equal. dlia.
Qed.
End Latin1Facts.

(** ** UTF-16 *)
Module UTF16Facts.
Import UTF16Codec.

(** The code units of a sequence of bytes; an odd last byte is held back. *)
Fixpoint units (littleEndian : bool) (bytes : list Z) : list Z :=
  match bytes with
  | p0 :: p1 :: rest => unit_of littleEndian p0 p1 :: units littleEndian rest
  | _ => []
  end.

Fixpoint odd_byte (bytes : list Z) : list Z :=
  match bytes with
  | _ :: _ :: rest => odd_byte rest
  | l => l
  end.

Definition held (t : TextCodecUTF16) : list Z := if m_haveBufferedByte t then [m_bufferedByte t] else [].

Lemma decode_pairs_spec le n p :
  (2 * n <= length p)%nat ->
  exists rest, decode_pairs le n p = Some (units le (take (2 * n) p), rest) /\ rest = drop (2 * n) p.
Proof.
  revert p. induction n as [|n IH]; intros p Hp; cbn [decode_pairs]; [by exists p|].
  destruct p as [|p0 [|p1 p]]; cbn [length] in Hp; try lia.
  destruct (IH p) as (rest & -> & ->); [lia|]. cbn [mbind option_bind].
  replace (2 * S n)%nat with (S (S (2 * n))) by lia. cbn [firstn skipn units]. by eexists.
Qed.

Lemma units_app le (a b : list Z) : Nat.even (length a) = true -> units le (a ++ b) = units le a ++ units le b.
Proof.
  remember (length a) as n eqn:Hn. revert a Hn. induction n as [n IH] using lt_wf_ind; intros a Hn He.
  destruct a as [|p0 [|p1 a]]; [done|by subst n|]. cbn [app units]. f_equal. subst n.
  apply (IH (length a)); [cbn; lia|done|]. done.
Qed.

Lemma odd_byte_app (a b : list Z) : Nat.even (length a) = true -> odd_byte (a ++ b) = odd_byte b.
Proof.
  remember (length a) as n eqn:Hn. revert a Hn. induction n as [n IH] using lt_wf_ind; intros a Hn He.
  destruct a as [|p0 [|p1 a]]; [done|by subst n|]. cbn [app odd_byte]. subst n.
  apply (IH (length a)); [cbn; lia|done|]. done.
Qed.

Lemma decode_spec t bytes :
  exists t', decode t bytes = Some (t', units (m_littleEndian t) (held t ++ bytes))
    /\ held t' = odd_byte (held t ++ bytes) /\ m_littleEndian t' = m_littleEndian t.
Proof.
  unfold decode. destruct (Nat.eqb_spec (length bytes) 0) as [H0|H0].
  { destruct bytes; [|done]. exists t. rewrite app_nil_r. unfold held. by destruct (m_haveBufferedByte t). }
  set (n := (length bytes + _)%nat).
  assert (length (held t ++ bytes) = n) as Hn.
  { subst n. unfold held. destruct (m_haveBufferedByte t); rewrite length_app; cbn; lia. }
  assert (exists q p m, (if m_haveBufferedByte t then
       p0 ← head bytes;
       if (n / 2 =? 0)%nat then None else
       Some ([unit_of (m_littleEndian t) (m_bufferedByte t) p0], tail bytes, (n / 2 - 1)%nat)
     else Some ([], bytes, (n / 2)%nat)) = Some (q, p, m)
     /\ length p = (2 * m + n mod 2)%nat
     /\ units (m_littleEndian t) (held t ++ bytes) = q ++ units (m_littleEndian t) p
     /\ odd_byte (held t ++ bytes) = odd_byte p) as (q & p & m & -> & Hp & Hu & Ho).
  { pose proof (Nat.div_mod n 2 ltac:(lia)) as Hd. unfold held in *. destruct (m_haveBufferedByte t).
    - destruct bytes as [|b0 bytes]; [done|]. cbn [length app] in Hn, H0. cbn [mbind option_bind head tail].
      destruct (Nat.eqb_spec (n / 2) 0) as [Hz|Hz].
      { exfalso. pose proof (Nat.mod_upper_bound n 2 ltac:(lia)). rewrite Hz in Hd. lia. }
      eexists _, _, _. split; [done|]. split_and!; [lia|done|done].
    - eexists _, _, _. split; [done|]. cbn [app length] in *. split_and!; [lia|done|done]. }
  cbn [mbind option_bind].
  destruct (decode_pairs_spec (m_littleEndian t) m p) as (rest & -> & ->); [lia|]. cbn [mbind option_bind].
  rewrite Hu, Ho.
  assert (units (m_littleEndian t) (drop (2 * m) p) = [] /\ odd_byte (drop (2 * m) p) = drop (2 * m) p) as [Hu0 Ho0].
  { assert (length (drop (2 * m) p) < 2)%nat as Hlt by (rewrite length_drop, Hp; pose proof (Nat.mod_upper_bound n 2); lia).
    destruct (drop (2 * m) p) as [|? [|? ?]]; cbn in Hlt; [done|done|lia]. }
  assert (Nat.even (length (take (2 * m) p)) = true) as He.
  { rewrite length_take, Nat.min_l by lia. by rewrite Nat.even_mul. }
  assert (units (m_littleEndian t) p = units (m_littleEndian t) (take (2 * m) p)) as Hup.
  { rewrite <- (take_drop (2 * m) p) at 1. rewrite units_app, Hu0, app_nil_r by done. done. }
  assert (odd_byte p = drop (2 * m) p) as Hop.
  { rewrite <- (take_drop (2 * m) p) at 1. by rewrite odd_byte_app, Ho0 by done. }
  rewrite Hup, Hop.
  assert (length (drop (2 * m) p) = (n mod 2)%nat) as Hl by (rewrite length_drop; lia).
  assert (Nat.odd n = (n mod 2 =? 1)%nat) as ->.
  { pose proof (Nat.div_mod n 2 ltac:(lia)) as Hd. pose proof (Nat.mod_upper_bound n 2 ltac:(lia)) as Hb.
    destruct (n mod 2)%nat as [|[|k]] eqn:Hm; [| |lia]; rewrite Hd.
    - rewrite Nat.add_0_r, Nat.odd_mul. done.
    - rewrite Nat.odd_add, Nat.odd_mul. done. }
  destruct (drop (2 * m) p) as [|b [|? ?]]; cbn [length] in Hl; rewrite <- Hl; cbn [Nat.eqb head mbind option_bind].
  - eexists. split; [done|]. split; [done|done].
  - eexists. split; [done|]. split; [done|done].
  - pose proof (Nat.mod_upper_bound n 2 ltac:(lia)). lia.
Qed.

(** One codec, several pieces of a stream. *)
Fixpoint decode_pieces (t : TextCodecUTF16) (pieces : list (list Z)) : option (TextCodecUTF16 * list Z) :=
  match pieces with
  | [] => Some (t, [])
  | bytes :: pieces =>
      '(t, out) ← decode t bytes;
      '(t, outs) ← decode_pieces t pieces;
      Some (t, out ++ outs)
  end.

Lemma units_held le a b : units le (a ++ b) = units le a ++ units le (odd_byte a ++ b).
Proof.
  remember (length a) as n eqn:Hn. revert a Hn. induction n as [n IH] using lt_wf_ind; intros a Hn.
  destruct a as [|p0 [|p1 a]]; [done|done|]. cbn [app units odd_byte]. f_equal. subst n.
  apply (IH (length a)); [cbn; lia|done].
Qed.

Lemma odd_byte_held (a b : list Z) : odd_byte (a ++ b) = odd_byte (odd_byte a ++ b).
Proof.
  remember (length a) as n eqn:Hn. revert a Hn. induction n as [n IH] using lt_wf_ind; intros a Hn.
  destruct a as [|p0 [|p1 a]]; [done|done|]. cbn [app odd_byte]. subst n.
  apply (IH (length a)); [cbn; lia|done].
Qed.

Lemma decode_pieces_spec t pieces :
  exists t', decode_pieces t pieces = Some (t', units (m_littleEndian t) (held t ++ concat pieces))
    /\ held t' = odd_byte (held t ++ concat pieces).
Proof.
  revert t. induction pieces as [|bytes pieces IH]; intros t; cbn [decode_pieces concat].
  { exists t. rewrite app_nil_r. unfold held. by destruct (m_haveBufferedByte t). }
  destruct (decode_spec t bytes) as (t' & -> & Hh & Hle). cbn [mbind option_bind].
  destruct (IH t') as (t'' & -> & Hh'). cbn [mbind option_bind].
  exists t''. rewrite Hh', Hh, Hle, app_assoc, (units_held _ (held t ++ bytes)), <- odd_byte_held. done.
Qed.

Lemma units_encode t s : units_ok s -> units (m_littleEndian t) (encode t s) = s /\ odd_byte (encode t s) = [].
Proof.
  unfold encode. induction s as [|c s IH]; [done|]. intros H. apply units_ok_cons in H as [Hc Hs].
  destruct (IH Hs) as [H1 H2]. cbn [map concat].
  assert (unit_of (m_littleEndian t)
    (if m_littleEndian t then u8 c else u8 (Z.shiftr c 8)) (if m_littleEndian t then u8 (Z.shiftr c 8) else u8 c) = c) as Hu.
  { unfold unit_of. rewrite Z.shiftr_div_pow2 by lia.
    destruct (m_littleEndian t); [rewrite Z.lor_comm|]; rewrite lor_shiftl_add by dlia; dlia. }
  destruct (m_littleEndian t); cbn [app units odd_byte]; rewrite Hu, H1; done.
Qed.
End UTF16Facts.

(** * Properties *)
Module CodecProps.
Import UTF8.Spec FastPath FastPathFacts Codec Latin1Codec Latin1Facts UTF16Codec UTF16Facts.

(** C39: the Latin-1 decoder reads and writes inside its buffers at any address,
    ends, and gives the Windows-1252 character of every byte, except that the
    byte behind the last machine word is copied unconverted when this word is
    ASCII. *)
Theorem latin1_decodes (address : Z) (bytes : list Z) :
  bytes_ok bytes ->
  Latin1Codec.decode address bytes = Some (image address (alignToMachineWord (address + Z.of_nat (length bytes))) bytes).
Proof. intros Hb. apply decode_loop_image; [done|apply ends_align|done]. Qed.

(** the Latin-1 encoder stays inside its growing buffer, and writes every
    character as the byte that stands for it in the table, or as the chosen
    replacement when there is none. *)
Theorem latin1_encodes (handling : UnencodableHandling) (cs : list Z) :
  Forall scalar cs ->
  exists parts, Forall2 (encoded handling) cs parts /\ Latin1Codec.encode handling (utf16s cs) = Some (concat parts).
Proof. apply encode_spec. Qed.

(** however a stream of UTF-16 is cut into pieces, the decoder reads inside
    each piece and its outputs are the code units of the whole stream; what the
    encoder wrote is read back, with no byte held at the end. *)
Theorem utf16_streams (littleEndian : bool) (garbage : Z) (pieces : list (list Z)) :
  let t := TextCodecUTF16_new littleEndian garbage in
  (exists t', decode_pieces t pieces = Some (t', units littleEndian (concat pieces))
    /\ held t' = odd_byte (concat pieces))
  /\ forall s, units_ok s -> concat pieces = UTF16Codec.encode t s ->
     exists t', decode_pieces t pieces = Some (t', s) /\ held t' = [].
Proof.
  intros t. destruct (decode_pieces_spec t pieces) as (t' & Ht & Hh). cbn in Ht, Hh. split; [by exists t'|].
  intros s Hs Hc. rewrite Hc in Ht, Hh. destruct (units_encode t s Hs) as [H1 H2]. cbn in H1, H2.
  exists t'. rewrite Ht, Hh. cbn. by rewrite H1, H2.
Qed.
End CodecProps.

Module CodecWitness.
Import UTF8.Spec FastPath Codec Latin1Codec Latin1Facts CodecProps.

(** The euro sign behind a word of ASCII, at an aligned address and one byte
    further: converted only in the second case. *)
Example latin1_depends_on_address :
  Latin1Codec.decode 0 (str "cost" ++ [0x80]) = Some (str "cost" ++ [0x80])
  /\ Latin1Codec.decode 1 (str "cost" ++ [0x80]) = Some (str "cost" ++ [0x20AC]).
Proof. by vm_compute. Qed.

Lemma latin1_decodes_witness :
  Latin1Codec.decode 6 ([0x93] ++ str "quoted" ++ [0x94]) = Some ([0x201C] ++ str "quoted" ++ [0x201D]).
Proof. rewrite (latin1_decodes 6); [by vm_compute|by_eval]. Defined.

Lemma latin1_encodes_witness :
  exists parts, Forall2 (encoded EntitiesForUnencodables) [65; 0x20AC; 0x3B1; 0x1F600] parts
    /\ Latin1Codec.encode EntitiesForUnencodables (utf16s [65; 0x20AC; 0x3B1; 0x1F600]) = Some (concat parts).
Proof. apply (latin1_encodes EntitiesForUnencodables). by_eval. Defined.

Lemma utf16_streams_witness :
  exists t', UTF16Facts.decode_pieces (UTF16Codec.TextCodecUTF16_new true 7) [[0x3D]; []; [0xD8; 0x00; 0xDE]; [65; 0]] = Some (t', utf16s [0x1F600; 65])
    /\ UTF16Facts.held t' = [].
Proof.
  apply (utf16_streams true 7 [[0x3D]; []; [0xD8; 0x00; 0xDE]; [65; 0]]); [by_eval|by vm_compute].
Defined.

Example latin1_encoded :
  Latin1Codec.encode EntitiesForUnencodables (utf16s [65; 0x20AC; 0x3B1; 0x1F600])
  = Some ([65; 0x80] ++ str "&#945;" ++ str "&#128512;")
  /\ Latin1Codec.encode URLEncodedEntitiesForUnencodables [0x3B1] = Some (str "%26%23945%3B").
Proof. by vm_compute. Qed.
End CodecWitness.
