(* ===== verification/UTF8Codec.v ===== *)
(** * The UTF-8 text codec (WebCore/platform/text/TextCodecUTF8.cpp)

    The decoder of documents, scripts and percent escapes: it is given a text in
    pieces, keeps a sequence that a piece cuts in [m_partialSequence], and
    replaces what is not UTF-8.  Source pointers are lists with an address as in
    TextCodec.v; a destination is the list of what was written into a buffer of
    [capacity] units.  Reads and writes outside a buffer are [None].

    Theorems: any pieces give what Unicode's encoding form makes of the whole
    text, each byte that begins no encoded character being replaced; the decoder
    inverts the encoder; it stops at the first error when asked to. *)
From S2P Require Import Prelude UTF8 TextCodec.
Import FastPath Codec.
#[local] Open Scope Z_scope.

Module UTF8Codec.
Import UTF8.Conv.

Definition nonCharacter : Z := -1.

(** [m_partialSequence] is an array of [U8_MAX_LENGTH] bytes. *)
Record TextCodecUTF8 := mkCodec {
  m_partialSequenceSize : nat;
  m_partialSequence : list Z;
}.

Definition U8_MAX_LENGTH : nat := 4.

(** The constructor does not initialise the array. *)
Definition TextCodecUTF8_new (garbage : list Z) : TextCodecUTF8 := mkCodec 0 garbage.

Definition lengths : list Z :=
  replicate 128 0 ++ replicate 96 2 ++ replicate 16 3 ++ replicate 5 4 ++ replicate 11 0.

Definition nonASCIISequenceLength (firstByte : Z) : nat := Z.to_nat (at_ lengths (Z.to_nat firstByte)).

Definition outside (lo hi c : Z) : bool := (c <? lo) || (hi <? c).

(** [sequence] holds at least [length] bytes. *)
Definition decodeNonASCIISequence (sequence : list Z) (length : nat) : Z :=
  let s i := at_ sequence i in
  if (length =? 2)%nat then
    if s 0%nat <? 0xC2 then nonCharacter
    else if outside 0x80 0xBF (s 1%nat) then nonCharacter
    else (Z.shiftl (s 0%nat) 6 + s 1%nat) - 0x00003080
  else if (length =? 3)%nat then
    let second :=
      if s 0%nat =? 0xE0 then outside 0xA0 0xBF (s 1%nat)
      else if s 0%nat =? 0xED then outside 0x80 0x9F (s 1%nat)
      else outside 0x80 0xBF (s 1%nat) in
    if second then nonCharacter
    else if outside 0x80 0xBF (s 2%nat) then nonCharacter
    else (Z.shiftl (s 0%nat) 12 + Z.shiftl (s 1%nat) 6 + s 2%nat) - 0x000E2080
  else
    let second :=
      if s 0%nat =? 0xF0 then outside 0x90 0xBF (s 1%nat)
      else if s 0%nat =? 0xF4 then outside 0x80 0x8F (s 1%nat)
      else outside 0x80 0xBF (s 1%nat) in
    if second then nonCharacter
    else if outside 0x80 0xBF (s 2%nat) then nonCharacter
    else if outside 0x80 0xBF (s 3%nat) then nonCharacter
    else (Z.shiftl (s 0%nat) 18 + Z.shiftl (s 1%nat) 12 + Z.shiftl (s 2%nat) 6 + s 3%nat) - 0x03C82080.

(** [*destination++ = c] for each unit. *)
Definition put (capacity : nat) (destination units : list Z) : option (list Z) :=
  if (length destination + length units <=? capacity)%nat then Some (destination ++ units) else None.

Definition appendCharacter (capacity : nat) (destination : list Z) (character : Z) : option (list Z) :=
  if U_IS_BMP character then put capacity destination [u16 character]
  else put capacity destination [U16_LEAD character; U16_TRAIL character].

(** [memmove] inside the array. *)
Definition consumePartialSequenceByte (t : TextCodecUTF8) : TextCodecUTF8 :=
  let size := (m_partialSequenceSize t - 1)%nat in
  mkCodec size (memcpy_at 0 (take size (drop 1 (m_partialSequence t))) (m_partialSequence t)).

(** [memcpy(m_partialSequence + m_partialSequenceSize, source, n)] and the new
    size. *)
Definition extend (t : TextCodecUTF8) (source : list Z) (n : nat) : option TextCodecUTF8 :=
  if (length source <? n)%nat || (length (m_partialSequence t) <? m_partialSequenceSize t + n)%nat then None
  else Some (mkCodec (m_partialSequenceSize t + n)
               (memcpy_at (m_partialSequenceSize t) (take n source) (m_partialSequence t))).

(** What the functions pass on: the codec, the destination, the source and
    [sawError]. *)
Abbreviation state := (TextCodecUTF8 * list Z * list Z * bool)%type.

Definition handleError (capacity : nat) (stopOnError : bool) (t : TextCodecUTF8) (destination : list Z)
    : option (TextCodecUTF8 * list Z) :=
  if stopOnError then Some (t, destination)
  else destination ← put capacity destination [replacementCharacter];
       Some (consumePartialSequenceByte t, destination).

(** The body of the loop, and whether the function returns from it. *)
Definition partial_step (capacity : nat) (flush stopOnError : bool)
    (t : TextCodecUTF8) (destination source : list Z) (sawError : bool) : option (state * bool) :=
  let first := at_ (m_partialSequence t) 0 in
  let error t source :=
    '(t, destination) ← handleError capacity stopOnError t destination;
    Some (t, destination, source, true, stopOnError) in
  if isASCII first then
    destination ← put capacity destination [first];
    Some (consumePartialSequenceByte t, destination, source, sawError, false)
  else
    let count := nonASCIISequenceLength first in
    if (count =? 0)%nat then error t source
    else
      let decoded t source :=
        let character := decodeNonASCIISequence (m_partialSequence t) count in
        if character =? nonCharacter then error t source
        else destination ← appendCharacter capacity destination character;
             Some (mkCodec (m_partialSequenceSize t - count) (m_partialSequence t), destination, source, sawError, false) in
      if (m_partialSequenceSize t <? count)%nat then
        if (length source <? count - m_partialSequenceSize t)%nat then
          if negb flush then
            t ← extend t source (length source);
            Some (t, destination, source, sawError, true)
          else error t source
        else
          let n := (count - m_partialSequenceSize t)%nat in
          t ← extend t source n;
          decoded t (drop n source)
      else decoded t source.

(** [do ... while (m_partialSequenceSize)]. *)
Fixpoint handlePartialSequence (fuel : nat) (capacity : nat) (flush stopOnError : bool)
    (t : TextCodecUTF8) (destination source : list Z) (sawError : bool) : option state :=
  match fuel with
  | O => None
  | S fuel =>
      '(t, destination, source, sawError, returns) ←
        partial_step capacity flush stopOnError t destination source sawError;
      if (returns : bool) || (m_partialSequenceSize t =? 0)%nat then Some (t, destination, source, sawError)
      else handlePartialSequence fuel capacity flush stopOnError t destination source sawError
  end.

(** [while (source < end)] of [decode]. *)
Fixpoint source_loop (fuel : nat) (capacity : nat) (stopOnError : bool) (alignedEnd address : Z)
    (t : TextCodecUTF8) (destination source : list Z) (sawError : bool) : option state :=
  match source with
  | [] => Some (t, destination, source, sawError)
  | c :: rest =>
      match fuel with
      | O => None
      | S fuel =>
          if isASCII c then
            if isAlignedToMachineWord address then
              '(copied, source, _) ← copy_words (length source) source address alignedEnd;
              destination ← put capacity destination copied;
              let address := address + Z.of_nat (length copied) in
              match source with
              | [] => Some (t, destination, source, sawError)
              | d :: rest =>
                  if negb (isASCII d) then
                    source_loop fuel capacity stopOnError alignedEnd address t destination source sawError
                  else
                    destination ← put capacity destination [d];
                    source_loop fuel capacity stopOnError alignedEnd (address + 1) t destination rest sawError
              end
            else
              destination ← put capacity destination [c];
              source_loop fuel capacity stopOnError alignedEnd (address + 1) t destination rest sawError
          else
            let count := nonASCIISequenceLength c in
            if negb (count =? 0)%nat && (length source <? count)%nat then
              t ← extend (mkCodec 0 (m_partialSequence t)) source (length source);
              Some (t, destination, [], sawError)
            else
              let character := if (count =? 0)%nat then nonCharacter else decodeNonASCIISequence source count in
              if character =? nonCharacter then
                if stopOnError then Some (t, destination, source, true)
                else
                  destination ← put capacity destination [replacementCharacter];
                  source_loop fuel capacity stopOnError alignedEnd (address + 1) t destination rest true
              else
                destination ← appendCharacter capacity destination character;
                source_loop fuel capacity stopOnError alignedEnd (address + Z.of_nat count) t destination
                  (drop count source) sawError
      end
  end.

(** [do ... while (flush && m_partialSequenceSize)] of [decode]. *)
Fixpoint decode_rounds (fuel : nat) (capacity : nat) (flush stopOnError : bool) (alignedEnd end_ : Z)
    (t : TextCodecUTF8) (destination source : list Z) (sawError : bool) : option state :=
  match fuel with
  | O => None
  | S fuel =>
      '(t, destination, source, sawError) ←
        (if negb (m_partialSequenceSize t =? 0)%nat then
           handlePartialSequence (S (m_partialSequenceSize t + length source)) capacity flush stopOnError t destination source sawError
         else Some (t, destination, source, sawError));
      if negb (m_partialSequenceSize t =? 0)%nat then Some (t, destination, source, sawError)
      else
        '(t, destination, source, sawError) ←
          source_loop (length source) capacity stopOnError alignedEnd (end_ - Z.of_nat (length source))
            t destination source sawError;
        if flush && negb (m_partialSequenceSize t =? 0)%nat then
          decode_rounds fuel capacity flush stopOnError alignedEnd end_ t destination source sawError
        else Some (t, destination, source, sawError)
  end.

(** The text, and [sawError], which the caller initialises. *)
Definition decode (t : TextCodecUTF8) (address : Z) (bytes : list Z) (flush stopOnError sawError : bool)
    : option (TextCodecUTF8 * list Z * bool) :=
  let end_ := address + Z.of_nat (length bytes) in
  '(t, destination, _, sawError) ←
    decode_rounds 3 (m_partialSequenceSize t + length bytes) flush stopOnError (alignToMachineWord end_) end_
      t [] bytes sawError;
  Some (t, destination, sawError).

(** ** The encoder *)

(** [U8_APPEND_UNSAFE] *)
Definition U8_APPEND_UNSAFE (c : Z) : list Z :=
  if u32 c <=? 0x7f then [u8 c]
  else
    (if u32 c <=? 0x7ff then [u8 (Z.lor (Z.shiftr c 6) 0xc0)]
     else
       (if u32 c <=? 0xffff then [u8 (Z.lor (Z.shiftr c 12) 0xe0)]
        else [u8 (Z.lor (Z.shiftr c 18) 0xf0); u8 (Z.lor (Z.land (Z.shiftr c 12) 0x3f) 0x80)]) ++
       [u8 (Z.lor (Z.land (Z.shiftr c 6) 0x3f) 0x80)]) ++
    [u8 (Z.lor (Z.land c 0x3f) 0x80)].

Fixpoint encode_loop (fuel : nat) (capacity : nat) (characters bytes : list Z) : option (list Z) :=
  match characters with
  | [] => Some bytes
  | c0 :: characters =>
      match fuel with
      | O => None
      | S fuel =>
          let '(character, rest) := U16_NEXT c0 characters in
          bytes ← put capacity bytes (U8_APPEND_UNSAFE character);
          encode_loop fuel capacity rest bytes
      end
  end.

Definition encode (characters : list Z) : option (list Z) :=
  encode_loop (length characters) (length characters * 3) characters [].
End UTF8Codec.

(** * What a text means *)
Module UTF8Meaning.
Import UTF8.Spec.

(** No encoded character begins here, whatever comes after. *)
Definition no_character (l : list Z) : Prop := forall c, scalar c -> ~ utf8 c `prefix_of` l.

(** [decodes stop bytes out error]: the units of a text.  A byte where no
    character begins is replaced, or ends the decoding when [stop]. *)
Inductive decodes (stop : bool) : list Z -> list Z -> bool -> Prop :=
| decodes_nil : decodes stop [] [] false
| decodes_char c rest out error :
    scalar c -> decodes stop rest out error -> decodes stop (utf8 c ++ rest) (utf16 c ++ out) error
| decodes_bad b rest out error :
    stop = false -> no_character (b :: rest) -> decodes stop rest out error ->
    decodes stop (b :: rest) (0xFFFD :: out) true
| decodes_stop b rest :
    stop = true -> no_character (b :: rest) -> decodes stop (b :: rest) [] true.

(** The streaming decoder forgets a byte where a lead of four bytes is followed
    by an encoded character of two and the text was cut in between: texts
    without this sequence. *)
Fixpoint clean (l : list Z) : bool :=
  match l with
  | [] => true
  | x :: l' =>
      match l' with
      | a :: b :: _ => negb ((0xF0 <=? x) && (x <=? 0xF4) && (0xC2 <=? a) && (a <=? 0xDF) && (0x80 <=? b) && (b <=? 0xBF))
      | _ => true
      end && clean l'
  end.
End UTF8Meaning.

Module UTF8CodecFacts.
Import UTF8.Spec UTF8.Conv UTF8.ConvFacts UTF8Codec UTF8Meaning.

(** ** Sequences *)

Lemma sequence_length b : is_byte b ->
  nonASCIISequenceLength b =
    (if (b <? 0x80)%Z then 0 else if (b <? 0xE0)%Z then 2 else if (b <? 0xF0)%Z then 3 else if (b <? 0xF5)%Z then 4 else 0)%nat.
Proof.
  intros Hb. apply Nat2Z.inj, Z.eqb_eq.
  by apply (range_check 8 (fun b => Z.of_nat (nonASCIISequenceLength b) =?
    Z.of_nat (if (b <? 0x80)%Z then 0 else if (b <? 0xE0)%Z then 2 else if (b <? 0xF0)%Z then 3 else if (b <? 0xF5)%Z then 4 else 0)%nat)); [vm_compute|].
Qed.

(** Every encoded character is read. *)
Lemma decode_utf8 c rest :
  scalar c -> 0x80 <= c ->
  nonASCIISequenceLength (at_ (utf8 c ++ rest) 0) = length (utf8 c)
  /\ decodeNonASCIISequence (utf8 c ++ rest) (length (utf8 c)) = c.
Proof.
  intros Hc Hge. pose proof (scalar_utf8_bytes c Hc) as Hb. unfold scalar in Hc. revert Hb.
  unfold utf8, cont. repeat casif; bprop; try lia; intros Hb; rewrite !bytes_ok_cons in Hb; destruct_and! Hb;
    unfold decodeNonASCIISequence, outside; at_cbn; cbn [length Nat.eqb]; rewrite sequence_length by done;
    rewrite !Z.shiftl_mul_pow2 by lia.
  all: split; [repeat casif; bprop; try done; dlia|].
  all: repeat match goal with
    | |- context [?a =? ?b] => destruct (Z.eqb_spec a b); try (exfalso; dlia)
    | |- context [?a <? ?b] => destruct (Z.ltb_spec a b); try (exfalso; dlia)
    end; cbn [orb]; dlia.
Qed.

(** What is read is an encoded character. *)
Lemma decode_read b l count :
  bytes_ok (b :: l) -> 0x80 <= b -> nonASCIISequenceLength b = count -> (0 < count <= S (length l))%nat ->
  decodeNonASCIISequence (b :: l) count <> nonCharacter ->
  exists c, scalar c /\ take count (b :: l) = utf8 c /\ decodeNonASCIISequence (b :: l) count = c.
Proof.
  intros Hb Hge Hcount Hlen. pose proof (proj1 (bytes_ok_cons _ _) Hb) as [Hb0 Hl].
  rewrite sequence_length in Hcount by done. revert Hcount.
  repeat casif; intros <-; bprop; try lia; unfold decodeNonASCIISequence, outside; cbn [Nat.eqb];
    rewrite !Z.shiftl_mul_pow2 by lia.
  - destruct l as [|b1 l]; [cbn in Hlen; lia|]. rewrite !bytes_ok_cons in Hb; destruct_and! Hb. at_cbn.
    intros Hd. split_tests Hd. all: try done. cbv [firstn].
    match goal with |- exists c, _ /\ _ /\ ?x = c => exists x end. split_and!; [unfold scalar; dlia|symmetry; solve_utf8|done].
  - destruct l as [|b1 [|b2 l]]; [cbn in Hlen; lia..|]. rewrite !bytes_ok_cons in Hb; destruct_and! Hb. at_cbn.
    intros Hd. split_tests Hd. all: try done. all: cbv [firstn].
    all: match goal with |- exists c, _ /\ _ /\ ?x = c => exists x end; split_and!; [unfold scalar; dlia|symmetry; solve_utf8|done].
  - destruct l as [|b1 [|b2 [|b3 l]]]; [cbn in Hlen; lia..|]. rewrite !bytes_ok_cons in Hb; destruct_and! Hb. at_cbn.
    intros Hd. split_tests Hd. all: try done. all: cbv [firstn].
    all: match goal with |- exists c, _ /\ _ /\ ?x = c => exists x end; split_and!; [unfold scalar; dlia|symmetry; solve_utf8|done].
Qed.

Lemma prefix_reads c b l :
  scalar c -> 0x80 <= b -> utf8 c `prefix_of` b :: l ->
  nonASCIISequenceLength b = length (utf8 c) /\ decodeNonASCIISequence (b :: l) (length (utf8 c)) = c.
Proof.
  intros Hc Hb [k Hk]. rewrite Hk. destruct (decide (0x80 <= c)) as [Hge|Hlt].
  - destruct (decode_utf8 c k Hc Hge) as [H1 H2]. rewrite <- Hk in H1. done.
  - unfold utf8 in Hk. rewrite (proj2 (Z.ltb_lt _ _)) in Hk by lia. injection Hk as -> _. lia.
Qed.

Lemma decode_app l rest count :
  (2 <= count <= 4)%nat -> (count <= length l)%nat ->
  decodeNonASCIISequence (l ++ rest) count = decodeNonASCIISequence l count.
Proof.
  intros Hc Hl. unfold decodeNonASCIISequence.
  assert (forall i, (i < count)%nat -> at_ (l ++ rest) i = at_ l i) as Hat.
  { intros i Hi. unfold at_. by rewrite lookup_app_l by lia. }
  destruct count as [|[|[|[|[|count]]]]]; try lia; cbn [Nat.eqb]; by rewrite !Hat by lia.
Qed.

Lemma sequence_length_range b : is_byte b ->
  nonASCIISequenceLength b = 0%nat \/ (2 <= nonASCIISequenceLength b <= 4)%nat.
Proof. intros Hb. rewrite sequence_length by done. repeat casif; lia. Qed.

(** Where the decoder finds no sequence there is no character. *)
Lemma no_lead b l : 0x80 <= b -> nonASCIISequenceLength b = 0%nat -> no_character (b :: l).
Proof.
  intros Hb H0 c Hc Hp. destruct (prefix_reads c b l Hc Hb Hp) as [H _].
  pose proof (utf8_length_pos c). lia.
Qed.

Lemma not_decoded b l rest count :
  is_byte b -> 0x80 <= b -> nonASCIISequenceLength b = count -> (0 < count <= S (length l))%nat ->
  decodeNonASCIISequence (b :: l) count = nonCharacter -> no_character (b :: l ++ rest).
Proof.
  intros Hbb Hb Hcount Hlen Hd c Hc Hp. destruct (prefix_reads c b _ Hc Hb Hp) as [H1 H2].
  change (b :: l ++ rest) with ((b :: l) ++ rest) in H2. rewrite <- H1, Hcount in H2.
  destruct (sequence_length_range b Hbb); [lia|].
  rewrite decode_app, Hd in H2 by (cbn [length]; lia). unfold nonCharacter, scalar in *. lia.
Qed.

Lemma incomplete b l : 0x80 <= b -> (S (length l) < nonASCIISequenceLength b)%nat -> no_character (b :: l).
Proof.
  intros Hb Hlt c Hc Hp. destruct (prefix_reads c b l Hc Hb Hp) as [H1 _].
  apply prefix_length in Hp. cbn [length] in Hp. lia.
Qed.

(** ** Following a text *)
Section Follows.
Context (stop flush : bool).

(** What comes after a piece: nothing, when it is flushed. *)
Definition later (rest : list Z) : Prop := flush = true -> rest = [].

(** From the text [l] the units [w] are taken, and [q] is left. *)
Definition follows (l w : list Z) (error : bool) (q : list Z) : Prop :=
  forall rest out e, later rest -> decodes stop (q ++ rest) out e -> decodes stop (l ++ rest) (w ++ out) (error || e).

(** From the text [l] the units [w] are taken, then there is an error. *)
Definition stops (l w : list Z) : Prop :=
  forall rest, later rest -> decodes stop (l ++ rest) w true.

Definition bad_head (l : list Z) : Prop := forall rest, later rest -> no_character (l ++ rest).

Lemma follows_refl l : follows l [] false l.
Proof. intros rest out e _ H. done. Qed.

Lemma follows_trans l w error q w' error' q' :
  follows l w error q -> follows q w' error' q' -> follows l (w ++ w') (error || error') q'.
Proof. intros H1 H2 rest out e Hl H. rewrite <- app_assoc, <- orb_assoc. by apply H1, H2. Qed.

Lemma follows_stops l w error q w' : follows l w error q -> stops q w' -> stops l (w ++ w').
Proof. intros H1 H2 rest Hl. rewrite <- (orb_true_r error). by apply H1, H2. Qed.

Lemma follows_char c q : scalar c -> follows (utf8 c ++ q) (utf16 c) false q.
Proof. intros Hc rest out e _ H. rewrite <- app_assoc. by constructor. Qed.

Lemma follows_ascii c q : is_byte c -> isASCII c = true -> follows (c :: q) [c] false q.
Proof.
  unfold isASCII. intros Hb Ha. bprop.
  pose proof (follows_char c q) as H. unfold utf8, utf16 in H.
  rewrite !(proj2 (Z.ltb_lt _ _)) in H by lia. apply H. unfold scalar. dlia.
Qed.

Lemma follows_asciis l q : bytes_ok l -> Forall (fun c => isASCII c = true) l -> follows (l ++ q) l false q.
Proof.
  intros Hb H. induction H as [|c l Hc Hl IH]; [apply follows_refl|]. apply bytes_ok_cons in Hb as [Hcb Hb].
  apply (follows_trans (c :: l ++ q) [c] false (l ++ q) l false q); [by apply follows_ascii|by apply IH].
Qed.

Lemma follows_bad b q : stop = false -> bad_head (b :: q) -> follows (b :: q) [0xFFFD] true q.
Proof. intros Hs Hb rest out e Hl H. cbn. eapply decodes_bad; [done|by apply Hb|exact H]. Qed.

Lemma stops_bad b q : stop = true -> bad_head (b :: q) -> stops (b :: q) [].
Proof. intros Hs Hb rest Hl. apply decodes_stop; [done|by apply Hb]. Qed.
End Follows.

(** ** The partial sequence *)

Definition pending (t : TextCodecUTF8) : list Z := take (m_partialSequenceSize t) (m_partialSequence t).

Record wf (n : nat) (t : TextCodecUTF8) : Prop := {
  wf_length : length (m_partialSequence t) = U8_MAX_LENGTH;
  wf_bytes : bytes_ok (m_partialSequence t);
  wf_size : (m_partialSequenceSize t <= n)%nat;
}.

Lemma wf_weaken n m t : (n <= m)%nat -> wf n t -> wf m t.
Proof. intros Hn [H1 H2 H3]. split; [done|done|lia]. Qed.

Lemma utf8_length_pending n t : (n <= 4)%nat -> wf n t -> length (pending t) = m_partialSequenceSize t.
Proof. intros Hn [H1 H2 H3]. unfold pending. rewrite length_take, H1. unfold U8_MAX_LENGTH. lia. Qed.

Lemma pending_cons t : (0 < m_partialSequenceSize t)%nat -> wf 4 t ->
  pending t = at_ (m_partialSequence t) 0 :: tail (pending t).
Proof.
  intros Hs [H1 H2 H3]. unfold pending, U8_MAX_LENGTH in *.
  destruct (m_partialSequence t) as [|b l]; [done|]. destruct (m_partialSequenceSize t); [lia|done].
Qed.

Lemma pending_bytes t n : wf n t -> bytes_ok (pending t).
Proof. intros [H1 H2 H3]. by apply Forall_take. Qed.

Lemma consume_spec n t : (n <= 4)%nat -> wf n t -> (0 < m_partialSequenceSize t)%nat ->
  pending (consumePartialSequenceByte t) = tail (pending t)
  /\ wf (n - 1) (consumePartialSequenceByte t)
  /\ S (m_partialSequenceSize (consumePartialSequenceByte t)) = m_partialSequenceSize t.
Proof.
  intros Hn [H1 H2 H3] Hs. unfold consumePartialSequenceByte, pending, U8_MAX_LENGTH in *. cbn [m_partialSequenceSize m_partialSequence].
  set (s := m_partialSequenceSize t) in *. set (arr := m_partialSequence t) in *.
  assert (length (take (s - 1) (drop 1 arr)) = s - 1)%nat as Hl by (rewrite length_take, length_drop; lia).
  split_and!; [|split|lia].
  - unfold memcpy_at. rewrite take_0. cbn [app]. rewrite take_app_le, take_ge by lia.
    destruct arr; [done|]. destruct s; [lia|]. cbn. by rewrite Nat.sub_0_r, drop_0.
  - cbn [m_partialSequence]. rewrite length_memcpy_at; [done|lia].
  - cbn [m_partialSequence]. unfold memcpy_at. rewrite take_0. cbn [app]. apply bytes_ok_app. split; [by apply Forall_take, Forall_drop|by apply Forall_drop].
  - cbn [m_partialSequenceSize]. lia.
Qed.

Lemma extend_spec t source n :
  wf 4 t -> bytes_ok source -> (n <= length source)%nat -> (m_partialSequenceSize t + n <= 4)%nat ->
  exists t', extend t source n = Some t' /\ pending t' = pending t ++ take n source
    /\ wf (m_partialSequenceSize t + n) t' /\ m_partialSequenceSize t' = (m_partialSequenceSize t + n)%nat.
Proof.
  intros [H1 H2 H3] Hb Hn Hs. unfold extend, U8_MAX_LENGTH in *.
  rewrite (proj2 (Nat.ltb_ge _ _)), (proj2 (Nat.ltb_ge _ _)) by lia. cbn [orb].
  assert (length (take n source) = n) as Hl by (rewrite length_take; lia).
  eexists. split; [done|]. unfold pending. cbn [m_partialSequenceSize m_partialSequence]. split_and!; [|split|done].
  - rewrite <- Hl at 1. apply take_memcpy_at. lia.
  - cbn [m_partialSequence]. rewrite length_memcpy_at; [done|lia].
  - cbn [m_partialSequence]. unfold memcpy_at. rewrite !bytes_ok_app.
    split_and!; [by apply Forall_take|by apply Forall_take|by apply Forall_drop].
  - cbn [m_partialSequenceSize]. lia.
Qed.

Lemma utf8_put_ok capacity destination units :
  (length destination + length units <= capacity)%nat -> put capacity destination units = Some (destination ++ units).
Proof. intros H. unfold put. by rewrite (proj2 (Nat.leb_le _ _)). Qed.

Lemma appendCharacter_ok capacity destination c :
  scalar c -> (length destination + length (utf16 c) <= capacity)%nat ->
  appendCharacter capacity destination c = Some (destination ++ utf16 c).
Proof.
  intros Hc. unfold appendCharacter, U_IS_BMP, utf16, scalar in *.
  destruct (Z.leb_spec c 0xFFFF), (Z.ltb_spec c 0x10000); try lia; intros Hl.
  - replace (u16 c) with c by dlia. by apply utf8_put_ok.
  - rewrite lead_value, trail_value by lia. by apply utf8_put_ok.
Qed.

(** ** One round of [handlePartialSequence] *)

Definition tidy (l : list Z) : bool :=
  match l with
  | a :: b :: _ :: _ => negb ((0xC2 <=? a) && (a <=? 0xDF) && (0x80 <=? b) && (b <=? 0xBF))
  | _ => true
  end.

Lemma tidy_short l : (length l <= 2)%nat -> tidy l = true.
Proof. destruct l as [|? [|? [|? ?]]]; cbn; intros; try done. lia. Qed.

Lemma clean_tail x l : clean (x :: l) = true -> clean l = true.
Proof. cbn [clean]. destruct l as [|? [|? ?]]; [done|done|]. intros H. by apply andb_true_iff in H as [_ H]. Qed.

Lemma clean_app a b : clean (a ++ b) = true -> clean b = true.
Proof. induction a as [|x a IH]; [done|]. intros H. by apply IH, (clean_tail x). Qed.

Lemma clean_prefix a b : clean (a ++ b) = true -> clean a = true.
Proof.
  induction a as [|x a IH]; [done|]. cbn [app clean]. intros H. apply andb_true_iff in H as [H1 H2].
  rewrite (IH H2), andb_true_r. by destruct a as [|? [|? ?]].
Qed.

(** The lead of a sequence of four keeps a text tidy. *)
Lemma clean_tidy x l l' :
  is_byte x -> nonASCIISequenceLength x = 4%nat -> clean (x :: l ++ l') = true -> tidy l = true.
Proof.
  intros Hx H4 H. rewrite sequence_length in H4 by done.
  assert (0xF0 <= x < 0xF5) as Hr by (revert H4; repeat casif; bprop; lia).
  destruct l as [|a [|b [|d l]]]; [done..|]. cbn [app clean] in H. apply andb_true_iff in H as [H _].
  rewrite !(proj2 (Z.leb_le _ _)) in H by lia. done.
Qed.

(** A sequence that lacks bytes is tidy. *)
Lemma lead_tidy b l : is_byte b -> (S (length l) < nonASCIISequenceLength b)%nat -> tidy (b :: l) = true.
Proof.
  intros Hb H. rewrite sequence_length in H by done. destruct l as [|b1 [|b2 l]]; [done..|]. cbn [length] in H.
  assert (0xF0 <= b) as Hr by (revert H; repeat casif; bprop; lia).
  cbn [tidy]. rewrite (proj2 (Z.leb_gt b 0xDF)), andb_false_r by lia. done.
Qed.

(** A tidy sequence is used up by the character it begins with. *)
Lemma tidy_length b l c :
  utf8 c `prefix_of` b :: l -> scalar c -> 0x80 <= b -> (length l <= 2)%nat -> tidy (b :: l) = true ->
  length (utf8 c) = 2%nat -> length l = 1%nat.
Proof.
  intros [k Hk] Hc Hb Hl Ht H2. unfold utf8, cont, scalar in *. revert Hk H2. repeat casif; bprop; try done.
  intros Hk _. injection Hk as Hb' Hl'. destruct l as [|b1 [|b2 l]]; [done|done|]. exfalso.
  injection Hl' as Hb1 _. cbn [tidy] in Ht. rewrite !(proj2 (Z.leb_le _ _)) in Ht by dlia. done.
Qed.

Definition steady (q source : list Z) : Prop := tidy q = true /\ (source = [] \/ clean (q ++ source) = true).

(** What one round, or all of them, do with the pending bytes and the source:
    go on, wait for more, or stop. *)
Definition goes_on (stop flush : bool) (l w : list Z) (e : bool) (t : TextCodecUTF8) (source : list Z) : Prop :=
  follows stop flush l w e (pending t ++ source)
  /\ (length w + length (pending t ++ source) <= length l)%nat /\ steady (pending t) source /\ wf 3 t
  /\ (pending t ++ source) `suffix_of` l.
Definition waits (flush : bool) (l w : list Z) (e : bool) (t : TextCodecUTF8) : Prop :=
  flush = false /\ w = [] /\ e = false /\ pending t = l /\ (0 < m_partialSequenceSize t)%nat
  /\ tidy (pending t) = true /\ wf 3 t.
Definition halts (stop flush : bool) (l w : list Z) (e : bool) (t : TextCodecUTF8) : Prop :=
  stop = true /\ e = true /\ stops stop flush l w /\ (0 < m_partialSequenceSize t)%nat.

Definition step_outcome (stop flush : bool) (l : list Z) (n : nat) (dest : list Z) (err : bool) (r : option (state * bool)) : Prop :=
  exists t' w source' e ret, r = Some (t', dest ++ w, source', err || e, ret) /\ bytes_ok source' /\ (length source' <= n)%nat
  /\ (ret = false /\ goes_on stop flush l w e t' source' /\ (length (pending t' ++ source') < length l)%nat
     \/ ret = true /\ (waits flush l w e t' \/ halts stop flush l w e t')).

(** [handleError]: the first byte is replaced and consumed, or the decoder
    stops. *)
Lemma error_outcome (stop flush : bool) capacity t n dest source err :
  (length source <= n)%nat ->
  wf 4 t -> (0 < m_partialSequenceSize t)%nat -> bytes_ok source ->
  bad_head flush (pending t ++ source) -> steady (tail (pending t)) source ->
  (length dest + 1 <= capacity)%nat ->
  step_outcome stop flush (pending t ++ source) n dest err
    ('(t, destination) ← handleError capacity stop t dest; Some (t, destination, source, true, stop)).
Proof.
  intros Hn Hwf Hs Hb Hbad Hst Hcap. unfold handleError. rewrite (pending_cons t) in * by done.
  cbn [app tail] in *. destruct stop; cbn [mbind option_bind].
  - exists t, [], source, true, true. rewrite app_nil_r, orb_true_r. split_and!; [done|done|done|].
    right. split; [done|]. right. split_and!; [done|done|by apply stops_bad|done].
  - rewrite utf8_put_ok by done. cbn [mbind option_bind].
    destruct (consume_spec 4 t) as (Hp & Hwf' & Hsize); [lia|done|done|].
    rewrite (pending_cons t) in Hp by done. cbn [tail] in Hp.
    exists (consumePartialSequenceByte t), [0xFFFD], source, true, false. rewrite orb_true_r.
    split_and!; [done|done|done|]. left. unfold goes_on. rewrite Hp. cbn [length].
    split_and!; [done|by apply follows_bad|lia|done|exact Hwf'|by apply suffix_cons_r|lia].
Qed.

Lemma bad_head_any flush l : (forall rest, no_character (l ++ rest)) -> bad_head flush l.
Proof. intros H rest _. apply H. Qed.

Lemma ascii_byte c : isASCII c = false -> 0x80 <= c.
Proof. unfold isASCII. intros H. bprop. lia. Qed.

(** A whole sequence is pending. *)
Lemma decoded_outcome (stop flush : bool) capacity t n dest source err count :
  (length source <= n)%nat ->
  wf 4 t -> bytes_ok source -> 0x80 <= at_ (m_partialSequence t) 0 ->
  nonASCIISequenceLength (at_ (m_partialSequence t) 0) = count -> (0 < count <= m_partialSequenceSize t)%nat ->
  (m_partialSequenceSize t <= 3 \/ m_partialSequenceSize t = count)%nat ->
  (tidy (pending t) = true \/ m_partialSequenceSize t = count) ->
  steady (tail (pending t)) source -> (length dest + length (pending t) <= capacity)%nat ->
  step_outcome stop flush (pending t ++ source) n dest err
    (let character := decodeNonASCIISequence (m_partialSequence t) count in
     if character =? nonCharacter then
       '(t, destination) ← handleError capacity stop t dest; Some (t, destination, source, true, stop)
     else destination ← appendCharacter capacity dest character;
          Some (mkCodec (m_partialSequenceSize t - count) (m_partialSequence t), destination, source, err, false)).
Proof.
  intros Hn Hwf Hb Hge Hcount Hsize H3 Ht Hst Hcap. cbv zeta.
  assert (Hs : (0 < m_partialSequenceSize t)%nat) by lia.
  pose proof (pending_cons t Hs Hwf) as Hp. pose proof (pending_bytes t 4 Hwf) as Hpb.
  pose proof (utf8_length_pending 4 t (le_n _) Hwf) as Hlen.
  set (b := at_ (m_partialSequence t) 0) in *. set (l := tail (pending t)) in *.
  assert (is_byte b /\ bytes_ok l) as [Hbb Hlb] by (rewrite Hp, bytes_ok_cons in Hpb; done).
  assert (decodeNonASCIISequence (m_partialSequence t) count = decodeNonASCIISequence (pending t) count) as ->.
  { rewrite <- (take_drop (m_partialSequenceSize t) (m_partialSequence t)) at 1. apply decode_app.
    - destruct (sequence_length_range b Hbb); lia.
    - fold (pending t). lia. }
  destruct (Z.eqb_spec (decodeNonASCIISequence (pending t) count) nonCharacter) as [Hd|Hd].
  - apply error_outcome; try done; [|rewrite Hp in Hcap; cbn in Hcap; lia].
    apply bad_head_any. intros rest. rewrite <- app_assoc, Hp. cbn [app].
    apply (not_decoded b l _ count); try done; [rewrite Hp in Hlen; cbn in Hlen; lia|by rewrite <- Hp].
  - rewrite Hp in Hd. destruct (decode_read b l count) as (c & Hc & Htake & Hdec); try done.
    { by rewrite <- Hp. }
    { rewrite Hp in Hlen. cbn in Hlen. lia. }
    rewrite Hp, Hdec.
    assert (length (utf8 c) = count) as Hlc.
    { rewrite <- Htake, length_take. rewrite Hp in Hlen. cbn [length] in *. lia. }
    assert (m_partialSequenceSize t = count) as Heq.
    { destruct Ht as [Ht|]; [|done]. destruct H3 as [H3|]; [|done].
      assert (length l = m_partialSequenceSize t - 1)%nat as Hll by (rewrite Hp in Hlen; cbn in Hlen; lia).
      destruct (decide (count = 2%nat)) as [H2|H2]; [|destruct (sequence_length_range b Hbb); lia].
      rewrite Hp in Ht. assert (length l = 1%nat); [|lia].
      apply (tidy_length b l c); try done; [|lia|by rewrite Hlc].
      exists (drop count (b :: l)). by rewrite <- Htake, take_drop. }
    assert (b :: l = utf8 c) as Hu.
    { rewrite <- Htake, take_ge; [done|]. rewrite <- Hp, Hlen. lia. }
    rewrite Hu. rewrite appendCharacter_ok; [|done|].
    2: { pose proof (utf16_le_utf8 c). lia. }
    cbn [mbind option_bind]. rewrite Heq, Nat.sub_diag.
    exists (mkCodec 0 (m_partialSequence t)), (utf16 c), source, false, false. rewrite orb_false_r.
    split_and!; [done|done|done|]. left. unfold goes_on. change (pending (mkCodec 0 _)) with (@nil Z). cbn [app].
    rewrite length_app, Hlc. pose proof (utf16_le_utf8 c).
    split_and!; [done|by apply follows_char|lia| |split; [apply Hwf|apply Hwf|cbn; lia]|by apply suffix_app_r|lia].
    split; [done|]. destruct Hst as [_ [->|Hcl]]; [by left|]. right. by apply (clean_app l).
Qed.

Lemma steady_tail b l source : steady (b :: l) source -> (length l <= 2)%nat -> steady l source.
Proof.
  intros [_ Hcl] Hl. split; [by apply tidy_short|]. destruct Hcl as [->|Hcl]; [by left|right].
  by apply (clean_tail b).
Qed.

Lemma partial_step_spec (stop flush : bool) capacity t dest source err :
  wf 3 t -> (0 < m_partialSequenceSize t)%nat -> bytes_ok source -> steady (pending t) source ->
  (length dest + length (pending t ++ source) <= capacity)%nat ->
  step_outcome stop flush (pending t ++ source) (length source) dest err
    (partial_step capacity flush stop t dest source err).
Proof.
  intros Hwf3 Hs Hb Hst Hcap. pose proof (wf_weaken 3 4 t ltac:(lia) Hwf3) as Hwf.
  pose proof (pending_cons t Hs Hwf) as Hp. pose proof (pending_bytes t 4 Hwf) as Hpb.
  pose proof (utf8_length_pending 4 t (le_n _) Hwf) as Hlen. pose proof (wf_size 3 t Hwf3) as Hsize.
  unfold partial_step. cbv zeta.
  set (b := at_ (m_partialSequence t) 0) in *. set (l := tail (pending t)) in *.
  assert (is_byte b /\ bytes_ok l) as [Hbb Hlb] by (rewrite Hp, bytes_ok_cons in Hpb; done).
  assert (length l = m_partialSequenceSize t - 1)%nat as Hll by (rewrite Hp in Hlen; cbn in Hlen; lia).
  assert (steady l source) as Hst' by (apply (steady_tail b); [by rewrite <- Hp|lia]).
  rewrite length_app in Hcap.
  destruct (isASCII b) eqn:Ha.
  { rewrite utf8_put_ok by (cbn; lia). cbn [mbind option_bind].
    destruct (consume_spec 4 t) as (Hpc & _ & Hsc); [lia|done..|]. fold l in Hpc.
    destruct (consume_spec 3 t) as (_ & Hwc & _); [lia|done..|].
    exists (consumePartialSequenceByte t), [b], source, false, false. rewrite orb_false_r.
    split_and!; [done|done|done|]. left. unfold goes_on. rewrite Hpc, Hp. cbn [length app].
    split_and!; [done|by apply follows_ascii|lia|done|by apply (wf_weaken (3 - 1)); [lia|]|by apply suffix_cons_r|lia]. }
  pose proof (ascii_byte b Ha) as Hge.
  destruct (Nat.eqb_spec (nonASCIISequenceLength b) 0) as [H0|H0].
  { apply error_outcome; try done; [|lia]. rewrite Hp. apply bad_head_any. intros rest. by apply no_lead. }
  pose proof (sequence_length_range b Hbb) as Hrange.
  destruct (Nat.ltb_spec (m_partialSequenceSize t) (nonASCIISequenceLength b)) as [Hlt|Hle].
  2: { apply decoded_outcome; try done; [lia|by left; lia|by left; apply Hst|lia]. }
  destruct (Nat.ltb_spec (length source) (nonASCIISequenceLength b - m_partialSequenceSize t)) as [Hshort|Henough].
  - destruct flush; cbn [negb].
    + apply error_outcome; try done; [|lia]. rewrite Hp. intros rest Hl. rewrite (Hl eq_refl), app_nil_r.
      cbn [app]. apply incomplete; [done|]. rewrite length_app. lia.
    + destruct (extend_spec t source (length source)) as (t' & -> & Hp' & Hwf' & Hs'); [done..|lia|].
      cbn [mbind option_bind]. exists t', [], source, false, true. rewrite app_nil_r, orb_false_r.
      split_and!; [done|done|done|]. right. split; [done|]. left. rewrite firstn_all in Hp'.
      split_and!; [done..|lia| |apply (wf_weaken (m_partialSequenceSize t + length source)); [lia|done]].
      rewrite Hp', Hp. cbn [app]. apply lead_tidy; [done|]. rewrite length_app. lia.
  - set (n := (nonASCIISequenceLength b - m_partialSequenceSize t)%nat) in *.
    destruct (extend_spec t source n) as (t' & -> & Hp' & Hwf' & Hs'); [done..|lia|].
    cbn [mbind option_bind].
    assert (m_partialSequenceSize t' = nonASCIISequenceLength b) as Hs'' by lia.
    assert (wf 4 t') as Hwf4 by (apply (wf_weaken (m_partialSequenceSize t + n)); [lia|done]).
    assert (pending t ++ source = pending t' ++ drop n source) as -> by (by rewrite Hp', <- app_assoc, take_drop).
    pose proof (pending_cons t' ltac:(lia) Hwf4) as Hpc'.
    assert (at_ (m_partialSequence t') 0 = b) as Hb'.
    { rewrite Hp', Hp in Hpc'. cbn [app] in Hpc'. congruence. }
    pose proof (utf8_length_pending 4 t' (le_n _) Hwf4) as Hlen'.
    assert (pending t' = b :: l ++ take n source) as Hpt by (by rewrite Hp', Hp).
    assert (length (l ++ take n source) = (nonASCIISequenceLength b - 1)%nat) as Hlt' by (rewrite Hpt in Hlen'; cbn in Hlen'; lia).
    assert (source <> []) as Hne by (destruct source; [cbn in Henough; lia|done]).
    destruct Hst as [_ [->|Hcl]]; [done|]. rewrite Hp in Hcl. cbn [app] in Hcl.
    rewrite <- (take_drop n source) in Hcl. rewrite app_assoc in Hcl.
    rewrite <- Hb' in *. apply decoded_outcome; try done; try lia.
    + rewrite length_drop. lia.
    + by apply Forall_drop.
    + rewrite Hpt. cbn [tail]. split; [|right; by apply (clean_tail _ _ Hcl)].
      destruct (decide (nonASCIISequenceLength (at_ (m_partialSequence t') 0) = 4%nat)) as [H4|H4].
      * by apply (clean_tidy (at_ (m_partialSequence t') 0) _ (drop n source)).
      * apply tidy_short. lia.
Qed.

(** ** The whole of [handlePartialSequence] *)

(** Only the pending bytes are left. *)
Definition rests (stop flush : bool) (l w : list Z) (e : bool) (t : TextCodecUTF8) : Prop :=
  follows stop flush l w e (pending t) /\ (length w + length (pending t) <= length l)%nat
  /\ tidy (pending t) = true /\ wf 3 t /\ pending t `suffix_of` l.

Definition handled (stop flush : bool) (l : list Z) (n : nat) (dest : list Z) (err : bool) (r : option state) : Prop :=
  exists t' w source' e, r = Some (t', dest ++ w, source', err || e) /\ bytes_ok source' /\ (length source' <= n)%nat
  /\ (m_partialSequenceSize t' = 0%nat /\ goes_on stop flush l w e t' source'
     \/ flush = false /\ (0 < m_partialSequenceSize t')%nat /\ rests stop flush l w e t'
     \/ halts stop flush l w e t').

Lemma handled_after stop flush l w e l' n' n dest err r :
  (n' <= n)%nat ->
  follows stop flush l w e l' -> (length w + length l' <= length l)%nat -> l' `suffix_of` l ->
  handled stop flush l' n' (dest ++ w) (err || e) r -> handled stop flush l n dest err r.
Proof.
  intros Hn Hf Hl Hsuf (t' & w' & source' & e' & -> & Hb & Hns & Hcases).
  exists t', (w ++ w'), source', (e || e'). rewrite <- app_assoc, orb_assoc. split_and!; [done|done|lia|].
  unfold goes_on, rests, halts in *. rewrite length_app.
  destruct Hcases as [(H0 & H1 & H2 & H3 & H4 & H5)|[(H0 & Hs & H1 & H2 & H3 & H4 & H5)|(H0 & H1 & H2 & H3)]].
  - left. split_and!; [done|by eapply follows_trans|lia|done|done|by etrans].
  - right. left. split_and!; [done|done|by eapply follows_trans|lia|done|done|by etrans].
  - right. right. subst. rewrite orb_true_r. split_and!; [done|done|by eapply follows_stops|done].
Qed.

Lemma handlePartialSequence_spec (stop flush : bool) fuel capacity t dest source err :
  wf 3 t -> (0 < m_partialSequenceSize t)%nat -> bytes_ok source -> steady (pending t) source ->
  (length dest + length (pending t ++ source) <= capacity)%nat -> (length (pending t ++ source) < fuel)%nat ->
  handled stop flush (pending t ++ source) (length source) dest err
    (handlePartialSequence fuel capacity flush stop t dest source err).
Proof.
  revert t dest source err. induction fuel as [|fuel IH]; intros t dest source err Hwf Hs Hb Hst Hcap Hf; [lia|].
  cbn [handlePartialSequence].
  destruct (partial_step_spec stop flush capacity t dest source err) as (t' & w & source' & e & ret & -> & Hb' & Hns & Hcases); [done..|].
  cbn [mbind option_bind].
  destruct Hcases as [(-> & (Hfol & Hlen & Hst' & Hwf' & Hsuf) & Hlt)|(-> & Hcases)].
  - cbn [orb]. destruct (Nat.eqb_spec (m_partialSequenceSize t') 0) as [H0|H0].
    { exists t', w, source', e. split_and!; [done|done|done|]. left. by repeat split; try apply Hst'; try apply Hwf'. }
    apply (handled_after stop flush _ w e (pending t' ++ source') (length source')); [done|done|lia|done|].
    apply IH; [done|lia|done|done|rewrite length_app; lia|lia].
  - cbn [orb]. destruct Hcases as [(-> & -> & -> & Hp & Hs' & Ht & Hwf')|Hh].
    + exists t', [], source', false. split_and!; [done|done|done|]. right. left. unfold rests. rewrite Hp.
      rewrite Hp in Ht. split_and!; [done|done|apply follows_refl|done|done|done|done].
    + exists t', w, source', e. split_and!; [done|done|done|]. by right; right.
Qed.

(** ** The loop over the source *)
Import FastPathFacts.

Definition loop_read (stop flush : bool) (l : list Z) (dest : list Z) (err : bool) (r : option state) : Prop :=
  exists t' w source' e, r = Some (t', dest ++ w, source', err || e)
  /\ (source' = [] /\ rests stop flush l w e t'
     \/ stop = true /\ e = true /\ stops stop flush l w /\ m_partialSequenceSize t' = 0%nat).

Lemma loop_read_after stop flush l w e l' dest err r :
  follows stop flush l w e l' -> (length w + length l' <= length l)%nat -> l' `suffix_of` l ->
  loop_read stop flush l' (dest ++ w) (err || e) r -> loop_read stop flush l dest err r.
Proof.
  intros Hf Hl Hsuf (t' & w' & source' & e' & -> & Hcases).
  exists t', (w ++ w'), source', (e || e'). rewrite <- app_assoc, orb_assoc. split; [done|].
  unfold rests in *. rewrite length_app.
  destruct Hcases as [(H0 & H1 & H2 & H3 & H4 & H5)|(H0 & H1 & H2 & H3)].
  - left. split_and!; [done|by eapply follows_trans|lia|done|done|by etrans].
  - right. subst. rewrite orb_true_r. split_and!; [done|done|by eapply follows_stops|done].
Qed.

Lemma loop_read_done stop flush t dest err : wf 0 t -> loop_read stop flush [] dest err (Some (t, dest, [], err)).
Proof.
  intros Hwf. exists t, [], [], false. rewrite app_nil_r, orb_false_r. split; [done|]. left. split; [done|].
  pose proof (utf8_length_pending 0 t ltac:(lia) Hwf) as Hl. pose proof (wf_size 0 t Hwf) as Hs.
  unfold rests. destruct (pending t); [|cbn in Hl; lia].
  split_and!; [apply follows_refl|done|done|by apply (wf_weaken 0); [lia|]|done].
Qed.

Lemma ends_later address alignedEnd n k :
  ends address alignedEnd n -> ends (address + k) alignedEnd (n - k).
Proof. intros [H1 H2]. split; [done|lia]. Qed.

Lemma source_loop_spec (stop flush : bool) fuel capacity alignedEnd address t dest source err :
  wf 0 t -> bytes_ok source -> ends address alignedEnd (Z.of_nat (length source)) ->
  (length dest + length source <= capacity)%nat -> (length source <= fuel)%nat ->
  loop_read stop flush source dest err (source_loop fuel capacity stop alignedEnd address t dest source err).
Proof.
  intros Hwf. revert address dest source err. induction fuel as [|fuel IH]; intros address dest source err Hb He Hcap Hf;
    (destruct source as [|c rest]; [by apply loop_read_done|]); [cbn in Hf; lia|].
  cbn [source_loop]. pose proof (proj1 (bytes_ok_cons _ _) Hb) as [Hc Hrest].
  pose proof (ends_later _ _ _ 1 He) as He1. cbn [length] in *.
  replace (Z.of_nat (S (length rest)) - 1) with (Z.of_nat (length rest)) in He1 by lia.
  destruct (isASCII c) eqn:Hac.
  - pose proof (follows_ascii stop flush c rest Hc Hac) as Hfol.
    destruct (isAlignedToMachineWord address) eqn:Hal; rewrite aligned_mod in Hal; bprop.
    + destruct (copy_words_spec (S (length rest)) (c :: rest) address alignedEnd)
        as (copied & source' & broke & -> & [Hsplit Hasc Hw Hend]); [done..|].
      cbn [mbind option_bind]. pose proof (f_equal length Hsplit) as Hlen. rewrite length_app in Hlen. cbn [length] in Hlen.
      rewrite Hsplit, bytes_ok_app in Hb. destruct Hb as [Hbc Hbs].
      rewrite utf8_put_ok by lia. cbn [mbind option_bind]. rewrite Hsplit.
      pose proof (follows_asciis stop flush copied source' Hbc Hasc) as Hfol'.
      apply (loop_read_after stop flush _ copied false source'); [done|rewrite length_app; lia|by apply suffix_app_r|].
      rewrite orb_false_r.
      destruct source' as [|d rest']; [by apply loop_read_done|].
      apply bytes_ok_cons in Hbs as [Hd Hbr]. cbn [length] in Hlen.
      pose proof (ends_later _ _ _ (Z.of_nat (length copied)) He) as He'.
      replace (Z.of_nat (S (length rest)) - Z.of_nat (length copied)) with (Z.of_nat (S (length rest'))) in He' by lia.
      destruct (isASCII d) eqn:Had; cbn [negb].
      * rewrite utf8_put_ok by (rewrite length_app; cbn [length]; lia). cbn [mbind option_bind].
        apply (loop_read_after stop flush _ [d] false rest'); [by apply follows_ascii|done|by apply suffix_cons_r|].
        rewrite orb_false_r. apply IH; [done| |rewrite !length_app; cbn [length]; lia|lia].
        apply (ends_later _ _ _ 1) in He'. by replace (Z.of_nat (S (length rest')) - 1) with (Z.of_nat (length rest')) in He' by lia.
      * apply IH; [by apply bytes_ok_cons|done|rewrite length_app; cbn [length]; lia|].
        destruct copied; [|cbn [length] in *; lia]. injection Hsplit as <- <-. congruence.
    + rewrite utf8_put_ok by (cbn [length]; lia). cbn [mbind option_bind].
      apply (loop_read_after stop flush _ [c] false rest); [done|done|by apply suffix_cons_r|].
      rewrite orb_false_r. apply IH; [done|done|rewrite length_app; cbn [length]; lia|lia].
  - pose proof (ascii_byte c Hac) as Hge. pose proof (sequence_length_range c Hc) as Hrange.
    set (count := nonASCIISequenceLength c) in *.
    destruct (negb (count =? 0)%nat && (S (length rest) <? count)%nat) eqn:Hshort.
    { apply andb_true_iff in Hshort as [_ Hshort]. apply Nat.ltb_lt in Hshort.
      assert (wf 4 (mkCodec 0 (m_partialSequence t))) as Hwf0 by (split; [apply Hwf|apply Hwf|cbn; lia]).
      destruct (extend_spec (mkCodec 0 (m_partialSequence t)) (c :: rest) (S (length rest))) as (t' & -> & Hp & Hwf' & Hs');
        [done|done|done|cbn; lia|]. cbn [mbind option_bind].
      change (pending (mkCodec 0 _)) with (@nil Z) in Hp. change (S (length rest)) with (length (c :: rest)) in Hp.
      rewrite firstn_all in Hp. cbn [app m_partialSequenceSize] in Hp, Hwf', Hs'.
      exists t', [], [], false. rewrite app_nil_r, orb_false_r. split; [done|]. left. split; [done|].
      unfold rests. rewrite Hp. split_and!; [apply follows_refl|done|by apply lead_tidy| |done].
      apply (wf_weaken (0 + S (length rest))); [lia|done]. }
    destruct (Z.eqb_spec (if (count =? 0)%nat then nonCharacter else decodeNonASCIISequence (c :: rest) count) nonCharacter) as [Hn|Hn].
    + assert (bad_head flush (c :: rest)) as Hbad.
      { apply bad_head_any. intros more. cbn [app]. destruct (Nat.eqb_spec count 0) as [H0|H0]; [by apply no_lead|].
        apply (not_decoded c rest more count); try done. apply andb_false_iff in Hshort as [Hz|Hz].
        - done.
        - apply Nat.ltb_ge in Hz. lia. }
      destruct stop eqn:Hstop.
      * exists t, [], (c :: rest), true. rewrite app_nil_r, orb_true_r. split; [done|]. right.
        split_and!; [done|done|by apply stops_bad|]. pose proof (wf_size 0 t Hwf). lia.
      * rewrite utf8_put_ok by (cbn [length]; lia). cbn [mbind option_bind].
        apply (loop_read_after false flush _ [0xFFFD] true rest); [by apply follows_bad|done|by apply suffix_cons_r|].
        rewrite orb_true_r. apply IH; [done|done|rewrite length_app; cbn [length]; lia|lia].
    + destruct (Nat.eqb_spec count 0) as [H0|H0]; [done|]. cbn [negb andb] in Hshort. apply Nat.ltb_ge in Hshort.
      destruct (decode_read c rest count) as (x & Hx & Htake & Hdec); [done|done|done|lia|done|].
      rewrite Hdec. assert (length (utf8 x) = count) as Hlx by (rewrite <- Htake, length_take; cbn [length]; lia).
      pose proof (utf16_le_utf8 x) as Hle.
      rewrite appendCharacter_ok by (done || lia). cbn [mbind option_bind].
      assert (c :: rest = utf8 x ++ drop count (c :: rest)) as Hsplit by (by rewrite <- Htake, take_drop).
      assert (length (drop count (c :: rest)) = S (length rest) - count)%nat as Hld by (by rewrite length_drop).
      rewrite Hsplit at 1.
      apply (loop_read_after stop flush _ (utf16 x) false (drop count (c :: rest)));
        [by apply follows_char|rewrite length_app; lia|by apply suffix_app_r|].
      rewrite orb_false_r. apply IH; [by apply Forall_drop| |rewrite length_app; lia|lia].
      pose proof (ends_later _ _ _ (Z.of_nat count) He) as He'. rewrite Hld.
      by replace (Z.of_nat (S (length rest) - count)) with (Z.of_nat (S (length rest)) - Z.of_nat count) by lia.
Qed.

(** ** A call of [decode] *)

Definition call_outcome (stop flush : bool) (l : list Z) (dest : list Z) (err : bool) (r : option state) : Prop :=
  exists t' w source' e, r = Some (t', dest ++ w, source', err || e)
  /\ (rests stop flush l w e t' /\ (flush = true -> m_partialSequenceSize t' = 0%nat)
     \/ stop = true /\ e = true /\ stops stop flush l w).

Lemma call_after stop flush l w e l' dest err r :
  follows stop flush l w e l' -> (length w + length l' <= length l)%nat -> l' `suffix_of` l ->
  call_outcome stop flush l' (dest ++ w) (err || e) r -> call_outcome stop flush l dest err r.
Proof.
  intros Hf Hl Hsuf (t' & w' & source' & e' & -> & Hcases).
  exists t', (w ++ w'), source', (e || e'). rewrite <- app_assoc, orb_assoc. split; [done|].
  unfold rests in *. rewrite length_app.
  destruct Hcases as [((H1 & H2 & H3 & H4 & H5) & H6)|(H0 & H1 & H2)].
  - left. split_and!; [by eapply follows_trans|lia|done|done|by etrans|done].
  - right. subst. rewrite orb_true_r. split_and!; [done|done|by eapply follows_stops].
Qed.

Lemma pending_none t : m_partialSequenceSize t = 0%nat -> pending t = [].
Proof. intros H. unfold pending. by rewrite H. Qed.

Section Rounds.
Context (stop flush : bool) (capacity : nat) (alignedEnd end_ : Z) (fuel : nat).

Definition aligned (source : list Z) : Prop :=
  ends (end_ - Z.of_nat (length source)) alignedEnd (Z.of_nat (length source)).

(** What a round does once no sequence is pending. *)
Definition second_half (t : TextCodecUTF8) (dest source : list Z) (err : bool) : option state :=
  '(t, destination, source, sawError) ←
    source_loop (length source) capacity stop alignedEnd (end_ - Z.of_nat (length source)) t dest source err;
  if flush && negb (m_partialSequenceSize t =? 0)%nat then
    decode_rounds fuel capacity flush stop alignedEnd end_ t destination source sawError
  else Some (t, destination, source, sawError).

Lemma second_half_spec t dest source err :
  wf 0 t -> bytes_ok source -> aligned source -> (length dest + length source <= capacity)%nat ->
  (source = [] \/ forall t dest err, wf 3 t -> (0 < m_partialSequenceSize t)%nat -> tidy (pending t) = true -> flush = true ->
     (length dest + length (pending t) <= capacity)%nat ->
     call_outcome stop flush (pending t) dest err (decode_rounds fuel capacity flush stop alignedEnd end_ t dest [] err)) ->
  call_outcome stop flush source dest err (second_half t dest source err).
Proof.
  intros Hwf Hb Hal Hcap Hround. unfold second_half.
  destruct (source_loop_spec stop flush (length source) capacity alignedEnd (end_ - Z.of_nat (length source)) t dest source err)
    as (t' & w & source' & e & -> & Hcases); [done..|]. cbn [mbind option_bind].
  destruct Hcases as [(-> & Hr)|(Hs & He & Hst & Hz)].
  - pose proof Hr as (Hf & Hlen & Htidy & Hwf' & Hsuf).
    destruct (flush && _) eqn:Hcont.
    + apply andb_true_iff in Hcont as [Hfl Hsz]. apply negb_true_iff, Nat.eqb_neq in Hsz.
      destruct Hround as [->|Hround].
      { pose proof (utf8_length_pending 3 t' ltac:(lia) Hwf') as Hlp. cbn [length] in Hlen. lia. }
      apply (call_after stop flush _ w e (pending t')); [done..|].
      apply Hround; [done|lia|done|done|rewrite length_app; lia].
    + exists t', w, [], e. split; [done|]. left. split; [done|]. intros ->.
      apply andb_false_iff in Hcont as [|Hsz]; [done|]. by apply negb_false_iff, Nat.eqb_eq in Hsz.
  - rewrite Hz, andb_false_r. exists t', w, source', e. split; [done|]. by right.
Qed.

Lemma utf8_round_spec t dest source err :
  wf 3 t -> bytes_ok source -> aligned source -> (m_partialSequenceSize t = 0%nat \/ steady (pending t) source) ->
  (forall source', bytes_ok source' -> (length source' <= length source)%nat -> aligned source') ->
  (length dest + length (pending t ++ source) <= capacity)%nat ->
  (source = [] \/ forall t dest err, wf 3 t -> (0 < m_partialSequenceSize t)%nat -> tidy (pending t) = true -> flush = true ->
     (length dest + length (pending t) <= capacity)%nat ->
     call_outcome stop flush (pending t) dest err (decode_rounds fuel capacity flush stop alignedEnd end_ t dest [] err)) ->
  call_outcome stop flush (pending t ++ source) dest err
    (decode_rounds (S fuel) capacity flush stop alignedEnd end_ t dest source err).
Proof.
  intros Hwf Hb Hal Hst Halr Hcap Hround. cbn [decode_rounds].
  destruct (Nat.eqb_spec (m_partialSequenceSize t) 0) as [H0|H0]; cbn [negb].
  - cbn [mbind option_bind]. rewrite H0, (pending_none t H0) in *. cbn [Nat.eqb negb app] in *.
    apply second_half_spec; try done. split; [apply Hwf..|lia].
  - destruct Hst as [Hst|Hst]; [done|].
    destruct (handlePartialSequence_spec stop flush (S (m_partialSequenceSize t + length source)) capacity t dest source err)
      as (t' & w & source' & e & -> & Hb' & Hns & Hcases); [done|lia|done..|rewrite length_app, (utf8_length_pending 3) by (done || lia); lia|].
    cbn [mbind option_bind].
    destruct Hcases as [(Hz & Hf & Hlen & Hst' & Hwf' & Hsuf)|[(Hfl & Hpos & Hr)|(Hs & He & Hstp & Hpos)]].
    + rewrite Hz, (pending_none t' Hz) in *. cbn [Nat.eqb negb app] in *.
      apply (call_after stop flush _ w e source'); [done..|].
      apply second_half_spec; [split; [apply Hwf'..|lia]|done|by apply Halr|rewrite length_app; lia|].
      destruct Hround as [->|Hround]; [left; destruct source'; [done|cbn in Hns; lia]|by right].
    + rewrite (proj2 (Nat.eqb_neq _ 0)) by lia. cbn [negb].
      exists t', w, source', e. split; [done|]. left. split; [done|]. by rewrite Hfl.
    + rewrite (proj2 (Nat.eqb_neq _ 0)) by lia. cbn [negb].
      exists t', w, source', e. split; [done|]. by right.
Qed.
End Rounds.

Lemma aligned_all end_ source : aligned (alignToMachineWord end_) end_ source.
Proof. unfold aligned, ends. rewrite align_spec. split; dlia. Qed.

Lemma utf8_decode_spec (stop flush : bool) t address bytes err :
  wf 3 t -> bytes_ok bytes -> (m_partialSequenceSize t = 0%nat \/ steady (pending t) bytes) ->
  exists t' w e, decode t address bytes flush stop err = Some (t', w, err || e)
  /\ (rests stop flush (pending t ++ bytes) w e t' /\ (flush = true -> m_partialSequenceSize t' = 0%nat)
     \/ stop = true /\ e = true /\ stops stop flush (pending t ++ bytes) w).
Proof.
  intros Hwf Hb Hst. unfold decode. set (end_ := address + Z.of_nat (length bytes)).
  set (capacity := (m_partialSequenceSize t + length bytes)%nat).
  assert (length (pending t ++ bytes) = capacity) as Hc by (rewrite length_app, (utf8_length_pending 3) by (done || lia); done).
  destruct (utf8_round_spec stop flush capacity (alignToMachineWord end_) end_ 2 t [] bytes err) as (t' & w & source' & e & -> & Hcases).
  - done.
  - done.
  - apply aligned_all.
  - done.
  - intros. apply aligned_all.
  - cbn [length]. lia.
  - right. intros t0 dest0 err0 Hwf0 Hs0 Ht0 Hfl Hcap0. rewrite <- (app_nil_r (pending t0)) at 1.
    apply utf8_round_spec; [done|constructor|apply aligned_all|by right; split; [|left]|intros; apply aligned_all|by rewrite app_nil_r|by left].
  - cbn [mbind option_bind app]. by exists t', w, e.
Qed.

(** ** A stream *)

(** The pieces of a stream, each at its address; the last one is flushed. *)
Fixpoint decode_pieces (t : TextCodecUTF8) (pieces : list (Z * list Z)) (sawError : bool) : option (TextCodecUTF8 * list Z * bool) :=
  match pieces with
  | [] => Some (t, [], sawError)
  | (address, bytes) :: pieces =>
      '(t, out, sawError) ← decode t address bytes (match pieces with [] => true | _ => false end) false sawError;
      '(t, outs, sawError) ← decode_pieces t pieces sawError;
      Some (t, out ++ outs, sawError)
  end.

Definition text (pieces : list (Z * list Z)) : list Z := concat (map snd pieces).

Lemma utf8_decode_pieces_spec t pieces err :
  wf 3 t -> tidy (pending t) = true -> Forall bytes_ok (map snd pieces) -> pieces <> [] ->
  (m_partialSequenceSize t = 0%nat /\ length pieces = 1%nat \/ clean (pending t ++ text pieces) = true) ->
  exists t' out e, decode_pieces t pieces err = Some (t', out, err || e) /\ m_partialSequenceSize t' = 0%nat
  /\ decodes false (pending t ++ text pieces) out e.
Proof.
  revert t err. induction pieces as [|[address bytes] pieces IH]; intros t err Hwf Htidy Hb Hne Hcl; [done|].
  cbn [map] in Hb. apply Forall_cons_iff in Hb as [Hb0 Hb]. cbn [snd] in Hb0. cbn [decode_pieces].
  set (flush := match pieces with [] => true | _ => false end).
  unfold text in *. cbn [map concat snd] in *.
  destruct (utf8_decode_spec false flush t address bytes err) as (t' & w & e & -> & Hcases); [done|done| |].
  { destruct Hcl as [[H0 _]|Hcl]; [by left|]. destruct (decide (bytes = [])) as [->|Hbn]; [right; by split; [|left]|].
    destruct (decide (m_partialSequenceSize t = 0%nat)); [by left|]. right. split; [done|]. right.
    rewrite app_assoc in Hcl. by apply clean_prefix in Hcl. }
  destruct Hcases as [((Hf & Hlen & Htidy' & Hwf' & Hsuf) & Hfl)|(? & _)]; [|done].
  cbn [mbind option_bind].
  destruct pieces as [|piece pieces].
  - subst flush. cbn [decode_pieces mbind option_bind map concat]. specialize (Hfl eq_refl).
    exists t', w, e. rewrite !app_nil_r. split_and!; [done|done|].
    specialize (Hf [] [] false (fun _ => eq_refl)). rewrite (pending_none t' Hfl), !app_nil_r, orb_false_r in Hf.
    apply Hf. constructor.
  - destruct (IH t' (err || e)) as (t'' & w' & e' & -> & Hz & Hd); [done|done|done|done| |].
    { right. destruct Hcl as [[_ Hl]|Hcl]; [done|]. destruct Hsuf as [pre Hsuf].
      apply (clean_app pre). by rewrite app_assoc, <- Hsuf, <- app_assoc. }
    cbn [mbind option_bind]. exists t'', (w ++ w'), (e || e'). rewrite orb_assoc. split_and!; [done|done|].
    rewrite app_assoc. apply Hf; [by intros|done].
Qed.

(** ** The meaning is a function *)

Lemma ascii_not_lead c d k l :
  scalar c -> c < 0x80 -> scalar d -> 0x80 <= d -> utf8 c ++ k <> utf8 d ++ l.
Proof.
  intros Hc Hlt Hd Hge Heq. destruct (decode_utf8 d l Hd Hge) as [H1 _]. rewrite <- Heq in H1.
  unfold utf8 at 1 in H1. rewrite (proj2 (Z.ltb_lt _ _)) in H1 by lia. unfold at_ in H1. cbn in H1.
  rewrite sequence_length, (proj2 (Z.ltb_lt _ _)) in H1 by (unfold scalar in Hc; dlia).
  pose proof (utf8_length_pos d). lia.
Qed.

Lemma utf8_prefix_free c c' rest rest' :
  scalar c -> scalar c' -> utf8 c ++ rest = utf8 c' ++ rest' -> c = c' /\ rest = rest'.
Proof.
  intros Hc Hc' H. assert (c = c') as <-; [|by apply app_inv_head in H].
  destruct (Z.lt_ge_cases c 0x80) as [Hlt|Hge], (Z.lt_ge_cases c' 0x80) as [Hlt'|Hge'].
  - unfold utf8 in H. rewrite !(proj2 (Z.ltb_lt _ _)) in H by lia. by injection H.
  - by destruct (ascii_not_lead c c' rest rest').
  - by destruct (ascii_not_lead c' c rest' rest).
  - destruct (decode_utf8 c rest Hc ltac:(lia)) as [Hl Hd], (decode_utf8 c' rest' Hc' ltac:(lia)) as [Hl' Hd'].
    rewrite H in Hl, Hd. rewrite Hl in Hl'. rewrite <- Hl', Hd in Hd'. done.
Qed.

Lemma decodes_functional stop l o e :
  decodes stop l o e -> forall o' e', decodes stop l o' e' -> o' = o /\ e' = e.
Proof.
  induction 1 as [|c rest o e Hc _ IH|b rest o e Hs Hn _ IH|b rest Hs Hn]; intros o' e' H'.
  - inversion H' as [Heq|c r ? ? ? ? Heq| |]; [done|]. pose proof (utf8_length_pos c).
    apply (f_equal length) in Heq. rewrite length_app in Heq. cbn [length] in Heq. lia.
  - inversion H' as [Heq|c' r ? ? Hc' H1 Heq|b' r ? ? Hs Hn H1 Heq|b' r Hs Hn Heq].
    + pose proof (utf8_length_pos c). apply (f_equal length) in Heq. rewrite length_app in Heq. cbn [length] in Heq. lia.
    + destruct (utf8_prefix_free c' c r rest Hc' Hc Heq) as [-> ->]. by destruct (IH _ _ H1) as [-> ->].
    + exfalso. apply (Hn c Hc). rewrite Heq. by apply prefix_app_r.
    + exfalso. apply (Hn c Hc). rewrite Heq. by apply prefix_app_r.
  - inversion H' as [|c' r ? ? Hc' H1 Heq|b' r ? ? Hs' Hn' H1 Heq|]; [|by destruct (IH _ _ H1) as [-> _]|congruence].
    exfalso. apply (Hn c' Hc'). rewrite <- Heq. by apply prefix_app_r.
  - inversion H' as [|c' r ? ? Hc' H1 Heq|b' r ? ? Hs' Hn' H1 Heq|]; [|congruence|done].
    exfalso. apply (Hn c' Hc'). rewrite <- Heq. by apply prefix_app_r.
Qed.

Lemma decodes_utf8s stop cs : Forall scalar cs -> decodes stop (utf8s cs) (utf16s cs) false.
Proof. induction 1; [constructor|]. rewrite utf8s_cons, utf16s_cons. by constructor. Qed.

(** What stopping at the first error means. *)
Lemma decodes_stopped stop l o e : decodes stop l o e -> stop = true ->
  exists cs rest, Forall scalar cs /\ l = utf8s cs ++ rest /\ o = utf16s cs
  /\ (e = false /\ rest = [] \/ e = true /\ rest <> [] /\ no_character rest).
Proof.
  induction 1 as [|c rest o e Hc _ IH|b rest o e Hs|b rest _ Hn]; intros Hstop; [| |by subst|].
  - exists [], []. split_and!; [constructor|done|done|by left].
  - destruct (IH Hstop) as (cs & r & Hcs & -> & -> & Hr). exists (c :: cs), r.
    rewrite utf8s_cons, utf16s_cons, app_assoc. split_and!; [by constructor|done|done|done].
  - exists [], (b :: rest). split_and!; [constructor|done|done|by right].
Qed.

(** ** Encoded text *)

Lemma clean_utf8 c l : scalar c -> clean l = true -> clean (utf8 c ++ l) = true.
Proof.
  intros Hc Hl. unfold scalar in Hc.
  assert (forall x k, x < 0xF0 -> clean k = true -> clean (x :: k) = true) as Hlow.
  { intros x k Hx Hk. cbn [clean]. rewrite Hk, andb_true_r. destruct k as [|a [|b k]]; [done|done|].
    by rewrite (proj2 (Z.leb_gt 0xF0 x)) by lia. }
  unfold utf8, cont. repeat casif; bprop; cbn [app]; repeat (apply Hlow; [dlia|]); try done.
  assert (forall x a k, a < 0xC2 -> clean (a :: k) = true -> clean (x :: a :: k) = true) as Hhigh.
  { intros x a k Ha Hk. remember (a :: k) as k' eqn:Hk'. cbn [clean]. rewrite Hk, andb_true_r, Hk'.
    destruct k as [|b k]; [done|]. by rewrite (proj2 (Z.leb_gt 0xC2 a)), andb_false_r by lia. }
  apply Hhigh; [dlia|]. repeat (apply Hlow; [dlia|]). done.
Qed.

Lemma clean_utf8s cs : Forall scalar cs -> clean (utf8s cs) = true.
Proof. induction 1; [done|]. rewrite utf8s_cons. by apply clean_utf8. Qed.

Lemma cont_of x : u8 (Z.lor (Z.land x 0x3f) 0x80) = cont x.
Proof.
  unfold cont. change 0x3f with (Z.ones 6). rewrite Z.land_ones by lia.
  assert (0 <= x mod 2 ^ 6 < 2 ^ 6) as Hy by dlia. change 64 with (2 ^ 6). revert Hy. generalize (x mod 2 ^ 6) as y.
  intros y Hy. range_brute 6%nat y.
Qed.

Lemma append_utf8 c : scalar c -> U8_APPEND_UNSAFE c = utf8 c.
Proof.
  intros Hc. unfold scalar in Hc. unfold U8_APPEND_UNSAFE, utf8. replace (u32 c) with c by dlia.
  rewrite !cont_of, !Z.shiftr_div_pow2 by lia.
  destruct (Z.leb_spec c 0x7f), (Z.ltb_spec c 0x80); try lia; [f_equal; dlia|].
  destruct (Z.leb_spec c 0x7ff), (Z.ltb_spec c 0x800); try lia.
  { cbn [app]. rewrite lead2 by dlia. done. }
  destruct (Z.leb_spec c 0xffff), (Z.ltb_spec c 0x10000); try lia; cbn [app].
  - by rewrite lead3 by dlia.
  - by rewrite lead4 by dlia.
Qed.

Lemma utf8_encode_loop_spec cs fuel capacity bytes :
  Forall scalar cs -> (length (utf16s cs) <= fuel)%nat -> (length bytes + 3 * length (utf16s cs) <= capacity)%nat ->
  encode_loop fuel capacity (utf16s cs) bytes = Some (bytes ++ utf8s cs).
Proof.
  intros Hcs. revert fuel bytes. induction Hcs as [|c cs Hc Hcs IH]; intros fuel bytes Hf Hcap.
  { destruct fuel; cbn; by rewrite app_nil_r. }
  rewrite utf16s_cons in *. destruct (CodecFacts.utf16_next c (utf16s cs) Hc) as (c0 & tl & Heq & Hnext).
  pose proof (f_equal length Heq) as Hl. rewrite length_app in Hl. cbn [length] in Hl.
  pose proof (utf16_length_pos c). pose proof (utf8_le_3_utf16 c). rewrite length_app in *. rewrite Heq.
  destruct fuel as [|fuel]; [lia|]. cbn [encode_loop]. rewrite Hnext, append_utf8, utf8_put_ok by (done || lia).
  cbn [mbind option_bind]. rewrite IH by (rewrite ?length_app; lia). by rewrite utf8s_cons, <- app_assoc.
Qed.
End UTF8CodecFacts.

(** * Properties *)
Module UTF8CodecProps.
Import UTF8.Spec UTF8Codec UTF8Meaning UTF8CodecFacts.

(** C14: one codec is given a text in pieces, at any addresses, and told to
    replace errors.  It reads and writes inside its buffers, holds nothing at the
    end, and the units and the error flag are what the text means, where it came
    in one piece or has no lead of four bytes followed by a character of two. *)
Theorem utf8_streams (garbage : list Z) (pieces : list (Z * list Z)) :
  length garbage = U8_MAX_LENGTH -> bytes_ok garbage -> Forall bytes_ok (map snd pieces) -> pieces <> [] ->
  (length pieces = 1%nat \/ clean (text pieces) = true) ->
  exists t out error,
    decode_pieces (TextCodecUTF8_new garbage) pieces false = Some (t, out, error) /\ m_partialSequenceSize t = 0%nat
    /\ forall o e, decodes false (text pieces) o e <-> o = out /\ e = error.
Proof.
  intros Hg Hgb Hb Hne Hcl.
  destruct (utf8_decode_pieces_spec (TextCodecUTF8_new garbage) pieces false) as (t & out & e & Ht & Hz & Hd);
    [split; [done|done|cbn; lia]|done|done|done|by destruct Hcl; [left|right]|].
  exists t, out, e. split_and!; [done|done|]. intros o e'. cbn [app] in Hd. split.
  - by apply decodes_functional.
  - by intros [-> ->].
Qed.

(** C38: told to stop at errors, the codec returns the characters before the
    first byte where no character begins, and reports whether there is one. *)
Theorem utf8_stops (garbage : list Z) (address : Z) (bytes : list Z) :
  length garbage = U8_MAX_LENGTH -> bytes_ok garbage -> bytes_ok bytes ->
  exists t cs rest error, decode (TextCodecUTF8_new garbage) address bytes true true false = Some (t, utf16s cs, error)
    /\ Forall scalar cs /\ bytes = utf8s cs ++ rest
    /\ (error = false /\ rest = [] \/ error = true /\ rest <> [] /\ no_character rest).
Proof.
  intros Hg Hgb Hb.
  destruct (utf8_decode_spec true true (TextCodecUTF8_new garbage) address bytes false) as (t & out & e & Ht & Hcases);
    [split; [done|done|cbn; lia]|done|by left|].
  assert (decodes true bytes out e) as Hd.
  { destruct Hcases as [((Hf & _) & Hz)|(_ & -> & Hs)].
    - specialize (Hf [] [] false (fun _ => eq_refl)). rewrite (pending_none t (Hz eq_refl)), !app_nil_r, orb_false_r in Hf.
      apply Hf. constructor.
    - specialize (Hs [] (fun _ => eq_refl)). by rewrite app_nil_r in Hs. }
  destruct (decodes_stopped true bytes out e Hd eq_refl) as (cs & rest & Hcs & Hl & -> & Hr). by exists t, cs, rest, e.
Qed.

(** C39: the encoder writes Unicode's encoding form, inside its buffer, and the
    decoder reads it back without an error however it is cut. *)
Theorem utf8_codec_roundtrip (garbage : list Z) (cs : list Z) (pieces : list (Z * list Z)) :
  length garbage = U8_MAX_LENGTH -> bytes_ok garbage -> Forall scalar cs -> pieces <> [] -> text pieces = utf8s cs ->
  encode (utf16s cs) = Some (text pieces)
  /\ exists t, decode_pieces (TextCodecUTF8_new garbage) pieces false = Some (t, utf16s cs, false).
Proof.
  intros Hg Hgb Hcs Hne Ht. split.
  { rewrite Ht. unfold encode. rewrite utf8_encode_loop_spec; [done|done|lia|cbn [length]; lia]. }
  assert (Forall bytes_ok (map snd pieces)) as Hb.
  { assert (bytes_ok (text pieces)) as Hb.
    { rewrite Ht. clear Ht. induction Hcs; [constructor|]. rewrite utf8s_cons. apply bytes_ok_app. split; [by apply scalar_utf8_bytes|done]. }
    clear Ht Hne. unfold text in Hb. induction (map snd pieces) as [|x l IH]; [constructor|].
    cbn [concat] in Hb. apply bytes_ok_app in Hb as [H1 H2]. constructor; [done|by apply IH]. }
  destruct (utf8_decode_pieces_spec (TextCodecUTF8_new garbage) pieces false) as (t & out & e & Hdec & _ & Hd);
    [split; [done|done|cbn; lia]|done|done|done|right; rewrite Ht; by apply clean_utf8s|].
  cbn [app] in Hd. change (pending _) with (@nil Z) in Hd. cbn [app] in Hd. rewrite Ht in Hd.
  destruct (decodes_functional _ _ _ _ Hd _ _ (decodes_utf8s false cs Hcs)) as [<- <-]. by exists t.
Qed.
End UTF8CodecProps.

Module UTF8CodecWitness.
Import UTF8.Spec UTF8Codec UTF8Meaning UTF8CodecFacts UTF8CodecProps.

Definition garbage : list Z := [0xC3; 0xFF; 1; 2].
Definition results (r : option (TextCodecUTF8 * list Z * bool)) : option (list Z * bool) :=
  '(_, out, error) ← r; Some (out, error).

(** After an invalid lead of four bytes the character of two that follows it is
    subtracted from the size of the pending sequence but not taken out of it:
    the quotation mark is lost when the text is cut before the third byte. *)
Example byte_lost :
  results (decode_pieces (TextCodecUTF8_new garbage) [(0, [0xF0; 0xC3] ++ [0xA9; 34] ++ str "<b>")] false)
    = Some ([0xFFFD; 0xE9; 34] ++ str "<b>", true)
  /\ results (decode_pieces (TextCodecUTF8_new garbage) [(0, [0xF0; 0xC3]); (2, [0xA9; 34] ++ str "<b>")] false)
    = Some ([0xFFFD; 0xE9; 0xFFFD] ++ str "<b>", true).
Proof. by vm_compute. Qed.

Lemma utf8_streams_witness :
  exists t out error,
    decode_pieces (TextCodecUTF8_new garbage) [(5, str "caf" ++ [0xC3]); (0, [0xA9; 0xFF]); (3, [0xF0; 0x9F]); (0, [0x98])] false = Some (t, out, error)
    /\ m_partialSequenceSize t = 0%nat
    /\ forall o e, decodes false (text [(5, str "caf" ++ [0xC3]); (0, [0xA9; 0xFF]); (3, [0xF0; 0x9F]); (0, [0x98])]) o e <-> o = out /\ e = error.
Proof. apply (utf8_streams garbage); [done|by_eval|by_eval|done|right; by vm_compute]. Defined.

Example cut_euro :
  results (decode_pieces (TextCodecUTF8_new garbage) [(5, str "caf" ++ [0xC3]); (0, [0xA9; 0xFF]); (3, [0xF0; 0x9F]); (0, [0x98])] false)
  = Some (str "caf" ++ [0xE9; 0xFFFD; 0xFFFD; 0xFFFD; 0xFFFD], true).
Proof. by vm_compute. Qed.

Lemma utf8_stops_witness :
  exists t cs rest error, decode (TextCodecUTF8_new garbage) 8 (str "abcdefgh" ++ [0xC0; 65]) true true false = Some (t, utf16s cs, error)
    /\ Forall scalar cs /\ str "abcdefgh" ++ [0xC0; 65] = utf8s cs ++ rest
    /\ (error = false /\ rest = [] \/ error = true /\ rest <> [] /\ no_character rest).
Proof. apply (utf8_stops garbage 8); [done|by_eval|by_eval]. Defined.

Lemma utf8_codec_roundtrip_witness :
  encode (utf16s [0x20AC; 0x1F600]) = Some (text [(0, [0xE2; 0x82]); (1, [0xAC; 0xF0; 0x9F]); (4, [0x98; 0x80])])
  /\ exists t, decode_pieces (TextCodecUTF8_new garbage) [(0, [0xE2; 0x82]); (1, [0xAC; 0xF0; 0x9F]); (4, [0x98; 0x80])] false
      = Some (t, utf16s [0x20AC; 0x1F600], false).
Proof. apply (utf8_codec_roundtrip garbage [0x20AC; 0x1F600]); [done|by_eval|by_eval|done|by vm_compute]. Defined.

(** A surrogate on its own is written as three bytes that are not UTF-8. *)
Example lone_surrogate : encode [0xD800] = Some [0xED; 0xA0; 0x80].
Proof. by vm_compute. Qed.
End UTF8CodecWitness.
