(* ===== verification/HTTPResource.v ===== *)
(** * HTTP cache entries (WKC/WebCore/platform/network/WKC/HTTPCacheWKC.cpp)

    [HTTPCachedResource]: what a response is remembered as, when it has to be
    revalidated, how it is written to its file and to the allocation table of
    the cache.  A [double] is its 64-bit pattern, decoded to the IEEE values of
    the Standard Library where the code computes; memory and files are lists of
    bytes.  Fallible memory accesses return an option: [None] is an access
    outside the buffer. *)
From Stdlib Require Import SpecFloat.
From S2P Require Import Prelude UTF8 BlockHash WString.
Import WString.Str.

(** ** Doubles *)
Module Double.

Definition double := Z.
Definition is_double : double -> Prop := in_width 64.

Definition exponent (d : double) : Z := Z.land (Z.shiftr d 52) 0x7FF.
Definition mantissa (d : double) : Z := Z.land d (2 ^ 52 - 1).

Definition isfinite (d : double) : bool := negb (exponent d =? 0x7FF).

Definition decode (d : double) : spec_float :=
  let s := Z.testbit d 63 in
  if exponent d =? 0x7FF then if mantissa d =? 0 then S754_infinity s else S754_nan
  else if exponent d =? 0 then
    if mantissa d =? 0 then S754_zero s else S754_finite s (Z.to_pos (mantissa d)) (-1074)
  else S754_finite s (Z.to_pos (mantissa d + 2 ^ 52)) (exponent d - 1075).

(** [a > b], [a - b], [a * b] in double precision. *)
Definition gt (a b : spec_float) : bool := SFltb b a.
Definition sub : spec_float -> spec_float -> spec_float := SFsub 53 1024.
Definition mul : spec_float -> spec_float -> spec_float := SFmul 53 1024.

Definition tenth : double := 0x3FB999999999999A.

End Double.

(** ** Memory *)
Module Mem.

(** Storing and loading bytes at an offset of a buffer. *)
Definition store (buf : list Z) (off : nat) (src : list Z) : option (list Z) :=
  if (off + length src <=? length buf)%nat then Some (memcpy_at off src buf) else None.

Definition load (buf : list Z) (off n : nat) : option (list Z) :=
  if (off + n <=? length buf)%nat then Some (take n (drop off buf)) else None.

Fixpoint le_value (l : list Z) : Z := match l with [] => 0 | b :: l' => b + 256 * le_value l' end.

(** [*(int* )buffer], [*(long long* )buffer], [*(double* )buffer]. *)
Definition load_int (buf : list Z) (off : nat) : option Z := v ← load buf off 4; Some (s32 (le_value v)).
Definition load_longlong (buf : list Z) (off : nat) : option Z := v ← load buf off 8; Some (s64 (le_value v)).
Definition load_double (buf : list Z) (off : nat) : option Double.double := v ← load buf off 8; Some (le_value v).

Definition store_int (buf : list Z) (off : nat) (x : Z) : option (list Z) := store buf off (le_bytes 4 x).
Definition store_longlong (buf : list Z) (off : nat) (x : Z) : option (list Z) := store buf off (le_bytes 8 x).
Definition store_double (buf : list Z) (off : nat) (x : Double.double) : option (list Z) := store buf off (le_bytes 8 x).

End Mem.

(** ** The entry *)
Module Resource.
Import Double Mem.

(** What the cache asks a [ResourceResponse]. *)
Record ResourceResponse := mkResponse {
  mimeType : String;
  expectedContentLength : Z;
  textEncodingName : String;
  suggestedFilename : String;
  httpStatusCode : Z;
  expires : double;
  date : double;
  lastModified : double;
  lastModifiedField : String;
  eTagField : String;
  cacheControlContainsNoCache : bool;
  cacheControlContainsNoStore : bool;
  cacheControlContainsMustRevalidate : bool;
  cacheControlMaxAge : double
}.

(** The data is kept as the segments of its [SharedBuffer]. *)
Record HTTPCachedResource := mkResource {
  m_url : String;
  m_mimeType : String;
  m_expectedContentLength : Z;
  m_textEncodingName : String;
  m_suggestedFilename : String;
  m_httpStatusCode : Z;
  m_noCache : bool;
  m_mustRevalidate : bool;
  m_expires : double;
  m_maxAge : double;
  m_date : double;
  m_lastModified : double;
  m_lastModifiedHeader : String;
  m_eTagHeader : String;
  m_fileName : String;
  m_resourceData : option (list (list Z));
  m_contentLength : Z;
  m_resourceSize : Z;
  m_used : bool;
  m_httpequivflags : Z
}.

(** The default constructor. *)
Definition HTTPCachedResource_new : HTTPCachedResource :=
  mkResource None None 0 None None 0 false false 0 0 0 0 None None None None 0 0 false 0.

Definition EHTTPEquivNoCache : Z := 0x1.
Definition EHTTPEquivMustRevalidate : Z := 0x2.
Definition EHTTPEquivMaxAge : Z := 0x4.

Definition flag (flags bit : Z) : bool := negb (Z.land flags bit =? 0).

Section Time.
Context (currentTime : double).

Definition setResourceResponse (r : HTTPCachedResource) (response : ResourceResponse) : HTTPCachedResource :=
  mkResource (m_url r)
    (mimeType response) (expectedContentLength response) (textEncodingName response)
    (suggestedFilename response) (httpStatusCode response)
    (if negb (flag (m_httpequivflags r) EHTTPEquivNoCache)
     then cacheControlContainsNoCache response else m_noCache r)
    (if negb (flag (m_httpequivflags r) EHTTPEquivMustRevalidate)
     then m_mustRevalidate r || cacheControlContainsMustRevalidate response else m_mustRevalidate r)
    (expires response)
    (if negb (flag (m_httpequivflags r) EHTTPEquivMaxAge)
     then cacheControlMaxAge response else m_maxAge r)
    (if isfinite (date response) then date response else currentTime)
    (lastModified response)
    (lastModifiedField response) (eTagField response)
    (m_fileName r) (m_resourceData r) (m_contentLength r) (m_resourceSize r) (m_used r) (m_httpequivflags r).

(** The constructor from a URL and a response leaves the two flags and the
    max-age as it finds them: [garbage] is what the memory held. *)
Definition HTTPCachedResource_of (garbage : bool * bool * double) (url : String) (response : ResourceResponse)
    : HTTPCachedResource :=
  let '(noCache, mustRevalidate, maxAge) := garbage in
  setResourceResponse
    (mkResource url None 0 None None 0 noCache mustRevalidate 0 maxAge 0 0 None None None None 0 0 false 0)
    response.

(** RFC 2616, 13.2.4. *)
Definition freshnessLifetime (r : HTTPCachedResource) : spec_float :=
  if isfinite (m_maxAge r) then decode (m_maxAge r)
  else if isfinite (m_expires r) then sub (decode (m_expires r)) (decode (m_date r))
  else if isfinite (m_lastModified r) then
    mul (sub (decode (m_date r)) (decode (m_lastModified r))) (decode tenth)
  else S754_zero false.

Definition isExpired (r : HTTPCachedResource) : bool :=
  gt (sub (decode currentTime) (decode (m_date r))) (freshnessLifetime r).

Definition needRevalidate (r : HTTPCachedResource) : bool :=
  m_mustRevalidate r || m_noCache r || isExpired r.

End Time.

(** Taking a new lifetime: only a finite one that is shorter than a finite old
    one, or replaces one that is not finite. *)
Definition tighten (old new : double) : double :=
  if isfinite new then
    if negb (isfinite old) || gt (decode old) (decode new) then new else old
  else old.

Definition update (r : HTTPCachedResource) (noCache mustRevalidate : bool) (expires maxAge : double)
    (httpequivflags : Z) : HTTPCachedResource :=
  let flags := m_httpequivflags r in
  mkResource (m_url r) (m_mimeType r) (m_expectedContentLength r) (m_textEncodingName r)
    (m_suggestedFilename r) (m_httpStatusCode r)
    (if negb (flag flags EHTTPEquivNoCache) || flag httpequivflags EHTTPEquivNoCache
     then noCache else m_noCache r)
    (if negb (flag flags EHTTPEquivMustRevalidate) || flag httpequivflags EHTTPEquivMustRevalidate
     then mustRevalidate else m_mustRevalidate r)
    (tighten (m_expires r) expires)
    (if negb (flag flags EHTTPEquivMaxAge) || flag httpequivflags EHTTPEquivMaxAge
     then tighten (m_maxAge r) maxAge else m_maxAge r)
    (m_date r) (m_lastModified r) (m_lastModifiedHeader r) (m_eTagHeader r) (m_fileName r)
    (m_resourceData r) (m_contentLength r) (m_resourceSize r) (m_used r) (Z.lor flags httpequivflags).

Definition data_size (data : list (list Z)) : Z := Z.of_nat (length (concat data)).

Definition set_data (r : HTTPCachedResource) (data : option (list (list Z))) (len : Z) : HTTPCachedResource :=
  mkResource (m_url r) (m_mimeType r) (m_expectedContentLength r) (m_textEncodingName r)
    (m_suggestedFilename r) (m_httpStatusCode r) (m_noCache r) (m_mustRevalidate r) (m_expires r) (m_maxAge r)
    (m_date r) (m_lastModified r) (m_lastModifiedHeader r) (m_eTagHeader r) (m_fileName r)
    data len (m_resourceSize r) (m_used r) (m_httpequivflags r).

Definition setResourceData (r : HTTPCachedResource) (data : list (list Z)) : HTTPCachedResource :=
  set_data r (Some data) (data_size data).

Definition setUsed (r : HTTPCachedResource) (used : bool) : HTTPCachedResource :=
  mkResource (m_url r) (m_mimeType r) (m_expectedContentLength r) (m_textEncodingName r)
    (m_suggestedFilename r) (m_httpStatusCode r) (m_noCache r) (m_mustRevalidate r) (m_expires r) (m_maxAge r)
    (m_date r) (m_lastModified r) (m_lastModifiedHeader r) (m_eTagHeader r) (m_fileName r)
    (m_resourceData r) (m_contentLength r) (m_resourceSize r) used (m_httpequivflags r).

(** ** Sizes and serialization *)

Definition ROUNDUP (x y : Z) : Z := Z.quot (x + (y - 1)) y * y.
Definition ROUNDUP_UNIT : Z := 4.

(** [str.utf8()]: the bytes of the lenient conversion; a null CString, which
    only an over-long string gives, has none. *)
Definition utf8_bytes (s : String) : list Z := default [] (utf8 false false (chars s)).
Definition utf8_length (s : String) : Z := Z.of_nat (length (utf8_bytes s)).

Definition fields (r : HTTPCachedResource) : list String :=
  [m_url r; m_mimeType r; m_textEncodingName r; m_suggestedFilename r; m_fileName r;
   m_lastModifiedHeader r; m_eTagHeader r].

Definition string_size (s : String) : Z := 4 + ROUNDUP (utf8_length s) ROUNDUP_UNIT.

Definition resource_size (r : HTTPCachedResource) : Z :=
  ROUNDUP (s32 (8 * 2 + 4 * 3 + 8 * 4 + foldr Z.add 0 (map string_size (fields r)))) ROUNDUP_UNIT.

Definition with_file (r : HTTPCachedResource) (fileName : String) (size : Z) : HTTPCachedResource :=
  mkResource (m_url r) (m_mimeType r) (m_expectedContentLength r) (m_textEncodingName r)
    (m_suggestedFilename r) (m_httpStatusCode r) (m_noCache r) (m_mustRevalidate r) (m_expires r) (m_maxAge r)
    (m_date r) (m_lastModified r) (m_lastModifiedHeader r) (m_eTagHeader r) fileName
    (m_resourceData r) (m_contentLength r) size (m_used r) (m_httpequivflags r).

Definition calcResourceSize (r : HTTPCachedResource) : HTTPCachedResource :=
  with_file r (m_fileName r) (resource_size r).

(** [buffer += writeString(buffer, str)]: the buffer and the next offset. *)
Definition writeString (buf : list Z) (off : nat) (s : String) : option (list Z * nat) :=
  let cstr := utf8_bytes s in
  let len := Z.of_nat (length cstr) in
  buf ← store_int buf off len;
  buf ← (if (0 <? len)%Z then store buf (off + 4) cstr else Some buf);
  Some (buf, off + Z.to_nat (ROUNDUP (len + 4) ROUNDUP_UNIT))%nat.

Fixpoint writeStrings (buf : list Z) (off : nat) (l : list String) : option (list Z * nat) :=
  match l with
  | [] => Some (buf, off)
  | s :: l' => '(buf, off) ← writeString buf off s; writeStrings buf off l'
  end.

(** [serialize(buffer)] at an offset of the buffer: the buffer and the size. *)
Definition serialize (r : HTTPCachedResource) (buf : list Z) (off : nat) : option (list Z * Z) :=
  buf ← store_longlong buf off (m_expectedContentLength r);
  buf ← store_longlong buf (off + 8) (m_contentLength r);
  buf ← store_int buf (off + 16) (m_httpStatusCode r);
  buf ← store_int buf (off + 20) (if m_noCache r then 1 else 0);
  buf ← store_int buf (off + 24) (if m_mustRevalidate r then 1 else 0);
  buf ← store_double buf (off + 28) (m_expires r);
  buf ← store_double buf (off + 36) (m_maxAge r);
  buf ← store_double buf (off + 44) (m_date r);
  buf ← store_double buf (off + 52) (m_lastModified r);
  '(buf, e) ← writeStrings buf (off + 60) (fields r);
  Some (buf, ROUNDUP (Z.of_nat (e - off)) ROUNDUP_UNIT).

(** [buffer += readString(buffer, str)]: a length that is negative or leads
    out of the buffer is an access outside it. *)
Definition readString (buf : list Z) (off : nat) : option (String * nat) :=
  len ← load_int buf off;
  if (len <? 0)%Z then None
  else
    bytes ← load buf (off + 4) (Z.to_nat len);
    Some (fromUTF8 bytes, off + Z.to_nat (ROUNDUP (len + 4) ROUNDUP_UNIT))%nat.

Definition deserialize (r : HTTPCachedResource) (buf : list Z) (off : nat) : option (HTTPCachedResource * Z) :=
  expectedContentLength ← load_longlong buf off;
  contentLength ← load_longlong buf (off + 8);
  httpStatusCode ← load_int buf (off + 16);
  noCache ← load_int buf (off + 20);
  mustRevalidate ← load_int buf (off + 24);
  expires ← load_double buf (off + 28);
  maxAge ← load_double buf (off + 36);
  date ← load_double buf (off + 44);
  lastModified ← load_double buf (off + 52);
  '(url, e) ← readString buf (off + 60);
  '(mimeType, e) ← readString buf e;
  '(textEncodingName, e) ← readString buf e;
  '(suggestedFilename, e) ← readString buf e;
  '(fileName, e) ← readString buf e;
  '(lastModifiedHeader, e) ← readString buf e;
  '(eTagHeader, e) ← readString buf e;
  Some (calcResourceSize
          (mkResource url mimeType expectedContentLength textEncodingName suggestedFilename httpStatusCode
             (negb (noCache =? 0)) (negb (mustRevalidate =? 0)) expires maxAge date lastModified
             lastModifiedHeader eTagHeader fileName (m_resourceData r) contentLength (m_resourceSize r)
             (m_used r) (m_httpequivflags r)),
        ROUNDUP (Z.of_nat (e - off)) ROUNDUP_UNIT).

(** ** The content file *)

Section Files.
(** [wkcFileFWritePeer]: how many bytes its [n]-th call writes of a request,
    negative for an error. *)
Context (fwrite : nat -> Z -> Z).

(** [for (int writelength = length; writelength > 0; writelength -= written)]:
    every call gets the same pointer.  The result is whether the loop ended
    without an error, the number of calls and the content of the file; [None]
    is a run that needs more fuel. *)
Fixpoint write_piece (fuel : nat) (piece : list Z) (writelength : Z) (call : nat) (content : list Z)
    : option (bool * nat * list Z) :=
  if (writelength <=? 0)%Z then Some (true, call, content)
  else
    match fuel with
    | O => None
    | S fuel' =>
        let written := fwrite call writelength in
        if (written <? 0)%Z then Some (false, S call, content)
        else write_piece fuel' piece (writelength - written) (S call)
               (content ++ take (Z.to_nat written) piece)
    end.

(** The loop over the pieces [getSomeData] gives, while data is left: whether it
    reached the end, and the content of the file. *)
Fixpoint write_pieces (fuel : nat) (pieces : list (list Z)) (call : nat) (content : list Z)
    : option (bool * list Z) :=
  match pieces with
  | [] => Some (true, content)
  | piece :: rest =>
      if (data_size pieces <=? 0)%Z then Some (true, content)
      else if (length piece =? 0)%nat then Some (false, content)
      else
        '(ok, call, content) ← write_piece fuel piece (Z.of_nat (length piece)) call content;
        if negb ok then Some (false, content) else write_pieces fuel rest call content
  end.

(** [writeFile(filename, filepath)] with the file opened or not: the entry, the
    content of the file when it was opened, and the result. *)
Definition writeFile (fuel : nat) (opened : bool) (r : HTTPCachedResource) (filename : String)
    : option (HTTPCachedResource * option (list Z) * bool) :=
  match m_resourceData r with
  | None => Some (r, None, false)
  | Some data =>
      if negb opened then Some (r, None, false)
      else
        '(ok, content) ← write_pieces fuel data 0 [];
        if negb ok then Some (r, Some content, false)
        else
          let r := set_data r (Some data) (data_size data) in
          let r := calcResourceSize (with_file r filename (m_resourceSize r)) in
          Some (set_data r None (m_contentLength r), Some content, true)
  end.

(** [wkcFileFReadPeer]: how many bytes its [n]-th call reads of a request. *)
Context (fread : nat -> Z -> Z).

Fixpoint read_loop (fuel : nat) (len : Z) (content : list Z) (call : nat) (out : list Z) : option (list Z) :=
  if (len <=? 0)%Z then Some out
  else
    match fuel with
    | O => None
    | S fuel' =>
        let read := fread call len in
        if (read <? 0)%Z then Some out
        else read_loop fuel' (len - read) (drop (Z.to_nat read) content) (S call)
               (out ++ take (Z.to_nat read) content)
    end.

(** [readFile(buf, filepath)]: [file] is the content of the file, [None] when it
    cannot be opened. *)
Definition readFile (fuel : nat) (r : HTTPCachedResource) (file : option (list Z))
    : option (HTTPCachedResource * list Z * bool) :=
  match file with
  | None => Some (r, [], false)
  | Some content =>
      out ← read_loop fuel (m_contentLength r) content 0 [];
      Some (setUsed r true, out, true)
  end.

End Files.
End Resource.

(** * Facts *)
Module MemFacts.
Import Mem.

(** The bytes [l] are at an offset of the buffer. *)
Definition reads (buf : list Z) (off : nat) (l : list Z) : Prop :=
  (off + length l <= length buf)%nat /\ forall i, (i < length l)%nat -> buf !! (off + i)%nat = l !! i.

(** Two buffers that differ in [a, b) only. *)
Definition agree (a b : nat) (buf buf' : list Z) : Prop :=
  length buf' = length buf /\ forall i, (i < a \/ b <= i)%nat -> buf' !! i = buf !! i.

Lemma agree_refl a b buf : agree a b buf buf.
Proof. by split. Qed.

Lemma agree_trans a b buf1 buf2 buf3 : agree a b buf1 buf2 -> agree a b buf2 buf3 -> agree a b buf1 buf3.
Proof. intros [L1 H1] [L2 H2]. split; [congruence|]. intros i Hi. rewrite H2 by done. by apply H1. Qed.

Lemma agree_wider a b a' b' buf buf' : (a' <= a)%nat -> (b <= b')%nat -> agree a b buf buf' -> agree a' b' buf buf'.
Proof. intros Ha Hb [L H]. split; [done|]. intros i Hi. apply H. lia. Qed.

Lemma reads_agree a b buf buf' off l :
  agree a b buf buf' -> (off + length l <= a \/ b <= off)%nat -> reads buf off l -> reads buf' off l.
Proof. intros [L H] Hd [Hl Hr]. split; [lia|]. intros i Hi. rewrite H by lia. by apply Hr. Qed.

Lemma store_spec buf off src :
  (off + length src <= length buf)%nat ->
  exists buf', store buf off src = Some buf' /\ reads buf' off src /\ agree off (off + length src) buf buf'.
Proof.
  intros H. exists (memcpy_at off src buf). unfold store. destruct (Nat.leb_spec (off + length src) (length buf)); [|lia].
  pose proof (length_memcpy_at off src buf H) as Hl. split; [done|]. split; split.
  - lia.
  - intros i Hi. unfold memcpy_at. rewrite lookup_app_r by (rewrite length_take; lia).
    rewrite length_take, lookup_app_l by lia. f_equal. lia.
  - done.
  - intros i Hi. unfold memcpy_at. destruct (Nat.lt_ge_cases i off) as [Hlt|Hge].
    + rewrite lookup_app_l by (rewrite length_take; lia). by rewrite lookup_take_lt by lia.
    + rewrite lookup_app_r by (rewrite length_take; lia). rewrite length_take.
      rewrite lookup_app_r by lia. rewrite lookup_drop. f_equal. lia.
Qed.

Lemma load_spec buf off l : reads buf off l -> load buf off (length l) = Some l.
Proof.
  intros [H Hr]. unfold load. destruct (Nat.leb_spec (off + length l) (length buf)); [|lia]. f_equal.
  apply list_eq. intros i. destruct (Nat.lt_ge_cases i (length l)) as [Hi|Hi].
  - rewrite lookup_take_lt by done. rewrite lookup_drop. by apply Hr.
  - rewrite lookup_take_ge by done. by rewrite lookup_ge_None_2.
Qed.

Lemma le_value_le_bytes n x : le_value (le_bytes n x) = x mod 2 ^ (8 * Z.of_nat n).
Proof.
  revert x. induction n as [|n IH]; intros x; [simpl; by rewrite Z.mod_1_r|]. cbn [le_bytes le_value].
  rewrite IH, Z.shiftr_div_pow2 by lia.
  replace (2 ^ (8 * Z.of_nat (S n))) with (2 ^ 8 * 2 ^ (8 * Z.of_nat n)) by (rewrite <- Z.pow_add_r by lia; f_equal; lia).
  assert (0 < 2 ^ (8 * Z.of_nat n)) by (apply Z.pow_pos_nonneg; lia).
  rewrite Z.rem_mul_r by (zpow; lia). unfold wrapN. change 256 with (2 ^ 8). lia.
Qed.

Definition is_s32 (x : Z) : Prop := - 2 ^ 31 <= x < 2 ^ 31.
Definition is_s64 (x : Z) : Prop := - 2 ^ 63 <= x < 2 ^ 63.

Lemma load_int_spec buf off x : is_s32 x -> reads buf off (le_bytes 4 x) -> load_int buf off = Some x.
Proof.
  intros Hx H. unfold load_int. pose proof (load_spec _ _ _ H) as E. rewrite length_le_bytes in E. rewrite E.
  cbn [mbind option_bind]. rewrite le_value_le_bytes. f_equal. unfold is_s32 in Hx. unfold swrapN. dlia.
Qed.

Lemma load_longlong_spec buf off x : is_s64 x -> reads buf off (le_bytes 8 x) -> load_longlong buf off = Some x.
Proof.
  intros Hx H. unfold load_longlong. pose proof (load_spec _ _ _ H) as E. rewrite length_le_bytes in E. rewrite E.
  cbn [mbind option_bind]. rewrite le_value_le_bytes. f_equal. unfold is_s64 in Hx. unfold swrapN. dlia.
Qed.

Lemma load_double_spec buf off x : Double.is_double x -> reads buf off (le_bytes 8 x) -> load_double buf off = Some x.
Proof.
  intros Hx H. unfold load_double. pose proof (load_spec _ _ _ H) as E. rewrite length_le_bytes in E. rewrite E.
  cbn [mbind option_bind]. rewrite le_value_le_bytes. f_equal. unfold Double.is_double in Hx. dlia.
Qed.

End MemFacts.

Module ResourceFacts.
Import Double Mem MemFacts Resource UTF8.Spec.

Lemma ROUNDUP_spec x : 0 <= x -> x <= ROUNDUP x ROUNDUP_UNIT < x + 4 /\ ROUNDUP x ROUNDUP_UNIT mod 4 = 0.
Proof. unfold ROUNDUP, ROUNDUP_UNIT. intros. rewrite Z.quot_div_nonneg by lia. dlia. Qed.

Lemma ROUNDUP_add4 x : 0 <= x -> ROUNDUP (x + 4) ROUNDUP_UNIT = 4 + ROUNDUP x ROUNDUP_UNIT.
Proof. unfold ROUNDUP, ROUNDUP_UNIT. intros. rewrite !Z.quot_div_nonneg by lia. dlia. Qed.

Lemma ROUNDUP_id x : 0 <= x -> x mod 4 = 0 -> ROUNDUP x ROUNDUP_UNIT = x.
Proof. unfold ROUNDUP, ROUNDUP_UNIT. intros. rewrite Z.quot_div_nonneg by lia. dlia. Qed.

Lemma string_size_bounds s : 4 <= string_size s /\ string_size s mod 4 = 0 /\ 4 + utf8_length s <= string_size s.
Proof.
  unfold string_size. pose proof (ROUNDUP_spec (utf8_length s) ltac:(unfold utf8_length; lia)).
  split_and!; [|dlia|lia]. unfold utf8_length in *. lia.
Qed.

(** The size before it is cut to an [int]. *)
Definition raw_size (r : HTTPCachedResource) : Z := 60 + foldr Z.add 0 (map string_size (fields r)).

Lemma strings_size_mod l : foldr Z.add 0 (map string_size l) mod 4 = 0 /\ 0 <= foldr Z.add 0 (map string_size l).
Proof.
  induction l as [|s l [IH1 IH2]]; [done|]. cbn [map foldr]. pose proof (string_size_bounds s) as (H1 & H2 & _).
  split; [dlia|lia].
Qed.

Lemma raw_size_mod r : raw_size r mod 4 = 0 /\ 60 <= raw_size r.
Proof. unfold raw_size. pose proof (strings_size_mod (fields r)) as [H1 H2]. split; [dlia|lia]. Qed.

Lemma resource_size_raw r : raw_size r < 2 ^ 31 -> resource_size r = raw_size r.
Proof.
  intros H. unfold resource_size. change (8 * 2 + 4 * 3 + 8 * 4) with 60. fold (raw_size r).
  pose proof (raw_size_mod r) as [H1 H2].
  replace (s32 (raw_size r)) with (raw_size r) by (unfold swrapN; dlia). by apply ROUNDUP_id; [lia|].
Qed.

(** ** Strings *)

(** A well-formed string that fits. *)
Definition str_ok (s : String) : Prop :=
  exists cs, Forall scalar cs /\ chars s = utf16s cs /\ Z.of_nat (length (utf16s cs)) <= Impl.UINT_MAX / 3.

Lemma str_ok_bytes s : str_ok s -> fromUTF8 (utf8_bytes s) = Some (chars s).
Proof.
  intros (cs & Hcs & Ec & Hmax). unfold utf8_bytes. rewrite Ec.
  rewrite WString.StrFacts.utf8_of_scalars by done. by apply WString.StrFacts.fromUTF8_of_scalars.
Qed.

Definition reads_string (buf : list Z) (off : nat) (s : String) : Prop :=
  reads buf off (le_bytes 4 (utf8_length s)) /\ reads buf (off + 4) (utf8_bytes s).

Definition next_string (off : nat) (s : String) : nat := (off + Z.to_nat (string_size s))%nat.

Lemma writeString_spec buf off s :
  (next_string off s <= length buf)%nat ->
  exists buf', writeString buf off s = Some (buf', next_string off s) /\ reads_string buf' off s /\
    agree off (next_string off s) buf buf'.
Proof.
  intros H. unfold next_string in *. pose proof (string_size_bounds s) as (S1 & S2 & S3).
  unfold writeString, store_int. fold (utf8_length s).
  destruct (store_spec buf off (le_bytes 4 (utf8_length s))) as (b1 & -> & R1 & A1).
  { rewrite length_le_bytes. lia. }
  cbn [mbind option_bind]. rewrite length_le_bytes in A1. rewrite ROUNDUP_add4 by (unfold utf8_length; lia). fold (string_size s).
  assert (off + 4 + length (utf8_bytes s) <= off + Z.to_nat (string_size s))%nat as Hlen by (unfold utf8_length in *; lia).
  destruct (Z.ltb_spec 0 (utf8_length s)) as [Hpos|Hzero].
  - destruct (store_spec b1 (off + 4) (utf8_bytes s)) as (b2 & -> & R2 & A2).
    { destruct A1 as [-> _]. lia. }
    cbn [mbind option_bind]. exists b2. split; [done|]. split; [split; [|done]|].
    + eapply reads_agree; [exact A2| |exact R1]. rewrite length_le_bytes. lia.
    + eapply agree_trans; eapply agree_wider; [| |exact A1| | |exact A2]; lia.
  - cbn [mbind option_bind]. exists b1. split; [done|]. split; [split; [done|]|].
    + assert (utf8_bytes s = []) as -> by (destruct (utf8_bytes s) eqn:E; [done|unfold utf8_length in *; rewrite E in *; simpl in *; lia]).
      destruct A1 as [L1 _]. split; [simpl; lia|]. intros i Hi. simpl in Hi. lia.
    + eapply agree_wider; [| |exact A1]; lia.
Qed.

Lemma readString_spec buf off s :
  str_ok s -> utf8_length s < 2 ^ 31 -> reads_string buf off s ->
  readString buf off = Some (Some (chars s), next_string off s).
Proof.
  intros Hs Hlen [R1 R2]. unfold readString. rewrite (load_int_spec buf off (utf8_length s)); [|unfold is_s32, utf8_length in *; lia|done].
  cbn [mbind option_bind]. destruct (Z.ltb_spec (utf8_length s) 0); [unfold utf8_length in *; lia|].
  assert (Z.to_nat (utf8_length s) = length (utf8_bytes s)) as -> by (unfold utf8_length; lia).
  rewrite (load_spec _ _ _ R2). cbn [mbind option_bind]. rewrite str_ok_bytes by done.
  rewrite ROUNDUP_add4 by lia. by fold (string_size s).
Qed.

(** ** The whole entry *)

Fixpoint string_offsets (off : nat) (l : list String) : nat :=
  match l with [] => off | s :: l' => string_offsets (next_string off s) l' end.

Lemma string_offsets_eq off l : string_offsets off l = (off + Z.to_nat (foldr Z.add 0%Z (map string_size l)))%nat.
Proof.
  revert off. induction l as [|s l IH]; intros off; cbn [string_offsets map foldr]; [lia|].
  rewrite IH. unfold next_string. pose proof (string_size_bounds s). pose proof (strings_size_mod l). lia.
Qed.

Fixpoint reads_strings (buf : list Z) (off : nat) (l : list String) : Prop :=
  match l with [] => True | s :: l' => reads_string buf off s /\ reads_strings buf (next_string off s) l' end.

Lemma reads_string_agree a b buf buf' off s :
  agree a b buf buf' -> (next_string off s <= a \/ b <= off)%nat -> reads_string buf off s -> reads_string buf' off s.
Proof.
  intros A H [R1 R2]. unfold next_string in H. pose proof (string_size_bounds s) as (S1 & S2 & S3).
  split; (eapply reads_agree; [exact A| |done]); rewrite ?length_le_bytes; unfold utf8_length in *; lia.
Qed.

Lemma string_offsets_ge off l : (off <= string_offsets off l)%nat.
Proof. rewrite string_offsets_eq. lia. Qed.

Lemma reads_strings_agree a b buf buf' off l :
  agree a b buf buf' -> (string_offsets off l <= a \/ b <= off)%nat -> reads_strings buf off l -> reads_strings buf' off l.
Proof.
  intros A. revert off. induction l as [|s l IH]; intros off H; [done|]. cbn [reads_strings string_offsets] in *.
  pose proof (string_offsets_ge (next_string off s) l). assert (off <= next_string off s)%nat by (unfold next_string; lia).
  intros [R1 R2]. split; [eapply reads_string_agree; [exact A|lia|done]|]. apply IH; [lia|done].
Qed.

Lemma writeStrings_spec buf off l :
  (string_offsets off l <= length buf)%nat ->
  exists buf', writeStrings buf off l = Some (buf', string_offsets off l) /\ reads_strings buf' off l /\
    agree off (string_offsets off l) buf buf'.
Proof.
  revert buf off. induction l as [|s l IH]; intros buf off H; cbn [writeStrings string_offsets reads_strings] in *.
  { exists buf. split_and!; try done; apply agree_refl. }
  pose proof (string_offsets_ge (next_string off s) l).
  destruct (writeString_spec buf off s) as (b1 & -> & R1 & A1); [lia|]. cbn [mbind option_bind].
  destruct (IH b1 (next_string off s)) as (b2 & -> & R2 & A2); [destruct A1 as [-> _]; done|].
  assert (off <= next_string off s)%nat by (unfold next_string; lia).
  exists b2. split_and!; [done| |done|].
  - eapply reads_string_agree; [exact A2|lia|done].
  - eapply agree_trans; [eapply agree_wider; [| |exact A1]|eapply agree_wider; [| |exact A2]]; lia.
Qed.

(** The number fields, as the bytes they are stored as. *)
Definition numbers (r : HTTPCachedResource) : list (list Z) :=
  [le_bytes 8 (m_expectedContentLength r); le_bytes 8 (m_contentLength r); le_bytes 4 (m_httpStatusCode r);
   le_bytes 4 (if m_noCache r then 1 else 0); le_bytes 4 (if m_mustRevalidate r then 1 else 0);
   le_bytes 8 (m_expires r); le_bytes 8 (m_maxAge r); le_bytes 8 (m_date r); le_bytes 8 (m_lastModified r)].

Definition reads_resource (buf : list Z) (off : nat) (r : HTTPCachedResource) : Prop :=
  reads buf off (concat (numbers r)) /\ reads_strings buf (off + 60) (fields r).

Lemma length_numbers r : length (concat (numbers r)) = 60%nat.
Proof. done. Qed.

(** Consecutive stores. *)
Fixpoint stores (buf : list Z) (off : nat) (ls : list (list Z)) : option (list Z) :=
  match ls with [] => Some buf | l :: ls' => buf ← store buf off l; stores buf (off + length l) ls' end.

Lemma reads_app buf off a b : reads buf off (a ++ b) <-> reads buf off a /\ reads buf (off + length a) b.
Proof.
  unfold reads. rewrite length_app. split.
  - intros [H R]. split; (split; [lia|]); intros i Hi.
    + rewrite R by lia. by rewrite lookup_app_l.
    + rewrite <- Nat.add_assoc, R by lia. rewrite lookup_app_r by lia. f_equal. lia.
  - intros [[H1 R1] [H2 R2]]. split; [lia|]. intros i Hi. destruct (Nat.lt_ge_cases i (length a)) as [Hlt|Hge].
    + rewrite R1 by done. by rewrite lookup_app_l.
    + rewrite lookup_app_r by done. rewrite <- R2 by lia. f_equal. lia.
Qed.

Lemma stores_spec buf off ls :
  (off + length (concat ls) <= length buf)%nat ->
  exists buf', stores buf off ls = Some buf' /\ reads buf' off (concat ls) /\
    agree off (off + length (concat ls)) buf buf'.
Proof.
  revert buf off. induction ls as [|l ls IH]; intros buf off H; cbn [stores concat] in *.
  { exists buf. split_and!; [done| |apply agree_refl]. split; [simpl in *; lia|]. intros i Hi. simpl in Hi. lia. }
  rewrite length_app in *. destruct (store_spec buf off l) as (b1 & -> & R1 & A1); [lia|]. cbn [mbind option_bind].
  destruct (IH b1 (off + length l)%nat) as (b2 & -> & R2 & A2); [destruct A1 as [-> _]; lia|].
  exists b2. split_and!; [done| |].
  - apply reads_app. split; [|done]. eapply reads_agree; [exact A2|lia|done].
  - eapply agree_trans; [eapply agree_wider; [| |exact A1]|eapply agree_wider; [| |exact A2]]; lia.
Qed.

Lemma serialize_stores r buf off :
  serialize r buf off =
    buf ← stores buf off (numbers r); '(buf, e) ← writeStrings buf (off + 60) (fields r);
    Some (buf, ROUNDUP (Z.of_nat (e - off)) ROUNDUP_UNIT).
Proof.
  unfold serialize, numbers, store_longlong, store_int, store_double. cbn [stores].
  rewrite !length_le_bytes, <- !Nat.add_assoc. cbn [Nat.add].
  by repeat match goal with |- context [store ?b ?o ?l ≫= _] => destruct (store b o l); cbn [mbind option_bind]; [|done] end.
Qed.

Definition resource_end (off : nat) (r : HTTPCachedResource) : nat := (off + Z.to_nat (raw_size r))%nat.

Lemma strings_end off r : string_offsets (off + 60) (fields r) = resource_end off r.
Proof. rewrite string_offsets_eq. unfold resource_end, raw_size. pose proof (strings_size_mod (fields r)). lia. Qed.

Lemma resource_end_round off r : ROUNDUP (Z.of_nat (resource_end off r - off)) ROUNDUP_UNIT = raw_size r.
Proof.
  pose proof (raw_size_mod r) as [H1 H2]. replace (Z.of_nat (resource_end off r - off)) with (raw_size r)
    by (unfold resource_end; lia). by apply ROUNDUP_id; [lia|].
Qed.

Lemma serialize_spec r buf off :
  (resource_end off r <= length buf)%nat ->
  exists buf', serialize r buf off = Some (buf', raw_size r) /\ reads_resource buf' off r /\
    agree off (resource_end off r) buf buf'.
Proof.
  intros H. pose proof (raw_size_mod r) as [_ Hmin]. rewrite serialize_stores.
  destruct (stores_spec buf off (numbers r)) as (b1 & -> & R1 & A1).
  { rewrite length_numbers. unfold resource_end in H. lia. }
  rewrite length_numbers in A1. cbn [mbind option_bind].
  destruct (writeStrings_spec b1 (off + 60) (fields r)) as (b2 & -> & R2 & A2).
  { rewrite strings_end. destruct A1 as [-> _]. done. }
  rewrite strings_end in *. cbn [mbind option_bind]. rewrite resource_end_round. exists b2. split_and!; [done| |].
  - split; [|done]. eapply reads_agree; [exact A2| |done]. rewrite length_numbers. lia.
  - eapply agree_trans; [eapply agree_wider; [| |exact A1]|eapply agree_wider; [| |exact A2]];
      unfold resource_end in *; lia.
Qed.

(** What a resource holds that survives being written down. *)
Definition resource_ok (r : HTTPCachedResource) : Prop :=
  is_s64 (m_expectedContentLength r) /\ is_s64 (m_contentLength r) /\ is_s32 (m_httpStatusCode r) /\
  Forall is_double [m_expires r; m_maxAge r; m_date r; m_lastModified r] /\
  Forall str_ok (fields r) /\ raw_size r < 2 ^ 31.

(** The entry [r] read back into [r0]: null strings come back empty; the data,
    the used mark and the http-equiv flags are not written. *)
Definition restored (r0 r : HTTPCachedResource) : HTTPCachedResource :=
  let s (x : String) : String := Some (chars x) in
  mkResource (s (m_url r)) (s (m_mimeType r)) (m_expectedContentLength r) (s (m_textEncodingName r))
    (s (m_suggestedFilename r)) (m_httpStatusCode r) (m_noCache r) (m_mustRevalidate r) (m_expires r) (m_maxAge r)
    (m_date r) (m_lastModified r) (s (m_lastModifiedHeader r)) (s (m_eTagHeader r)) (s (m_fileName r))
    (m_resourceData r0) (m_contentLength r) (resource_size r) (m_used r0) (m_httpequivflags r0).

Lemma utf8_length_raw r s : In s (fields r) -> utf8_length s <= raw_size r.
Proof.
  intros H. unfold raw_size. induction (fields r) as [|s' l IH]; [done|]. cbn [map foldr].
  pose proof (string_size_bounds s') as (B1 & _ & B3). pose proof (strings_size_mod l) as [_ M].
  destruct H as [->|H]; [lia|]. specialize (IH H). lia.
Qed.

(** The size only depends on the characters of the strings. *)
Lemma resource_size_same r r' :
  map string_size (fields r') = map string_size (fields r) -> resource_size r' = resource_size r.
Proof. intros E. unfold resource_size. by rewrite E. Qed.

Lemma calcResourceSize_restored r r' :
  map string_size (fields r') = map string_size (fields r) ->
  calcResourceSize r' = with_file r' (m_fileName r') (resource_size r).
Proof. intros E. unfold calcResourceSize. by rewrite (resource_size_same r r'). Qed.

Lemma is_s32_bool (b : bool) : is_s32 (if b then 1 else 0).
Proof. by destruct b. Qed.

Lemma negb_bool_eqb (b : bool) : negb ((if b then 1 else 0) =? 0) = b.
Proof. by destruct b. Qed.

Lemma deserialize_spec r0 r buf off :
  resource_ok r -> reads_resource buf off r -> deserialize r0 buf off = Some (restored r0 r, raw_size r).
Proof.
  intros (O1 & O2 & O3 & O4 & O5 & O6) [RN RS]. unfold numbers in RN. cbn [concat] in RN.
  rewrite !Forall_cons_iff in O4. destruct O4 as (D1 & D2 & D3 & D4 & _).
  pose proof (utf8_length_raw r) as HL. unfold fields in HL. rewrite !reads_app in RN. destruct RN as (N1 & N2 & N3 & N4 & N5 & N6 & N7 & N8 & N9 & _).
  rewrite !length_le_bytes in *. rewrite <- !Nat.add_assoc in *. cbn [Nat.add] in *.
  pose proof (strings_end off r) as HE. unfold fields in O5, RS, HE.
  rewrite !Forall_cons_iff in O5. destruct O5 as (S1 & S2 & S3 & S4 & S5 & S6 & S7 & _).
  cbn [reads_strings string_offsets] in RS, HE. destruct RS as (R1 & R2 & R3 & R4 & R5 & R6 & R7 & _).
  unfold deserialize.
  rewrite (load_longlong_spec _ _ _ O1 N1); cbn [mbind option_bind].
  rewrite (load_longlong_spec _ _ _ O2 N2); cbn [mbind option_bind].
  rewrite (load_int_spec _ _ _ O3 N3); cbn [mbind option_bind].
  rewrite (load_int_spec _ _ _ (is_s32_bool _) N4); cbn [mbind option_bind].
  rewrite (load_int_spec _ _ _ (is_s32_bool _) N5); cbn [mbind option_bind].
  rewrite (load_double_spec _ _ _ D1 N6); cbn [mbind option_bind].
  rewrite (load_double_spec _ _ _ D2 N7); cbn [mbind option_bind].
  rewrite (load_double_spec _ _ _ D3 N8); cbn [mbind option_bind].
  rewrite (load_double_spec _ _ _ D4 N9); cbn [mbind option_bind].
  assert (forall s, In s (fields r) -> utf8_length s < 2 ^ 31) as HB
    by (intros s Hs; pose proof (HL s Hs); lia).
  unfold fields in HB. simpl In in HB.
  rewrite (readString_spec _ _ _ S1) by (auto 10); cbn [mbind option_bind].
  rewrite (readString_spec _ _ _ S2) by (auto 10); cbn [mbind option_bind].
  rewrite (readString_spec _ _ _ S3) by (auto 10); cbn [mbind option_bind].
  rewrite (readString_spec _ _ _ S4) by (auto 10); cbn [mbind option_bind].
  rewrite (readString_spec _ _ _ S5) by (auto 10); cbn [mbind option_bind].
  rewrite (readString_spec _ _ _ S6) by (auto 10); cbn [mbind option_bind].
  rewrite (readString_spec _ _ _ S7) by (auto 10); cbn [mbind option_bind].
  rewrite HE, resource_end_round, !negb_bool_eqb.
  by rewrite (calcResourceSize_restored r) by reflexivity.
Qed.

(** ** Flags *)

Lemma flag_testbit x k : 0 <= k -> flag x (2 ^ k) = Z.testbit x k.
Proof.
  intros Hk. unfold flag. destruct (Z.testbit x k) eqn:E.
  - destruct (Z.eqb_spec (Z.land x (2 ^ k)) 0) as [H|]; [|done]. exfalso.
    pose proof (f_equal (fun y => Z.testbit y k) H) as H'. cbv beta in H'.
    rewrite Z.land_spec, Z.pow2_bits_true, Z.bits_0, E in H' by done. done.
  - destruct (Z.eqb_spec (Z.land x (2 ^ k)) 0) as [|H]; [done|]. exfalso. apply H. apply Z.bits_inj'. intros n Hn.
    rewrite Z.land_spec, Z.bits_0. destruct (decide (n = k)) as [->|Hne]; [by rewrite E|].
    rewrite Z.pow2_bits_false by lia. apply andb_false_r.
Qed.

Definition flags_known : Forall (fun b => exists k, 0 <= k /\ b = 2 ^ k)
  [EHTTPEquivNoCache; EHTTPEquivMustRevalidate; EHTTPEquivMaxAge].
Proof. repeat constructor; [exists 0|exists 1|exists 2]; done. Qed.

Lemma flag_lor a b bit :
  In bit [EHTTPEquivNoCache; EHTTPEquivMustRevalidate; EHTTPEquivMaxAge] ->
  flag (Z.lor a b) bit = flag a bit || flag b bit.
Proof.
  intros H. pose proof flags_known as HF. rewrite List.Forall_forall in HF. destruct (HF bit H) as (k & Hk & ->).
  by rewrite !flag_testbit, Z.lor_spec by done.
Qed.

(** ** The content file *)

Lemma write_piece_full fwrite fuel piece call content :
  (forall n k, 0 < k -> fwrite n k = k) -> (0 < fuel)%nat -> piece <> [] ->
  write_piece fwrite fuel piece (Z.of_nat (length piece)) call content = Some (true, S call, content ++ piece).
Proof.
  intros Hw Hf Hp. destruct fuel as [|fuel]; [lia|]. assert (0 < length piece)%nat by (destruct piece; [done|simpl; lia]).
  cbn [write_piece]. destruct (Z.leb_spec (Z.of_nat (length piece)) 0); [lia|].
  rewrite Hw by lia. destruct (Z.ltb_spec (Z.of_nat (length piece)) 0); [lia|].
  rewrite Z.sub_diag, Nat2Z.id, take_ge by lia. by destruct fuel.
Qed.

Lemma write_pieces_full fwrite fuel pieces call content :
  (forall n k, 0 < k -> fwrite n k = k) -> (0 < fuel)%nat -> Forall (fun p => p <> []) pieces ->
  write_pieces fwrite fuel pieces call content = Some (true, content ++ concat pieces).
Proof.
  intros Hw Hf. revert call content. induction pieces as [|p ps IH]; intros call content Hp; cbn [write_pieces concat].
  { by rewrite app_nil_r. }
  rewrite Forall_cons_iff in Hp. destruct Hp as [Hp Hps]. assert (0 < length p)%nat by (destruct p; [done|simpl; lia]).
  destruct (Z.leb_spec (data_size (p :: ps)) 0); [unfold data_size in *; cbn [concat] in *; rewrite length_app in *; lia|].
  destruct (Nat.eqb_spec (length p) 0); [lia|]. rewrite write_piece_full by done. cbn [mbind option_bind negb].
  rewrite IH by done. by rewrite <- app_assoc.
Qed.

Lemma read_loop_spec fread fuel len content call out :
  (forall n k, 0 < k -> 1 <= fread n k <= k) -> len <= Z.of_nat fuel -> len <= Z.of_nat (length content) ->
  read_loop fread fuel len content call out = Some (out ++ take (Z.to_nat len) content).
Proof.
  intros Hr. revert len content call out. induction fuel as [|fuel IH]; intros len content call out Hf Hl; cbn [read_loop].
  { destruct (Z.leb_spec len 0); [|lia]. replace (Z.to_nat len) with 0%nat by lia. by rewrite app_nil_r. }
  destruct (Z.leb_spec len 0). { replace (Z.to_nat len) with 0%nat by lia. by rewrite app_nil_r. }
  pose proof (Hr call len ltac:(lia)) as Hc. destruct (Z.ltb_spec (fread call len) 0); [lia|].
  rewrite IH by (rewrite ?length_drop; lia). rewrite <- app_assoc. do 2 f_equal.
  rewrite <- (take_drop (Z.to_nat (fread call len)) (take (Z.to_nat len) content)), take_take, Nat.min_l by lia.
  f_equal. rewrite skipn_firstn_comm. f_equal. lia.
Qed.

(** Whatever the results are, as long as no call writes nothing, [writeFile]
    ends, and an entry whose file could not be written is unchanged. *)
Lemma write_piece_total fwrite fuel piece len call content :
  (forall n k, 0 < k -> fwrite n k <> 0) -> len <= Z.of_nat fuel ->
  exists ok call' content', write_piece fwrite fuel piece len call content = Some (ok, call', content').
Proof.
  intros Hw. revert len call content. induction fuel as [|fuel IH]; intros len call content Hf; cbn [write_piece].
  { destruct (Z.leb_spec len 0); [eauto|lia]. }
  destruct (Z.leb_spec len 0); [eauto|]. pose proof (Hw call len ltac:(lia)).
  destruct (Z.ltb_spec (fwrite call len) 0); [eauto|]. apply IH. lia.
Qed.

Lemma write_pieces_total fwrite fuel pieces call content :
  (forall n k, 0 < k -> fwrite n k <> 0) -> (length (concat pieces) <= fuel)%nat ->
  exists ok content', write_pieces fwrite fuel pieces call content = Some (ok, content').
Proof.
  intros Hw. revert call content. induction pieces as [|p ps IH]; intros call content Hf; cbn [write_pieces]; [eauto|].
  cbn [concat] in Hf. rewrite length_app in Hf. destruct (data_size (p :: ps) <=? 0)%Z; [eauto|].
  destruct (length p =? 0)%nat; [eauto|].
  destruct (write_piece_total fwrite fuel p (Z.of_nat (length p)) call content Hw ltac:(lia)) as (ok & call' & content' & ->).
  cbn [mbind option_bind]. destruct ok; cbn [negb]; [|eauto]. apply IH. lia.
Qed.

Definition data_fits (fuel : nat) (r : HTTPCachedResource) : Prop :=
  forall data, m_resourceData r = Some data -> (length (concat data) <= fuel)%nat.

(** The strings of an entry other than the name of its file. *)
Definition labels (r : HTTPCachedResource) : list String :=
  [m_url r; m_mimeType r; m_textEncodingName r; m_suggestedFilename r; m_lastModifiedHeader r; m_eTagHeader r].

Lemma writeFile_total fwrite fuel opened r name :
  (forall n k, 0 < k -> fwrite n k <> 0) -> data_fits fuel r ->
  exists r' content ok, writeFile fwrite fuel opened r name = Some (r', content, ok) /\
    labels r' = labels r /\
    if ok then exists data, m_resourceData r = Some data /\ m_fileName r' = name /\
      m_contentLength r' = data_size data /\ m_resourceSize r' = resource_size r' /\ m_resourceData r' = None
    else r' = r.
Proof.
  intros Hw Hf. unfold writeFile. destruct (m_resourceData r) as [data|] eqn:Ed; [|by exists r, None, false].
  destruct opened; cbn [negb]; [|by exists r, None, false].
  destruct (write_pieces_total fwrite fuel data 0 [] Hw (Hf _ Ed)) as (ok & content & ->). cbn [mbind option_bind].
  destruct ok; cbn [negb]; [|by exists r, (Some content), false].
  eexists _, (Some content), true. split; [reflexivity|]. split_and!; try done. by exists data.
Qed.

End ResourceFacts.

(** * Properties *)
Module ResourceProps.
Import Double Mem MemFacts Resource ResourceFacts.

(** C35: An entry written at an offset of a buffer takes the size
    [calcResourceSize] computes, changes nothing outside those bytes, and is
    read back from them: the same numbers, the characters of the same strings. *)
Theorem resource_roundtrip (r r0 : HTTPCachedResource) (buf : list Z) (off : nat) :
  let size := m_resourceSize (calcResourceSize r) in
  resource_ok r -> (off + Z.to_nat size <= length buf)%nat ->
  exists buf', serialize r buf off = Some (buf', size) /\ agree off (off + Z.to_nat size) buf buf' /\
    deserialize r0 buf' off = Some (restored r0 r, size).
Proof.
  cbn. intros Hok Hlen. destruct Hok as (? & ? & ? & ? & ? & Hraw) eqn:E. rewrite resource_size_raw in * by done.
  destruct (serialize_spec r buf off Hlen) as (buf' & -> & HR & HA). exists buf'. split_and!; [done|done|].
  by apply deserialize_spec.
Qed.

(** Later changes of an entry: a new response, or cache headers without
    http-equiv flags. *)
Inductive change :=
  | NewResponse (currentTime : double) (response : ResourceResponse)
  | Headers (noCache mustRevalidate : bool) (expires maxAge : double).

Definition apply_change (r : HTTPCachedResource) (c : change) : HTTPCachedResource :=
  match c with
  | NewResponse now response => setResourceResponse now r response
  | Headers nc mr e a => update r nc mr e a 0
  end.

Lemma apply_change_flags r c : m_httpequivflags (apply_change r c) = m_httpequivflags r.
Proof. destruct c; [done|]. cbn. apply Z.lor_0_r. Qed.

Lemma changes_flags cs r : m_httpequivflags (fold_left apply_change cs r) = m_httpequivflags r.
Proof. revert r. induction cs as [|c cs IH]; intros r; [done|]. cbn [fold_left]. by rewrite IH, apply_change_flags. Qed.

Lemma changes_keep {A} (get : HTTPCachedResource -> A) bit cs r :
  (forall r c, flag (m_httpequivflags r) bit = true -> get (apply_change r c) = get r) ->
  flag (m_httpequivflags r) bit = true -> get (fold_left apply_change cs r) = get r.
Proof.
  intros Hk. revert r. induction cs as [|c cs IH]; intros r Hf; [done|]. cbn [fold_left].
  rewrite IH by (by rewrite apply_change_flags). by apply Hk.
Qed.

(** What a page demanded with http-equiv is kept: responses and headers that
    come later change neither the demanded no-cache or must-revalidate mark nor
    the max-age, in any order and number. *)
Theorem http_equiv_kept (r : HTTPCachedResource) (noCache mustRevalidate : bool) (expires maxAge : double)
    (flags : Z) (cs : list change) :
  let r1 := update r noCache mustRevalidate expires maxAge flags in
  let r2 := fold_left apply_change cs r1 in
  (flag flags EHTTPEquivNoCache = true -> m_noCache r2 = noCache) /\
  (flag flags EHTTPEquivMustRevalidate = true -> m_mustRevalidate r2 = mustRevalidate) /\
  (flag flags EHTTPEquivMaxAge = true ->
     m_maxAge r2 = tighten (m_maxAge r) maxAge).
Proof.
  intros r1 r2. unfold r2. split_and!; intros Hf.
  - rewrite (changes_keep m_noCache EHTTPEquivNoCache); cbn; rewrite ?flag_lor, ?Hf, ?orb_true_r by (simpl; auto); [done| |done].
    intros r' [] H; cbn; by rewrite H.
  - rewrite (changes_keep m_mustRevalidate EHTTPEquivMustRevalidate); cbn; rewrite ?flag_lor, ?Hf, ?orb_true_r by (simpl; auto); [done| |done].
    intros r' [] H; cbn; by rewrite H.
  - rewrite (changes_keep m_maxAge EHTTPEquivMaxAge); cbn; rewrite ?flag_lor, ?Hf, ?orb_true_r by (simpl; auto); [done| |done].
    intros r' [] H; cbn; by rewrite H.
Qed.

(** With a file system that writes whole requests, and reads at least a byte
    per call, [writeFile] stores the data in its file and [readFile] returns it. *)
Theorem content_roundtrip (fwrite fread : nat -> Z -> Z) (fuel : nat) (r : HTTPCachedResource) (name : String)
    (data : list (list Z)) :
  (forall n k, 0 < k -> fwrite n k = k) -> (forall n k, 0 < k -> 1 <= fread n k <= k) ->
  m_resourceData r = Some data -> Forall (fun p => p <> []) data ->
  (length (concat data) < fuel)%nat ->
  exists r', writeFile fwrite fuel true r name = Some (r', Some (concat data), true) /\
    m_fileName r' = name /\ m_contentLength r' = data_size data /\ m_resourceSize r' = resource_size r' /\
    readFile fread fuel r' (Some (concat data)) = Some (setUsed r' true, concat data, true).
Proof.
  intros Hw Hr Hd Hne Hf. unfold writeFile. rewrite Hd. cbn [negb].
  rewrite write_pieces_full by (done || lia). cbn [mbind option_bind negb app].
  eexists. split; [reflexivity|]. split_and!; [done..|]. unfold readFile.
  cbn [m_contentLength set_data calcResourceSize with_file].
  rewrite read_loop_spec by (unfold data_size; done || lia). cbn [mbind option_bind app].
  unfold data_size. rewrite Nat2Z.id. by rewrite firstn_all.
Qed.

End ResourceProps.

(** * Concrete instances *)
Module ResourceWitness.
Import Double Mem MemFacts Resource ResourceFacts ResourceProps UTF8.Spec.

Definition entry : HTTPCachedResource :=
  mkResource (Some (str "http://example.com/a")) (Some (str "text/html")) 11 None (Some [233; 0x20AC]) 200
    false true 0x7FF8000000000000 0x40AC200000000000 0x41D5000000000000 0x7FF8000000000000 (Some (str "x")) None
    (Some (str "00000007.dcf")) (Some [str "hello "; str "world"]) 11 0 true 2.

Lemma str_ok_eval cs s :
  Forall scalar cs -> chars s = utf16s cs -> (Z.of_nat (length (utf16s cs)) <=? Impl.UINT_MAX / 3) = true -> str_ok s.
Proof. intros H1 H2 H3%Z.leb_le. by exists cs. Qed.

Lemma entry_ok : resource_ok entry.
Proof.
  unfold resource_ok, is_s64, is_s32. split; [vm_compute; split; congruence|]. split; [vm_compute; split; congruence|].
  split; [vm_compute; split; congruence|]. split; [by_eval|]. split.
  - unfold fields, entry. cbn [m_url m_mimeType m_textEncodingName m_suggestedFilename m_fileName m_lastModifiedHeader m_eTagHeader].
    do 7 (apply Forall_cons_iff; split;
      [match goal with |- str_ok ?s => apply (str_ok_eval (chars s)) end; [by_eval|vm_compute; reflexivity|vm_compute; reflexivity]|]).
    constructor.
  - vm_compute. reflexivity.
Qed.

Lemma resource_roundtrip_witness :
  exists buf', serialize entry (replicate 200 7) 20 = Some (buf', 144) /\
    agree 20 164 (replicate 200 7) buf' /\
    deserialize HTTPCachedResource_new buf' 20 = Some (restored HTTPCachedResource_new entry, 144).
Proof.
  pose proof (resource_roundtrip entry HTTPCachedResource_new (replicate 200 7) 20 entry_ok) as H.
  cbv zeta in H. assert (E : m_resourceSize (calcResourceSize entry) = 144) by (vm_compute; reflexivity).
  rewrite E in H. apply H. vm_compute. lia.
Defined.

(** A page asks for no-cache; a later response without cache headers and with
    a longer life does not undo it. *)
Lemma http_equiv_kept_witness :
  let response := mkResponse None 5 None None 200 0 0 0 None None false false false 0x40F0000000000000 in
  let r1 := update entry true false 0 0x4024000000000000 (Z.lor EHTTPEquivNoCache EHTTPEquivMaxAge) in
  let r2 := fold_left apply_change [NewResponse 0 response; Headers false false 0 0x40F0000000000000] r1 in
  m_noCache r2 = true /\ m_maxAge r2 = 0x4024000000000000.
Proof.
  cbv zeta. pose proof (http_equiv_kept entry true false 0 0x4024000000000000 (Z.lor EHTTPEquivNoCache EHTTPEquivMaxAge)
    [NewResponse 0 (mkResponse None 5 None None 200 0 0 0 None None false false false 0x40F0000000000000);
     Headers false false 0 0x40F0000000000000]) as (H1 & _ & H3).
  split; [apply H1|etransitivity; [apply H3|]]; vm_compute; reflexivity.
Defined.

Lemma content_roundtrip_witness :
  exists r', writeFile (fun _ k => k) 20 true entry (Some (str "00000008.dcf")) = Some (r', Some (str "hello world"), true) /\
    m_fileName r' = Some (str "00000008.dcf") /\ m_contentLength r' = 11 /\ m_resourceSize r' = resource_size r' /\
    readFile (fun _ k => Z.min 4 k) 20 r' (Some (str "hello world")) = Some (setUsed r' true, str "hello world", true).
Proof.
  apply (content_roundtrip (fun _ k => k) (fun _ k => Z.min 4 k) 20 entry (Some (str "00000008.dcf")) [str "hello "; str "world"]).
  - done.
  - intros. lia.
  - reflexivity.
  - repeat constructor; discriminate.
  - vm_compute. lia.
Defined.

(** A partial write: the pointer is not advanced, so the beginning is written
    again. *)
Example partial_write_repeats :
  writeFile (fun _ k => Z.min 4 k) 20 true entry None ≫= (fun x => snd (fst x)) = Some (str "hellheworlw").
Proof. vm_compute. reflexivity. Qed.

(** A file shorter than the recorded length: reading 0 bytes for ever needs
    more than any fuel. *)
Example short_file_loops : forall fuel, readFile (fun _ _ => 0) fuel entry (Some []) = None.
Proof.
  intros fuel. unfold readFile. change (m_contentLength entry) with 11.
  enough (forall call out, read_loop (fun _ _ => 0) fuel 11 [] call out = None) as H by by rewrite H.
  induction fuel as [|fuel IH]; intros call out; [done|]. cbn -[Z.sub]. apply IH.
Qed.

End ResourceWitness.
