(* ===== verification/HTTPCache.v ===== *)
(** * The HTTP cache (WKC/WebCore/platform/network/WKC/HTTPCacheWKC.cpp, [HTTPCache])

    The index of the cache: a map from URLs to entries, the list of entries in
    the order they were added, the totals that the limits are checked against,
    and the allocation table (FAT) the index is saved in.  Entries are shared
    by pointer with the resource loader, so the model has an explicit heap;
    using a deleted entry, or an index or offset that is out of range, is
    [None].  The file system and the allocator are peers of the program: the
    class [Peers] gives their answers as functions of the calls made so far,
    and the calls are recorded.

    Theorems: the operations refine an abstract list of entries ([rep]); a
    purge frees what was asked or empties the cache; what is created fits the
    limits; a saved table is read back to the same entries; a damaged table
    empties the cache. *)
From stdpp Require Import gmap.
From S2P Require Import Prelude UTF8 BlockHash MD5 WString KURLParse KURL HTTPResource.
Import WString.Str Double Mem Resource.

(** ** The peers of the cache *)

(** File operations, with the paths as bytes. *)
Inductive FileCall :=
  | Written (path content : list Z)
  | NotOpened (path : list Z)
  | ReadFrom (path : list Z)
  | Unlinked (path : list Z)
  | MadeDirectories (path : list Z).

Class Peers := {
  (** [wkcFileFOpenPeer] returns a descriptor. *)
  peer_open : list FileCall -> list Z -> bool;
  (** [wkcFileFWritePeer]: the result of the n-th call on a descriptor. *)
  peer_write : list FileCall -> nat -> Z -> Z;
  (** [wkcFileFReadPeer]: the content read from a file, and the number returned
      for a single request. *)
  peer_read : list FileCall -> nat -> Z -> Z;
  peer_content : list FileCall -> list Z -> list Z;
  (** [wkcFileFStatPeer]: the size, or an error. *)
  peer_stat : list FileCall -> list Z -> option Z;
  (** [tryFastZeroedMalloc] succeeds. *)
  peer_malloc : list FileCall -> Z -> bool;
  (** [wkcFilePathByAppendingComponentPeer]. *)
  peer_append : list Z -> list Z -> option (list Z);
  (** [listDirectory(path, "*.dcf")]. *)
  peer_list : list FileCall -> list Z -> list String
}.

(** ** The cache and the world it lives in *)
Module Cache.
Import KURLParse.Assemble.

Record HTTPCache := mkCache {
  m_disabled : bool;
  m_resources : gmap (list Z) nat;
  m_resourceList : list nat;
  m_fileNumber : Z;
  m_totalResourceSize : Z;
  m_fatFileName : String;
  m_filePath : String;
  m_limitContentEntries : Z;
  m_limitContentSize : Z;
  m_limitTotalContentsSize : Z;
  m_totalContentsSize : Z
}.

Record World := mkWorld {
  cache : HTTPCache;
  heap : gmap nat HTTPCachedResource;
  next : nat;
  calls : list FileCall
}.

Definition DEFAULT_FAT_FILENAME : String := Some (str "cache.fat").
Definition DEFAULT_FILEPATH : String := Some (str "cache/").
Definition DEFAULT_CONTENTENTRIES_LIMIT : Z := 1024.
Definition DEFAULT_CONTENTSIZE_LIMIT : Z := 10 * 1024 * 1024.
Definition DEFAULT_TOTALCONTENTSSIZE_LIMIT : Z := 10 * 1024 * 1024.

Definition HTTPCache_new : HTTPCache :=
  mkCache false ∅ [] 0 0 DEFAULT_FAT_FILENAME DEFAULT_FILEPATH DEFAULT_CONTENTENTRIES_LIMIT
    DEFAULT_CONTENTSIZE_LIMIT DEFAULT_TOTALCONTENTSSIZE_LIMIT 0.

(** Assigning the fields of the index, the others kept. *)
Definition set_index (c : HTTPCache) (resources : gmap (list Z) nat) (resourceList : list nat)
    (totalResourceSize totalContentsSize : Z) : HTTPCache :=
  mkCache (m_disabled c) resources resourceList (m_fileNumber c) totalResourceSize (m_fatFileName c)
    (m_filePath c) (m_limitContentEntries c) (m_limitContentSize c) (m_limitTotalContentsSize c) totalContentsSize.

Definition set_fileNumber (c : HTTPCache) (n : Z) : HTTPCache :=
  mkCache (m_disabled c) (m_resources c) (m_resourceList c) n (m_totalResourceSize c) (m_fatFileName c)
    (m_filePath c) (m_limitContentEntries c) (m_limitContentSize c) (m_limitTotalContentsSize c)
    (m_totalContentsSize c).

Definition set_limits (c : HTTPCache) (disabled : bool) (entries size total : Z) (filePath : String) : HTTPCache :=
  mkCache disabled (m_resources c) (m_resourceList c) (m_fileNumber c) (m_totalResourceSize c) (m_fatFileName c)
    filePath entries size total (m_totalContentsSize c).

Definition with_cache (w : World) (c : HTTPCache) : World := mkWorld c (heap w) (next w) (calls w).
Definition with_heap (w : World) (h : gmap nat HTTPCachedResource) : World := mkWorld (cache w) h (next w) (calls w).
Definition log (w : World) (l : list FileCall) : World := mkWorld (cache w) (heap w) (next w) (calls w ++ l).

(** [new], [delete] and an assignment through a pointer. *)
Definition alloc (w : World) (r : HTTPCachedResource) : World * nat :=
  (mkWorld (cache w) (<[next w := r]> (heap w)) (S (next w)) (calls w), next w).
Definition free (w : World) (p : nat) : option World :=
  _ ← heap w !! p; Some (with_heap w (delete p (heap w))).
Definition assign (w : World) (p : nat) (f : HTTPCachedResource -> HTTPCachedResource) : option World :=
  r ← heap w !! p; Some (with_heap w (<[p := f r]> (heap w))).

(** The key of an entry in the map. *)
Definition key (r : HTTPCachedResource) : list Z := chars (m_url r).

Section Cache.
Context `{Peers}.

(** WKC/WebCore/platform/WKC/FileSystemWKC.cpp. *)
Definition pathByAppendingComponent (path component : String) : String :=
  match peer_append (utf8_bytes path) (utf8_bytes component) with
  | None => None
  | Some buf => fromUTF8 buf
  end.

Definition unlink (w : World) (name : String) : World :=
  log w [Unlinked (utf8_bytes (pathByAppendingComponent (m_filePath (cache w)) name))].

Fixpoint delete_all (w : World) (l : list nat) : option World :=
  match l with
  | [] => Some w
  | p :: l' => w ← free w p; delete_all w l'
  end.

Definition reset (w : World) : option World :=
  w ← delete_all w (m_resourceList (cache w)); Some (with_cache w (set_index (cache w) ∅ [] 0 0)).

Definition addCachedResource (w : World) (p : nat) : option (World * bool) :=
  let c := cache w in
  if m_disabled c then Some (w, false)
  else
    r ← heap w !! p;
    Some (with_cache w (set_index c (<[key r := p]> (m_resources c)) (m_resourceList c ++ [p])
            (s32 (m_totalResourceSize c + m_resourceSize r)) (s64 (m_totalContentsSize c + m_contentLength r))), true).

Definition updateCachedResource (w : World) (currentTime : double) (p : nat) (data : list (list Z))
    (response : ResourceResponse) (noCache mustRevalidate : bool) (expires maxAge : double) : option World :=
  assign w p (fun r =>
    update (setResourceData (setResourceResponse currentTime r response) data) noCache mustRevalidate expires maxAge 0).

(** The search for the pointer in the list, and its removal. *)
Fixpoint remove_pointer (p : nat) (l : list nat) : list nat :=
  match l with
  | [] => []
  | q :: l' => if (q =? p)%nat then l' else q :: remove_pointer p l'
  end.

Definition removeResource (w : World) (p : nat) : option World :=
  let c := cache w in
  r ← heap w !! p;
  Some (with_cache w (set_index c (delete (key r) (m_resources c)) (remove_pointer p (m_resourceList c))
          (s32 (m_totalResourceSize c - m_resourceSize r)) (s64 (m_totalContentsSize c - m_contentLength r)))).

Definition removeResourceByNumber (w : World) (listNumber : nat) : option World :=
  let c := cache w in
  p ← m_resourceList c !! listNumber;
  r ← heap w !! p;
  let w := with_cache w (set_index c (delete (key r) (m_resources c)) (delete listNumber (m_resourceList c))
             (s32 (m_totalResourceSize c - m_resourceSize r)) (s64 (m_totalContentsSize c - m_contentLength r))) in
  free (unlink w (m_fileName r)) p.

Definition remove (w : World) (p : nat) : option World :=
  w ← removeResource w p;
  r ← heap w !! p;
  free (unlink w (m_fileName r)) p.

Definition detach (w : World) (p : nat) : option World :=
  w ← removeResource w p;
  r ← heap w !! p;
  Some (if (length (chars (m_fileName r)) =? 0)%nat then w else unlink w (m_fileName r)).

Fixpoint unlink_items (w : World) (items : list String) : World :=
  match items with
  | [] => w
  | item :: rest =>
      match peer_append (utf8_bytes (m_filePath (cache w))) (utf8_bytes item) with
      | None => w
      | Some fullpath => unlink_items (log w [Unlinked fullpath]) rest
      end
  end.

Definition removeAll (w : World) : option World :=
  w ← reset w;
  let w := with_cache w (set_fileNumber (cache w) 0) in
  let w := unlink_items w (peer_list (calls w) (utf8_bytes (m_filePath (cache w)))) in
  Some (match peer_append (utf8_bytes (m_filePath (cache w))) (utf8_bytes (m_fatFileName (cache w))) with
        | None => w
        | Some fullpath => log w [Unlinked fullpath]
        end).

Definition setDisabled (w : World) (disabled : bool) : World :=
  let c := cache w in
  with_cache w (set_limits c disabled (m_limitContentEntries c) (m_limitContentSize c)
    (m_limitTotalContentsSize c) (m_filePath c)).

Definition setMaxContentEntries (w : World) (limit : Z) : World :=
  let c := cache w in
  let limit := if (limit <=? 0)%Z then 0x7fffffff else limit in
  with_cache w (set_limits c (m_disabled c) limit (m_limitContentSize c) (m_limitTotalContentsSize c) (m_filePath c)).

Definition setMaxContentSize (w : World) (limit : Z) : World :=
  let c := cache w in
  let limit := if (limit <=? 0)%Z then 0x7fffffffffffffff else limit in
  with_cache w (set_limits c (m_disabled c) (m_limitContentEntries c) limit (m_limitTotalContentsSize c) (m_filePath c)).

(** ** Looking up *)

Definition removeFragmentIdentifierIfNeeded (before : Z) (originalURL : KURL) : KURL :=
  if negb (Access.hasFragmentIdentifier originalURL) then originalURL
  else if negb (m_protocolIsInHTTPFamily originalURL) then originalURL
  else Update.removeFragmentIdentifier before originalURL.

Definition resourceForURL (before : Z) (w : World) (resourceURL : KURL) : option nat :=
  m_resources (cache w) !! m_string (removeFragmentIdentifierIfNeeded before resourceURL).

(** [foldCase] is the platform's case folding. *)
Definition equalIgnoringCase (foldCase : Z -> Z) (a b : list Z) : bool :=
  bool_decide (map foldCase a = map foldCase b).

Definition equalHTTPCachedResourceURL (foldCase : Z -> Z) (before : Z) (r : HTTPCachedResource) (resourceURL : KURL)
    : bool :=
  equalIgnoringCase foldCase (key r) (m_string (removeFragmentIdentifierIfNeeded before resourceURL)).

(** ** File names *)

(** [String::format("%08d.dcf", n)]. *)
Definition format_08d (n : Z) : list Z :=
  let digits := Update.number (Z.abs n) in
  let sign := if (n <? 0)%Z then [45] else [] in
  sign ++ replicate (8 - length sign - length digits) 48 ++ digits.

Definition WKC_INT_MAX : Z := 0x7fffffff.

Definition makeFileName (w : World) : World * String :=
  let n := m_fileNumber (cache w) in
  (with_cache w (set_fileNumber (cache w) (if (n =? WKC_INT_MAX)%Z then 0 else n + 1)),
   Some (format_08d n ++ str ".dcf")).

(** ** Purging *)

(** [for (int num = 0; num < m_resourceList.size(); )] *)
Fixpoint purge_loop (fuel : nat) (w : World) (num : nat) (size purgedSize : Z) : option (World * Z) :=
  if (length (m_resourceList (cache w)) <=? num)%nat then Some (w, purgedSize)
  else
    match fuel with
    | O => None
    | S fuel' =>
        p ← m_resourceList (cache w) !! num;
        r ← heap w !! p;
        if m_used r then purge_loop fuel' w (S num) size purgedSize
        else
          let purgedSize := s64 (purgedSize + m_contentLength r) in
          w ← removeResourceByNumber w num;
          if (size <? purgedSize)%Z then Some (w, purgedSize) else purge_loop fuel' w num size purgedSize
    end.

Definition purgeBySizeInternal (w : World) (size : Z) : option (World * Z) :=
  purge_loop (length (m_resourceList (cache w))) w 0 size 0.

Fixpoint set_unused (w : World) (l : list nat) : option World :=
  match l with
  | [] => Some w
  | p :: l' => w ← assign w p (fun r => setUsed r false); set_unused w l'
  end.

Definition purgeBySize (w : World) (size : Z) : option (World * Z) :=
  '(w, purgedSize) ← purgeBySizeInternal w size;
  if (purgedSize <? size)%Z then
    w ← set_unused w (m_resourceList (cache w));
    '(w, purged) ← purgeBySizeInternal w (size - purgedSize);
    Some (w, s64 (purgedSize + purged))
  else Some (w, purgedSize).

Fixpoint oldest_loop (fuel : nat) (w : World) (num : nat) : option (World * Z) :=
  if (length (m_resourceList (cache w)) <=? num)%nat then Some (w, 0)
  else
    match fuel with
    | O => None
    | S fuel' =>
        p ← m_resourceList (cache w) !! num;
        r ← heap w !! p;
        if m_used r then oldest_loop fuel' w (S num)
        else w ← removeResourceByNumber w num; Some (w, m_contentLength r)
    end.

Definition purgeOldest (w : World) : option (World * Z) :=
  oldest_loop (length (m_resourceList (cache w))) w 0.

(** ** Creating, writing and reading entries *)

(** [garbage] is what the memory of the new entry held. *)
Definition createHTTPCachedResource (before : Z) (currentTime : double) (garbage : bool * bool * double)
    (w : World) (url : KURL) (data : list (list Z)) (response : ResourceResponse) (noCache mustRevalidate : bool)
    (expires maxAge : double) : option (World * option nat) :=
  let c := cache w in
  if m_disabled c then Some (w, None)
  else
    let contentLength := s32 (data_size data) in
    if (m_limitContentSize c <? contentLength)%Z then Some (w, None)
    else if (m_limitTotalContentsSize c <? contentLength)%Z then Some (w, None)
    else
      '(w, purged) ← (if (m_limitTotalContentsSize c <? s64 (m_totalContentsSize c + contentLength))%Z
                      then purgeBySize w contentLength else Some (w, 1));
      if (purged =? 0)%Z then Some (w, None)
      else
        '(w, purged) ← (if (u32 (m_limitContentEntries c) <=? Z.of_nat (length (m_resourceList (cache w))))%Z
                        then purgeOldest w else Some (w, 1));
        if (purged =? 0)%Z then Some (w, None)
        else
          let kurl := removeFragmentIdentifierIfNeeded before url in
          let resource := HTTPCachedResource_of currentTime garbage (Some (m_string kurl)) response in
          let resource := update resource noCache mustRevalidate expires maxAge 0 in
          let '(w, p) := alloc w (setResourceData resource data) in
          Some (w, Some p).

(** [resource->writeFile(filename, m_filePath)] on the file system. *)
Definition writeResourceFile (fuel : nat) (w : World) (p : nat) (filename : String) : option (World * bool) :=
  r ← heap w !! p;
  let path := utf8_bytes (pathByAppendingComponent (m_filePath (cache w)) filename) in
  let opened := peer_open (calls w) path in
  '(r', content, ok) ← writeFile (peer_write (calls w)) fuel opened r filename;
  w ← assign w p (fun _ => r');
  Some (log w (match m_resourceData r, content with
               | None, _ => []
               | _, None => [NotOpened path]
               | _, Some bytes => [Written path bytes]
               end), ok).

Definition write (fuel : nat) (w : World) (p : nat) : option (World * bool) :=
  r ← heap w !! p;
  let contentLength := m_contentLength r in
  '(w, _) ← (if (m_limitTotalContentsSize (cache w) <? s64 (m_totalContentsSize (cache w) + contentLength))%Z
             then purgeBySize w contentLength else Some (w, 0));
  let '(w, filename) := makeFileName w in
  '(w, written) ← writeResourceFile fuel w p filename;
  if negb written then Some (w, false)
  else
    r ← heap w !! p;
    let c := cache w in
    let resources := match m_resources c !! key r with Some _ => m_resources c | None => <[key r := p]> (m_resources c) end in
    Some (with_cache w (set_index c resources (m_resourceList c ++ [p])
            (s32 (m_totalResourceSize c + m_resourceSize r)) (s64 (m_totalContentsSize c + m_contentLength r))), true).

(** The bytes read, and whether the file was opened. *)
Definition read (fuel : nat) (w : World) (p : nat) : option (World * list Z * bool) :=
  r ← heap w !! p;
  let path := utf8_bytes (pathByAppendingComponent (m_filePath (cache w)) (m_fileName r)) in
  let opened := peer_open (calls w) path in
  '(r', out, ok) ← readFile (peer_read (calls w)) fuel r (if opened then Some (peer_content (calls w) path) else None);
  w ← assign w p (fun _ => r');
  Some (log w [if opened then ReadFrom path else NotOpened path], out, ok).

(** ** The allocation table *)

Definition CACHEFAT_FORMAT_VERSION : Z := 3.
Definition MD5_DIGESTSIZE : nat := 16.

Fixpoint serializeFATData (w : World) (l : list nat) (buf : list Z) (off : nat) : option (list Z) :=
  match l with
  | [] => Some buf
  | p :: l' =>
      r ← heap w !! p;
      '(buf, size) ← serialize r buf off;
      serializeFATData w l' buf (off + Z.to_nat size)
  end.

Definition md5_of (data : list Z) : list Z := fst (MD5.Code.checksum (MD5.Code.addBytes MD5.Code.MD5_new data)).

Definition writeDigest (data : list Z) : option (list Z) := store data 0 (md5_of (drop MD5_DIGESTSIZE data)).

Definition verifyDigest (data : list Z) : bool :=
  if (length data <=? MD5_DIGESTSIZE)%nat then false
  else bool_decide (take MD5_DIGESTSIZE data = md5_of (drop MD5_DIGESTSIZE data)).

(** The loop that writes the buffer: what is left, and the content written. *)
Fixpoint fat_write_loop (fuel : nat) (fwrite : nat -> Z -> Z) (call : nat) (len : Z) (buffer content : list Z)
    : option (Z * list Z) :=
  if (len <=? 0)%Z then Some (len, content)
  else
    match fuel with
    | O => None
    | S fuel' =>
        let written := fwrite call len in
        if (written <=? 0)%Z then Some (len, content)
        else fat_write_loop fuel' fwrite (S call) (len - written) (drop (Z.to_nat written) buffer)
               (content ++ take (Z.to_nat written) buffer)
    end.

Definition fat_path (w : World) : list Z :=
  utf8_bytes (pathByAppendingComponent (m_filePath (cache w)) (m_fatFileName (cache w))).

(** The content of the table: version, file number and the entries, behind
    the digest of all of it. *)
Definition fat_image (w : World) (totalSize : Z) : option (list Z) :=
  let buf := replicate (Z.to_nat totalSize) 0 in
  buf ← store_int buf MD5_DIGESTSIZE CACHEFAT_FORMAT_VERSION;
  buf ← store_int buf (MD5_DIGESTSIZE + 4) (m_fileNumber (cache w));
  buf ← serializeFATData w (m_resourceList (cache w)) buf (MD5_DIGESTSIZE + 8);
  writeDigest buf.

Definition writeFATFile (w : World) : option (World * bool) :=
  let totalSize := s32 (4 * 2 + Z.of_nat MD5_DIGESTSIZE + m_totalResourceSize (cache w)) in
  if negb (peer_malloc (calls w) totalSize) then Some (w, false)
  else
    buf ← fat_image w totalSize;
    let path := fat_path w in
    if negb (peer_open (calls w) path) then Some (log w [NotOpened path], false)
    else
      '(len, content) ← fat_write_loop (length buf) (peer_write (calls w)) 0 totalSize buf [];
      Some (log w [Written path content], negb (0 <? len)%Z).

(** [for (; length > 0; length -= read)] *)
Fixpoint deserialize_loop (fuel : nat) (w : World) (buf : list Z) (off : nat) (len : Z) : option World :=
  if (len <=? 0)%Z then Some w
  else
    match fuel with
    | O => None
    | S fuel' =>
        '(r, size) ← deserialize HTTPCachedResource_new buf off;
        let '(w, p) := alloc w r in
        '(w, _) ← addCachedResource w p;
        deserialize_loop fuel' w buf (off + Z.to_nat size) (len - size)
    end.

Definition deserializeFATData (w : World) (buf : list Z) (off : nat) (len : Z) : option World :=
  deserialize_loop (Z.to_nat len) w buf off len.

Definition readFATFile (w : World) : option (World * bool) :=
  let path := fat_path w in
  if negb (peer_open (calls w) path) then Some (log w [NotOpened path], false)
  else
    let before := calls w in
    let w := log w [ReadFrom path] in
    match peer_stat before path with
    | None => Some (w, false)
    | Some st_size =>
        if (st_size <=? Z.of_nat MD5_DIGESTSIZE + 4 * 2)%Z then Some (w, false)
        else if negb (peer_malloc before st_size) then Some (w, false)
        else
          let len := peer_read before 0 st_size in
          let buf := memcpy_at 0 (take (Z.to_nat len) (peer_content before path)) (replicate (Z.to_nat st_size) 0) in
          if (len <? 0)%Z || negb (len =? st_size)%Z then Some (w, false)
          else if negb (verifyDigest (take (Z.to_nat len) buf)) then w ← removeAll w; Some (w, false)
          else
            format_version ← load_int buf MD5_DIGESTSIZE;
            if negb (format_version =? CACHEFAT_FORMAT_VERSION)%Z then w ← removeAll w; Some (w, false)
            else
              fileNumber ← load_int buf (MD5_DIGESTSIZE + 4);
              let w := with_cache w (set_fileNumber (cache w) fileNumber) in
              let len := len - (4 + 4 + Z.of_nat MD5_DIGESTSIZE) in
              if (len <=? 0)%Z then w ← removeAll w; Some (w, false)
              else w ← deserializeFATData w buf (MD5_DIGESTSIZE + 8) len; Some (w, true)
    end.

(** ** Limits and the directory *)

Definition setMaxTotalCacheSize (w : World) (limit : Z) : option World :=
  let c := cache w in
  let limit := if (limit <=? 0)%Z then 0x7fffffffffffffff else limit in
  let w := with_cache w (set_limits c (m_disabled c) (m_limitContentEntries c) (m_limitContentSize c) limit (m_filePath c)) in
  if (limit <? m_totalContentsSize c)%Z then
    '(w, _) ← purgeBySize w (m_totalContentsSize c - limit);
    '(w, _) ← writeFATFile w;
    Some w
  else Some w.

(** [path] is [None] for a null pointer. *)
Definition setFilePath (w : World) (path : option (list Z)) : option World :=
  match path with
  | None | Some [] => Some w
  | Some path =>
      let c := cache w in
      if bool_decide (chars (m_filePath c) = path) then Some w
      else
        let w := with_cache w (set_limits c (m_disabled c) (m_limitContentEntries c) (m_limitContentSize c)
                   (m_limitTotalContentsSize c) (fromUTF8 path)) in
        let w := log w [MadeDirectories (utf8_bytes (m_filePath (cache w)))] in
        '(w, _) ← readFATFile w;
        Some w
  end.

End Cache.
End Cache.

(** * The abstract cache: a list of entries *)
Module CacheSpec.
Import Cache.

Abbreviation entry := (nat * HTTPCachedResource)%type.
Definition ekey (x : entry) : list Z := key x.2.
Definition elen (x : entry) : Z := m_contentLength x.2.
Definition esize (x : entry) : Z := m_resourceSize x.2.

Definition total (f : entry -> Z) (l : list entry) : Z := foldr (fun x s => f x + s) 0 l.

(** The world stores the entries [l], in this order: the list and the map agree,
    the pointers are live and the totals are the sums, up to the width of their
    types and a drift [d] of the content total. *)
Record rep (w : World) (l : list entry) (d : Z) : Prop := {
  rep_list : m_resourceList (cache w) = l.*1;
  rep_heap : Forall (fun x => heap w !! x.1 = Some x.2) l;
  rep_nodup : NoDup (l.*1);
  rep_keys : NoDup (map ekey l);
  rep_map : forall u p, m_resources (cache w) !! u = Some p <-> exists r, (p, r) ∈ l /\ key r = u;
  rep_sizes : m_totalResourceSize (cache w) = s32 (total esize l);
  rep_contents : m_totalContentsSize (cache w) = s64 (d + total elen l)
}.

(** Unused entries are purged from the front until more than [size] is freed:
    what is kept, what is purged, the bytes freed. *)
Fixpoint sweep (size acc : Z) (l : list entry) : list entry * list entry * Z :=
  match l with
  | [] => ([], [], acc)
  | x :: l' =>
      if m_used x.2 then
        let '(kept, gone, a) := sweep size acc l' in (x :: kept, gone, a)
      else
        let acc := s64 (acc + elen x) in
        if (size <? acc)%Z then (l', [x], acc)
        else let '(kept, gone, a) := sweep size acc l' in (kept, x :: gone, a)
  end.

Definition unused (x : entry) : entry := (x.1, setUsed x.2 false).

(** When the unused entries do not free enough, every entry counts as unused. *)
Definition purge (size : Z) (l : list entry) : list entry * list entry * Z :=
  let '(kept, gone, a) := sweep size 0 l in
  if (a <? size)%Z then
    let '(kept', gone', a') := sweep (size - a) 0 (map unused kept) in
    (kept', gone ++ gone', s64 (a + a'))
  else (kept, gone, a).

(** The oldest unused entry. *)
Fixpoint oldest (l : list entry) : option (list entry * entry) :=
  match l with
  | [] => None
  | x :: l' => if m_used x.2 then '(kept, y) ← oldest l'; Some (x :: kept, y) else Some (l', x)
  end.

(** What an operation that discards the entries [gone] leaves alone: the
    settings, the allocation pointer, the objects outside [l]; and what it does:
    it deletes the discarded entries and unlinks their files, in order. *)
Definition settings (c : HTTPCache) : bool * Z * String * String * (Z * Z * Z) :=
  (m_disabled c, m_fileNumber c, m_fatFileName c, m_filePath c,
   (m_limitContentEntries c, m_limitContentSize c, m_limitTotalContentsSize c)).

Section Discards.
Context `{Peers}.

Definition unlink_call (filePath : String) (x : entry) : FileCall :=
  Unlinked (utf8_bytes (pathByAppendingComponent filePath (m_fileName x.2))).

Record discards (w w' : World) (l : list nat) (gone : list entry) : Prop := {
  dis_settings : settings (cache w') = settings (cache w);
  dis_next : next w' = next w;
  dis_calls : calls w' = calls w ++ map (unlink_call (m_filePath (cache w))) gone;
  dis_frame : forall q, q ∉ l -> heap w' !! q = heap w !! q;
  dis_live : forall q, is_Some (heap w' !! q) <-> is_Some (heap w !! q) /\ q ∉ gone.*1
}.

End Discards.
End CacheSpec.

(** * Facts *)
Module CacheFacts.
Import Cache CacheSpec.

Lemma total_app f l k : total f (l ++ k) = total f l + total f k.
Proof. unfold total. induction l as [|x l IH]; simpl; [done|]. rewrite IH. lia. Qed.

Lemma s64_idem x y : s64 (s64 x + y) = s64 (x + y).
Proof. dlia. Qed.
Lemma s32_idem x y : s32 (s32 x + y) = s32 (x + y).
Proof. dlia. Qed.
Lemma s64_sub x y : s64 (s64 x - y) = s64 (x - y).
Proof. dlia. Qed.
Lemma s32_sub x y : s32 (s32 x - y) = s32 (x - y).
Proof. dlia. Qed.

Lemma rep_lookup w l d x : rep w l d -> x ∈ l -> heap w !! x.1 = Some x.2.
Proof. intros R Hx. pose proof (rep_heap _ _ _ R) as HF. rewrite list.Forall_forall in HF. by apply HF. Qed.

Lemma rep_fst w l d p r r' : rep w l d -> (p, r) ∈ l -> (p, r') ∈ l -> r = r'.
Proof. intros R H1 H2. pose proof (rep_lookup _ _ _ _ R H1). pose proof (rep_lookup _ _ _ _ R H2). naive_solver. Qed.

(** What [rep] depends on. *)
Lemma rep_ext w w' l d :
  rep w l d -> m_resourceList (cache w') = m_resourceList (cache w) -> m_resources (cache w') = m_resources (cache w) ->
  m_totalResourceSize (cache w') = m_totalResourceSize (cache w) ->
  m_totalContentsSize (cache w') = m_totalContentsSize (cache w) ->
  (forall x, x ∈ l -> heap w' !! x.1 = heap w !! x.1) -> rep w' l d.
Proof.
  intros R E1 E2 E3 E4 EH. destruct R as [R1 R2 R3 R4 R5 R6 R7].
  split; rewrite ?E1, ?E2, ?E3, ?E4; try done.
  rewrite list.Forall_forall in R2 |- *. intros x Hx. rewrite EH by done. by apply R2.
Qed.

Lemma fst_middle (l1 l2 : list entry) x : (l1 ++ x :: l2).*1 = l1.*1 ++ x.1 :: l2.*1.
Proof. by rewrite fmap_app. Qed.

Lemma elem_of_middle {A} (l1 l2 : list A) x y : y ∈ l1 ++ x :: l2 <-> y = x \/ y ∈ l1 ++ l2.
Proof. rewrite !elem_of_app, elem_of_cons. tauto. Qed.

Lemma delete_at_middle {A} (l1 l2 : list A) x n : n = length l1 -> delete n (l1 ++ x :: l2) = l1 ++ l2.
Proof. intros ->. apply delete_middle. Qed.

Lemma nodup_middle {A} (l1 l2 : list A) x : NoDup (l1 ++ x :: l2) -> x ∉ l1 ++ l2 /\ NoDup (l1 ++ l2).
Proof.
  rewrite <- Permutation_middle. intros H. apply list.NoDup_cons in H. done.
Qed.

(** Taking an entry out of the index. *)
Lemma rep_remove w l1 x l2 d (h : gmap nat HTTPCachedResource) :
  rep w (l1 ++ x :: l2) d -> (forall q, q ∈ (l1 ++ l2).*1 -> h !! q = heap w !! q) ->
  rep (mkWorld (set_index (cache w) (delete (ekey x) (m_resources (cache w))) (l1.*1 ++ l2.*1)
         (s32 (m_totalResourceSize (cache w) - esize x)) (s64 (m_totalContentsSize (cache w) - elen x)))
         h (next w) (calls w)) (l1 ++ l2) d.
Proof.
  intros R Hh. destruct R as [R1 R2 R3 R4 R5 R6 R7]. rewrite fst_middle in R3. rewrite map_app in R4. cbn [map] in R4.
  apply nodup_middle in R3 as [R3 R3']. apply nodup_middle in R4 as [R4 R4'].
  split; cbn.
  - by rewrite fmap_app.
  - rewrite list.Forall_forall in R2 |- *. intros y Hy. rewrite Hh by (apply list_elem_of_fmap; eauto). apply R2. set_solver.
  - by rewrite fmap_app.
  - by rewrite map_app.
  - intros u p. rewrite lookup_delete_Some, R5. split.
    + intros (Hne & r & Hin & Hk). exists r. split; [|done]. apply elem_of_app in Hin as [Hin|Hin]; [set_solver|].
      apply elem_of_cons in Hin as [Hin|Hin]; [|set_solver]. subst x. done.
    + intros (r & Hin & Hk). split; [|exists r; set_solver]. intros Heq. apply R4. rewrite Heq, <- Hk, <- map_app.
      apply list_elem_of_fmap. by exists (p, r).
  - rewrite R6, s32_sub. f_equal. rewrite !total_app. simpl. lia.
  - rewrite R7, s64_sub. f_equal. rewrite !total_app. simpl. lia.
Qed.

Lemma rep_add w l d p r (c : HTTPCache) :
  rep w l d -> heap w !! p = Some r -> p ∉ l.*1 -> m_resources (cache w) !! key r = None ->
  m_resources c = <[key r := p]> (m_resources (cache w)) -> m_resourceList c = m_resourceList (cache w) ++ [p] ->
  m_totalResourceSize c = s32 (m_totalResourceSize (cache w) + m_resourceSize r) ->
  m_totalContentsSize c = s64 (m_totalContentsSize (cache w) + m_contentLength r) ->
  rep (with_cache w c) (l ++ [(p, r)]) d.
Proof.
  intros R Hp Hnew Hkey E1 E2 E3 E4. destruct R as [R1 R2 R3 R4 R5 R6 R7].
  assert (key r ∉ map ekey l) as Hk.
  { intros Hin. apply list_elem_of_fmap in Hin as ([q s] & Hq & Hin).
    assert (m_resources (cache w) !! key r = Some q) by (apply R5; exists s; split; [done|by rewrite Hq]). congruence. }
  split; cbn.
  - rewrite E2, R1. by rewrite fmap_app.
  - rewrite Forall_app. split; [done|]. by constructor.
  - rewrite fmap_app. apply list.NoDup_app. split_and!; [done| |apply NoDup_singleton].
    intros q Hq. cbn. rewrite list_elem_of_singleton. intros ->. done.
  - rewrite map_app. apply list.NoDup_app. split_and!; [done| |apply NoDup_singleton].
    intros q Hq. cbn. rewrite list_elem_of_singleton. intros ->. done.
  - intros u q. rewrite E1, lookup_insert. case_decide as Hu.
    + subst u. split.
      * intros [= <-]. exists r. set_solver.
      * intros (s & Hin & Hs). apply elem_of_app in Hin as [Hin|Hin]; [|set_solver].
        exfalso. apply Hk. rewrite <- Hs. apply list_elem_of_fmap. by exists (q, s).
    + rewrite R5. split; intros (s & Hin & Hs); exists s; (split; [|done]); [set_solver|].
      apply elem_of_app in Hin as [Hin|Hin]; [done|]. apply list_elem_of_singleton in Hin. congruence.
  - rewrite E3, R6, s32_idem. f_equal. rewrite total_app. simpl. unfold esize. simpl. lia.
  - rewrite E4, R7, s64_idem. f_equal. rewrite total_app. simpl. unfold elen. simpl. lia.
Qed.

Section Discarding.
Context `{Peers}.

Lemma discards_refl w l : discards w w l [].
Proof. split; cbn; try done; [by rewrite app_nil_r|]. intros q. set_solver. Qed.

Lemma discards_trans w w1 w2 l l1 g1 g2 :
  discards w w1 l g1 -> discards w1 w2 l1 g2 -> (forall q, q ∈ l1 -> q ∈ l) -> discards w w2 l (g1 ++ g2).
Proof.
  intros D1 D2 Hl. pose proof (dis_settings _ _ _ _ D1) as E1. assert (m_filePath (cache w1) = m_filePath (cache w)) as Ep
    by (unfold settings in E1; congruence).
  split.
  - rewrite (dis_settings _ _ _ _ D2). done.
  - by rewrite (dis_next _ _ _ _ D2), (dis_next _ _ _ _ D1).
  - by rewrite (dis_calls _ _ _ _ D2), (dis_calls _ _ _ _ D1), Ep, map_app, app_assoc.
  - intros q Hq. rewrite (dis_frame _ _ _ _ D2) by naive_solver. by rewrite (dis_frame _ _ _ _ D1).
  - intros q. rewrite (dis_live _ _ _ _ D2), (dis_live _ _ _ _ D1), fmap_app. set_solver.
Qed.

Lemma discards_wider w w' l l' g : discards w w' l g -> (forall q, q ∈ l -> q ∈ l') -> discards w w' l' g.
Proof. intros [D1 D2 D3 D4 D5] H1. split; try done. intros q Hq. apply D4. naive_solver. Qed.

Lemma removeResourceByNumber_spec w l1 x l2 d :
  rep w (l1 ++ x :: l2) d ->
  exists w', removeResourceByNumber w (length l1) = Some w' /\ rep w' (l1 ++ l2) d /\
    discards w w' (l1 ++ x :: l2).*1 [x].
Proof.
  intros R. pose proof (rep_list _ _ _ R) as EL. rewrite fst_middle in EL.
  pose proof (rep_lookup _ _ _ x R ltac:(set_solver)) as Ex. pose proof (rep_nodup _ _ _ R) as ND.
  rewrite fst_middle in ND. apply nodup_middle in ND as [ND _].
  unfold removeResourceByNumber. assert (m_resourceList (cache w) !! length l1 = Some x.1) as ->.
  { rewrite EL, lookup_app_r by (by rewrite length_fmap). by rewrite length_fmap, Nat.sub_diag. }
  cbn [mbind option_bind]. rewrite Ex. cbn [mbind option_bind]. unfold free, unlink, log, with_heap. cbn [heap with_cache cache].
  rewrite Ex. cbn [mbind option_bind]. eexists. split; [reflexivity|]. split.
  - rewrite EL, delete_at_middle by (by rewrite length_fmap).
    eapply rep_ext; [apply (rep_remove w l1 x l2 d (delete x.1 (heap w)) R)| | | | |]; try done.
    intros q Hq. apply lookup_delete_ne. intros E. rewrite <- E, fmap_app in Hq. done.
  - split; cbn; try done.
    + intros q Hq. apply lookup_delete_ne. rewrite fst_middle in Hq. set_solver.
    + intros q. rewrite lookup_delete_is_Some. set_solver.
Qed.

Lemma purge_loop_spec fuel w pre l d size acc :
  rep w (pre ++ l) d -> (length l <= fuel)%nat ->
  let '(kept, gone, a) := sweep size acc l in
  exists w', purge_loop fuel w (length pre) size acc = Some (w', a) /\ rep w' (pre ++ kept) d /\
    discards w w' (pre ++ l).*1 gone.
Proof.
  revert w pre l acc. induction fuel as [|fuel IH]; intros w pre l acc R Hf.
  { destruct l; [|simpl in Hf; lia]. cbn [sweep purge_loop]. rewrite (rep_list _ _ _ R), app_nil_r, length_fmap, Nat.leb_refl.
    exists w. rewrite app_nil_r in R. split_and!; [done|done|apply discards_refl]. }
  destruct l as [|x l]; cbn [sweep purge_loop]; rewrite (rep_list _ _ _ R), length_fmap.
  { rewrite app_nil_r, Nat.leb_refl. exists w. rewrite app_nil_r in R. split_and!; [done|done|apply discards_refl]. }
  destruct (Nat.leb_spec (length (pre ++ x :: l)) (length pre)) as [Hl|_]; [rewrite length_app in Hl; simpl in Hl; lia|].
  assert ((pre ++ x :: l).*1 !! length pre = Some x.1) as ->
    by (rewrite list_lookup_fmap, lookup_app_r, Nat.sub_diag by done; done).
  cbn [mbind option_bind]. rewrite (rep_lookup _ _ _ x R) by set_solver. cbn [mbind option_bind].
  destruct (m_used x.2) eqn:Eu.
  - replace (pre ++ x :: l) with ((pre ++ [x]) ++ l) in R by (by rewrite <- app_assoc).
    specialize (IH w (pre ++ [x]) l acc R). simpl in Hf. specialize (IH ltac:(lia)).
    destruct (sweep size acc l) as [[kept gone] a]. destruct IH as (w' & E & R' & D).
    exists w'. rewrite length_app, Nat.add_1_r in E. rewrite <- app_assoc in R', D. done.
  - destruct (removeResourceByNumber_spec w pre x l d R) as (w1 & E1 & R1 & D1). rewrite E1. cbn [mbind option_bind].
    fold (elen x). destruct (Z.ltb_spec size (s64 (acc + elen x))).
    + by exists w1.
    + simpl in Hf. specialize (IH w1 pre l (s64 (acc + elen x)) R1 ltac:(lia)).
      destruct (sweep size (s64 (acc + elen x)) l) as [[kept gone] a]. destruct IH as (w' & E & R' & D).
      exists w'. split_and!; [done|done|]. change (x :: gone) with ([x] ++ gone).
      eapply discards_trans; [exact D1|exact D|]. intros q. rewrite fst_middle, fmap_app. set_solver.
Qed.

(** Changing an entry in place. *)
Lemma rep_assign w l1 p r l2 d f :
  rep w (l1 ++ (p, r) :: l2) d -> key (f r) = key r -> m_resourceSize (f r) = m_resourceSize r ->
  exists w', assign w p f = Some w' /\
    rep w' (l1 ++ (p, f r) :: l2) (d + m_contentLength r - m_contentLength (f r)) /\
    discards w w' [p] [] /\ cache w' = cache w.
Proof.
  intros R Hk Hs. pose proof (rep_lookup _ _ _ (p, r) R ltac:(set_solver)) as Ep. cbn in Ep.
  unfold assign. rewrite Ep. cbn [mbind option_bind]. eexists. split; [reflexivity|]. split_and!; [| |done].
  - destruct R as [R1 R2 R3 R4 R5 R6 R7]. rewrite fst_middle in *. cbn [fst] in *. pose proof R3 as ND.
    apply nodup_middle in ND as [ND _].
    split; cbn [cache heap with_heap].
    + by rewrite fst_middle.
    + rewrite list.Forall_forall in R2 |- *. intros y Hy. apply elem_of_middle in Hy as [->|Hy]; [by rewrite lookup_insert_eq|].
      rewrite lookup_insert_ne; [apply R2, elem_of_middle; by right|]. intros Hy'. apply ND. rewrite <- fmap_app, Hy'.
      apply list_elem_of_fmap. by exists y.
    + by rewrite fst_middle.
    + rewrite map_app in *. cbn [map] in *. unfold ekey in *. cbn [snd] in *. by rewrite Hk.
    + intros u q. rewrite R5. split; intros (s & Hin & Hu); apply elem_of_middle in Hin as [[= -> ->]|Hin].
      * exists (f r). rewrite Hk, elem_of_middle. auto.
      * exists s. rewrite elem_of_middle. auto.
      * exists r. rewrite <- Hk, elem_of_middle. auto.
      * exists s. rewrite elem_of_middle. auto.
    + rewrite R6. f_equal. rewrite !total_app. cbn. unfold esize. cbn. lia.
    + rewrite R7. f_equal. rewrite !total_app. cbn. unfold elen. cbn. lia.
  - split; cbn; try done; [by rewrite app_nil_r| |].
    + intros q Hq. apply lookup_insert_ne. set_solver.
    + intros q. rewrite lookup_insert_is_Some'. split; [|naive_solver]. intros Hq. split; [|apply not_elem_of_nil].
      destruct Hq as [<-|Hq]; [by rewrite Ep|done].
Qed.

Lemma set_unused_spec w pre l d :
  rep w (pre ++ l) d ->
  exists w', set_unused w l.*1 = Some w' /\ rep w' (pre ++ map unused l) d /\ discards w w' l.*1 [] /\ cache w' = cache w.
Proof.
  revert w pre. induction l as [|[p r] l IH]; intros w pre R; cbn [fmap list_fmap set_unused map].
  { exists w. split_and!; [done|done|apply discards_refl|done]. }
  destruct (rep_assign w pre p r l d (fun r => setUsed r false) R) as (w1 & E1 & R1 & D1 & C1); [done..|].
  cbn in R1. replace (d + _ - _) with d in R1 by lia. cbn [fst]. rewrite E1. cbn [mbind option_bind].
  replace (pre ++ (p, setUsed r false) :: l) with ((pre ++ [(p, setUsed r false)]) ++ l) in R1 by (by rewrite <- app_assoc).
  destruct (IH w1 _ R1) as (w2 & E2 & R2 & D2 & C2). exists w2. split_and!; [done| | |congruence].
  - by rewrite <- app_assoc in R2.
  - change (@nil entry) with (@nil entry ++ []). eapply discards_trans; [eapply discards_wider; [exact D1|]|exact D2|]; set_solver.
Qed.

Lemma map_unused_fst l : (map unused l).*1 = l.*1.
Proof. induction l as [|x l IH]; cbn; [done|]. by rewrite <- IH. Qed.

Lemma sweep_incl size acc l : let '(kept, gone, _) := sweep size acc l in l ≡ₚ kept ++ gone /\ sublist kept l.
Proof.
  revert acc. induction l as [|x l IH]; intros acc; cbn [sweep]; [done|]. destruct (m_used x.2).
  - specialize (IH acc). destruct (sweep size acc l) as [[kept gone] a]. destruct IH as [IH1 IH2].
    split; [cbn; by rewrite <- IH1|by constructor].
  - destruct (size <? s64 (acc + elen x))%Z.
    + split; [apply Permutation_cons_append|by apply sublist_cons].
    + specialize (IH (s64 (acc + elen x))). destruct (sweep size _ l) as [[kept gone] a]. destruct IH as [IH1 IH2].
      split; [by rewrite <- Permutation_middle, <- IH1|by apply sublist_cons].
Qed.

Lemma purgeBySize_spec w l d size :
  rep w l d ->
  let '(kept, gone, a) := purge size l in
  exists w', purgeBySize w size = Some (w', a) /\ rep w' kept d /\ discards w w' l.*1 gone.
Proof.
  intros R. unfold purge, purgeBySize, purgeBySizeInternal.
  pose proof (purge_loop_spec (length (m_resourceList (cache w))) w [] l d size 0 R) as H1. cbn [app length] in H1.
  specialize (H1 ltac:(by rewrite (rep_list _ _ _ R), length_fmap)).
  pose proof (sweep_incl size 0 l) as HI. destruct (sweep size 0 l) as [[k1 g1] a1].
  destruct H1 as (w1 & E1 & R1 & D1). rewrite E1. cbn [mbind option_bind].
  destruct (Z.ltb_spec a1 size) as [Hlt|Hge]; [|by exists w1].
  destruct (set_unused_spec w1 [] k1 d R1) as (w2 & E2 & R2 & D2 & C2). rewrite (rep_list _ _ _ R1), E2. cbn [mbind option_bind app] in *.
  pose proof (purge_loop_spec (length (m_resourceList (cache w2))) w2 [] (map unused k1) d (size - a1) 0 R2) as H3. cbn [app length] in H3.
  specialize (H3 ltac:(by rewrite (rep_list _ _ _ R2), map_unused_fst, length_map, length_fmap)).
  destruct (sweep (size - a1) 0 (map unused k1)) as [[k2 g2] a2]. destruct H3 as (w3 & E3 & R3 & D3).
  rewrite E3. cbn [mbind option_bind]. exists w3. split_and!; [done|done|]. rewrite map_unused_fst in D3.
  assert (forall q, q ∈ k1.*1 -> q ∈ l.*1) as Hin.
  { intros q Hq. destruct HI as [HI _]. apply (fmap_Permutation fst) in HI. rewrite HI, fmap_app. set_solver. }
  eapply discards_trans; [exact D1| |exact Hin].
  change g2 with ([] ++ g2). eapply discards_trans; [exact D2|exact D3|done].
Qed.

End Discarding.

(** ** What a purge frees *)

Definition lengths_ok (l : list entry) : Prop := Forall (fun x => 0 <= elen x) l.

Lemma total_nonneg l : lengths_ok l -> 0 <= total elen l.
Proof. unfold total. induction 1; simpl; lia. Qed.

Lemma sweep_sum size acc l :
  lengths_ok l -> 0 <= acc -> acc + total elen l < 2 ^ 63 ->
  let '(kept, gone, a) := sweep size acc l in
  a = acc + total elen gone /\ (size < a \/ Forall (fun x => m_used x.2 = true) kept).
Proof.
  intros Hl. revert acc. induction Hl as [|x l Hx Hl IH]; intros acc Ha Hs; cbn [sweep].
  { split; [simpl; lia|]. by right. }
  change (total elen (x :: l)) with (elen x + total elen l) in Hs. pose proof (total_nonneg l Hl) as Hn.
  destruct (m_used x.2) eqn:Eu.
  - specialize (IH acc Ha ltac:(lia)). destruct (sweep size acc l) as [[kept gone] a]. destruct IH as [IH1 IH2].
    split; [done|]. destruct IH2 as [|IH2]; [by left|right; by constructor].
  - replace (s64 (acc + elen x)) with (acc + elen x) by (unfold swrapN; dlia).
    destruct (Z.ltb_spec size (acc + elen x)).
    + split; [unfold total; cbn [foldr]; lia|by left].
    + specialize (IH (acc + elen x) ltac:(lia) ltac:(lia)).
      destruct (sweep size (acc + elen x) l) as [[kept gone] a]. destruct IH as [IH1 IH2].
      split; [|done]. change (total elen (x :: gone)) with (elen x + total elen gone). lia.
Qed.

Lemma total_permutation f l k : l ≡ₚ k -> total f l = total f k.
Proof. unfold total. induction 1; simpl; lia. Qed.

Lemma total_unused l : total elen (map unused l) = total elen l.
Proof. induction l as [|x l IH]; [done|]. unfold total in *. cbn [map foldr]. rewrite IH. done. Qed.

Lemma lengths_sublist k l : sublist k l -> lengths_ok l -> lengths_ok k.
Proof. unfold lengths_ok. rewrite !list.Forall_forall. intros Hs H x Hx. apply H. by eapply elem_of_sublist. Qed.

Lemma purge_frees size l :
  lengths_ok l -> total elen l < 2 ^ 63 -> 0 <= size ->
  let '(kept, gone, a) := purge size l in
  l.*1 ≡ₚ kept.*1 ++ gone.*1 /\ sublist kept.*1 l.*1 /\ total elen l = total elen kept + a /\
  lengths_ok kept /\ (size <= a \/ kept = []).
Proof.
  intros Hl Ht Hs. unfold purge. pose proof (sweep_sum size 0 l Hl ltac:(lia) ltac:(lia)) as S1.
  pose proof (sweep_incl size 0 l) as I1. destruct (sweep size 0 l) as [[k1 g1] a1].
  destruct S1 as [S1 U1]. destruct I1 as [P1 L1]. pose proof (total_permutation elen _ _ P1) as T1. rewrite total_app in T1.
  pose proof (lengths_sublist _ _ L1 Hl) as Hk1. pose proof (total_nonneg _ Hk1).
  assert (lengths_ok g1) as Hg1 by (unfold lengths_ok in *; rewrite P1, Forall_app in Hl; tauto).
  pose proof (total_nonneg _ Hg1). destruct (Z.ltb_spec a1 size) as [Hlt|Hge].
  2:{ split_and!; [by rewrite P1, fmap_app|by apply fmap_sublist|lia|done|lia]. }
  assert (lengths_ok (map unused k1)) as Hk1'.
  { unfold lengths_ok in *. apply Forall_fmap. eapply Forall_impl; [|exact Hk1]. by intros. }
  pose proof (sweep_sum (size - a1) 0 (map unused k1) Hk1' ltac:(lia)) as S2. rewrite total_unused in S2. specialize (S2 ltac:(lia)).
  pose proof (sweep_incl (size - a1) 0 (map unused k1)) as I2. destruct (sweep (size - a1) 0 (map unused k1)) as [[k2 g2] a2].
  destruct S2 as [S2 U2]. destruct I2 as [P2 L2]. pose proof (total_permutation elen _ _ P2) as T2. rewrite total_app, total_unused in T2.
  pose proof (lengths_sublist _ _ L2 Hk1') as Hk2. pose proof (total_nonneg _ Hk2).
  assert (lengths_ok g2) as Hg2 by (unfold lengths_ok in *; rewrite P2, Forall_app in Hk1'; tauto). pose proof (total_nonneg _ Hg2).
  replace (s64 (a1 + a2)) with (a1 + a2) by (unfold swrapN; dlia).
  split_and!; [| |lia|done|].
  - rewrite P1, !fmap_app. rewrite <- (map_unused_fst k1), P2, fmap_app. by rewrite <- app_assoc, (Permutation_app_comm g1.*1).
  - etrans; [apply (fmap_sublist fst), L2|]. rewrite map_unused_fst. by apply (fmap_sublist fst).
  - destruct U2 as [U2|U2]; [lia|]. right. destruct k2 as [|x k2]; [done|]. exfalso.
    apply Forall_cons_iff in U2 as [U2 _]. assert (x ∈ map unused k1) as Hx by (eapply elem_of_sublist; [|exact L2]; set_solver).
    apply list_elem_of_fmap in Hx as (y & -> & _). done.
Qed.

Section Operations.
Context `{Peers}.

Lemma oldest_loop_spec fuel w pre l d :
  rep w (pre ++ l) d -> (length l <= fuel)%nat ->
  match oldest l with
  | None => oldest_loop fuel w (length pre) = Some (w, 0)
  | Some (kept, y) =>
      exists w', oldest_loop fuel w (length pre) = Some (w', elen y) /\ rep w' (pre ++ kept) d /\
        discards w w' (pre ++ l).*1 [y]
  end.
Proof.
  revert w pre l. induction fuel as [|fuel IH]; intros w pre l R Hf.
  { destruct l; [|simpl in Hf; lia]. cbn [oldest oldest_loop]. by rewrite (rep_list _ _ _ R), app_nil_r, length_fmap, Nat.leb_refl. }
  destruct l as [|x l]; cbn [oldest oldest_loop]; rewrite (rep_list _ _ _ R), length_fmap.
  { by rewrite app_nil_r, Nat.leb_refl. }
  destruct (Nat.leb_spec (length (pre ++ x :: l)) (length pre)) as [Hl|_]; [rewrite length_app in Hl; simpl in Hl; lia|].
  assert ((pre ++ x :: l).*1 !! length pre = Some x.1) as ->
    by (rewrite list_lookup_fmap, lookup_app_r, Nat.sub_diag by done; done).
  cbn [mbind option_bind]. rewrite (rep_lookup _ _ _ x R) by set_solver. cbn [mbind option_bind].
  destruct (m_used x.2) eqn:Eu.
  - replace (pre ++ x :: l) with ((pre ++ [x]) ++ l) in R by (by rewrite <- app_assoc).
    specialize (IH w (pre ++ [x]) l R). simpl in Hf. specialize (IH ltac:(lia)). rewrite length_app, Nat.add_1_r in IH.
    destruct (oldest l) as [[kept y]|]; cbn [mbind option_bind]; [|done].
    destruct IH as (w' & E & R' & D). exists w'. rewrite <- app_assoc in R', D. done.
  - destruct (removeResourceByNumber_spec w pre x l d R) as (w1 & E1 & R1 & D1). rewrite E1. cbn [mbind option_bind].
    by exists w1.
Qed.

Lemma purgeOldest_spec w l d :
  rep w l d ->
  match oldest l with
  | None => purgeOldest w = Some (w, 0)
  | Some (kept, y) =>
      exists w', purgeOldest w = Some (w', elen y) /\ rep w' kept d /\ discards w w' l.*1 [y]
  end.
Proof.
  intros R. apply (oldest_loop_spec _ w [] l d R). by rewrite (rep_list _ _ _ R), length_fmap.
Qed.

Lemma remove_pointer_middle p l1 l2 : p ∉ l1 -> remove_pointer p (l1 ++ p :: l2) = l1 ++ l2.
Proof.
  induction l1 as [|q l1 IH]; intros Hp; cbn [app remove_pointer]; [by rewrite Nat.eqb_refl|].
  destruct (Nat.eqb_spec q p) as [->|]; [set_solver|]. f_equal. apply IH. set_solver.
Qed.

Lemma removeResource_spec w l1 x l2 d :
  rep w (l1 ++ x :: l2) d ->
  exists w', removeResource w x.1 = Some w' /\ rep w' (l1 ++ l2) d /\ heap w' = heap w /\ next w' = next w /\
    calls w' = calls w /\ settings (cache w') = settings (cache w).
Proof.
  intros R. pose proof (rep_list _ _ _ R) as EL. rewrite fst_middle in EL.
  pose proof (rep_lookup _ _ _ x R ltac:(set_solver)) as Ex. pose proof (rep_nodup _ _ _ R) as ND.
  rewrite fst_middle in ND. apply nodup_middle in ND as [ND _].
  unfold removeResource. rewrite Ex. cbn [mbind option_bind]. eexists. split; [reflexivity|]. split_and!; try done.
  rewrite EL, remove_pointer_middle by set_solver.
  eapply rep_ext; [apply (rep_remove w l1 x l2 d (heap w) R)| | | | |]; done.
Qed.

(** [remove] and [detach] of a listed entry: the file is unlinked; [remove]
    also deletes the object. *)
Lemma remove_spec w l1 x l2 d :
  rep w (l1 ++ x :: l2) d ->
  exists w', remove w x.1 = Some w' /\ rep w' (l1 ++ l2) d /\ discards w w' [x.1] [x].
Proof.
  intros R. pose proof (rep_lookup _ _ _ x R ltac:(set_solver)) as Ex. pose proof (rep_nodup _ _ _ R) as ND.
  rewrite fst_middle in ND. apply nodup_middle in ND as [ND _].
  destruct (removeResource_spec _ _ _ _ _ R) as (w1 & E1 & R1 & Hh & Hn & Hc & Hs). unfold remove. rewrite E1.
  cbn [mbind option_bind]. rewrite Hh, Ex. cbn [mbind option_bind]. unfold free, unlink, log, with_heap. cbn [heap].
  rewrite Hh, Ex. cbn [mbind option_bind]. eexists. split; [reflexivity|]. split.
  - eapply rep_ext; [exact R1|done..|]. intros y Hy. cbn. rewrite Hh. apply lookup_delete_ne. intros E. apply ND.
    rewrite E, <- fmap_app. apply list_elem_of_fmap. by exists y.
  - split; cbn; rewrite ?Hh, ?Hn, ?Hc; try done.
    + unfold settings in Hs. unfold unlink_call. assert (m_filePath (cache w1) = m_filePath (cache w)) as -> by congruence. done.
    + intros q Hq. apply lookup_delete_ne. set_solver.
    + intros q. rewrite lookup_delete_is_Some. set_solver.
Qed.

Lemma detach_spec w l1 x l2 d :
  rep w (l1 ++ x :: l2) d ->
  exists w', detach w x.1 = Some w' /\ rep w' (l1 ++ l2) d /\ heap w' = heap w /\ next w' = next w /\
    settings (cache w') = settings (cache w) /\
    calls w' = calls w ++ (if (length (chars (m_fileName x.2)) =? 0)%nat then [] else [unlink_call (m_filePath (cache w)) x]).
Proof.
  intros R. pose proof (rep_lookup _ _ _ x R ltac:(set_solver)) as Ex.
  destruct (removeResource_spec _ _ _ _ _ R) as (w1 & E1 & R1 & Hh & Hn & Hc & Hs). unfold detach. rewrite E1.
  cbn [mbind option_bind]. rewrite Hh, Ex. cbn [mbind option_bind].
  assert (m_filePath (cache w1) = m_filePath (cache w)) as Ep by (unfold settings in Hs; congruence).
  destruct (length (chars (m_fileName x.2)) =? 0)%nat; eexists; (split; [reflexivity|]).
  - split_and!; try done. by rewrite app_nil_r.
  - split_and!; try done; [by eapply rep_ext; [exact R1|..]|]. cbn. unfold unlink_call. by rewrite Hc, Ep.
Qed.

End Operations.

(** Operations that empty the index. *)
Section Emptying.
Context `{Peers}.

Definition deleted (h : gmap nat HTTPCachedResource) (l : list nat) (h' : gmap nat HTTPCachedResource) : Prop :=
  forall q, h' !! q = if decide (q ∈ l) then None else h !! q.

Lemma delete_all_spec l w :
  NoDup l -> Forall (fun p => is_Some (heap w !! p)) l ->
  exists h, delete_all w l = Some (with_heap w h) /\ deleted (heap w) l h.
Proof.
  revert w. induction l as [|p l IH]; intros w ND HL; cbn [delete_all].
  { exists (heap w). split; [by destruct w|]. intros q. by rewrite decide_False by set_solver. }
  apply list.NoDup_cons in ND as [Hp ND]. apply Forall_cons_iff in HL as [[r Er] HL]. unfold free. rewrite Er. cbn [mbind option_bind].
  destruct (IH (with_heap w (delete p (heap w)))) as (h & E & D); [done| |].
  { rewrite list.Forall_forall in HL |- *. intros q Hq. cbn. rewrite lookup_delete_ne by (intros ->; done). by apply HL. }
  exists h. split; [done|]. intros q. rewrite D. cbn. destruct (decide (q = p)) as [->|Hne].
  - rewrite lookup_delete_eq. rewrite (decide_True (P := p ∈ p :: l)) by set_solver. by case_decide.
  - rewrite lookup_delete_ne by done. destruct (decide (q ∈ l)); [by rewrite decide_True by set_solver|by rewrite decide_False by set_solver].
Qed.

Lemma rep_empty w : m_resourceList (cache w) = [] -> m_resources (cache w) = ∅ -> m_totalResourceSize (cache w) = 0 ->
  m_totalContentsSize (cache w) = 0 -> rep w [] 0.
Proof.
  intros E1 E2 E3 E4. split; rewrite ?E1, ?E2, ?E3, ?E4; try done; try constructor.
  - by rewrite lookup_empty.
  - intros (r & Hr & _). set_solver.
Qed.

Lemma reset_spec w l d :
  rep w l d ->
  exists w', reset w = Some w' /\ rep w' [] 0 /\ deleted (heap w) l.*1 (heap w') /\ next w' = next w /\
    calls w' = calls w /\ settings (cache w') = settings (cache w).
Proof.
  intros R. unfold reset. rewrite (rep_list _ _ _ R).
  destruct (delete_all_spec l.*1 w (rep_nodup _ _ _ R)) as (h & -> & D).
  { rewrite list.Forall_forall. intros q (x & -> & Hx)%list_elem_of_fmap. by rewrite (rep_lookup _ _ _ _ R Hx). }
  cbn [mbind option_bind]. eexists. split; [reflexivity|]. split; [by apply rep_empty|done].
Qed.

(** The settings other than the file number. *)
Definition configuration (c : HTTPCache) : bool * String * String * (Z * Z * Z) :=
  (m_disabled c, m_fatFileName c, m_filePath c, (m_limitContentEntries c, m_limitContentSize c, m_limitTotalContentsSize c)).

Lemma settings_configuration c c' : settings c' = settings c -> configuration c' = configuration c.
Proof. unfold settings, configuration. congruence. Qed.

Lemma unlink_items_spec items w :
  exists l, unlink_items w items = log w l /\ Forall (fun c => exists path, c = Unlinked path) l.
Proof.
  revert w. induction items as [|i items IH]; intros w; cbn [unlink_items].
  { exists []. split; [unfold log; rewrite app_nil_r; by destruct w|constructor]. }
  case_match; [|exists []; split; [unfold log; rewrite app_nil_r; by destruct w|constructor]].
  destruct (IH (log w [Unlinked l])) as (k & -> & Hk). exists (Unlinked l :: k).
  split; [unfold log; cbn; by rewrite <- app_assoc|]. constructor; eauto.
Qed.

Lemma removeAll_spec w l d :
  rep w l d ->
  exists w' unlinks, removeAll w = Some w' /\ rep w' [] 0 /\ deleted (heap w) l.*1 (heap w') /\ next w' = next w /\
    configuration (cache w') = configuration (cache w) /\ m_fileNumber (cache w') = 0 /\
    calls w' = calls w ++ unlinks /\ Forall (fun c => exists path, c = Unlinked path) unlinks.
Proof.
  intros R. unfold removeAll. destruct (reset_spec _ _ _ R) as (w1 & -> & R1 & D1 & N1 & C1 & S1). cbn [mbind option_bind].
  match goal with |- context [unlink_items ?w0 ?it] => destruct (unlink_items_spec it w0) as (u & -> & Hu) end.
  assert (forall w0, cache w0 = set_fileNumber (cache w1) 0 -> rep w0 [] 0) as R0.
  { intros w0 E. destruct R1 as [A1 A2 A3 A4 A5 A6 A7]. apply rep_empty; rewrite E; cbn; [done| |done|done].
    apply map_eq. intros i. rewrite lookup_empty. destruct (m_resources (cache w1) !! i) eqn:Ei; [|done].
    apply A5 in Ei as (r & Hr & _). set_solver. }
  pose proof (settings_configuration _ _ S1) as S1'.
  case_match.
  - eexists _, (u ++ [Unlinked l0]). split; [reflexivity|]. split; [by apply R0|]. cbn. rewrite C1, <- app_assoc.
    split_and!; try done. rewrite Forall_app. split; [done|]. constructor; [by eexists|constructor].
  - eexists _, u. split; [reflexivity|]. split; [by apply R0|]. cbn. by rewrite C1.
Qed.

(** Adding a new entry. *)
Lemma addCachedResource_spec w l d p r :
  rep w l d -> m_disabled (cache w) = false -> heap w !! p = Some r -> p ∉ l.*1 ->
  m_resources (cache w) !! key r = None ->
  exists w', addCachedResource w p = Some (w', true) /\ rep w' (l ++ [(p, r)]) d /\ heap w' = heap w /\
    next w' = next w /\ calls w' = calls w /\ settings (cache w') = settings (cache w).
Proof.
  intros R Hd Hp Hnew Hk. unfold addCachedResource. rewrite Hd, Hp. cbn [mbind option_bind].
  eexists. split; [reflexivity|]. split_and!; try done. by eapply rep_add.
Qed.

Lemma rep_unmapped w l d u : rep w l d -> u ∉ map ekey l -> m_resources (cache w) !! u = None.
Proof.
  intros R Hu. destruct (m_resources (cache w) !! u) as [p|] eqn:E; [|done]. exfalso. apply Hu.
  apply (rep_map _ _ _ R) in E as (r & Hr & <-). apply list_elem_of_fmap. by exists (p, r).
Qed.

Lemma rep_mapped w l d u p : rep w l d -> m_resources (cache w) !! u = Some p ->
  exists l1 r l2, l = l1 ++ (p, r) :: l2 /\ key r = u.
Proof.
  intros R E. apply (rep_map _ _ _ R) in E as (r & Hr & Hk). apply list_elem_of_split in Hr as (l1 & l2 & ->).
  by exists l1, r, l2.
Qed.

Lemma rep_pointer w l d p : rep w l d -> heap w !! p = None -> p ∉ l.*1.
Proof. intros R E (x & -> & Hx)%list_elem_of_fmap. rewrite (rep_lookup _ _ _ _ R Hx) in E. done. Qed.

Lemma rep_alloc w l d r : rep w l d -> heap w !! next w = None ->
  rep (fst (alloc w r)) l d.
Proof.
  intros R E. eapply rep_ext; [exact R|done..|]. intros x Hx. cbn. apply lookup_insert_ne. intros Heq.
  rewrite Heq in E. by rewrite (rep_lookup _ _ _ _ R Hx) in E.
Qed.

(** Every list operation below keeps pointers and keys. *)
Lemma sweep_map {B} (f : entry -> B) size acc l :
  let '(kept, gone, _) := sweep size acc l in sublist (map f kept) (map f l) /\ map f l ≡ₚ map f kept ++ map f gone.
Proof.
  pose proof (sweep_incl size acc l) as S. destruct (sweep size acc l) as [[kept gone] a]. destruct S as [S1 S2].
  split; [by apply (fmap_sublist f)|]. rewrite <- map_app. by apply Permutation_map.
Qed.

Lemma purge_map {B} (f : entry -> B) size l :
  (forall x, f (unused x) = f x) ->
  let '(kept, gone, _) := purge size l in sublist (map f kept) (map f l) /\ map f l ≡ₚ map f kept ++ map f gone.
Proof.
  intros Hf. unfold purge. pose proof (sweep_map f size 0 l) as S1. destruct (sweep size 0 l) as [[k1 g1] a1].
  destruct S1 as [S1 P1]. destruct (a1 <? size)%Z; [|done].
  pose proof (sweep_map f (size - a1) 0 (map unused k1)) as S2. destruct (sweep (size - a1) 0 (map unused k1)) as [[k2 g2] a2].
  destruct S2 as [S2 P2]. rewrite map_map in S2, P2. rewrite (map_ext _ _ Hf) in S2, P2. split; [by etrans|].
  rewrite map_app, P1, P2. by rewrite <- app_assoc, (Permutation_app_comm (map f g1)).
Qed.

End Emptying.

(** Writing an entry to the cache. *)
Section Writing.
Context `{Peers}.
Import ResourceFacts.

(** No call on the file system writes nothing. *)
Definition writes_progress : Prop := forall h n k, 0 < k -> peer_write h n k <> 0.

Lemma writeResourceFile_spec fuel w p r name :
  writes_progress -> heap w !! p = Some r -> data_fits fuel r ->
  exists r' ok c, writeResourceFile fuel w p name = Some (log (with_heap w (<[p := r']> (heap w))) c, ok) /\
    labels r' = labels r /\
    if ok then exists data, m_resourceData r = Some data /\ m_fileName r' = name /\
      m_contentLength r' = data_size data /\ m_resourceSize r' = resource_size r' /\ m_resourceData r' = None
    else r' = r.
Proof.
  intros Hw Hp Hf. unfold writeResourceFile. rewrite Hp. cbn [mbind option_bind].
  match goal with |- context [writeFile ?fw ?fu ?op r ?nm] =>
    destruct (writeFile_total fw fu op r nm) as (r' & content & ok & E & Hr); [by intros; apply Hw|done|] end.
  rewrite E. cbn [mbind option_bind]. unfold assign. rewrite Hp. cbn [mbind option_bind].
  exists r', ok. eexists. split; [reflexivity|]. tauto.
Qed.

(** The entries that have to go before one of the given length fits. *)
Definition make_room (w : World) (len : Z) (l : list entry) : list entry * list entry :=
  if (m_limitTotalContentsSize (cache w) <? s64 (m_totalContentsSize (cache w) + len))%Z
  then fst (purge len l) else (l, []).

Lemma make_room_map {B} (f : entry -> B) w len l :
  (forall x, f (unused x) = f x) ->
  sublist (map f (fst (make_room w len l))) (map f l) /\
  map f l ≡ₚ map f (fst (make_room w len l)) ++ map f (snd (make_room w len l)).
Proof.
  intros Hf. unfold make_room. destruct (_ <? _)%Z; [|split; [done|by rewrite app_nil_r]].
  pose proof (purge_map f len l Hf) as Q. by destruct (purge len l) as [[k g] a].
Qed.

(** The counter after a file name was made. *)
Definition next_number (n : Z) : Z := if (n =? WKC_INT_MAX)%Z then 0 else n + 1.

Lemma write_spec fuel w l d p r :
  rep w l d -> heap w !! p = Some r -> p ∉ l.*1 -> key r ∉ map ekey l -> writes_progress -> data_fits fuel r ->
  let room := make_room w (m_contentLength r) l in
  exists w' r' ok c, write fuel w p = Some (w', ok) /\ labels r' = labels r /\
    rep w' (fst room ++ if ok then [(p, r')] else []) d /\ next w' = next w /\ heap w' !! p = Some r' /\
    (forall q, q ∉ p :: l.*1 -> heap w' !! q = heap w !! q) /\
    (forall q, is_Some (heap w' !! q) <-> is_Some (heap w !! q) /\ q ∉ (snd room).*1) /\
    configuration (cache w') = configuration (cache w) /\
    m_fileNumber (cache w') = next_number (m_fileNumber (cache w)) /\
    calls w' = calls w ++ map (unlink_call (m_filePath (cache w))) (snd room) ++ c /\
    if ok then exists data, m_resourceData r = Some data /\
      m_fileName r' = Some (format_08d (m_fileNumber (cache w)) ++ str ".dcf") /\
      m_contentLength r' = data_size data /\ m_resourceSize r' = resource_size r' /\ m_resourceData r' = None
    else r' = r.
Proof.
  intros R Hp Hnew Hkey Hw Hf. cbv zeta.
  assert (exists w1 a, (if (m_limitTotalContentsSize (cache w) <? s64 (m_totalContentsSize (cache w) + m_contentLength r))%Z
     then purgeBySize w (m_contentLength r) else Some (w, 0)) = Some (w1, a) /\
     rep w1 (fst (make_room w (m_contentLength r) l)) d /\ discards w w1 l.*1 (snd (make_room w (m_contentLength r) l)))
    as (w1 & a & E1 & R1 & D1).
  { unfold make_room. destruct (_ <? _)%Z.
    - pose proof (purgeBySize_spec w l d (m_contentLength r) R) as HP. destruct (purge (m_contentLength r) l) as [[k g] a].
      destruct HP as (w' & E' & R' & D'). exists w', a. done.
    - exists w, 0. split_and!; [done|done|apply discards_refl]. }
  pose proof (make_room_map fst w (m_contentLength r) l (fun _ => eq_refl)) as [Sf _].
  pose proof (make_room_map ekey w (m_contentLength r) l (fun _ => eq_refl)) as [Sk _].
  destruct (make_room w (m_contentLength r) l) as [kept gone]. cbn [fst snd] in *.
  pose proof (dis_settings _ _ _ _ D1) as ES. pose proof (dis_frame _ _ _ _ D1 p Hnew) as Hp1. rewrite Hp in Hp1.
  unfold write. rewrite Hp. cbn [mbind option_bind]. rewrite E1. cbn [mbind option_bind]. unfold makeFileName.
  assert (m_fileNumber (cache w1) = m_fileNumber (cache w)) as EN by (unfold settings in ES; congruence).
  rewrite EN. fold (next_number (m_fileNumber (cache w))).
  destruct (writeResourceFile_spec fuel (with_cache w1 (set_fileNumber (cache w1) (next_number (m_fileNumber (cache w))))) p r
    (Some (format_08d (m_fileNumber (cache w)) ++ str ".dcf")) Hw Hp1 Hf) as (r' & ok & c & -> & Hlab & Hok). assert (m_url r' = m_url r) as Hu by (by injection Hlab).
  cbn [mbind option_bind].
  set (w2 := log (with_heap _ _) c).
  assert (p ∉ kept.*1) as Hpk by (intros Hin; apply Hnew; by eapply elem_of_sublist).
  assert (rep w2 kept d) as R2.
  { eapply rep_ext; [exact R1|done..|]. intros x Hx. apply lookup_insert_ne. intros ->. apply Hpk, list_elem_of_fmap. eauto. }
  assert (forall q, q ∉ p :: l.*1 -> heap w2 !! q = heap w !! q) as Hframe.
  { intros q Hq. cbn. rewrite lookup_insert_ne by set_solver. apply (dis_frame _ _ _ _ D1). set_solver. }
  assert (forall q, is_Some (heap w2 !! q) <-> is_Some (heap w !! q) /\ q ∉ gone.*1) as Hlive.
  { intros q. cbn. rewrite lookup_insert_is_Some', <- (dis_live _ _ _ _ D1). split; [intros [->|]; [by rewrite Hp1|done]|naive_solver]. }
  assert (calls w2 = calls w ++ map (unlink_call (m_filePath (cache w))) gone ++ c) as Hcalls
    by (cbn; by rewrite (dis_calls _ _ _ _ D1), <- app_assoc).
  pose proof (settings_configuration _ _ ES) as EC.
  destruct ok; cbn [negb].
  - assert (heap w2 !! p = Some r') as Hp2 by apply lookup_insert_eq. rewrite Hp2. cbn [mbind option_bind].
    assert (key r' = key r) as Hk' by (unfold key; by rewrite Hu).
    rewrite (rep_unmapped _ _ _ _ R2) by (rewrite Hk'; intros Hin; apply Hkey; by eapply elem_of_sublist).
    eexists _, r', true, c. split; [reflexivity|]. split_and!; try done.
    + eapply rep_add; [exact R2|done|done| |done..]. apply (rep_unmapped _ _ _ _ R2). rewrite Hk'. intros Hin.
      apply Hkey. by eapply elem_of_sublist.
    + cbn. by rewrite (dis_next _ _ _ _ D1).
  - exists w2, r', false, c. rewrite app_nil_r. split_and!; try done.
    + cbn. by rewrite (dis_next _ _ _ _ D1).
    + by apply lookup_insert_eq.
Qed.

End Writing.

(** Creating an entry. *)
Section Creating.
Context `{Peers}.

Lemma oldest_incl l :
  match oldest l with
  | Some (kept, y) => l ≡ₚ y :: kept /\ sublist kept l /\ m_used y.2 = false
  | None => Forall (fun x => m_used x.2 = true) l
  end.
Proof.
  induction l as [|x l IH]; cbn [oldest]; [constructor|]. destruct (m_used x.2) eqn:Eu.
  - destruct (oldest l) as [[kept y]|]; cbn [mbind option_bind]; [|by constructor].
    destruct IH as (P & S & U). split_and!; [by rewrite P, Permutation_swap|by constructor|done].
  - split_and!; [done|by apply sublist_cons|done].
Qed.

(** The first step: room for the content. *)
Lemma create_purge w l len :
  rep w l 0 -> lengths_ok l -> total elen l <= m_limitTotalContentsSize (cache w) -> 0 <= len ->
  len <= m_limitTotalContentsSize (cache w) -> total elen l + len < 2 ^ 63 ->
  exists w1 a l1 g, (if (m_limitTotalContentsSize (cache w) <? s64 (m_totalContentsSize (cache w) + len))%Z
     then purgeBySize w len else Some (w, 1)) = Some (w1, a) /\ rep w1 l1 0 /\ discards w w1 l.*1 g /\
    sublist l1.*1 l.*1 /\ lengths_ok l1 /\ total elen l1 + len <= m_limitTotalContentsSize (cache w) /\
    total elen l1 <= total elen l /\
    (Forall (fun x => 0 < elen x) l -> a <> 0).
Proof.
  intros R Hl Hlim Hlen Hmax Hov. pose proof (total_nonneg l Hl) as Hn. pose proof (rep_contents _ _ _ R) as EC. rewrite EC.
  replace (s64 (s64 (0 + total elen l) + len)) with (total elen l + len) by (rewrite s64_idem; unfold swrapN; dlia).
  destruct (Z.ltb_spec (m_limitTotalContentsSize (cache w)) (total elen l + len)) as [Hover|Hfit].
  - pose proof (purgeBySize_spec w l 0 len R) as HP. pose proof (purge_frees len l Hl ltac:(lia) Hlen) as HF.
    destruct (purge len l) as [[k g] a]. destruct HP as (w1 & E1 & R1 & D1). destruct HF as (_ & F2 & F3 & F4 & F5).
    exists w1, a, k, g. pose proof (total_nonneg k F4). split_and!; try done.
    + destruct F5 as [|F5]; [lia|subst k; change (total elen []) with 0 in *; lia].
    + destruct F5 as [|F5]; [lia|subst k; change (total elen []) with 0 in *; lia].
    + intros Hpos Ha. destruct F5 as [F5|F5]; [lia|]. subst k. unfold total in F3. cbn [foldr] in F3. fold (total elen l) in F3. lia.
  - exists w, 1, l, []. split_and!; try done; apply discards_refl.
Qed.

(** The second step: room in the list. *)
Lemma create_oldest w l :
  rep w l 0 -> lengths_ok l -> 1 <= m_limitContentEntries (cache w) < 2 ^ 32 ->
  Z.of_nat (length l) <= m_limitContentEntries (cache w) ->
  exists w1 a l1 g, (if (u32 (m_limitContentEntries (cache w)) <=? Z.of_nat (length (m_resourceList (cache w))))%Z
     then purgeOldest w else Some (w, 1)) = Some (w1, a) /\ rep w1 l1 0 /\ discards w w1 l.*1 g /\
    sublist l1.*1 l.*1 /\ total elen l1 <= total elen l /\
    (a <> 0 -> Z.of_nat (length l1) < m_limitContentEntries (cache w)) /\
    (Z.of_nat (length l) < m_limitContentEntries (cache w) -> a <> 0).
Proof.
  intros R Hl Hlim Hlen. rewrite (rep_list _ _ _ R), length_fmap.
  replace (u32 (m_limitContentEntries (cache w))) with (m_limitContentEntries (cache w)) by dlia.
  destruct (Z.leb_spec (m_limitContentEntries (cache w)) (Z.of_nat (length l))) as [Hfull|Hroom].
  - pose proof (purgeOldest_spec w l 0 R) as HP. pose proof (oldest_incl l) as HI. destruct (oldest l) as [[k y]|].
    + destruct HP as (w1 & E1 & R1 & D1). destruct HI as (P & S & _). exists w1, (elen y), k, [y].
      pose proof (total_permutation elen _ _ P) as T. unfold total in T. cbn [foldr] in T. fold (total elen l) (total elen k) in T.
      assert (0 <= elen y) by (unfold lengths_ok in Hl; rewrite P in Hl; by apply Forall_cons_iff in Hl as []).
      apply Permutation_length in P. simpl in P. split_and!; try done; [by apply (fmap_sublist fst)|lia|lia|lia].
    + exists w, 0, l, []. split_and!; try done; try lia; apply discards_refl.
  - exists w, 1, l, []. split_and!; try done. apply discards_refl.
Qed.

End Creating.

End CacheFacts.

(** * Sequences of operations *)
Module CacheRuns.
Import Cache CacheSpec CacheFacts.

(** What a user of the cache does, in terms of URLs. *)
Inductive operation :=
  | Store (r : HTTPCachedResource)
  | Drop (u : list Z)
  | MarkUsed (u : list Z)
  | Purge (size : Z)
  | PurgeOldest
  | Clear
  | Reset.

Section Runs.
Context `{Peers}.

Definition run_op (w : World) (o : operation) : option World :=
  match o with
  | Store r =>
      match m_resources (cache w) !! key r with
      | Some _ => Some w
      | None => let '(w, p) := alloc w r in '(w, _) ← addCachedResource w p; Some w
      end
  | Drop u => match m_resources (cache w) !! u with None => Some w | Some p => remove w p end
  | MarkUsed u =>
      match m_resources (cache w) !! u with None => Some w | Some p => assign w p (fun r => setUsed r true) end
  | Purge size => '(w, _) ← purgeBySize w size; Some w
  | PurgeOldest => '(w, _) ← purgeOldest w; Some w
  | Clear => removeAll w
  | Reset => reset w
  end.

Definition run_ops (w : World) (os : list operation) : option World :=
  fold_left (fun w o => w ← w; run_op w o) os (Some w).

(** The same on the abstract cache: its entries and the next pointer. *)
Definition spec_op (s : list entry * nat) (o : operation) : list entry * nat :=
  let '(l, n) := s in
  match o with
  | Store r => if decide (key r ∈ map ekey l) then (l, n) else (l ++ [(n, r)], S n)
  | Drop u => (filter (fun x => ekey x <> u) l, n)
  | MarkUsed u => (map (fun x => if decide (ekey x = u) then (x.1, setUsed x.2 true) else x) l, n)
  | Purge size => (fst (fst (purge size l)), n)
  | PurgeOldest => (match oldest l with Some (kept, _) => kept | None => l end, n)
  | Clear | Reset => ([], n)
  end.

(** The world holds exactly the entries of the abstract cache. *)
Record holds (w : World) (s : list entry * nat) : Prop := {
  holds_rep : rep w (fst s) 0;
  holds_enabled : m_disabled (cache w) = false;
  holds_next : next w = snd s;
  holds_fresh : forall q, (next w <= q)%nat -> heap w !! q = None;
  holds_live : forall q, is_Some (heap w !! q) <-> q ∈ (fst s).*1
}.

Lemma map_away (g : entry -> entry) (l : list entry) u :
  (forall x, ekey x <> u -> g x = x) -> u ∉ map ekey l -> map g l = l.
Proof.
  intros Hg. induction l as [|x l IH]; intros Hu; [done|]. cbn [map] in *. apply not_elem_of_cons in Hu as [H1 H2].
  rewrite Hg, IH by done. done.
Qed.

Lemma filter_away (l : list entry) u : u ∉ map ekey l -> filter (fun x => ekey x <> u) l = l.
Proof.
  induction l as [|x l IH]; intros Hu; [done|]. cbn [map] in Hu. apply not_elem_of_cons in Hu as [H1 H2].
  rewrite filter_cons_True by done. by rewrite IH.
Qed.

Lemma keys_middle w l1 p r l2 d : rep w (l1 ++ (p, r) :: l2) d -> key r ∉ map ekey l1 /\ key r ∉ map ekey l2.
Proof.
  intros R. pose proof (rep_keys _ _ _ R) as ND. rewrite map_app in ND. cbn [map] in ND.
  apply nodup_middle in ND as [ND _]. change (ekey (p, r)) with (key r) in ND. set_solver.
Qed.

Lemma holds_discards w w' l l' n gone :
  holds w (l, n) -> rep w' l' 0 -> discards w w' l.*1 gone -> l.*1 ≡ₚ l'.*1 ++ gone.*1 -> holds w' (l', n).
Proof.
  intros [H1 H2 H3 H4 H5] R D P. cbn [fst snd] in *. pose proof (dis_settings _ _ _ _ D) as ES.
  assert (forall q, is_Some (heap w' !! q) <-> q ∈ l'.*1) as HL.
  { intros q. rewrite (dis_live _ _ _ _ D), H5, P. pose proof (rep_nodup _ _ _ H1) as ND. rewrite P in ND.
    apply list.NoDup_app in ND as (_ & ND & _). set_solver. }
  split; cbn [fst snd]; try done.
  - unfold settings in ES. congruence.
  - by rewrite (dis_next _ _ _ _ D).
  - intros q Hq. rewrite (dis_next _ _ _ _ D) in Hq. specialize (H4 q Hq).
    destruct (heap w' !! q) eqn:E; [|done]. exfalso. assert (is_Some (heap w !! q)) as [? E'] by (apply (dis_live _ _ _ _ D); by rewrite E).
    congruence.
Qed.

Lemma holds_emptied w w' l n :
  holds w (l, n) -> rep w' [] 0 -> deleted (heap w) l.*1 (heap w') -> next w' = next w ->
  m_disabled (cache w') = m_disabled (cache w) -> holds w' ([], n).
Proof.
  intros [H1 H2 H3 H4 H5] R D N E. cbn [fst snd] in *.
  assert (forall q, heap w' !! q = None) as HN.
  { intros q. rewrite D. case_decide as Hq; [done|]. destruct (heap w !! q) eqn:Eq; [|done].
    exfalso. apply Hq, H5. by rewrite Eq. }
  split; cbn [fst snd]; try done; [congruence|congruence|]. intros q. rewrite HN. cbn. split; [by intros []|set_solver].
Qed.

Lemma run_store w l n r :
  holds w (l, n) -> exists w', run_op w (Store r) = Some w' /\ holds w' (spec_op (l, n) (Store r)).
Proof.
  intros Hh. destruct Hh as [H1 H2 H3 H4 H5]. cbn [fst snd run_op spec_op] in *.
  case_decide as Hk.
  - apply list_elem_of_fmap in Hk as ([p r0] & Ek & Hx).
    assert (m_resources (cache w) !! key r = Some p) as -> by (apply (rep_map _ _ _ H1); exists r0; split; [done|by rewrite Ek]).
    exists w. split; [done|]. by split.
  - rewrite (rep_unmapped _ _ _ _ H1 Hk). cbn [alloc].
    pose proof (H4 (next w) ltac:(lia)) as Hnew.
    destruct (addCachedResource_spec (fst (alloc w r)) l 0 (next w) r) as (w' & E & R & Eh & En & Ec & Es);
      [by apply rep_alloc|done|apply lookup_insert_eq|by eapply rep_pointer|by apply (rep_unmapped w l 0)|].
    cbn [fst alloc] in *. rewrite E. cbn [mbind option_bind]. exists w'. split; [done|]. rewrite H3 in *.
    split; cbn [fst snd].
    + done.
    + unfold settings in Es. cbn in Es. congruence.
    + by rewrite En.
    + intros q Hq. rewrite En in Hq. cbn in Hq. rewrite Eh. cbn. rewrite lookup_insert_ne by lia. apply H4. lia.
    + intros q. rewrite Eh. cbn. rewrite lookup_insert_is_Some', fmap_app, H5. set_solver.
Qed.

Lemma run_drop w l n u :
  holds w (l, n) -> exists w', run_op w (Drop u) = Some w' /\ holds w' (spec_op (l, n) (Drop u)).
Proof.
  intros Hh. pose proof Hh as [H1 H2 H3 H4 H5]. cbn [fst snd run_op spec_op] in *.
  destruct (m_resources (cache w) !! u) as [p|] eqn:E.
  - apply (rep_mapped _ _ _ _ _ H1) in E as (l1 & r & l2 & -> & <-).
    destruct (keys_middle _ _ _ _ _ _ H1) as [K1 K2].
    rewrite list.filter_app, filter_cons_False, !filter_away by (done || (intros Hc; by apply Hc)).
    destruct (remove_spec _ _ _ _ _ H1) as (w' & E & R & D). exists w'. split; [exact E|].
    eapply holds_discards; [exact Hh|exact R| |].
    + eapply discards_wider; [exact D|]. intros q. rewrite fst_middle. set_solver.
    + rewrite fst_middle, fmap_app. cbn [fmap list_fmap]. by rewrite <- Permutation_middle, Permutation_cons_append.
  - exists w. split; [done|]. rewrite filter_away; [done|]. intros Hin. apply list_elem_of_fmap in Hin as ([p r] & Ek & Hx).
    assert (m_resources (cache w) !! u = Some p) by (apply (rep_map _ _ _ H1); exists r; done). congruence.
Qed.

Lemma run_mark w l n u :
  holds w (l, n) -> exists w', run_op w (MarkUsed u) = Some w' /\ holds w' (spec_op (l, n) (MarkUsed u)).
Proof.
  intros Hh. pose proof Hh as [H1 H2 H3 H4 H5]. cbn [fst snd run_op spec_op] in *.
  set (g := fun x : entry => if decide (ekey x = u) then (x.1, setUsed x.2 true) else x).
  assert (forall x, ekey x <> u -> g x = x) as Hg by (intros x Hx; unfold g; by rewrite decide_False).
  destruct (m_resources (cache w) !! u) as [p|] eqn:E.
  - apply (rep_mapped _ _ _ _ _ H1) in E as (l1 & r & l2 & -> & Eu).
    destruct (keys_middle _ _ _ _ _ _ H1) as [K1 K2]. rewrite Eu in K1, K2.
    rewrite map_app. cbn [map]. rewrite (map_away g l1 u), (map_away g l2 u) by done.
    unfold g. rewrite decide_True by (exact Eu). cbn [fst snd].
    destruct (rep_assign w l1 p r l2 0 (fun r => setUsed r true) H1) as (w' & E & R & D & _); [done..|].
    cbn in R. replace (0 + m_contentLength r - m_contentLength r) with 0 in R by lia.
    exists w'. split; [exact E|]. eapply holds_discards; [exact Hh|exact R| |].
    + eapply discards_wider; [exact D|]. intros q. rewrite fst_middle. set_solver.
    + by rewrite !fst_middle, app_nil_r.
  - exists w. split; [done|]. rewrite (map_away g l u); [done|done|]. intros Hin.
    apply list_elem_of_fmap in Hin as ([p r] & Ek & Hx).
    assert (m_resources (cache w) !! u = Some p) by (apply (rep_map _ _ _ H1); exists r; done). congruence.
Qed.

Lemma run_op_spec w s o : holds w s -> exists w', run_op w o = Some w' /\ holds w' (spec_op s o).
Proof.
  destruct s as [l n]. intros Hh. pose proof Hh as [H1 H2 H3 H4 H5]. cbn [fst snd] in *. destruct o as [r|u|u|size| | |].
  - by apply run_store.
  - by apply run_drop.
  - by apply run_mark.
  - cbn [run_op spec_op]. pose proof (purgeBySize_spec w l 0 size H1) as HP.
    pose proof (purge_map fst size l (fun _ => eq_refl)) as HM. destruct (purge size l) as [[kept gone] a].
    destruct HP as (w' & E & R & D). destruct HM as [_ P]. rewrite E. cbn [mbind option_bind fst]. exists w'. split; [done|].
    by eapply holds_discards.
  - cbn [run_op spec_op]. pose proof (purgeOldest_spec w l 0 H1) as HP. pose proof (oldest_incl l) as HI.
    destruct (oldest l) as [[kept y]|].
    + destruct HP as (w' & E & R & D). rewrite E. cbn [mbind option_bind]. exists w'. split; [done|].
      eapply holds_discards; [done..|]. destruct HI as (P & _). rewrite P. cbn. apply Permutation_cons_append.
    + rewrite HP. cbn [mbind option_bind]. by exists w.
  - cbn [run_op spec_op]. destruct (removeAll_spec w l 0 H1) as (w' & u & E & R & D & N & C & _). exists w'. split; [done|].
    eapply holds_emptied; [done..|]. unfold configuration in C. congruence.
  - cbn [run_op spec_op]. destruct (reset_spec w l 0 H1) as (w' & E & R & D & N & _ & C). exists w'. split; [done|].
    eapply holds_emptied; [done..|]. unfold settings in C. congruence.
Qed.

Definition new_world : World := mkWorld HTTPCache_new ∅ 0 [].

Lemma holds_new : holds new_world ([], 0%nat).
Proof. split; try done; [by apply rep_empty|]. intros q. cbn. rewrite lookup_empty. split; [by intros []|set_solver]. Qed.

Lemma run_ops_spec os w s : holds w s -> exists w', run_ops w os = Some w' /\ holds w' (fold_left spec_op os s).
Proof.
  revert s w. unfold run_ops. induction os as [|o os IH]; intros s w Hh; cbn [fold_left]; [by exists w|].
  destruct (run_op_spec w s o Hh) as (w' & E & Hh'). cbn [mbind option_bind]. rewrite E. by apply IH.
Qed.

(** The world after a sequence of operations on a new cache. *)
Definition world_after (os : list operation) : World := default new_world (run_ops new_world os).

Lemma world_after_holds os : holds (world_after os) (fold_left spec_op os ([], 0%nat)).
Proof. destruct (run_ops_spec os _ _ holds_new) as (w & E & Hh). unfold world_after. by rewrite E. Qed.

End Runs.
End CacheRuns.

(** * Properties *)
Module CacheProps.
Import Cache CacheSpec CacheFacts CacheRuns ResourceFacts KURLParse.Assemble.

Section Limits.
Context `{Peers}.

(** C15: Any sequence of operations on a new cache runs without using a deleted
    entry and does to the list, the map, the totals and the memory what the
    abstract list of entries says: exactly its entries are alive, the map finds
    each under its URL, and the totals are their sums. *)
Theorem cache_refines (os : list operation) :
  exists w, run_ops new_world os = Some w /\ holds w (fold_left spec_op os ([], 0%nat)).
Proof. apply run_ops_spec, holds_new. Qed.

(** A purge frees at least the bytes asked for, or leaves the cache empty: the
    entries kept are in their order, the others are deleted with their files,
    and the index and its totals stay exact. *)
Theorem purgeBySize_frees (w : World) (l : list entry) (d size : Z) :
  rep w l d -> lengths_ok l -> total elen l < 2 ^ 63 -> 0 <= size ->
  exists w' kept gone freed, purgeBySize w size = Some (w', freed) /\ rep w' kept d /\
    discards w w' l.*1 gone /\ l.*1 ≡ₚ kept.*1 ++ gone.*1 /\ sublist kept.*1 l.*1 /\
    total elen l = total elen kept + freed /\ (size <= freed \/ kept = []).
Proof.
  intros R Hl Ht Hs. pose proof (purgeBySize_spec w l d size R) as HP. pose proof (purge_frees size l Hl Ht Hs) as HF.
  destruct (purge size l) as [[kept gone] a]. destruct HP as (w' & E & R' & D). destruct HF as (F1 & F2 & F3 & _ & F5).
  by exists w', kept, gone, a.
Qed.

(** C21: A new entry fits: its content is within the limit for one entry, the
    content of the entries that stay and its own are within the limit for all,
    and so is the number of entries.  It is stored under the URL without the
    fragment.  When no entry is empty and the list is not full, content within
    the limits is always accepted. *)
Theorem create_fits (before : Z) (now : double) (garbage : bool * bool * double) (w : World) (l : list entry)
    (url : KURL) (data : list (list Z)) (response : ResourceResponse) (noCache mustRevalidate : bool)
    (expires maxAge : double) :
  let c := cache w in
  rep w l 0 -> heap w !! next w = None -> lengths_ok l ->
  total elen l <= m_limitTotalContentsSize c -> total elen l + data_size data < 2 ^ 63 -> data_size data < 2 ^ 31 ->
  1 <= m_limitContentEntries c < 2 ^ 32 -> Z.of_nat (length l) <= m_limitContentEntries c ->
  exists w' created kept,
    createHTTPCachedResource before now garbage w url data response noCache mustRevalidate expires maxAge =
      Some (w', created) /\
    rep w' kept 0 /\ sublist kept.*1 l.*1 /\
    (m_disabled c = false -> data_size data <= m_limitContentSize c -> data_size data <= m_limitTotalContentsSize c ->
     Forall (fun x => 0 < elen x) l -> Z.of_nat (length l) < m_limitContentEntries c -> is_Some created) /\
    match created with
    | None => True
    | Some p =>
        exists r, heap w !! p = None /\ heap w' !! p = Some r /\ p ∉ kept.*1 /\
          key r = m_string (removeFragmentIdentifierIfNeeded before url) /\
          m_resourceData r = Some data /\ m_contentLength r = data_size data /\
          data_size data <= m_limitContentSize c /\
          total elen kept + data_size data <= m_limitTotalContentsSize c /\
          Z.of_nat (length kept) + 1 <= m_limitContentEntries c
    end.
Proof.
  intros c R Hfresh Hl Htot Hov Hsz Hent Hlen. unfold createHTTPCachedResource. fold c.
  destruct (m_disabled c). { exists w, None, l. by split_and!. }
  assert (0 <= data_size data) as H0 by (unfold data_size; lia).
  replace (s32 (data_size data)) with (data_size data) by (unfold swrapN; dlia).
  destruct (Z.ltb_spec (m_limitContentSize c) (data_size data)). { exists w, None, l. split_and!; try done. intros; lia. }
  destruct (Z.ltb_spec (m_limitTotalContentsSize c) (data_size data)). { exists w, None, l. split_and!; try done. intros; lia. }
  destruct (create_purge w l (data_size data) R Hl Htot H0 ltac:(done) Hov)
    as (w1 & a & l1 & g & E1 & R1 & D1 & S1 & L1 & F1 & T1 & A1). fold c in E1, F1. rewrite E1. cbn [mbind option_bind].
  destruct (Z.eqb_spec a 0). { exists w1, None, l1. split_and!; try done. intros _ _ _ Hpos _. by specialize (A1 Hpos). }
  pose proof (dis_settings _ _ _ _ D1) as ES. assert (m_limitContentEntries (cache w1) = m_limitContentEntries c) as EE
    by (unfold settings in ES; unfold c; congruence).
  assert (length l1 <= length l)%nat as Hl1 by (apply sublist_length in S1; by rewrite !length_fmap in S1).
  destruct (create_oldest w1 l1 R1 L1) as (w2 & b & l2 & g2 & E2 & R2 & D2 & S2 & T2 & F2 & A2);
    [rewrite EE; done|rewrite EE; lia|]. rewrite EE in *. rewrite E2. cbn [mbind option_bind].
  assert (sublist l2.*1 l.*1) as S by (by etrans).
  destruct (Z.eqb_spec b 0). { exists w2, None, l2. split_and!; try done. intros _ _ _ _ Hroom. exfalso. apply A2; [lia|done]. }
  assert (next w2 = next w) as EN by (by rewrite (dis_next _ _ _ _ D2), (dis_next _ _ _ _ D1)).
  assert (heap w2 !! next w2 = None) as Hfresh2.
  { rewrite EN. destruct (heap w2 !! next w) eqn:E; [|done]. exfalso.
    assert (is_Some (heap w !! next w)) as [? E'] by (apply (dis_live _ _ _ _ D1), (dis_live _ _ _ _ D2); by rewrite E).
    by rewrite Hfresh in E'. }
  specialize (F2 ltac:(done)).
  eexists _, (Some (next w2)), l2. split; [reflexivity|]. split_and!; [by apply (rep_alloc w2)|done|done|].
  eexists. rewrite EN at 1. split; [done|]. split; [apply lookup_insert_eq|].
  split; [by eapply rep_pointer|]. destruct garbage as [[? ?] ?]. split_and!; try done; lia.
Qed.


End Limits.
End CacheProps.

(** * Concrete instances *)
Module CacheWitness.
Import Cache CacheSpec CacheFacts CacheRuns CacheProps ResourceFacts KURLParse.Assemble.

(** A file system that keeps what was written. *)
Fixpoint last_written (path : list Z) (calls : list FileCall) : list Z :=
  match calls with
  | [] => []
  | Written p c :: rest => if bool_decide (p = path) then match last_written path rest with [] => c | c' => c' end
                           else last_written path rest
  | _ :: rest => last_written path rest
  end.

#[export] Instance disk : Peers := {|
  peer_open _ _ := true;
  peer_write _ _ k := k;
  peer_read _ _ k := k;
  peer_content calls path := last_written path calls;
  peer_stat calls path := Some (Z.of_nat (length (last_written path calls)));
  peer_malloc _ _ := true;
  peer_append p c := Some (p ++ c);
  peer_list _ _ := []
|}.

(** An entry for a URL, with [n] bytes of content. *)
Definition sample (url : list Z) (n : Z) : HTTPCachedResource :=
  let r := mkResource (Some url) (Some (str "text/html")) n None None 200 false false 0x7FF8000000000000
    0x40AC200000000000 0x41D5000000000000 0x7FF8000000000000 None None (Some (url ++ str ".dcf"))
    (Some [replicate (Z.to_nat n) 65]) n 0 false 0 in
  calcResourceSize r.

Definition url1 : list Z := str "http://a/1".
Definition url2 : list Z := str "http://a/2".
Definition url3 : list Z := str "http://a/3".

(** Three entries; the second one has been read. *)
Definition loaded : World :=
  world_after [Store (sample url1 10); Store (sample url2 20); Store (sample url3 30); MarkUsed url2].
Definition loaded_entries : list entry :=
  fst (fold_left spec_op [Store (sample url1 10); Store (sample url2 20); Store (sample url3 30); MarkUsed url2] ([], 0%nat)).

Lemma loaded_rep : rep loaded loaded_entries 0.
Proof. apply (holds_rep _ _ (world_after_holds _)). Qed.

Lemma loaded_lengths : lengths_ok loaded_entries.
Proof. unfold lengths_ok. by_eval. Qed.

Lemma purgeBySize_frees_witness :
  exists w' kept gone freed, purgeBySize loaded 15 = Some (w', freed) /\ rep w' kept 0 /\
    discards loaded w' loaded_entries.*1 gone /\ loaded_entries.*1 ≡ₚ kept.*1 ++ gone.*1 /\
    sublist kept.*1 loaded_entries.*1 /\ 60 = total elen kept + freed /\ (15 <= freed \/ kept = []).
Proof.
  change 60 with (total elen loaded_entries).
  apply (purgeBySize_frees loaded loaded_entries 0 15 loaded_rep loaded_lengths); [vm_compute; reflexivity|lia].
Defined.

Definition new_url : KURL := Update.parsedURL 0 (str "http://a/4#part").

Lemma create_fits_witness :
  exists w' created kept,
    createHTTPCachedResource 0 0 (true, true, 7) loaded new_url [str "data"]
      (mkResponse None 4 None None 200 0 0 0 None None false false false 0) false false 0 0 = Some (w', created) /\
    rep w' kept 0 /\ sublist kept.*1 loaded_entries.*1 /\ is_Some created.
Proof.
  destruct (create_fits 0 0 (true, true, 7) loaded loaded_entries new_url [str "data"]
    (mkResponse None 4 None None 200 0 0 0 None None false false false 0) false false 0 0) as (w' & created & kept & E & R & S & HS & _).
  - apply loaded_rep.
  - vm_compute. reflexivity.
  - apply loaded_lengths.
  - vm_compute. discriminate.
  - vm_compute. reflexivity.
  - vm_compute. reflexivity.
  - vm_compute. split; [discriminate|reflexivity].
  - vm_compute. discriminate.
  - exists w', created, kept. split; [exact E|]. split; [exact R|]. split; [exact S|].
    apply HS; [vm_compute; reflexivity|vm_compute; discriminate|vm_compute; discriminate|by_eval|vm_compute; reflexivity].
Defined.

(** The world with a fourth entry that is not yet in the cache. *)
Definition pending : World := fst (alloc loaded (sample (str "http://a/4") 40)).

Lemma pending_rep : rep pending loaded_entries 0.
Proof. apply rep_alloc; [apply loaded_rep|vm_compute; reflexivity]. Qed.


(** [purgeOldest] does not clear the used marks as [purgeBySize] does: a full
    list of used entries refuses every new one. *)
Example full_of_used_entries :
  let w := setMaxContentEntries (world_after [Store (sample url1 10); MarkUsed url1]) 1 in
  createHTTPCachedResource 0 0 (false, false, 0) w new_url [str "data"]
    (mkResponse None 4 None None 200 0 0 0 None None false false false 0) false false 0 0 = Some (w, None).
Proof. vm_compute. reflexivity. Qed.

End CacheWitness.
