(* ===== verification/CacheTable.v ===== *)
(** * The saved table of the HTTP cache, and its file names

    Theorems about [HTTPCache.Cache]: [writeFATFile] stays inside its buffer and
    what it saves is read back by [readFATFile] to the same entries in the same
    order; a table whose digest or version is wrong empties the cache; the file
    names made for new entries are never those of cached entries until the
    counter wraps. *)
From stdpp Require Import gmap.
From S2P Require Import Prelude UTF8 BlockHash MD5 WString KURLParse KURL HTTPResource HTTPCache.
Import WString.Str Double Mem Resource MemFacts ResourceFacts.
Import Cache CacheSpec CacheFacts.

Module TableFacts.

(** ** The image of the entries *)

Definition resources (l : list entry) : list HTTPCachedResource := map snd l.

Fixpoint table_end (off : nat) (rs : list HTTPCachedResource) : nat :=
  match rs with [] => off | r :: rs' => table_end (resource_end off r) rs' end.

Fixpoint reads_table (buf : list Z) (off : nat) (rs : list HTTPCachedResource) : Prop :=
  match rs with [] => True | r :: rs' => reads_resource buf off r /\ reads_table buf (resource_end off r) rs' end.

Definition raw_total (rs : list HTTPCachedResource) : Z := foldr (fun r s => raw_size r + s) 0 rs.

Lemma raw_total_nonneg rs : 60 * Z.of_nat (length rs) <= raw_total rs.
Proof.
  unfold raw_total. induction rs as [|r rs IH]; cbn [length foldr]; [lia|]. pose proof (raw_size_mod r). lia.
Qed.

Lemma table_end_eq off rs : table_end off rs = (off + Z.to_nat (raw_total rs))%nat.
Proof.
  revert off. induction rs as [|r rs IH]; intros off; cbn [table_end]; [unfold raw_total; simpl; lia|].
  rewrite IH. change (raw_total (r :: rs)) with (raw_size r + raw_total rs). unfold resource_end.
  pose proof (raw_size_mod r). pose proof (raw_total_nonneg rs). lia.
Qed.

Lemma resource_end_ge off r : (off <= resource_end off r)%nat.
Proof. unfold resource_end. lia. Qed.

Lemma table_end_ge off rs : (off <= table_end off rs)%nat.
Proof. rewrite table_end_eq. lia. Qed.

Lemma reads_resource_agree a b buf buf' off r :
  agree a b buf buf' -> (resource_end off r <= a \/ b <= off)%nat -> reads_resource buf off r -> reads_resource buf' off r.
Proof.
  intros A Hd [R1 R2]. pose proof (raw_size_mod r) as [_ Hm]. split.
  - eapply reads_agree; [exact A| |exact R1]. rewrite length_numbers. unfold resource_end in Hd. lia.
  - eapply reads_strings_agree; [exact A| |exact R2]. rewrite strings_end. unfold resource_end in *. lia.
Qed.

Lemma reads_table_agree a b buf buf' off rs :
  agree a b buf buf' -> (table_end off rs <= a \/ b <= off)%nat -> reads_table buf off rs -> reads_table buf' off rs.
Proof.
  intros A. revert off. induction rs as [|r rs IH]; intros off Hd; cbn [reads_table table_end] in *; [done|].
  pose proof (table_end_ge (resource_end off r) rs). pose proof (resource_end_ge off r). intros [R1 R2]. split.
  - eapply reads_resource_agree; [exact A|lia|done].
  - apply IH; [lia|done].
Qed.

Lemma serializeFATData_spec w l buf off :
  Forall (fun x => heap w !! x.1 = Some x.2) l -> (table_end off (resources l) <= length buf)%nat ->
  exists buf', serializeFATData w l.*1 buf off = Some buf' /\ reads_table buf' off (resources l) /\
    agree off (table_end off (resources l)) buf buf'.
Proof.
  revert buf off. induction l as [|[p r] l IH]; intros buf off HL Hlen; cbn [fmap list_fmap fst serializeFATData resources map reads_table table_end] in *.
  { exists buf. split_and!; [done|done|apply agree_refl]. }
  apply Forall_cons_iff in HL as [Hp HL]. cbn in Hp. rewrite Hp. cbn [mbind option_bind].
  fold (resources l) in *. pose proof (table_end_ge (resource_end off r) (resources l)). pose proof (resource_end_ge off r).
  cbn [snd] in *. destruct (serialize_spec r buf off) as (b1 & -> & R1 & A1); [lia|]. cbn [mbind option_bind].
  fold (resource_end off r). destruct (IH b1 (resource_end off r) HL) as (b2 & E2 & R2 & A2); [destruct A1 as [-> _]; done|].
  exists b2. split_and!; [done| |done|].
  - eapply reads_resource_agree; [exact A2|lia|done].
  - eapply agree_trans; [eapply agree_wider; [| |exact A1]|eapply agree_wider; [| |exact A2]]; lia.
Qed.

Section Table.
Context `{Peers}.

(** Nothing is allocated from [next] on. *)
Definition fresh (w : World) : Prop := forall q, (next w <= q)%nat -> heap w !! q = None.

Definition read_back (n : nat) (rs : list HTTPCachedResource) : list entry :=
  zip (seq n (length rs)) (map (restored HTTPCachedResource_new) rs).

Lemma key_restored r0 r : key (restored r0 r) = key r.
Proof. done. Qed.

Lemma deserialize_loop_spec fuel w l d buf off rs :
  rep w l d -> m_disabled (cache w) = false -> fresh w -> Forall resource_ok rs ->
  NoDup (map ekey l ++ map key rs) -> reads_table buf off rs -> (length rs <= fuel)%nat ->
  exists w', deserialize_loop fuel w buf off (raw_total rs) = Some w' /\ rep w' (l ++ read_back (next w) rs) d /\
    calls w' = calls w /\ settings (cache w') = settings (cache w).
Proof.
  revert w l off rs. induction fuel as [|fuel IH]; intros w l off rs R Hd Hfr Hok ND HR Hf.
  { destruct rs; [|simpl in Hf; lia]. exists w. by rewrite app_nil_r. }
  destruct rs as [|r rs]; [exists w; by rewrite app_nil_r|]. cbn [deserialize_loop].
  change (raw_total (r :: rs)) with (raw_size r + raw_total rs). pose proof (raw_size_mod r) as [_ Hm].
  pose proof (raw_total_nonneg rs). destruct (Z.leb_spec (raw_size r + raw_total rs) 0); [lia|].
  cbn [reads_table] in HR. destruct HR as [HR1 HR2]. apply Forall_cons_iff in Hok as [Ok1 Ok2].
  rewrite (deserialize_spec _ r) by done. cbn [mbind option_bind].
  set (r' := restored HTTPCachedResource_new r). destruct (alloc w r') as [w1 p] eqn:Ea.
  assert (w1 = fst (alloc w r')) as -> by (by rewrite Ea). assert (p = next w) as -> by (by injection Ea).
  pose proof (Hfr (next w) ltac:(lia)) as Hnew. cbn [map] in ND.
  assert (key r ∉ map ekey l) as Hk by (intros Hin; apply list.NoDup_app in ND as (_ & ND & _); apply (ND _ Hin); set_solver).
  destruct (addCachedResource_spec (fst (alloc w r')) l d (next w) r') as (w2 & E2 & R2 & H2 & N2 & C2 & S2);
    [by apply rep_alloc|done|apply lookup_insert_eq|by eapply rep_pointer| |].
  { rewrite (rep_unmapped w l d); [done|done|]. unfold r'. by rewrite key_restored. }
  rewrite E2. cbn [mbind option_bind]. fold (resource_end off r).
  replace (raw_size r + raw_total rs - raw_size r) with (raw_total rs) by lia.
  cbn in N2. cbn in H2. simpl in Hf.
  destruct (IH w2 (l ++ [(next w, r')]) (resource_end off r) rs R2) as (w3 & E3 & R3 & C3 & S3); try done.
  - unfold settings in S2. cbn in S2. congruence.
  - intros q Hq. rewrite H2. rewrite lookup_insert_ne by lia. apply Hfr. lia.
  - rewrite map_app, <- app_assoc. done.
  - lia.
  - exists w3. split_and!; [done| |by rewrite C3, C2|by rewrite S3, S2]. rewrite <- app_assoc, N2 in R3. exact R3.
Qed.

(** ** Writing the buffer *)

Lemma fat_write_loop_full fwrite fuel call buffer content :
  (forall n k, 0 < k -> 1 <= fwrite n k <= k) -> (length buffer <= fuel)%nat ->
  fat_write_loop fuel fwrite call (Z.of_nat (length buffer)) buffer content = Some (0, content ++ buffer).
Proof.
  intros Hw. revert call buffer content. induction fuel as [|fuel IH]; intros call buffer content Hf; cbn [fat_write_loop].
  { destruct buffer; [|simpl in Hf; lia]. cbn. by rewrite app_nil_r. }
  destruct (Z.leb_spec (Z.of_nat (length buffer)) 0).
  { destruct buffer; [|simpl in *; lia]. cbn. by rewrite app_nil_r. }
  pose proof (Hw call (Z.of_nat (length buffer)) ltac:(lia)) as Hc. set (n := fwrite call _) in *.
  destruct (Z.leb_spec n 0); [lia|].
  replace (Z.of_nat (length buffer) - n) with (Z.of_nat (length (drop (Z.to_nat n) buffer))) by (rewrite length_drop; lia).
  rewrite IH by (rewrite length_drop; lia). by rewrite <- app_assoc, take_drop.
Qed.

(** ** The digest *)

Lemma length_md5_of data : length (md5_of data) = 16%nat.
Proof.
  unfold md5_of, MD5.Code.checksum. destruct (_ <? 8)%nat; cbn [fst];
    by rewrite MD5.MD5Facts.reverseBytes_id by (apply MD5.MD5Facts.regs_bytes_ok || done).
Qed.

Lemma writeDigest_spec data :
  (16 <= length data)%nat ->
  exists data', writeDigest data = Some data' /\ length data' = length data /\ drop 16 data' = drop 16 data /\
    take 16 data' = md5_of (drop 16 data').
Proof.
  intros Hl. unfold writeDigest, MD5_DIGESTSIZE.
  pose proof (length_md5_of (drop 16 data)) as Hm. unfold store. rewrite Hm. destruct (Nat.leb_spec (0 + 16) (length data)); [|lia].
  eexists. split; [reflexivity|]. assert (drop 16 (memcpy_at 0 (md5_of (drop 16 data)) data) = drop 16 data) as Ed.
  { unfold memcpy_at. rewrite Hm. rewrite firstn_O, app_nil_l. by rewrite drop_app_length' by done. }
  split; [by rewrite length_memcpy_at by (rewrite Hm; lia)|]. split; [done|]. rewrite Ed. unfold memcpy_at. rewrite firstn_O, app_nil_l.
  by rewrite take_app_length' by done.
Qed.

Lemma verifyDigest_ok data : (16 < length data)%nat -> take 16 data = md5_of (drop 16 data) -> verifyDigest data = true.
Proof.
  intros Hl E. unfold verifyDigest, MD5_DIGESTSIZE. destruct (Nat.leb_spec (length data) 16); [lia|]. by apply bool_decide_eq_true.
Qed.

(** ** The file *)

(** Entries that can be saved: their recorded sizes are right and all of them
    fit an [int]. *)
Definition saveable (l : list entry) : Prop :=
  Forall (fun x => resource_ok x.2 /\ esize x = resource_size x.2) l /\ 24 + raw_total (resources l) < 2 ^ 31.

Lemma saveable_total l : saveable l -> total esize l = raw_total (resources l).
Proof.
  intros [HF _]. unfold total, raw_total. induction HF as [|x l [Ok E] HF IH]; [done|]. cbn [foldr resources map].
  rewrite E, resource_size_raw by (destruct Ok as (_ & _ & _ & _ & _ & Hs); exact Hs). unfold resources in IH. by rewrite IH.
Qed.

(** The layout of a saved table. *)
Definition table_image (fileNumber : Z) (rs : list HTTPCachedResource) (content : list Z) : Prop :=
  Z.of_nat (length content) = 24 + raw_total rs /\ take 16 content = md5_of (drop 16 content) /\
  reads content 16 (le_bytes 4 CACHEFAT_FORMAT_VERSION) /\ reads content 20 (le_bytes 4 fileNumber) /\
  reads_table content 24 rs.

Lemma drop_agree n data data' : length data' = length data -> drop n data' = drop n data -> agree 0 n data data'.
Proof.
  intros Hl Hd. split; [done|]. intros i [Hi|Hi]; [lia|]. replace i with (n + (i - n))%nat by lia.
  by rewrite <- !lookup_drop, Hd.
Qed.

Lemma fat_image_spec w l d :
  rep w l d ->
  exists content, fat_image w (24 + raw_total (resources l)) = Some content /\
    table_image (m_fileNumber (cache w)) (resources l) content.
Proof.
  intros R. pose proof (raw_total_nonneg (resources l)) as Hn. unfold fat_image, MD5_DIGESTSIZE. cbn [Nat.add].
  set (N := Z.to_nat (24 + raw_total (resources l))).
  unfold store_int. destruct (store_spec (replicate N 0) 16 (le_bytes 4 CACHEFAT_FORMAT_VERSION)) as (b1 & -> & R1 & A1).
  { rewrite length_replicate, length_le_bytes. lia. }
  cbn [mbind option_bind]. pose proof (proj1 A1) as L1. rewrite length_replicate in L1.
  destruct (store_spec b1 20 (le_bytes 4 (m_fileNumber (cache w)))) as (b2 & -> & R2 & A2). { rewrite length_le_bytes. lia. }
  cbn [mbind option_bind]. pose proof (proj1 A2) as L2. rewrite (rep_list _ _ _ R).
  destruct (serializeFATData_spec w l b2 24 (rep_heap _ _ _ R)) as (b3 & -> & R3 & A3). { rewrite table_end_eq. lia. }
  cbn [mbind option_bind]. pose proof (proj1 A3) as L3.
  destruct (writeDigest_spec b3) as (b4 & -> & L4 & Ed & Et); [lia|]. exists b4. split; [done|].
  pose proof (drop_agree 16 b3 b4 L4 Ed) as A4. split_and!; [lia|done| | |].
  - eapply reads_agree; [exact A4|right; lia|]. eapply reads_agree; [exact A3|left; rewrite length_le_bytes; lia|].
    eapply reads_agree; [exact A2|left; rewrite length_le_bytes; lia|done].
  - eapply reads_agree; [exact A4|right; lia|]. eapply reads_agree; [exact A3|left; rewrite length_le_bytes; lia|done].
  - eapply reads_table_agree; [exact A4|right; lia|done].
Qed.

Lemma memcpy_whole c : memcpy_at 0 c (replicate (length c) 0) = c.
Proof. unfold memcpy_at. rewrite firstn_O, app_nil_l. rewrite drop_ge by (rewrite length_replicate; lia). apply app_nil_r. Qed.

(** The peers give a whole file. *)
Definition serves (w : World) (content : list Z) : Prop :=
  peer_open (calls w) (fat_path w) = true /\ peer_content (calls w) (fat_path w) = content /\
  peer_stat (calls w) (fat_path w) = Some (Z.of_nat (length content)) /\
  peer_malloc (calls w) (Z.of_nat (length content)) = true /\
  peer_read (calls w) 0 (Z.of_nat (length content)) = Z.of_nat (length content).

(** [readFATFile] on a whole file that is long enough. *)
Lemma readFATFile_served w content :
  serves w content -> 24 < Z.of_nat (length content) ->
  readFATFile w =
    let w := log w [ReadFrom (fat_path w)] in
    if negb (verifyDigest content) then w ← removeAll w; Some (w, false)
    else
      format_version ← load_int content 16;
      if negb (format_version =? CACHEFAT_FORMAT_VERSION)%Z then w ← removeAll w; Some (w, false)
      else
        fileNumber ← load_int content 20;
        let w := with_cache w (set_fileNumber (cache w) fileNumber) in
        w ← deserializeFATData w content 24 (Z.of_nat (length content) - 24); Some (w, true).
Proof.
  intros (S1 & S2 & S3 & S4 & S5) Hlen. unfold readFATFile, MD5_DIGESTSIZE. rewrite S1, S3, S4, S5, S2. cbn [negb].
  change (Z.of_nat 16 + 4 * 2) with 24. destruct (Z.leb_spec (Z.of_nat (length content)) 24); [lia|].
  destruct (Z.ltb_spec (Z.of_nat (length content)) 0); [lia|]. rewrite Z.eqb_refl. cbn [negb orb].
  rewrite Nat2Z.id, firstn_all, memcpy_whole, firstn_all. cbn [Nat.add].
  change (4 + 4 + Z.of_nat 16) with 24. cbv zeta. destruct (Z.leb_spec (Z.of_nat (length content) - 24) 0); [lia|]. done.
Qed.

End Table.
(** ** File names *)
Section Names.
Context `{Peers}.

Lemma number_loop_value fuel i out :
  0 <= i < 10 ^ Z.of_nat fuel ->
  IntFacts.decimal_from 0 (Update.number_loop fuel i out) = IntFacts.decimal_from i out.
Proof.
  revert i out. induction fuel as [|fuel IH]; intros i out Hi; cbn [Update.number_loop].
  { change (10 ^ Z.of_nat 0) with 1 in Hi. by replace i with 0 by lia. }
  rewrite Nat2Z.inj_succ, Z.pow_succ_r in Hi by lia.
  assert (IntFacts.decimal_from (i / 10) ((48 + i mod 10) :: out) = IntFacts.decimal_from i out) as E.
  { unfold IntFacts.decimal_from. cbn [fold_left]. f_equal. pose proof (Z_div_mod_eq_full i 10). lia. }
  destruct (Z.eqb_spec (i / 10) 0) as [E0|Hne]; [by rewrite <- E0 at 1; rewrite E|].
  rewrite IH by (split; [apply Z.div_pos; lia|apply Z.div_lt_upper_bound; lia]). exact E.
Qed.

Lemma decimal_zeros n l : IntFacts.decimal_from 0 (replicate n 48 ++ l) = IntFacts.decimal_from 0 l.
Proof. induction n as [|n IH]; [done|]. cbn [replicate app]. rewrite <- IH. done. Qed.

Lemma format_value n : 0 <= n < 2 ^ 31 -> IntFacts.decimal_from 0 (format_08d n) = n.
Proof.
  intros Hn. unfold format_08d. destruct (Z.ltb_spec n 0); [lia|]. cbn [app length].
  rewrite decimal_zeros. unfold Update.number. rewrite Z.abs_eq by lia.
  rewrite number_loop_value by (change (10 ^ Z.of_nat 20) with 100000000000000000000; lia). done.
Qed.

Definition file_name (n : Z) : String := Some (format_08d n ++ str ".dcf").

Lemma file_name_inj n m : 0 <= n < 2 ^ 31 -> 0 <= m < 2 ^ 31 -> file_name n = file_name m -> n = m.
Proof. intros Hn Hm [= E%app_inv_tail]. rewrite <- (format_value n Hn), <- (format_value m Hm). by rewrite E. Qed.

(** The files of the entries were named by the counter, each at another value. *)
Definition names_ok (w : World) (l : list entry) : Prop :=
  NoDup (map (fun x => m_fileName x.2) l) /\
  Forall (fun x => exists k, 0 <= k < m_fileNumber (cache w) /\ m_fileName x.2 = file_name k) l.

End Names.

End TableFacts.

(** * Properties *)
Module TableProps.
Import TableFacts KURLParse.Assemble.

Section Properties.
Context `{Peers}.

(** C16: Saving a table stays inside its buffer and succeeds when the file system
    writes at least a byte per call; a cache that is empty reads the saved table
    back to the same entries in the same order, found under the same URLs, and
    to the same file number. *)
Theorem fat_roundtrip (w : World) (l : list entry) (d : Z) :
  rep w l d -> l <> [] -> saveable l -> is_s32 (m_fileNumber (cache w)) ->
  peer_malloc (calls w) (24 + raw_total (resources l)) = true -> peer_open (calls w) (fat_path w) = true ->
  (forall n k, 0 < k -> 1 <= peer_write (calls w) n k <= k) ->
  exists content, writeFATFile w = Some (log w [Written (fat_path w) content], true) /\
    forall w2 d2, rep w2 [] d2 -> m_disabled (cache w2) = false -> fresh w2 -> serves w2 content ->
    exists w3 l3, readFATFile w2 = Some (w3, true) /\ rep w3 l3 d2 /\
      resources l3 = map (restored HTTPCachedResource_new) (resources l) /\
      m_fileNumber (cache w3) = m_fileNumber (cache w).
Proof.
  intros R Hne HS Hn Hm Ho Hw. destruct (fat_image_spec w l d R) as (content & EI & HI).
  destruct HI as (L & Et & R1 & R2 & R3). pose proof (raw_total_nonneg (resources l)) as Hr.
  assert (0 < length (resources l))%nat as Hpos by (destruct l; [done|simpl; lia]).
  exists content. split.
  - unfold writeFATFile. rewrite (rep_sizes _ _ _ R), (saveable_total _ HS). destruct HS as [_ HS].
    replace (s32 (4 * 2 + Z.of_nat MD5_DIGESTSIZE + s32 (raw_total (resources l)))) with (24 + raw_total (resources l))
      by (unfold MD5_DIGESTSIZE, swrapN; dlia).
    rewrite Hm. cbn [negb]. rewrite EI. cbn [mbind option_bind]. rewrite Ho. cbn [negb]. rewrite <- L.
    rewrite fat_write_loop_full by done. done.
  - intros w2 d2 E2 Hd Hf Hs. rewrite (readFATFile_served w2 content Hs) by lia. cbv zeta.
    rewrite verifyDigest_ok by (done || lia). cbn [negb].
    rewrite (load_int_spec content 16 CACHEFAT_FORMAT_VERSION ltac:(unfold is_s32, CACHEFAT_FORMAT_VERSION; lia) R1).
    cbn [mbind option_bind]. rewrite Z.eqb_refl. cbn [negb].
    rewrite (load_int_spec content 20 (m_fileNumber (cache w)) Hn R2). cbn [mbind option_bind].
    replace (Z.of_nat (length content) - 24) with (raw_total (resources l)) by lia. unfold deserializeFATData.
    match goal with |- context [deserialize_loop ?f ?w0 _ _ _] =>
      destruct (deserialize_loop_spec f w0 [] d2 content 24 (resources l)) as (w3 & -> & R4 & _ & S3) end; try done.
    + by eapply rep_ext.
    + destruct HS as [HS _]. unfold resources. apply Forall_fmap. eapply Forall_impl; [|exact HS]. by intros x [].
    + cbn [map app]. unfold resources. rewrite map_map. exact (rep_keys _ _ _ R).
    + lia.
    + cbn [mbind option_bind]. eexists w3, _. split; [done|]. split; [exact R4|]. split; [|unfold settings in S3; cbn in S3; congruence].
      unfold read_back, resources. cbn [app]. apply snd_zip. rewrite length_map, length_seq. lia.
Qed.


(** Until the counter wraps, an entry is written to a file no cached entry
    uses: the names stay distinct. *)
Theorem write_names_fresh (fuel : nat) (w : World) (l : list entry) (d : Z) (p : nat) (r : HTTPCachedResource) :
  rep w l d -> heap w !! p = Some r -> p ∉ l.*1 -> key r ∉ map ekey l -> writes_progress -> data_fits fuel r ->
  names_ok w l -> 0 <= m_fileNumber (cache w) < WKC_INT_MAX ->
  file_name (m_fileNumber (cache w)) ∉ map (fun x => m_fileName x.2) l /\
  exists w' ok l', write fuel w p = Some (w', ok) /\ rep w' l' d /\ names_ok w' l' /\
    m_fileNumber (cache w') = m_fileNumber (cache w) + 1 /\
    (ok = true -> exists r', (p, r') ∈ l' /\ m_fileName r' = file_name (m_fileNumber (cache w))).
Proof.
  intros R Hp Hnew Hkey Hw Hf [ND HN] Hn. unfold WKC_INT_MAX in Hn.
  assert (forall l0 : list entry, Forall (fun x => exists k, 0 <= k < m_fileNumber (cache w) /\ m_fileName x.2 = file_name k) l0 ->
    file_name (m_fileNumber (cache w)) ∉ map (fun x => m_fileName x.2) l0) as Hfresh.
  { intros l0 HF (x & E & Hx)%list_elem_of_fmap. rewrite list.Forall_forall in HF. destruct (HF x Hx) as (k & Hk & Ek).
    rewrite Ek in E. apply file_name_inj in E; lia. }
  split; [by apply Hfresh|].
  destruct (write_spec fuel w l d p r R Hp Hnew Hkey Hw Hf) as (w' & r' & ok & c & E & _ & R' & _ & _ & _ & _ & _ & N' & _ & Hok).
  exists w', ok. eexists. split; [done|]. split; [exact R'|].
  assert (m_fileNumber (cache w') = m_fileNumber (cache w) + 1) as N1.
  { rewrite N'. unfold next_number, WKC_INT_MAX. destruct (Z.eqb_spec (m_fileNumber (cache w)) 0x7fffffff); lia. }
  pose proof (make_room_map (fun x => m_fileName x.2) w (m_contentLength r) l (fun _ => eq_refl)) as [SN PN].
  set (kept := fst (make_room w (m_contentLength r) l)) in *.
  assert (Forall (fun x => exists k, 0 <= k < m_fileNumber (cache w) /\ m_fileName x.2 = file_name k) kept) as HK.
  { rewrite list.Forall_forall in HN |- *. intros x Hx.
    assert (m_fileName x.2 ∈ map (fun x : entry => m_fileName x.2) l) as Hin by (eapply elem_of_sublist; [|exact SN]; apply list_elem_of_fmap; eauto).
    apply list_elem_of_fmap in Hin as (y & Ey & Hy). rewrite Ey. by apply HN. }
  assert (NoDup (map (fun x : entry => m_fileName x.2) kept)) as NDk by (rewrite PN, list.NoDup_app in ND; tauto).
  split; [|split; [done|]].
  - unfold names_ok. rewrite N1, map_app, Forall_app. split.
    + apply list.NoDup_app. split; [done|]. destruct ok; cbn [map]; [|split; [set_solver|constructor]].
      destruct Hok as (_ & _ & En & _). cbn [snd]. rewrite En. split; [|apply NoDup_singleton].
      intros x Hx ->%list_elem_of_singleton. by apply (Hfresh kept HK).
    + split; [eapply Forall_impl; [|exact HK]; intros x (k & Hk & Ek); exists k; split; [lia|done]|].
      destruct ok; constructor; [|constructor]. destruct Hok as (_ & _ & En & _). exists (m_fileNumber (cache w)). split; [lia|done].
  - intros ->. exists r'. split; [set_solver|]. by destruct Hok as (_ & _ & En & _).
Qed.

End Properties.
End TableProps.

(** * Concrete instances *)
Module TableWitness.
Import TableFacts TableProps CacheRuns CacheWitness UTF8.Spec.

Lemma sample_ok url n :
  Forall scalar url -> utf16s url = url -> (Z.of_nat (length url) <=? 1000) = true ->
  (Z.of_nat (length (utf16s (url ++ str ".dcf"))) <=? Impl.UINT_MAX / 3) = true ->
  utf16s (url ++ str ".dcf") = url ++ str ".dcf" -> is_s64 n -> (raw_size (sample url n) <? 2 ^ 31) = true ->
  resource_ok (sample url n).
Proof.
  intros H1 H2 H3%Z.leb_le H4 H5 Hn Hr%Z.ltb_lt. unfold resource_ok. cbn [sample calcResourceSize with_file m_expectedContentLength m_contentLength m_httpStatusCode m_expires m_maxAge m_date m_lastModified fields m_url m_mimeType m_textEncodingName m_suggestedFilename m_fileName m_lastModifiedHeader m_eTagHeader].
  split; [done|]. split; [done|]. split; [unfold is_s32; lia|]. split; [by_eval|]. split; [|exact Hr].
  assert (Forall scalar (url ++ str ".dcf")) as Hd by (apply Forall_app; split; [done|by_eval]).
  assert (str_ok None) as HN by (eapply (ResourceWitness.str_ok_eval []); [by_eval|reflexivity|reflexivity]).
  repeat (apply Forall_cons_iff; split); try exact HN; try constructor.
  - apply (ResourceWitness.str_ok_eval url); [done|by rewrite H2|]. rewrite H2. apply Z.leb_le. unfold Impl.UINT_MAX. zpow. dlia.
  - apply (ResourceWitness.str_ok_eval (str "text/html")); [by_eval|reflexivity|reflexivity].
  - by apply (ResourceWitness.str_ok_eval (url ++ str ".dcf")).
Qed.

Definition saved : World := world_after [Store (sample url1 10); Store (sample url2 20)].
Definition saved_entries : list entry := fst (fold_left spec_op [Store (sample url1 10); Store (sample url2 20)] ([], 0%nat)).

Lemma saved_saveable : saveable saved_entries.
Proof.
  assert (saved_entries = [(0%nat, sample url1 10); (1%nat, sample url2 20)]) as -> by (vm_compute; reflexivity). split; [|vm_compute; reflexivity].
  repeat (apply Forall_cons_iff; split); try constructor; cbn [snd];
    (apply sample_ok; [by_eval|reflexivity|reflexivity|vm_compute; reflexivity|reflexivity|unfold is_s64; lia|vm_compute; reflexivity]) || reflexivity.
Qed.

(** Two entries are saved, and a second cache on the same disk reads them. *)
Lemma fat_roundtrip_witness :
  exists content, writeFATFile saved = Some (log saved [Written (fat_path saved) content], true) /\
    exists w3 l3, readFATFile (log new_world [Written (fat_path saved) content]) = Some (w3, true) /\ rep w3 l3 0 /\
      resources l3 = map (restored HTTPCachedResource_new) (resources saved_entries).
Proof.
  destruct (fat_roundtrip saved saved_entries 0) as (content & E & HR).
  - apply (holds_rep _ _ (world_after_holds _)).
  - vm_compute. discriminate.
  - apply saved_saveable.
  - vm_compute. split; [discriminate|reflexivity].
  - reflexivity.
  - reflexivity.
  - intros n k Hk. cbn. lia.
  - exists content. split; [exact E|].
    destruct (HR (log new_world [Written (fat_path saved) content]) 0) as (w3 & l3 & E3 & R3 & F3 & _).
    + eapply rep_ext; [apply (holds_rep _ _ holds_new)|done..].
    + reflexivity.
    + intros q _. apply lookup_empty.
    + repeat split.
    + exists w3, l3. split; [exact E3|]. split; [exact R3|exact F3].
Defined.

(** A table of 30 zero bytes. *)
Definition damaged : World := log saved [Written (fat_path saved) (replicate 30 0)].


(** A cache with one entry, and an entry to be written. *)
Definition named : World :=
  fst (alloc (mkWorld (set_fileNumber (cache (world_after [])) 5) ∅ 0 []) (sample url1 10)).

Lemma write_names_fresh_witness :
  file_name 5 ∉ map (fun x : entry => m_fileName x.2) [] /\
  exists w' ok l', write 50 named 0 = Some (w', ok) /\ rep w' l' 0 /\ names_ok w' l' /\
    m_fileNumber (cache w') = 5 + 1 /\ (ok = true -> exists r', (0%nat, r') ∈ l' /\ m_fileName r' = file_name 5).
Proof.
  apply (write_names_fresh 50 named [] 0 0 (sample url1 10)).
  - apply rep_empty; reflexivity.
  - vm_compute. reflexivity.
  - by_eval.
  - by_eval.
  - intros h n k Hk. cbn. lia.
  - intros data [= <-]. vm_compute. lia.
  - split; constructor.
  - vm_compute. split; [discriminate|reflexivity].
Defined.

End TableWitness.
