(* ===== verification/JobQueue.v ===== *)
(** * The request queue (WKC/WebCore/platform/network/WKC/ResourceHandleManagerWKC.cpp)

    The lists of [ResourceHandleManager]: jobs wait in the scheduled list, move
    to the running list when they are handed to the transfer library, or wait in
    the read list for the cache.  Jobs are reference counted; the lists and the
    transfer library each hold a reference.  The model has an explicit heap of
    jobs: using or releasing a job that was deleted is [None].  What the
    application and the transfer library answer are parameters; their calls are
    recorded as events.  A callback returns without calling the manager again.

    Theorems: over any sequence of operations no deleted job is used and every
    reference is accounted for; the number of running jobs is bounded; jobs are
    started in the order they were scheduled and a cancelled one never is. *)
From stdpp Require Import gmap.
From S2P Require Import Prelude.

Module Queue.

(** [ResourceHandleInternal::PermitType]. *)
Inductive PermitType := CANCEL | SUSPEND | ASKING | PERMIT.

#[global] Instance PermitType_eq_dec : EqDecision PermitType.
Proof. solve_decision. Defined.

(** A [ResourceHandle] and the fields of its [ResourceHandleInternal] the queue
    uses; of the URL, whether it is a local file and whether it is a data URL. *)
Record Job := mkJob {
  m_refCount : Z;
  m_cancelled : bool;
  m_permitSend : PermitType;
  m_handle : bool;
  m_fileLoading : bool;
  m_dataLoading : bool;
  m_matchProxyFilter : bool;
  m_composition_error : bool;
  m_client : bool;
  m_isSSL : bool;
  m_frame : nat;
  isLocalFile : bool;
  protocolIsData : bool;
  m_redirectCount : Z;
  m_doRedirectChallenge : bool;
  m_sslReconnect : bool
}.

Inductive Event :=
  | DidFail (job : nat) (code : Z)
  | WillPermitSendRequest (job : nat)
  | HandleDataURL (job : nat)
  | NotifySSL (job : nat)
  | MultiAdd (job : nat)
  | MultiRemove (job : nat)
  | EasyCleanup (job : nat)
  | InitFailed (job : nat)
  | ConditionalRequest (job : nat) (ifModifiedSince ifNoneMatch : bool)
  | DidReceiveResponse (job : nat)
  | DidReceiveData (job : nat) (data : list Z)
  | DidFinishLoading (job : nat).

(** What the cache knows of a job's URL, when it is enabled and the request does
    not bypass it. *)
Record CachedResource := mkCached {
  lastModified_isEmpty : bool;
  eTag_isEmpty : bool;
  needRevalidate : bool
}.

(** [m_attached]: the jobs whose handles the multi handle of the transfer
    library holds. *)
Record Manager := mkManager {
  jobs : gmap nat Job;
  m_scheduledJobList : list nat;
  m_runningJobList : list nat;
  m_readCacheJobList : list nat;
  m_attached : list nat;
  m_httpConnections : Z;
  m_tryProxySingleConnect : bool;
  m_harmfulSiteFilter : bool;
  m_redirectInWKC : bool;
  m_downloadTimer : bool;
  m_readCacheTimer : bool;
  events : list Event
}.

Definition CURLE_GOT_NOTHING : Z := 52.
Definition CURLE_OUT_OF_MEMORY : Z := 27.
Definition HTTP_RESERVED_CONNECTIONS : Z := 2.

(** Assigning fields. *)
Definition set_lists (m : Manager) (scheduled running readCache attached : list nat) : Manager :=
  mkManager (jobs m) scheduled running readCache attached (m_httpConnections m) (m_tryProxySingleConnect m)
    (m_harmfulSiteFilter m) (m_redirectInWKC m) (m_downloadTimer m) (m_readCacheTimer m) (events m).
Definition set_scheduled (m : Manager) (l : list nat) : Manager :=
  set_lists m l (m_runningJobList m) (m_readCacheJobList m) (m_attached m).
Definition set_running (m : Manager) (l : list nat) : Manager :=
  set_lists m (m_scheduledJobList m) l (m_readCacheJobList m) (m_attached m).
Definition set_readCache (m : Manager) (l : list nat) : Manager :=
  set_lists m (m_scheduledJobList m) (m_runningJobList m) l (m_attached m).
Definition set_attached (m : Manager) (l : list nat) : Manager :=
  set_lists m (m_scheduledJobList m) (m_runningJobList m) (m_readCacheJobList m) l.
Definition set_jobs (m : Manager) (js : gmap nat Job) : Manager :=
  mkManager js (m_scheduledJobList m) (m_runningJobList m) (m_readCacheJobList m) (m_attached m)
    (m_httpConnections m) (m_tryProxySingleConnect m) (m_harmfulSiteFilter m) (m_redirectInWKC m)
    (m_downloadTimer m) (m_readCacheTimer m) (events m).
Definition set_timers (m : Manager) (download readCache : bool) : Manager :=
  mkManager (jobs m) (m_scheduledJobList m) (m_runningJobList m) (m_readCacheJobList m) (m_attached m)
    (m_httpConnections m) (m_tryProxySingleConnect m) (m_harmfulSiteFilter m) (m_redirectInWKC m)
    download readCache (events m).
Definition set_connections (m : Manager) (n : Z) : Manager :=
  mkManager (jobs m) (m_scheduledJobList m) (m_runningJobList m) (m_readCacheJobList m) (m_attached m)
    n (m_tryProxySingleConnect m) (m_harmfulSiteFilter m) (m_redirectInWKC m)
    (m_downloadTimer m) (m_readCacheTimer m) (events m).
Definition emit (m : Manager) (e : Event) : Manager :=
  mkManager (jobs m) (m_scheduledJobList m) (m_runningJobList m) (m_readCacheJobList m) (m_attached m)
    (m_httpConnections m) (m_tryProxySingleConnect m) (m_harmfulSiteFilter m) (m_redirectInWKC m)
    (m_downloadTimer m) (m_readCacheTimer m) (events m ++ [e]).

Definition set_refCount (j : Job) (n : Z) : Job :=
  mkJob n (m_cancelled j) (m_permitSend j) (m_handle j) (m_fileLoading j) (m_dataLoading j) (m_matchProxyFilter j)
    (m_composition_error j) (m_client j) (m_isSSL j) (m_frame j) (isLocalFile j) (protocolIsData j)
    (m_redirectCount j) (m_doRedirectChallenge j) (m_sslReconnect j).
Definition set_cancelled (j : Job) (b : bool) : Job :=
  mkJob (m_refCount j) b (m_permitSend j) (m_handle j) (m_fileLoading j) (m_dataLoading j) (m_matchProxyFilter j)
    (m_composition_error j) (m_client j) (m_isSSL j) (m_frame j) (isLocalFile j) (protocolIsData j)
    (m_redirectCount j) (m_doRedirectChallenge j) (m_sslReconnect j).
Definition set_permit (j : Job) (p : PermitType) : Job :=
  mkJob (m_refCount j) (m_cancelled j) p (m_handle j) (m_fileLoading j) (m_dataLoading j) (m_matchProxyFilter j)
    (m_composition_error j) (m_client j) (m_isSSL j) (m_frame j) (isLocalFile j) (protocolIsData j)
    (m_redirectCount j) (m_doRedirectChallenge j) (m_sslReconnect j).
Definition set_handle (j : Job) (b : bool) : Job :=
  mkJob (m_refCount j) (m_cancelled j) (m_permitSend j) b (m_fileLoading j) (m_dataLoading j) (m_matchProxyFilter j)
    (m_composition_error j) (m_client j) (m_isSSL j) (m_frame j) (isLocalFile j) (protocolIsData j)
    (m_redirectCount j) (m_doRedirectChallenge j) (m_sslReconnect j).
Definition set_loading (j : Job) (file data : bool) : Job :=
  mkJob (m_refCount j) (m_cancelled j) (m_permitSend j) (m_handle j) file data (m_matchProxyFilter j)
    (m_composition_error j) (m_client j) (m_isSSL j) (m_frame j) (isLocalFile j) (protocolIsData j)
    (m_redirectCount j) (m_doRedirectChallenge j) (m_sslReconnect j).
Definition set_filter (j : Job) (matched compositionError : bool) : Job :=
  mkJob (m_refCount j) (m_cancelled j) (m_permitSend j) (m_handle j) (m_fileLoading j) (m_dataLoading j) matched
    compositionError (m_client j) (m_isSSL j) (m_frame j) (isLocalFile j) (protocolIsData j)
    (m_redirectCount j) (m_doRedirectChallenge j) (m_sslReconnect j).
Definition set_redirect (j : Job) (count : Z) (challenge sslReconnect : bool) : Job :=
  mkJob (m_refCount j) (m_cancelled j) (m_permitSend j) (m_handle j) (m_fileLoading j) (m_dataLoading j)
    (m_matchProxyFilter j) (m_composition_error j) (m_client j) (m_isSSL j) (m_frame j) (isLocalFile j)
    (protocolIsData j) count challenge sslReconnect.

(** An assignment through a job pointer, [job->ref()] and [job->deref()]. *)
Definition update (m : Manager) (p : nat) (f : Job -> Job) : option Manager :=
  j ← jobs m !! p; Some (set_jobs m (<[p := f j]> (jobs m))).
Definition ref (m : Manager) (p : nat) : option Manager := update m p (fun j => set_refCount j (m_refCount j + 1)).
Definition deref (m : Manager) (p : nat) : option Manager :=
  j ← jobs m !! p;
  Some (set_jobs m (if (m_refCount j =? 1)%Z then delete p (jobs m)
                    else <[p := set_refCount j (m_refCount j - 1)]> (jobs m))).

(** [d->client()->didFail(...)]. *)
Definition didFail (m : Manager) (p : nat) (j : Job) (code : Z) : Manager :=
  if m_client j then emit m (DidFail p code) else m.

Definition startDownloadTimer (m : Manager) : Manager := set_timers m true (m_readCacheTimer m).

(** The search for the pointer and [list.remove(i)]. *)
Fixpoint remove_first (p : nat) (l : list nat) : option (list nat) :=
  match l with
  | [] => None
  | q :: l' => if (q =? p)%nat then Some l' else l' ← remove_first p l'; Some (q :: l')
  end.

Definition setMaxHTTPConnections (m : Manager) (number : Z) : Manager :=
  if (number <? 0)%Z then m
  else if (number =? 0)%Z then set_connections m number
  else if (HTTP_RESERVED_CONNECTIONS <? number)%Z then set_connections m (number - HTTP_RESERVED_CONNECTIONS)
  else m.

Class Oracles := {
  (** [dispatchWillPermitSendRequest], when the job has a frame loader client. *)
  ask_permission : list Event -> nat -> option Z;
  (** [contentComposition(job)] is an error; [m_proxyFilters.isMatchProxyFilter]. *)
  composition_error : list Event -> nat -> bool;
  match_proxy : list Event -> nat -> bool;
  (** [frameloaderclientwkc(job)] is there to be told of the TLS handshake. *)
  has_frame_client : list Event -> nat -> bool;
  (** [curl_easy_init] and [curl_multi_add_handle] succeed. *)
  easy_init : list Event -> nat -> bool;
  multi_add : list Event -> nat -> bool;
  (** [setAuthChallenge(job, true)]: the transfer is repeated with credentials. *)
  auth_again : list Event -> nat -> bool
}.

Section Queue.
Context `{Oracles}.

(** ** Permission *)

Definition canPermitRequest (m : Manager) (p : nat) : option Manager :=
  j ← jobs m !! p;
  if m_cancelled j then Some m
  else if negb (m_harmfulSiteFilter m) then update m p (fun j => set_permit j PERMIT)
  else
    match m_permitSend j with
    | SUSPEND =>
        m ← update m p (fun j => set_permit j ASKING);
        match (if negb (m_composition_error j) then ask_permission (events m) p else None) with
        | Some ret =>
            let m := emit m (WillPermitSendRequest p) in
            if (ret =? 1)%Z then update m p (fun j => set_permit j PERMIT)
            else if (ret =? -1)%Z then update m p (fun j => set_cancelled (set_permit j CANCEL) true)
            else Some m
        | None => update m p (fun j => set_cancelled (set_permit j CANCEL) true)
        end
    | _ => Some m
    end.

Fixpoint permit_loop (m : Manager) (l : list nat) (request : nat) (permit timer : bool) : option (Manager * bool) :=
  match l with
  | [] => Some (m, timer)
  | p :: l' =>
      if negb (p =? request)%nat then permit_loop m l' request permit timer
      else
        j ← jobs m !! p;
        if m_cancelled j then permit_loop m l' request permit timer
        else if negb (bool_decide (m_permitSend j = ASKING)) then permit_loop m l' request permit timer
        else
          m ← update m p (fun j => if permit then set_permit j PERMIT else set_cancelled (set_permit j CANCEL) true);
          permit_loop m l' request permit true
  end.

Definition permitRequest (m : Manager) (request : nat) (permit : bool) : option Manager :=
  '(m, timer) ← permit_loop m (m_scheduledJobList m) request permit false;
  Some (if timer && negb (m_downloadTimer m) then startDownloadTimer m else m).

(** ** The scheduled list *)

Definition appendScheduledJob (m : Manager) (p : nat) : option Manager :=
  j ← jobs m !! p;
  m ← (if isLocalFile j || protocolIsData j then update m p (fun j => set_permit j PERMIT) else Some m);
  m ← update m p (fun j => set_filter j (m_matchProxyFilter j) (composition_error (events m) p));
  canPermitRequest (set_scheduled m (m_scheduledJobList m ++ [p])) p.

Definition scheduleLoadResourceFromHTTPCache (m : Manager) (p : nat) : option Manager :=
  m ← ref m p;
  let m := set_readCache m (m_readCacheJobList m ++ [p]) in
  Some (if negb (m_readCacheTimer m) then set_timers m (m_downloadTimer m) true else m).

(** The end of [add]: the request goes to the network. *)
Definition enqueue (m : Manager) (p : nat) : option Manager :=
  m ← ref m p;
  m ← appendScheduledJob m p;
  Some (if negb (m_downloadTimer m) then startDownloadTimer m else m).

Definition add (m : Manager) (p : nat) (resource : option CachedResource) : option Manager :=
  m ← update m p (fun j => set_filter j (match_proxy (events m) p) (m_composition_error j));
  match resource with
  | Some r =>
      if lastModified_isEmpty r && eTag_isEmpty r then
        if negb (needRevalidate r) then scheduleLoadResourceFromHTTPCache m p else enqueue m p
      else enqueue (emit m (ConditionalRequest p (negb (lastModified_isEmpty r)) (negb (eTag_isEmpty r)))) p
  | None => enqueue m p
  end.

Definition removeScheduledJob (m : Manager) (p : nat) : option (Manager * bool) :=
  match remove_first p (m_scheduledJobList m) with
  | Some l => m ← deref (set_scheduled m l) p; Some (m, true)
  | None =>
      match remove_first p (m_readCacheJobList m) with
      | Some l => m ← deref (set_readCache m l) p; Some (m, true)
      | None => Some (m, false)
      end
  end.

(** [for (i = 0; i < size; i++)]: the job taken, and the list without it. *)
Fixpoint shift_loop (m : Manager) (l : list nat) : option (option (nat * list nat)) :=
  match l with
  | [] => Some None
  | p :: l' =>
      j ← jobs m !! p;
      if m_cancelled j then Some (Some (p, l'))
      else
        match m_permitSend j with
        | PERMIT | CANCEL => Some (Some (p, l'))
        | SUSPEND | ASKING =>
            if m_fileLoading j || m_dataLoading j || m_matchProxyFilter j then Some (Some (p, l'))
            else if m_tryProxySingleConnect m && (0 <? length (m_runningJobList m))%nat then
              r ← shift_loop m l';
              Some (match r with None => None | Some (q, l'') => Some (q, p :: l'') end)
            else Some (Some (p, l'))
        end
  end.

Definition shiftScheduledJob (m : Manager) : option (Manager * option nat) :=
  r ← shift_loop m (m_scheduledJobList m);
  Some (match r with None => (m, None) | Some (p, l) => (set_scheduled m l, Some p) end).

(** ** The running list *)

Definition appendRunningJob (m : Manager) (p : nat) : Manager := set_running m (m_runningJobList m ++ [p]).

Definition removeRunningJob (m : Manager) (p : nat) : Manager :=
  match remove_first p (m_runningJobList m) with Some l => set_running m l | None => m end.

Definition curl_multi_add_handle (m : Manager) (p : nat) : Manager := set_attached (emit m (MultiAdd p)) (m_attached m ++ [p]).
Definition curl_multi_remove_handle (m : Manager) (p : nat) : Manager :=
  set_attached (emit m (MultiRemove p)) (default (m_attached m) (remove_first p (m_attached m))).

(** [cancel(job)], also reached by [job->cancel()]. *)
Definition cancel (m : Manager) (p : nat) : option Manager :=
  '(m, removed) ← removeScheduledJob m p;
  if (removed : bool) then Some m
  else
    m ← update m p (fun j => set_cancelled j true);
    j ← jobs m !! p;
    if negb (m_handle j) then Some m
    else Some (if negb (m_downloadTimer m) then startDownloadTimer m else m).

(** What [initializeHandle] does to the job; the options it sets on the handle
    are not part of the model. *)
Definition initializeHandle (m : Manager) (p : nat) : option Manager :=
  j ← jobs m !! p;
  if (m_redirectCount j =? 0)%Z && negb (easy_init (events m) p) then update m p (fun j => set_handle j false)
  else
    update m p (fun j =>
      set_loading (set_cancelled (if (m_redirectCount j =? 0)%Z then set_handle j true else j) false)
        (m_fileLoading j || isLocalFile j) (m_dataLoading j || protocolIsData j)).

Definition startJob (m : Manager) (p : nat) : option Manager :=
  j ← jobs m !! p;
  if protocolIsData j then
    m ← cancel (emit m (HandleDataURL p)) p;
    deref m p
  else
    m ← initializeHandle m p;
    j ← jobs m !! p;
    if negb (m_handle j) then Some (didFail (emit m (InitFailed p)) p j CURLE_OUT_OF_MEMORY)
    else if negb (multi_add (events m) p) then
      m ← cancel m p;
      j ← jobs m !! p;
      m ← update (emit (didFail m p j CURLE_OUT_OF_MEMORY) (EasyCleanup p)) p (fun j => set_handle j false);
      deref m p
    else
      let m := curl_multi_add_handle m p in
      let m := if m_isSSL j && has_frame_client (events m) p then emit m (NotifySSL p) else m in
      Some (appendRunningJob m p).

(** ** The timer *)

(** The loop of [startScheduledJobs]; every round takes a job off the list. *)
Fixpoint start_loop (fuel : nat) (m : Manager) (started : bool) : option (Manager * bool) :=
  if (m_httpConnections m =? 0)%Z || (Z.of_nat (length (m_runningJobList m)) <? m_httpConnections m * 2)%Z then
    if m_tryProxySingleConnect m && (0 <? length (m_runningJobList m))%nat then Some (m, started)
    else
      '(m, job) ← shiftScheduledJob m;
      match job with
      | None => Some (m, true)
      | Some p =>
          match fuel with
          | O => None
          | S fuel' =>
              j ← jobs m !! p;
              if m_cancelled j then
                let m := if bool_decide (m_permitSend j = CANCEL) then didFail m p j CURLE_GOT_NOTHING else m in
                m ← update m p (fun j => set_handle j false);
                m ← deref m p;
                start_loop fuel' m started
              else
                m ← startJob m p;
                start_loop fuel' m true
          end
      end
  else Some (m, started).

Definition startScheduledJobs (m : Manager) : option (Manager * bool) :=
  if (length (m_scheduledJobList m) =? 0)%nat then Some (m, false)
  else start_loop (length (m_scheduledJobList m)) m false.

(** The first cancelled job of the running list, and the list without it. *)
Fixpoint find_cancelled (m : Manager) (l : list nat) : option (option (nat * list nat)) :=
  match l with
  | [] => Some None
  | p :: l' =>
      j ← jobs m !! p;
      if m_cancelled j then Some (Some (p, l'))
      else r ← find_cancelled m l'; Some (match r with None => None | Some (q, l'') => Some (q, p :: l'') end)
  end.

(** [while (loop)]. *)
Fixpoint cancel_loop (fuel : nat) (m : Manager) : option Manager :=
  r ← find_cancelled m (m_runningJobList m);
  match r with
  | None => Some m
  | Some (p, l) =>
      match fuel with
      | O => None
      | S fuel' =>
          let m := curl_multi_remove_handle (set_running m l) p in
          m ← update (emit m (EasyCleanup p)) p (fun j => set_handle j false);
          m ← deref m p;
          cancel_loop fuel' m
      end
  end.

Definition cancelScheduledJobs (m : Manager) : option Manager := cancel_loop (length (m_runningJobList m)) m.

Definition doRedirect (m : Manager) (p : nat) : option (Manager * bool) :=
  j ← jobs m !! p;
  if negb (m_doRedirectChallenge j) then Some (m, false)
  else
    let m := curl_multi_remove_handle m p in
    m ← update m p (fun j => set_redirect (set_permit j SUSPEND) (m_redirectCount j) false (m_sslReconnect j));
    m ← appendScheduledJob m p;
    Some (m, true).

(** The end of a transfer. *)
Definition finishJob (m : Manager) (p : nat) : option Manager :=
  let m := curl_multi_remove_handle (removeRunningJob m p) p in
  m ← update (emit m (EasyCleanup p)) p (fun j => set_handle j false);
  deref m p.

Definition removeFromCurl (m : Manager) (p : nat) : option Manager :=
  j ← jobs m !! p;
  if negb (m_handle j) then Some m
  else if m_cancelled j then finishJob m p
  else if auth_again (events m) p then
    Some (startDownloadTimer (curl_multi_add_handle (curl_multi_remove_handle m p) p))
  else if m_sslReconnect j then
    m ← update (curl_multi_remove_handle m p) p
          (fun j => set_redirect (set_permit j PERMIT) (m_redirectCount j) (m_doRedirectChallenge j) false);
    Some (startDownloadTimer (curl_multi_add_handle m p))
  else
    '(m, redirected) ← (if m_redirectInWKC m then doRedirect m p else Some (m, false));
    if (redirected : bool) then Some (startDownloadTimer m) else finishJob m p.

(** What [didReceiveRedirect] does to the queue; when the transfer library
    follows redirects that is nothing.  The maximum is the job's. *)
Definition didReceiveRedirect (m : Manager) (p : nat) (redirectMaxCount : Z) : option (Manager * bool) :=
  if negb (m_redirectInWKC m) then Some (m, true)
  else
    m ← update m p (fun j => set_redirect j (m_redirectCount j + 1) (m_doRedirectChallenge j) (m_sslReconnect j));
    j ← jobs m !! p;
    if (redirectMaxCount <? m_redirectCount j)%Z then Some (m, false)
    else
      m ← update (removeRunningJob m p) p (fun j => set_redirect j (m_redirectCount j) true (m_sslReconnect j));
      Some (m, true).

(** ** Cancelling many *)

(** [for (int i = size - 1; i >= 0; i--)]: the list is read again each time. *)
Fixpoint cancel_frame_loop (i : nat) (get : Manager -> list nat) (m : Manager) (frame : nat) : option Manager :=
  match i with
  | O => Some m
  | S i' =>
      p ← get m !! i';
      j ← jobs m !! p;
      m ← (if (m_frame j =? frame)%nat then cancel m p else Some m);
      cancel_frame_loop i' get m frame
  end.

Definition cancelByFrame (m : Manager) (frame : nat) : option Manager :=
  m ← cancel_frame_loop (length (m_scheduledJobList m)) m_scheduledJobList m frame;
  cancel_frame_loop (length (m_runningJobList m)) m_runningJobList m frame.

(** [while (num--)]. *)
Fixpoint remove_scheduled_loop (num : nat) (m : Manager) : option Manager :=
  match num with
  | O => Some m
  | S num' =>
      p ← m_scheduledJobList m !! num';
      let m := set_scheduled m (delete num' (m_scheduledJobList m)) in
      j ← jobs m !! p;
      m ← (if negb (m_cancelled j) && m_client j
           then update (didFail m p j CURLE_GOT_NOTHING) p (fun j => set_cancelled j true) else Some m);
      m ← deref m p;
      remove_scheduled_loop num' m
  end.

Definition removeAllScheduledJobs (m : Manager) : option Manager :=
  remove_scheduled_loop (length (m_scheduledJobList m)) m.

(** [while ((job = shiftRunningJob()))]. *)
Fixpoint remove_running_loop (l : list nat) (m : Manager) : option Manager :=
  match l with
  | [] => Some m
  | p :: l' =>
      let m := set_running m l' in
      j ← jobs m !! p;
      m ← (if m_handle j then
             m ← (if negb (m_cancelled j) && m_client j
                  then update (didFail m p j CURLE_GOT_NOTHING) p (fun j => set_cancelled j true) else Some m);
             update (emit (curl_multi_remove_handle m p) (EasyCleanup p)) p (fun j => set_handle j false)
           else Some m);
      m ← deref m p;
      remove_running_loop l' m
  end.

Definition removeAllRunningJobs (m : Manager) : option Manager := remove_running_loop (m_runningJobList m) m.

End Queue.
End Queue.

(** * The invariant *)
Module QueueInv.
Import Queue.

Definition occ (p : nat) (l : list nat) : Z := Z.of_nat (count_occ Nat.eq_dec l p).

(** References the manager took over and dropped without releasing: one for
    every job whose handle could not be made. *)
Definition lost_in (p : nat) (es : list Event) : Z :=
  Z.of_nat (length (List.filter (fun e => match e with InitFailed q => (q =? p)%nat | _ => false end) es)).

(** [ext p] references are held outside the manager: every job has one
    reference for each of them, for each place in a list and for the transfer
    library; and only such jobs are alive. *)
Definition total (ext : nat -> Z) (m : Manager) (p : nat) : Z :=
  ext p + occ p (m_scheduledJobList m) + occ p (m_readCacheJobList m) + occ p (m_attached m) + lost_in p (events m).

Record job_ok (m : Manager) (p : nat) (j : Job) : Prop := {
  ok_handle : 0 < occ p (m_attached m) -> m_handle j = true;
  ok_challenge : m_doRedirectChallenge j = true -> occ p (m_scheduledJobList m) = 0 /\ occ p (m_runningJobList m) = 0
}.

Record inv (ext : nat -> Z) (m : Manager) : Prop := {
  inv_ext : forall p, 0 <= ext p;
  inv_count : forall p,
    match jobs m !! p with
    | Some j => m_refCount j = total ext m p /\ 0 < total ext m p /\ job_ok m p j
    | None => total ext m p = 0
    end;
  inv_once : forall p, occ p (m_scheduledJobList m) + occ p (m_attached m) <= 1;
  inv_running : forall p, occ p (m_runningJobList m) <= occ p (m_attached m)
}.

(** One more reference to a job, in the hands of a running operation. *)
Definition bump (ext : nat -> Z) (p : nat) : nat -> Z := fun q => if (q =? p)%nat then ext q + 1 else ext q.

(** The lists. *)
Definition lists (m : Manager) : list nat * list nat * list nat * list nat :=
  (m_scheduledJobList m, m_runningJobList m, m_readCacheJobList m, m_attached m).

(** Everything but the jobs, the events and the timers. *)
Definition shape (m : Manager) : list nat * list nat * list nat * list nat * (Z * bool * bool * bool) :=
  (m_scheduledJobList m, m_runningJobList m, m_readCacheJobList m, m_attached m,
   (m_httpConnections m, m_tryProxySingleConnect m, m_harmfulSiteFilter m, m_redirectInWKC m)).

(** A job that was not cancelled. *)
Definition alive (m : Manager) (p : nat) : bool := match jobs m !! p with Some j => negb (m_cancelled j) | None => false end.

(** How many connections there may be. *)
Definition settings (m : Manager) : Z * bool := (m_httpConnections m, m_tryProxySingleConnect m).

(** An operation on a job that was taken off the scheduled list. *)
Definition taken (m m' : Manager) (p : nat) : Prop :=
  m_scheduledJobList m' = m_scheduledJobList m /\ settings m' = settings m /\
  forall q, q <> p -> jobs m' !! q = jobs m !! q.

(** What a run of the loop does to the queue: a first part of the scheduled list
    is worked off in order, and of it only live jobs of the network started. *)
Definition worked_off (m m' : Manager) : Prop :=
  exists k l, m_scheduledJobList m' = drop k (m_scheduledJobList m) /\ m_runningJobList m' = m_runningJobList m ++ l /\
    l `sublist_of` take k (m_scheduledJobList m) /\
    forall p, p ∈ l -> exists j, jobs m !! p = Some j /\ m_cancelled j = false /\ protocolIsData j = false.

Definition within_limit (m m' : Manager) : Prop :=
  m_httpConnections m = 0 \/
  Z.of_nat (length (m_runningJobList m')) <= Z.max (Z.of_nat (length (m_runningJobList m))) (2 * m_httpConnections m).

(** Why the loop stopped. *)
Definition nothing_to_start (m : Manager) : Prop :=
  m_scheduledJobList m = [] \/
  (m_httpConnections m <> 0 /\ 2 * m_httpConnections m <= Z.of_nat (length (m_runningJobList m))) \/
  (m_tryProxySingleConnect m = true /\ m_runningJobList m <> []).

End QueueInv.

Module QueueFacts.
Import Queue QueueInv.

Lemma occ_nonneg p l : 0 <= occ p l.
Proof. unfold occ. lia. Qed.

Lemma occ_app p l k : occ p (l ++ k) = occ p l + occ p k.
Proof. unfold occ. rewrite count_occ_app. lia. Qed.

Lemma occ_cons p q l : occ p (q :: l) = (if (q =? p)%nat then 1 else 0) + occ p l.
Proof. unfold occ. cbn [count_occ]. destruct (Nat.eq_dec q p), (Nat.eqb_spec q p); try congruence; lia. Qed.

Lemma occ_nil p : occ p [] = 0.
Proof. done. Qed.

Lemma occ_in p l : p ∈ l -> 0 < occ p l.
Proof. intros H. unfold occ. rewrite list_elem_of_In in H. apply (count_occ_In Nat.eq_dec) in H. lia. Qed.

Lemma occ_pos p l : 0 < occ p l -> p ∈ l.
Proof. intros H. rewrite list_elem_of_In. apply (count_occ_In Nat.eq_dec). unfold occ in H. lia. Qed.

Lemma remove_first_occ p l l' : remove_first p l = Some l' -> forall q, occ q l = occ q l' + (if (p =? q)%nat then 1 else 0).
Proof.
  revert l'. induction l as [|x l IH]; intros l' E q; cbn [remove_first] in E; [done|].
  destruct (Nat.eqb_spec x p) as [->|Hne]; [injection E as <-; rewrite occ_cons; lia|].
  destruct (remove_first p l) as [k|] eqn:Ek; [|done]. cbn in E. injection E as <-. rewrite !occ_cons, (IH k eq_refl q). lia.
Qed.

Lemma remove_first_None p l : remove_first p l = None -> occ p l = 0.
Proof.
  induction l as [|x l IH]; cbn [remove_first]; [done|]. destruct (Nat.eqb_spec x p) as [->|Hne]; [done|].
  destruct (remove_first p l); [done|]. intros _. rewrite occ_cons. destruct (Nat.eqb_spec x p); [done|]. by rewrite IH.
Qed.

Lemma remove_first_length p l l' : remove_first p l = Some l' -> length l = S (length l').
Proof.
  revert l'. induction l as [|x l IH]; intros l' E; cbn [remove_first] in E; [done|].
  destruct (x =? p)%nat; [by injection E as <-|]. destruct (remove_first p l) as [k|] eqn:Ek; [|done].
  cbn in E. injection E as <-. simpl. by rewrite (IH k).
Qed.

Lemma lost_app p es es' : lost_in p (es ++ es') = lost_in p es + lost_in p es'.
Proof. unfold lost_in. rewrite List.filter_app, length_app. lia. Qed.

Lemma lost_nonneg p es : 0 <= lost_in p es.
Proof. unfold lost_in. lia. Qed.

Lemma bump_eq ext p : bump ext p p = ext p + 1.
Proof. unfold bump. by rewrite Nat.eqb_refl. Qed.

(** Turn the tests on pointers into cases and finish with arithmetic. *)
Ltac ptr :=
  repeat match goal with
  | |- context [(?a =? ?b)%nat] => destruct (Nat.eqb_spec a b); subst
  | H : context [(?a =? ?b)%nat] |- _ => destruct (Nat.eqb_spec a b); subst
  end; try lia; try congruence.

Lemma references_nonneg ext m p : inv ext m -> 0 <= total ext m p.
Proof.
  intros I. unfold total. pose proof (inv_ext _ _ I p). pose proof (occ_nonneg p (m_scheduledJobList m)).
  pose proof (occ_nonneg p (m_readCacheJobList m)). pose proof (occ_nonneg p (m_attached m)).
  pose proof (lost_nonneg p (events m)). lia.
Qed.

Lemma inv_live ext m p : inv ext m -> 0 < total ext m p -> exists j, jobs m !! p = Some j /\ job_ok m p j.
Proof.
  intros I Ht. pose proof (inv_count _ _ I p) as Hc. destruct (jobs m !! p) as [j|]; [|lia]. exists j. tauto.
Qed.

Lemma live_total ext m p j : inv ext m -> jobs m !! p = Some j -> 0 < total ext m p.
Proof. intros I E. pose proof (inv_count _ _ I p) as Hc. rewrite E in Hc. tauto. Qed.

(** Changing the lists: what a list gives up another place takes. *)
Lemma inv_lists ext ext' m s r c a :
  inv ext m -> (forall p, 0 <= ext' p) ->
  (forall p, ext' p + occ p s + occ p c + occ p a =
     ext p + occ p (m_scheduledJobList m) + occ p (m_readCacheJobList m) + occ p (m_attached m)) ->
  (forall p, occ p s + occ p a <= 1) -> (forall p, occ p r <= occ p a) ->
  (forall p j, jobs m !! p = Some j -> 0 < occ p a -> m_handle j = true) ->
  (forall p j, jobs m !! p = Some j -> m_doRedirectChallenge j = true -> occ p s = 0 /\ occ p r = 0) ->
  inv ext' (set_lists m s r c a).
Proof.
  intros I He Ht Ho Hr Hh Hc. split; try done. intros p.
  assert (total ext' (set_lists m s r c a) p = total ext m p) as Et by (unfold total; cbn; specialize (Ht p); lia).
  rewrite Et. pose proof (inv_count _ _ I p) as HI. cbn. destruct (jobs m !! p) as [j|] eqn:E; [|done].
  destruct HI as (H1 & H2 & _). split_and!; [done|done|]. split; cbn; [by apply Hh|by apply Hc].
Qed.

Lemma emit_total ext m e p : lost_in p [e] = 0 -> total ext (emit m e) p = total ext m p.
Proof. intros He. unfold total. cbn [emit events m_scheduledJobList m_readCacheJobList m_attached]. rewrite lost_app, He. lia. Qed.

Lemma inv_emit ext m e : inv ext m -> (forall p, lost_in p [e] = 0) -> inv ext (emit m e).
Proof.
  intros I He. destruct I as [I1 I2 I3 I4]. split; try done. intros p.
  assert (total ext (emit m e) p = total ext m p) as Et by (unfold total; cbn; rewrite lost_app, He; lia).
  rewrite Et. specialize (I2 p). cbn. destruct (jobs m !! p); [|done]. destruct I2 as (H1 & H2 & [H3 H4]). split_and!; try done.
Qed.

Lemma inv_timers ext m a b : inv ext m -> inv ext (set_timers m a b).
Proof. intros [I1 I2 I3 I4]. split; try done. intros p. specialize (I2 p). cbn. destruct (jobs m !! p); [|done]. destruct I2 as (H1 & H2 & [H3 H4]). split_and!; try done. Qed.

Lemma inv_connections ext m n : inv ext m -> inv ext (set_connections m n).
Proof. intros [I1 I2 I3 I4]. split; try done. intros p. specialize (I2 p). cbn. destruct (jobs m !! p); [|done]. destruct I2 as (H1 & H2 & [H3 H4]). split_and!; try done. Qed.

(** An assignment that keeps the reference count. *)
Lemma inv_update ext m p f :
  inv ext m -> 0 < total ext m p ->
  (forall j, m_refCount (f j) = m_refCount j) ->
  (forall j, jobs m !! p = Some j -> job_ok m p j -> job_ok m p (f j)) ->
  exists j, jobs m !! p = Some j /\ update m p f = Some (set_jobs m (<[p := f j]> (jobs m))) /\
    inv ext (set_jobs m (<[p := f j]> (jobs m))).
Proof.
  intros I Ht Hf Hok. destruct (inv_live _ _ _ I Ht) as (j & E & Oj). exists j. unfold update. rewrite E. cbn [mbind option_bind].
  split_and!; [done|done|]. destruct I as [I1 I2 I3 I4]. split; try done. intros q. specialize (I2 q). cbn.
  change (total ext (set_jobs m _) q) with (total ext m q). destruct (decide (q = p)) as [->|Hne].
  - rewrite lookup_insert_eq. rewrite E in I2. destruct I2 as (H1 & H2 & H3). split_and!; [by rewrite Hf|done|].
    specialize (Hok j E H3). destruct Hok. split; cbn; done.
  - rewrite lookup_insert_ne by done. destruct (jobs m !! q); [|done]. destruct I2 as (H1 & H2 & [H3 H4]). split_and!; try done.
Qed.

Lemma inv_ref ext m p :
  inv ext m -> 0 < total ext m p -> exists js, ref m p = Some (set_jobs m js) /\ inv (bump ext p) (set_jobs m js).
Proof.
  intros I Ht. destruct (inv_live _ _ _ I Ht) as (j & E & Oj). unfold ref, update. rewrite E. cbn [mbind option_bind].
  eexists. split; [reflexivity|]. destruct I as [I1 I2 I3 I4]. split; try done.
  - intros q. specialize (I1 q). unfold bump. ptr.
  - intros q. specialize (I2 q). cbn. assert (total (bump ext p) (set_jobs m (<[p:=set_refCount j (m_refCount j + 1)]> (jobs m))) q =
      total ext m q + if (q =? p)%nat then 1 else 0) as Et by (unfold total, bump; cbn; ptr).
    rewrite Et. destruct (decide (q = p)) as [->|Hne].
    + rewrite lookup_insert_eq, Nat.eqb_refl. rewrite E in I2. destruct I2 as (H1 & H2 & [H3 H4]). cbn. split_and!; [lia|lia|by split].
    + rewrite lookup_insert_ne by done. destruct (Nat.eqb_spec q p); [done|]. rewrite Z.add_0_r.
      destruct (jobs m !! q); [|done]. destruct I2 as (H1 & H2 & [H3 H4]). split_and!; try done.
Qed.

Lemma inv_deref ext m p :
  inv (bump ext p) m -> (forall q, 0 <= ext q) -> exists js, deref m p = Some (set_jobs m js) /\ inv ext (set_jobs m js).
Proof.
  intros I He. assert (0 < total (bump ext p) m p) as Ht.
  { pose proof (references_nonneg _ _ p I) as Hn. unfold total in *. rewrite bump_eq in *. specialize (He p).
    pose proof (occ_nonneg p (m_scheduledJobList m)). pose proof (occ_nonneg p (m_readCacheJobList m)).
    pose proof (occ_nonneg p (m_attached m)). pose proof (lost_nonneg p (events m)). lia. }
  destruct (inv_live _ _ _ I Ht) as (j & E & Oj). unfold deref. rewrite E. cbn [mbind option_bind].
  eexists. split; [reflexivity|]. destruct I as [I1 I2 I3 I4]. split; try done. intros q.
  match goal with |- context [set_jobs m ?js] => assert (total (bump ext p) m q = total ext (set_jobs m js) q + (if (q =? p)%nat then 1 else 0)) as Et
    by (unfold total, bump; cbn; ptr) end.
  pose proof (I2 q) as I2q. rewrite Et in I2q. cbn [jobs set_jobs]. destruct (decide (q = p)) as [->|Hne].
  - rewrite E in I2q. rewrite Nat.eqb_refl in *. destruct I2q as (H1 & H2 & [H3 H4]).
    destruct (Z.eqb_spec (m_refCount j) 1).
    + rewrite lookup_delete_eq. lia.
    + rewrite lookup_insert_eq. cbn. split_and!; [lia|lia|by split].
  - destruct (Nat.eqb_spec q p); [done|]. rewrite Z.add_0_r in I2q.
    assert ((if (m_refCount j =? 1)%Z then delete p (jobs m) else <[p:=set_refCount j (m_refCount j - 1)]> (jobs m)) !! q = jobs m !! q) as ->
      by (destruct (_ =? _)%Z; [by apply lookup_delete_ne|by apply lookup_insert_ne]).
    destruct (jobs m !! q); [|done]. destruct I2q as (H1 & H2 & [H3 H4]). split_and!; try done.
Qed.

Lemma inv_job ext m p j : inv ext m -> jobs m !! p = Some j -> job_ok m p j.
Proof. intros I E. pose proof (inv_count _ _ I p) as Hc. rewrite E in Hc. tauto. Qed.

Lemma bump_nonneg ext p : (forall q, 0 <= ext q) -> forall q, 0 <= bump ext p q.
Proof. intros H q. specialize (H q). unfold bump. ptr. Qed.

Lemma bump_total ext m p : inv (bump ext p) m -> (forall q, 0 <= ext q) -> 0 < total (bump ext p) m p.
Proof.
  intros I He. unfold total. rewrite bump_eq. specialize (He p).
  pose proof (occ_nonneg p (m_scheduledJobList m)). pose proof (occ_nonneg p (m_readCacheJobList m)).
  pose proof (occ_nonneg p (m_attached m)). pose proof (lost_nonneg p (events m)). lia.
Qed.

Lemma occ_total ext m p : inv ext m ->
  0 < occ p (m_scheduledJobList m) \/ 0 < occ p (m_readCacheJobList m) \/ 0 < occ p (m_attached m) \/ 0 < ext p ->
  0 < total ext m p.
Proof.
  intros I Ho. unfold total. pose proof (inv_ext _ _ I p).
  pose proof (occ_nonneg p (m_scheduledJobList m)). pose proof (occ_nonneg p (m_readCacheJobList m)).
  pose proof (occ_nonneg p (m_attached m)). pose proof (lost_nonneg p (events m)). lia.
Qed.

(** [job_ok] only looks at the handle and the redirect mark. *)
Ltac job_fields := intros ? _ [? ?]; split; cbn; done.

(** Perform the assignment in front. *)
Ltac upd I Ht j E I' :=
  match goal with |- context [update ?m ?p ?f] =>
    destruct (inv_update _ m p f I Ht) as (j & E & -> & I'); [done|try job_fields|cbn [mbind option_bind]] end.

Lemma inv_lost ext m p : inv (bump ext p) m -> (forall q, 0 <= ext q) -> inv ext (emit m (InitFailed p)).
Proof.
  intros [I1 I2 I3 I4] He. split; try done. intros q.
  assert (total ext (emit m (InitFailed p)) q = total (bump ext p) m q) as ->.
  { unfold total, bump. cbn. rewrite lost_app. unfold lost_in at 2. cbn. ptr; cbn; lia. }
  specialize (I2 q). cbn. destruct (jobs m !! q); [|done]. destruct I2 as (H1 & H2 & [H3 H4]). split_and!; try done.
Qed.

Lemma inv_didFail ext m p j c : inv ext m -> inv ext (didFail m p j c).
Proof. intros I. unfold didFail. destruct (m_client j); [by apply inv_emit|done]. Qed.

Lemma shape_didFail m p j c : shape (didFail m p j c) = shape m /\ jobs (didFail m p j c) = jobs m.
Proof. unfold didFail. by destruct (m_client j). Qed.

Lemma set_running_same m : set_running m (m_runningJobList m) = m.
Proof. by destruct m. Qed.

Lemma removeRunningJob_eq m p :
  exists l, removeRunningJob m p = set_running m l /\ (forall q, occ q l <= occ q (m_runningJobList m)) /\
    (length l <= length (m_runningJobList m))%nat /\ (occ p (m_runningJobList m) <= 1 -> occ p l = 0).
Proof.
  unfold removeRunningJob. destruct (remove_first p (m_runningJobList m)) as [l|] eqn:E.
  - exists l. pose proof (remove_first_occ _ _ _ E) as Ho. pose proof (remove_first_length _ _ _ E). split_and!; [done|..].
    + intros q. specialize (Ho q). ptr.
    + lia.
    + specialize (Ho p). rewrite Nat.eqb_refl in Ho. pose proof (occ_nonneg p l). lia.
  - exists (m_runningJobList m). rewrite set_running_same. split_and!; try done. intros _. by apply remove_first_None.
Qed.

Lemma running_once ext m p : inv ext m -> occ p (m_runningJobList m) <= 1.
Proof.
  intros I. pose proof (inv_once _ _ I p). pose proof (inv_running _ _ I p). pose proof (occ_nonneg p (m_scheduledJobList m)). lia.
Qed.

(** The transfer library gives up a job that leaves the running list. *)
Lemma unattach_spec ext m p l :
  inv ext m -> 0 < occ p (m_attached m) ->
  (forall q, occ q l <= occ q (m_runningJobList m)) -> occ p l = 0 ->
  let m' := curl_multi_remove_handle (set_running m l) p in
  inv (bump ext p) m' /\ occ p (m_attached m') = 0 /\ occ p (m_scheduledJobList m') = 0 /\ jobs m' = jobs m /\
  m_scheduledJobList m' = m_scheduledJobList m /\ m_runningJobList m' = l /\ m_httpConnections m' = m_httpConnections m.
Proof.
  intros I Ha Hl Hp. unfold curl_multi_remove_handle. cbn [m_attached set_running set_lists].
  destruct (remove_first p (m_attached m)) as [a|] eqn:E; [|apply remove_first_None in E; lia].
  pose proof (remove_first_occ _ _ _ E) as Ho. unfold default, id. pose proof (inv_once _ _ I p) as H1. pose proof (Ho p) as Hop.
  rewrite Nat.eqb_refl in Hop. pose proof (occ_nonneg p (m_scheduledJobList m)). pose proof (occ_nonneg p a).
  cbv zeta. split_and!; try done; cbn [m_attached m_scheduledJobList set_attached set_lists emit set_running]; try lia.
  assert (inv ext (emit m (MultiRemove p))) as I' by (by apply inv_emit).
  change (inv (bump ext p) (set_lists (emit m (MultiRemove p)) (m_scheduledJobList m) l (m_readCacheJobList m) a)).
  eapply inv_lists; [exact I'|by apply bump_nonneg, (inv_ext _ _ I)|..]; cbn [m_attached m_scheduledJobList m_runningJobList m_readCacheJobList emit].
  - intros q. unfold bump. specialize (Ho q). ptr.
  - intros q. pose proof (inv_once _ _ I q). specialize (Ho q). ptr.
  - intros q. pose proof (inv_running _ _ I q). specialize (Ho q). specialize (Hl q). ptr.
  - intros q j Ej Hq. apply (ok_handle _ _ _ (inv_job _ _ _ _ I Ej)). specialize (Ho q). ptr.
  - intros q j Ej Hc. destruct (ok_challenge _ _ _ (inv_job _ _ _ _ I Ej) Hc). specialize (Hl q). pose proof (occ_nonneg q l). lia.
Qed.

(** [d->m_handle = 0; job->deref()] for a job the transfer library does not have. *)
Lemma release_spec ext m p :
  inv (bump ext p) m -> (forall q, 0 <= ext q) -> occ p (m_attached m) = 0 ->
  exists m', (m ← update m p (fun j => set_handle j false); deref m p) = Some m' /\ inv ext m' /\ shape m' = shape m /\
    (forall q, q <> p -> jobs m' !! q = jobs m !! q).
Proof.
  intros I He Ha. pose proof (bump_total _ _ _ I He) as Ht.
  destruct (inv_update _ m p (fun j => set_handle j false) I Ht) as (j & E & -> & I'); [done| |].
  { intros j _ [H1 H2]. split; [lia|done]. }
  cbn [mbind option_bind]. destruct (inv_deref _ _ _ I' He) as (js & Ed & I2). rewrite Ed. eexists. split_and!; try done.
  intros q Hq. unfold deref in Ed. cbn [jobs set_jobs] in Ed. rewrite lookup_insert_eq in Ed. cbn in Ed.
  injection Ed as <-. cbn. destruct (_ =? _)%Z; [rewrite lookup_delete_ne by done|rewrite lookup_insert_ne by done]; by rewrite lookup_insert_ne.
Qed.

Section Operations.
Context `{Oracles}.

Lemma canPermitRequest_spec ext m p :
  inv ext m -> 0 < total ext m p ->
  exists m', canPermitRequest m p = Some m' /\ inv ext m' /\ shape m' = shape m.
Proof.
  intros I Ht. unfold canPermitRequest. destruct (inv_live _ _ _ I Ht) as (j & E & _). rewrite E. cbn [mbind option_bind].
  destruct (m_cancelled j); [by exists m|]. destruct (m_harmfulSiteFilter m) eqn:Ef; cbn [negb].
  2:{ upd I Ht j1 E1 I1. by eexists. }
  destruct (m_permitSend j); try by exists m.
  upd I Ht j1 E1 I1. case_match.
  - set (m1 := emit _ _). assert (inv ext m1) as I2 by (by apply inv_emit).
    assert (0 < total ext m1 p) as Ht2 by (unfold m1; by rewrite emit_total).
    destruct (z =? 1)%Z; [upd I2 Ht2 j2 E2 I3; by eexists|]. destruct (z =? -1)%Z; [upd I2 Ht2 j2 E2 I3; by eexists|by exists m1].
  - upd I1 Ht j2 E2 I3. by eexists.
Qed.

(** A job in the hands of the caller enters the scheduled list. *)
Lemma appendScheduledJob_spec ext m p :
  inv (bump ext p) m -> (forall q, 0 <= ext q) ->
  occ p (m_scheduledJobList m) = 0 -> occ p (m_attached m) = 0 ->
  (forall j, jobs m !! p = Some j -> m_doRedirectChallenge j = false) ->
  exists m', appendScheduledJob m p = Some m' /\ inv ext m' /\ lists m' =
    (m_scheduledJobList m ++ [p], m_runningJobList m, m_readCacheJobList m, m_attached m) /\
    m_httpConnections m' = m_httpConnections m.
Proof.
  intros I He Hs Ha Hch. unfold appendScheduledJob. pose proof (bump_total _ _ _ I He) as Ht.
  destruct (inv_live _ _ _ I Ht) as (j & E & _). rewrite E. cbn [mbind option_bind].
  assert (exists m1, (if isLocalFile j || protocolIsData j then update m p (fun j => set_permit j PERMIT) else Some m) = Some m1 /\
    inv (bump ext p) m1 /\ shape m1 = shape m /\ (forall j, jobs m1 !! p = Some j -> m_doRedirectChallenge j = false) /\
    events m1 = events m) as (m1 & -> & I1 & S1 & C1 & V1).
  { destruct (isLocalFile j || protocolIsData j); [|by exists m]. upd I Ht j1 E1 I1. eexists. split; [reflexivity|].
    split_and!; try done. intros j2. cbn. rewrite lookup_insert_eq. intros [= <-]. by apply (Hch j1). }
  cbn [mbind option_bind]. assert (0 < total (bump ext p) m1 p) as Ht1 by (by apply bump_total).
  upd I1 Ht1 j2 E2 I2. set (m2 := set_jobs m1 _) in *.
  assert (shape m2 = shape m) as S2 by exact S1. unfold shape in S2.
  assert (m_scheduledJobList m2 = m_scheduledJobList m /\ m_runningJobList m2 = m_runningJobList m /\
    m_readCacheJobList m2 = m_readCacheJobList m /\ m_attached m2 = m_attached m /\ m_httpConnections m2 = m_httpConnections m)
    as (L1 & L2 & L3 & L4 & L5) by (split_and!; congruence).
  assert (inv ext (set_scheduled m2 (m_scheduledJobList m2 ++ [p]))) as I3.
  { eapply inv_lists; [exact I2|done|..].
    - intros q. unfold bump. rewrite occ_app, occ_cons, occ_nil. ptr.
    - intros q. rewrite occ_app, occ_cons, occ_nil. pose proof (inv_once _ _ I2 q). rewrite L1, L4 in *. ptr.
    - apply (inv_running _ _ I2).
    - intros q j3 E3. apply (inv_job _ _ _ _ I2 E3).
    - intros q j3 E3 Hc. destruct (decide (q = p)) as [->|Hne].
      + exfalso. cbn in E3. rewrite lookup_insert_eq in E3. injection E3 as <-. cbn in Hc. by rewrite (C1 _ E2) in Hc.
      + rewrite occ_app, occ_cons, occ_nil. destruct (Nat.eqb_spec p q); [congruence|].
        destruct (ok_challenge _ _ _ (inv_job _ _ _ _ I2 E3) Hc). lia. }
  assert (0 < total ext (set_scheduled m2 (m_scheduledJobList m2 ++ [p])) p) as Ht3.
  { apply occ_total; [done|]. left. cbn [m_scheduledJobList set_scheduled set_lists]. rewrite occ_app, occ_cons, Nat.eqb_refl, occ_nil.
    pose proof (occ_nonneg p (m_scheduledJobList m2)). lia. }
  destruct (canPermitRequest_spec _ _ p I3 Ht3) as (m' & E' & I' & S'). exists m'. split; [exact E'|]. split; [done|].
  unfold lists. injection S' as -> -> -> -> -> _ _ _. rewrite <- L1, <- L2, <- L3, <- L4, <- L5. done.
Qed.

Lemma removeScheduledJob_spec ext m p :
  inv ext m ->
  exists m' b, removeScheduledJob m p = Some (m', b) /\ inv ext m' /\
    m_runningJobList m' = m_runningJobList m /\ m_attached m' = m_attached m /\ m_httpConnections m' = m_httpConnections m /\
    (length (m_scheduledJobList m') <= length (m_scheduledJobList m) <= S (length (m_scheduledJobList m')))%nat /\
    (forall q, occ q (m_scheduledJobList m') <= occ q (m_scheduledJobList m)) /\
    (b = false -> m' = m).
Proof.
  intros I. unfold removeScheduledJob. destruct (remove_first p (m_scheduledJobList m)) as [l|] eqn:Es.
  - pose proof (remove_first_occ _ _ _ Es) as Ho. pose proof (remove_first_length _ _ _ Es) as Hl.
    assert (inv (bump ext p) (set_scheduled m l)) as I1.
    { eapply inv_lists; [exact I|by apply bump_nonneg, (inv_ext _ _ I)|..].
      - intros q. unfold bump. specialize (Ho q). ptr.
      - intros q. pose proof (inv_once _ _ I q). specialize (Ho q). ptr.
      - apply (inv_running _ _ I).
      - intros q j E. apply (inv_job _ _ _ _ I E).
      - intros q j E Hc. destruct (ok_challenge _ _ _ (inv_job _ _ _ _ I E) Hc). specialize (Ho q).
        pose proof (occ_nonneg q l). ptr. }
    destruct (inv_deref _ _ _ I1 (inv_ext _ _ I)) as (js & -> & I2). cbn [mbind option_bind].
    eexists _, true. split; [reflexivity|]. cbn. split_and!; try done; try lia. intros q. specialize (Ho q). ptr.
  - destruct (remove_first p (m_readCacheJobList m)) as [l|] eqn:Er; [|by exists m, false; split_and!; try done; lia].
    pose proof (remove_first_occ _ _ _ Er) as Ho.
    assert (inv (bump ext p) (set_readCache m l)) as I1.
    { eapply inv_lists; [exact I|by apply bump_nonneg, (inv_ext _ _ I)|..].
      - intros q. unfold bump. specialize (Ho q). ptr.
      - apply (inv_once _ _ I).
      - apply (inv_running _ _ I).
      - intros q j E. apply (inv_job _ _ _ _ I E).
      - intros q j E Hc. apply (ok_challenge _ _ _ (inv_job _ _ _ _ I E) Hc). }
    destruct (inv_deref _ _ _ I1 (inv_ext _ _ I)) as (js & -> & I2). cbn [mbind option_bind].
    eexists _, true. split; [reflexivity|]. cbn. split_and!; try done; lia.
Qed.

Lemma cancel_spec ext m p :
  inv ext m -> 0 < total ext m p ->
  exists m', cancel m p = Some m' /\ inv ext m' /\
    m_runningJobList m' = m_runningJobList m /\ m_attached m' = m_attached m /\ m_httpConnections m' = m_httpConnections m /\
    (length (m_scheduledJobList m') <= length (m_scheduledJobList m) <= S (length (m_scheduledJobList m')))%nat /\
    (forall q, occ q (m_scheduledJobList m') <= occ q (m_scheduledJobList m)).
Proof.
  intros I Ht. unfold cancel. destruct (removeScheduledJob_spec ext m p I) as (m1 & b & -> & I1 & L1 & L2 & L3 & L4 & L5 & Hb).
  cbn [mbind option_bind]. destruct b; [by exists m1|]. specialize (Hb eq_refl) as ->.
  upd I Ht j E I2. cbn [jobs set_jobs]. rewrite lookup_insert_eq. cbn [mbind option_bind].
  assert (forall b, exists m', (if b : bool then Some (set_jobs m (<[p:=set_cancelled j true]> (jobs m))) else
    Some (if negb (m_downloadTimer m) then startDownloadTimer (set_jobs m (<[p:=set_cancelled j true]> (jobs m)))
          else set_jobs m (<[p:=set_cancelled j true]> (jobs m)))) = Some m' /\ inv ext m' /\ lists m' = lists m /\
      m_httpConnections m' = m_httpConnections m) as Hdone.
  { intros b. destruct b; [by eexists|]. eexists. split; [reflexivity|].
    destruct (m_downloadTimer m); cbn [negb]; (split; [by try apply inv_timers|done]). }
  destruct (Hdone (negb (m_handle (set_cancelled j true)))) as (m' & E' & I' & S' & C').
  exists m'. split; [exact E'|]. unfold lists in S'. assert (m_scheduledJobList m' = m_scheduledJobList m) as -> by congruence.
  split_and!; try done; try congruence; lia.
Qed.

(** Every place in a list keeps its job alive. *)
Lemma scheduled_live ext m p : inv ext m -> p ∈ m_scheduledJobList m -> exists j, jobs m !! p = Some j.
Proof.
  intros I Hp. destruct (inv_live ext m p I) as (j & E & _); [|by exists j].
  apply occ_total; [done|]. left. by apply occ_in.
Qed.

Lemma running_live ext m p : inv ext m -> p ∈ m_runningJobList m -> exists j, jobs m !! p = Some j /\ m_handle j = true.
Proof.
  intros I Hp. pose proof (inv_running _ _ I p). pose proof (occ_in _ _ Hp).
  destruct (inv_live ext m p I) as (j & E & O); [apply occ_total; [done|lia]|]. exists j. split; [done|].
  apply (ok_handle _ _ _ O). lia.
Qed.

Lemma shift_loop_spec m l :
  (forall p, p ∈ l -> exists j, jobs m !! p = Some j) ->
  exists r, shift_loop m l = Some r /\
    match r with
    | None => True
    | Some (p, l') => (forall q, occ q l = occ q l' + (if (p =? q)%nat then 1 else 0)) /\ length l = S (length l')
    end.
Proof.
  induction l as [|p l IH]; intros Hl; cbn [shift_loop]; [by exists None|].
  destruct (Hl p ltac:(set_solver)) as (j & ->). cbn [mbind option_bind].
  assert (forall q, occ q (p :: l) = occ q l + (if (p =? q)%nat then 1 else 0)) as Hhead by (intros q; rewrite occ_cons; lia).
  destruct (m_cancelled j); [by exists (Some (p, l))|].
  assert (exists r, (if m_fileLoading j || m_dataLoading j || m_matchProxyFilter j then Some (Some (p, l))
    else if m_tryProxySingleConnect m && (0 <? length (m_runningJobList m))%nat then
      r ← shift_loop m l; Some (match r with None => None | Some (q, l'') => Some (q, p :: l'') end)
    else Some (Some (p, l))) = Some r /\ match r with
    | None => True
    | Some (p0, l') => (forall q, occ q (p :: l) = occ q l' + (if (p0 =? q)%nat then 1 else 0)) /\ length (p :: l) = S (length l')
    end) as Hrest.
  { destruct (m_fileLoading j || _ || _); [by exists (Some (p, l))|]. destruct (_ && _); [|by exists (Some (p, l))].
    destruct IH as (r & -> & Hr); [set_solver|]. cbn [mbind option_bind]. eexists. split; [reflexivity|].
    destruct r as [[q l']|]; [|done]. destruct Hr as [Hr1 Hr2]. split; [|simpl; lia]. intros x. rewrite !occ_cons, Hr1. lia. }
  destruct (m_permitSend j); try exact Hrest; by exists (Some (p, l)).
Qed.

Lemma shiftScheduledJob_spec ext m :
  inv ext m ->
  exists m' o, shiftScheduledJob m = Some (m', o) /\
    match o with
    | None => m' = m
    | Some p =>
        inv (bump ext p) m' /\ occ p (m_scheduledJobList m') = 0 /\ occ p (m_attached m') = 0 /\
        (forall j, jobs m' !! p = Some j -> m_doRedirectChallenge j = false) /\
        exists l, m' = set_scheduled m l /\ length (m_scheduledJobList m) = S (length l)
    end.
Proof.
  intros I. unfold shiftScheduledJob.
  destruct (shift_loop_spec m (m_scheduledJobList m)) as (r & -> & Hr); [intros p Hp; by eapply scheduled_live|].
  cbn [mbind option_bind]. destruct r as [[p l]|]; [|by exists m, None]. destruct Hr as [Ho Hl].
  exists (set_scheduled m l), (Some p). split; [done|]. pose proof (Ho p) as Hp. rewrite Nat.eqb_refl in Hp.
  pose proof (inv_once _ _ I p). pose proof (occ_nonneg p l). pose proof (occ_nonneg p (m_attached m)). cbn.
  split_and!; try lia.
  - eapply inv_lists; [exact I|by apply bump_nonneg, (inv_ext _ _ I)|..].
    + intros q. unfold bump. specialize (Ho q). ptr.
    + intros q. pose proof (inv_once _ _ I q). specialize (Ho q). ptr.
    + apply (inv_running _ _ I).
    + intros q j E. apply (inv_job _ _ _ _ I E).
    + intros q j E Hc. destruct (ok_challenge _ _ _ (inv_job _ _ _ _ I E) Hc). specialize (Ho q). pose proof (occ_nonneg q l). ptr.
  - intros j E. destruct (m_doRedirectChallenge j) eqn:Ec; [|done]. destruct (ok_challenge _ _ _ (inv_job _ _ _ _ I E) Ec). lia.
  - by exists l.
Qed.

(** A transfer that is over. *)
Lemma finish_spec ext m p :
  inv ext m -> 0 < occ p (m_attached m) -> exists m', finishJob m p = Some m' /\ inv ext m'.
Proof.
  intros I Ha. unfold finishJob. destruct (removeRunningJob_eq m p) as (l & -> & Hl & _ & Hp).
  specialize (Hp (running_once _ _ _ I)).
  destruct (unattach_spec ext m p l I Ha Hl Hp) as (I1 & A1 & _). cbv zeta in I1, A1.
  set (m1 := curl_multi_remove_handle _ _) in *. assert (inv (bump ext p) (emit m1 (EasyCleanup p))) as I2 by (by apply inv_emit).
  destruct (release_spec ext _ p I2 (inv_ext _ _ I)) as (m' & E & I3 & _); [done|]. by exists m'.
Qed.

Lemma doRedirect_spec ext m p :
  inv ext m -> 0 < occ p (m_attached m) ->
  exists m' b, doRedirect m p = Some (m', b) /\ inv ext m' /\ (b = false -> m' = m).
Proof.
  intros I Ha. unfold doRedirect. destruct (inv_live ext m p I) as (j & E & O); [apply occ_total; [done|lia]|].
  rewrite E. cbn [mbind option_bind]. destruct (m_doRedirectChallenge j) eqn:Ec; cbn [negb]; [|by exists m, false].
  destruct (ok_challenge _ _ _ O Ec) as [_ Hr].
  destruct (unattach_spec ext m p (m_runningJobList m) I Ha) as (I1 & A1 & S1 & _); [done|done|].
  cbv zeta in I1, A1, S1. rewrite set_running_same in *. set (m1 := curl_multi_remove_handle m p) in *.
  pose proof (bump_total _ _ _ I1 (inv_ext _ _ I)) as Ht.
  destruct (inv_update _ m1 p (fun j => set_redirect (set_permit j SUSPEND) (m_redirectCount j) false (m_sslReconnect j)) I1 Ht)
    as (j1 & E1 & -> & I2); [done|intros ? _ [? ?]; split; cbn; done|]. cbn [mbind option_bind].
  destruct (appendScheduledJob_spec ext _ p I2 (inv_ext _ _ I)) as (m' & -> & I3 & _); [done|done| |].
  { cbn. rewrite lookup_insert_eq. by intros ? [= <-]. }
  cbn [mbind option_bind]. by exists m', true.
Qed.

Lemma reattach_spec ext m p :
  inv ext m -> 0 < occ p (m_attached m) -> inv ext (curl_multi_add_handle (curl_multi_remove_handle m p) p).
Proof.
  intros I Ha. unfold curl_multi_add_handle, curl_multi_remove_handle.
  destruct (remove_first p (m_attached m)) as [a|] eqn:E; [|apply remove_first_None in E; lia].
  pose proof (remove_first_occ _ _ _ E) as Ho. unfold default, id.
  assert (inv ext (emit (emit m (MultiRemove p)) (MultiAdd p))) as I' by (by do 2 (apply inv_emit; [|done])).
  change (inv ext (set_lists (emit (emit m (MultiRemove p)) (MultiAdd p)) (m_scheduledJobList m) (m_runningJobList m)
    (m_readCacheJobList m) (a ++ [p]))).
  assert (forall q, occ q (a ++ [p]) = occ q (m_attached m)) as Heq by (intros q; rewrite (Ho q), occ_app, occ_cons, occ_nil; lia).
  eapply inv_lists; [exact I'|apply (inv_ext _ _ I)|..]; cbn [m_attached m_scheduledJobList m_runningJobList m_readCacheJobList emit];
    intros q; rewrite ?Heq.
  - done.
  - apply (inv_once _ _ I).
  - apply (inv_running _ _ I).
  - intros j Ej. apply (ok_handle _ _ _ (inv_job _ _ _ _ I Ej)).
  - intros j Ej. apply (ok_challenge _ _ _ (inv_job _ _ _ _ I Ej)).
Qed.

Lemma removeFromCurl_spec ext m p :
  inv ext m -> 0 < occ p (m_attached m) -> exists m', removeFromCurl m p = Some m' /\ inv ext m'.
Proof.
  intros I Ha. unfold removeFromCurl. assert (0 < total ext m p) as Ht by (apply occ_total; [done|lia]).
  destruct (inv_live ext m p I Ht) as (j & E & O). rewrite E. cbn [mbind option_bind].
  destruct (negb (m_handle j)); [by exists m|]. destruct (m_cancelled j); [by apply finish_spec|].
  pose proof (reattach_spec ext m p I Ha) as Hre.
  destruct (auth_again (events m) p); [eexists; split; [done|by apply inv_timers]|].
  destruct (m_sslReconnect j).
  - destruct (inv_update _ m p (fun j => set_redirect (set_permit j PERMIT) (m_redirectCount j) (m_doRedirectChallenge j) false) I Ht)
      as (j1 & E1 & _ & I1); [done|intros ? _ [? ?]; split; cbn; done|].
    unfold update. change (jobs (curl_multi_remove_handle m p)) with (jobs m). rewrite E1. cbn [mbind option_bind].
    eexists. split; [reflexivity|]. apply inv_timers.
    exact (reattach_spec ext _ p I1 Ha).
  - destruct (m_redirectInWKC m); cbn [mbind option_bind]; [|by apply finish_spec].
    destruct (doRedirect_spec ext m p I Ha) as (m' & b & -> & I' & Hb). cbn [mbind option_bind].
    destruct b; [eexists; split; [done|by apply inv_timers]|]. rewrite (Hb eq_refl). by apply finish_spec.
Qed.

Lemma didReceiveRedirect_spec ext m p n :
  inv ext m -> 0 < occ p (m_attached m) -> exists m' b, didReceiveRedirect m p n = Some (m', b) /\ inv ext m'.
Proof.
  intros I Ha. unfold didReceiveRedirect. destruct (negb _); [by exists m, true|]. assert (0 < total ext m p) as Ht by (apply occ_total; [done|lia]).
  upd I Ht j1 E1 I1. cbn [jobs set_jobs]. rewrite lookup_insert_eq. cbn [mbind option_bind].
  destruct (_ <? _)%Z; [by eexists _, _|]. set (m1 := set_jobs m _) in *.
  destruct (removeRunningJob_eq m1 p) as (l & -> & Hl & _ & Hp). specialize (Hp (running_once _ _ _ I1)).
  assert (inv ext (set_running m1 l)) as I2.
  { apply (inv_lists ext ext m1 (m_scheduledJobList m1) l (m_readCacheJobList m1) (m_attached m1));
      [exact I1|apply (inv_ext _ _ I)|done|apply (inv_once _ _ I1)|..].
    - intros q. pose proof (inv_running _ _ I1 q). specialize (Hl q). lia.
    - intros q j E. apply (ok_handle _ _ _ (inv_job _ _ _ _ I1 E)).
    - intros q j E Hc. destruct (ok_challenge _ _ _ (inv_job _ _ _ _ I1 E) Hc). specialize (Hl q). pose proof (occ_nonneg q l). lia. }
  assert (0 < total ext (set_running m1 l) p) as Ht2 by exact Ht.
  match goal with |- context [update _ p ?f] => destruct (inv_update _ (set_running m1 l) p f I2 Ht2) as (j2 & E2 & -> & I3); [done| |] end.
  { intros j _ [H1 H2]. split; [done|]. intros _. cbn. split; [|done].
    pose proof (inv_once _ _ I p). pose proof (occ_nonneg p (m_scheduledJobList m)). lia. }
  cbn [mbind option_bind]. by eexists _, true.
Qed.

(** The second half of the timer: cancelled jobs leave the running list. *)
Lemma find_cancelled_spec m l :
  (forall p, p ∈ l -> exists j, jobs m !! p = Some j) ->
  exists r, find_cancelled m l = Some r /\
    match r with
    | None => forall p j, p ∈ l -> jobs m !! p = Some j -> m_cancelled j = false
    | Some (p, l') => p ∈ l /\ (forall q, occ q l = occ q l' + (if (p =? q)%nat then 1 else 0)) /\ length l = S (length l') /\
        exists j, jobs m !! p = Some j /\ m_cancelled j = true
    end.
Proof.
  induction l as [|p l IH]; intros Hl; cbn [find_cancelled].
  { exists None. split; [done|]. intros ? ? Hp. by apply not_elem_of_nil in Hp. }
  destruct (Hl p ltac:(set_solver)) as (j & E). rewrite E. cbn [mbind option_bind]. destruct (m_cancelled j) eqn:Ec.
  - exists (Some (p, l)). split; [done|]. split_and!; [set_solver|intros q; rewrite occ_cons; lia|done|by exists j].
  - destruct IH as (r & -> & Hr); [set_solver|]. cbn [mbind option_bind]. eexists. split; [reflexivity|].
    destruct r as [[q l']|].
    + destruct Hr as (H1 & H2 & H3 & H4). split_and!; [set_solver|intros x; rewrite !occ_cons, H2; lia|simpl; lia|done].
    + intros q j' [->|Hq]%elem_of_cons Ej; [congruence|by apply (Hr q)].
Qed.

Lemma find_cancelled_filter m l p l' : find_cancelled m l = Some (Some (p, l')) -> List.filter (alive m) l = List.filter (alive m) l'.
Proof.
  revert l'. induction l as [|q l IH]; intros l' E; cbn [find_cancelled] in E; [done|].
  destruct (jobs m !! q) as [j|] eqn:Eq; [|done]. cbn [mbind option_bind] in E. cbn [List.filter]. unfold alive at 1. rewrite Eq.
  destruct (m_cancelled j) eqn:Ec; [by injection E as <- <-|].
  destruct (find_cancelled m l) as [[[x k]|]|]; [|done|done]. cbn in E. injection E as <- <-. cbn [List.filter negb].
  unfold alive at 2. rewrite Eq, Ec. cbn. f_equal. by apply IH.
Qed.

Lemma filter_all {A} (f : A -> bool) l : (forall x, x ∈ l -> f x = true) -> List.filter f l = l.
Proof.
  induction l as [|x l IH]; intros Hl; cbn; [done|]. rewrite (Hl x ltac:(set_solver)). f_equal. apply IH. intros y Hy. apply Hl. set_solver.
Qed.

Lemma cancel_loop_spec fuel ext m :
  inv ext m -> (length (m_runningJobList m) <= fuel)%nat ->
  exists m', cancel_loop fuel m = Some m' /\ inv ext m' /\ m_runningJobList m' = List.filter (alive m) (m_runningJobList m).
Proof.
  revert m. induction fuel as [|fuel IH]; intros m I Hf; cbn [cancel_loop];
    (destruct (find_cancelled_spec m (m_runningJobList m)) as (r & Er & Hr);
      [intros p Hp; destruct (running_live _ _ _ I Hp) as (j & E & _); by exists j|]; rewrite Er; cbn [mbind option_bind];
     destruct r as [[p l]|];
      [destruct Hr as (Hp & Ho & Hl & _)|exists m; split_and!; try done; symmetry; apply filter_all; intros p Hp;
       destruct (running_live _ _ _ I Hp) as (j & E & _); unfold alive; rewrite E; by rewrite (Hr p j Hp E)]).
  - lia.
  - apply occ_in in Hp. pose proof (inv_running _ _ I p). pose proof (running_once _ _ p I). pose proof (Ho p) as Hop.
    rewrite Nat.eqb_refl in Hop. pose proof (occ_nonneg p l).
    assert (forall q, occ q l <= occ q (m_runningJobList m)) as Hle by (intros q; rewrite Ho; ptr).
    destruct (unattach_spec ext m p l I) as (I1 & A1 & _ & J1 & _ & R1 & _); [lia|done|lia|]. cbv zeta in I1, A1, R1, J1.
    set (m1 := curl_multi_remove_handle _ _) in *.
    assert (inv (bump ext p) (emit m1 (EasyCleanup p))) as I2 by (by apply inv_emit).
    destruct (release_spec ext _ p I2 (inv_ext _ _ I)) as (m2 & E2 & I3 & S3 & F3); [done|].
    destruct (update (emit m1 (EasyCleanup p)) p _) as [m3|]; [|done]. cbn [mbind option_bind] in E2 |- *.
    rewrite E2. cbn [mbind option_bind].
    assert (m_runningJobList m2 = l) as R2 by (injection S3 as _ S3 _ _ _ _ _ _; exact S3).
    destruct (IH m2 I3) as (m' & E' & I' & R'); [rewrite R2; lia|]. exists m'. split_and!; [done|done|].
    rewrite R', R2, (find_cancelled_filter _ _ _ _ Er). apply List.filter_ext_in. intros q Hq%list_elem_of_In.
    unfold alive. rewrite F3; [change (jobs (emit m1 (EasyCleanup p))) with (jobs m1); by rewrite J1|].
    intros ->. apply occ_in in Hq. lia.
Qed.

(** ** Starting a job *)

Lemma initializeHandle_spec ext m p :
  inv (bump ext p) m -> (forall q, 0 <= ext q) -> occ p (m_attached m) = 0 ->
  exists m' j j0, initializeHandle m p = Some m' /\ jobs m !! p = Some j0 /\ jobs m' = <[p := j]> (jobs m) /\
    inv (bump ext p) m' /\ shape m' = shape m /\ m_doRedirectChallenge j = m_doRedirectChallenge j0.
Proof.
  intros I He Ha. unfold initializeHandle. pose proof (bump_total _ _ _ I He) as Ht.
  destruct (inv_live _ _ _ I Ht) as (j & E & O). rewrite E. cbn [mbind option_bind].
  destruct (_ && _).
  - destruct (inv_update _ m p (fun j => set_handle j false) I Ht) as (j1 & E1 & -> & I1); [done|intros ? _ [? ?]; split; cbn; [lia|done]|].
    rewrite E in E1. injection E1 as <-. by eexists _, _, j.
  - match goal with |- context [update _ p ?f] => destruct (inv_update _ m p f I Ht) as (j1 & E1 & -> & I1) end.
    { intros j'. by destruct (_ =? _)%Z. }
    { intros j' _ [H1 H2]. split; cbn; [lia|]. by destruct (_ =? _)%Z. }
    rewrite E in E1. injection E1 as <-. eexists _, _, j. split_and!; try done. cbn. by destruct (_ =? _)%Z.
Qed.

(** [cancel] of a job that is not scheduled. *)
Lemma cancel_taken ext m p :
  inv ext m -> 0 < total ext m p -> occ p (m_scheduledJobList m) = 0 ->
  exists m', cancel m p = Some m' /\ inv ext m' /\ m_scheduledJobList m' = m_scheduledJobList m /\
    m_runningJobList m' = m_runningJobList m /\ m_attached m' = m_attached m /\
    settings m' = settings m /\ (forall q, q <> p -> jobs m' !! q = jobs m !! q).
Proof.
  intros I Ht Hs. destruct (cancel_spec ext m p I Ht) as (m' & E & I' & L1 & L2 & L3 & L4 & L5). exists m'.
  split; [done|]. split; [done|]. unfold cancel, removeScheduledJob in E.
  destruct (remove_first p (m_scheduledJobList m)) as [l|] eqn:El.
  { apply remove_first_occ with (q := p) in El. rewrite Nat.eqb_refl in El. pose proof (occ_nonneg p l). lia. }
  destruct (remove_first p (m_readCacheJobList m)) as [l|].
  - unfold deref in E. change (jobs (set_readCache m l)) with (jobs m) in E. destruct (jobs m !! p) as [j|]; [|done].
    cbn [mbind option_bind] in E. injection E as <-. cbn. split_and!; try done. intros q Hq.
    destruct (_ =? _)%Z; [by rewrite lookup_delete_ne|by rewrite lookup_insert_ne].
  - cbn [mbind option_bind] in E. unfold update in E. destruct (jobs m !! p) as [j|]; [|done].
    cbn [mbind option_bind] in E. cbn [jobs set_jobs] in E. rewrite lookup_insert_eq in E. cbn [mbind option_bind] in E.
    destruct (negb _); injection E as <-; (destruct (negb _); [|]) || idtac; cbn; split_and!; try done;
      intros q Hq; by rewrite lookup_insert_ne.
Qed.

Lemma deref_frame m m' p : deref m p = Some m' -> forall q, q <> p -> jobs m' !! q = jobs m !! q.
Proof.
  unfold deref. destruct (jobs m !! p) as [j|]; [|done]. cbn. intros [= <-] q Hq. cbn.
  destruct (_ =? _)%Z; [by rewrite lookup_delete_ne|by rewrite lookup_insert_ne].
Qed.

(** A job in the hands of the caller goes to the transfer library and the running list. *)
Lemma attach_spec ext m p :
  inv (bump ext p) m -> (forall q, 0 <= ext q) ->
  occ p (m_scheduledJobList m) = 0 -> occ p (m_attached m) = 0 ->
  (forall j, jobs m !! p = Some j -> m_handle j = true /\ m_doRedirectChallenge j = false) ->
  inv ext (appendRunningJob (curl_multi_add_handle m p) p).
Proof.
  intros I He Hs Ha Hj. assert (inv (bump ext p) (emit m (MultiAdd p))) as I' by (by apply inv_emit).
  change (inv ext (set_lists (emit m (MultiAdd p)) (m_scheduledJobList m) (m_runningJobList m ++ [p]) (m_readCacheJobList m)
    (m_attached m ++ [p]))).
  eapply inv_lists; [exact I'|done|..]; cbn [m_attached m_scheduledJobList m_runningJobList m_readCacheJobList emit];
    intros q; rewrite ?occ_app, ?occ_cons, ?occ_nil.
  - unfold bump. ptr.
  - pose proof (inv_once _ _ I q). ptr.
  - pose proof (inv_running _ _ I q). ptr.
  - intros j Ej. destruct (Nat.eqb_spec p q) as [->|Hne]; [intros _; by apply Hj|].
    rewrite !Z.add_0_r. apply (ok_handle _ _ _ (inv_job _ _ _ _ I Ej)).
  - intros j Ej Hc. destruct (ok_challenge _ _ _ (inv_job _ _ _ _ I Ej) Hc) as [H1 H2].
    destruct (Nat.eqb_spec p q) as [->|Hne]; [|lia]. destruct (Hj j Ej). congruence.
Qed.

Lemma startJob_spec ext m p j :
  inv (bump ext p) m -> (forall q, 0 <= ext q) ->
  occ p (m_scheduledJobList m) = 0 -> occ p (m_attached m) = 0 -> jobs m !! p = Some j -> m_doRedirectChallenge j = false ->
  exists m', startJob m p = Some m' /\ inv ext m' /\ taken m m' p /\
    (m_runningJobList m' = m_runningJobList m \/ m_runningJobList m' = m_runningJobList m ++ [p] /\ protocolIsData j = false).
Proof.
  intros I He Hs Ha E Hch. unfold startJob. rewrite E. cbn [mbind option_bind].
  destruct (protocolIsData j) eqn:Ed.
  { assert (inv (bump ext p) (emit m (HandleDataURL p))) as I1 by (by apply inv_emit).
    destruct (cancel_taken _ _ p I1) as (m1 & -> & I2 & S2 & R2 & A2 & C2 & F2); [by apply bump_total|done|].
    cbn [mbind option_bind]. destruct (inv_deref _ _ _ I2 He) as (js & E3 & I3). rewrite E3. eexists. split_and!; [done|done| |by left].
    unfold taken. split_and!; [done|done|]. intros q Hq. rewrite (deref_frame _ _ _ E3 q Hq). by apply F2. }
  destruct (initializeHandle_spec ext m p I He Ha) as (m1 & j1 & j0 & -> & E0 & J1 & I1 & S1 & C1).
  rewrite E in E0. injection E0 as <-. cbn [mbind option_bind]. rewrite J1, lookup_insert_eq. cbn [mbind option_bind].
  injection S1 as S1 R1 L1 A1 H1 T1 _ _.
  assert (forall q, q <> p -> jobs m1 !! q = jobs m !! q) as F1 by (intros q Hq; by rewrite J1, lookup_insert_ne).
  destruct (m_handle j1) eqn:Eh; cbn [negb].
  2:{ eexists. split_and!; [done|by apply inv_didFail, inv_lost| |left].
      - unfold taken, settings. destruct (shape_didFail (emit m1 (InitFailed p)) p j1 CURLE_OUT_OF_MEMORY) as [S2 ->].
        injection S2 as -> _ _ _ -> -> _ _. cbn. split_and!; congruence || done.
      - destruct (shape_didFail (emit m1 (InitFailed p)) p j1 CURLE_OUT_OF_MEMORY) as [S2 _]. by injection S2 as _ -> _ _ _ _ _ _. }
  destruct (multi_add (events m1) p); cbn [negb].
  - eexists. split_and!; [done| |by destruct (m_isSSL j1 && _); unfold taken, settings; cbn; split_and!; congruence || done|right].
    2:{ split; [|done]. destruct (m_isSSL j1 && _); cbn; by rewrite R1. }
    assert (inv ext (appendRunningJob (curl_multi_add_handle m1 p) p)) as I2.
    { apply attach_spec; [done|done|congruence|congruence|]. intros j2. rewrite J1, lookup_insert_eq. intros [= <-]. split; [done|congruence]. }
    destruct (m_isSSL j1 && _); [|done]. by apply (inv_emit _ _ (NotifySSL p)) in I2.
  - destruct (cancel_taken _ _ p I1) as (m2 & -> & I2 & S2 & R2 & A2 & C2 & F2); [by apply bump_total|congruence|].
    cbn [mbind option_bind]. destruct (inv_live _ m2 p I2) as (j2 & E2 & _); [by apply bump_total|]. rewrite E2. cbn [mbind option_bind].
    set (m3 := emit (didFail m2 p j2 CURLE_OUT_OF_MEMORY) (EasyCleanup p)).
    destruct (shape_didFail m2 p j2 CURLE_OUT_OF_MEMORY) as [S3 J3]. injection S3 as S3 R3 L3 A3 H3 T3 _ _.
    assert (inv (bump ext p) m3) as I3 by (by apply inv_emit; [apply inv_didFail|]).
    destruct (release_spec ext m3 p I3 He) as (m4 & E4 & I4 & S4 & F4); [cbn; congruence|].
    rewrite E4. eexists. injection S4 as S4 R4 L4 A4 H4 T4 _ _. cbn in *. unfold settings in *. split_and!; [done|done| |left; congruence].
    injection C2 as C2 C2'. unfold taken, settings. split_and!; [congruence|congruence|].
    intros q Hq. rewrite F4, J3, F2 by done. by apply F1.
Qed.

(** ** The timer *)

(** Whatever was permitted, the job at the head of the list is taken: the loop
    never gets here with a running job and a proxy that takes one connection. *)
Lemma shift_head m :
  m_tryProxySingleConnect m && (0 <? length (m_runningJobList m))%nat = false ->
  (forall p, p ∈ m_scheduledJobList m -> exists j, jobs m !! p = Some j) ->
  shiftScheduledJob m = Some (match m_scheduledJobList m with [] => (m, None) | p :: l => (set_scheduled m l, Some p) end).
Proof.
  intros Hc Hl. unfold shiftScheduledJob. destruct (m_scheduledJobList m) as [|p l]; [done|]. cbn [shift_loop].
  destruct (Hl p ltac:(set_solver)) as (j & ->). cbn [mbind option_bind]. rewrite Hc.
  destruct (m_cancelled j), (m_permitSend j), (m_fileLoading j || m_dataLoading j || m_matchProxyFilter j); done.
Qed.

Lemma worked_off_refl m : worked_off m m.
Proof. exists 0%nat, []. rewrite drop_0, app_nil_r. split_and!; try done. intros ? Hp. by apply not_elem_of_nil in Hp. Qed.

(** One round of the loop. *)
Lemma worked_off_step ext m m1 m' p l :
  inv ext m -> m_scheduledJobList m = p :: l ->
  m_scheduledJobList m1 = l -> (forall q, q <> p -> jobs m1 !! q = jobs m !! q) ->
  (m_runningJobList m1 = m_runningJobList m \/
   m_runningJobList m1 = m_runningJobList m ++ [p] /\ exists j, jobs m !! p = Some j /\ m_cancelled j = false /\ protocolIsData j = false) ->
  worked_off m1 m' -> worked_off m m'.
Proof.
  intros I Es E1 F1 Hr (k & r & S' & R' & Hsub & Hj). pose proof (inv_once _ _ I p) as Ho.
  rewrite Es, occ_cons, Nat.eqb_refl in Ho. pose proof (occ_nonneg p (m_attached m)).
  rewrite E1 in *. assert (forall q, q ∈ r -> q <> p) as Hne.
  { intros q Hq ->. assert (p ∈ l) as Hin%occ_in; [|lia]. eapply elem_of_sublist in Hq; [|exact Hsub].
    by apply elem_of_take in Hq as (? & ?%list_elem_of_lookup_2 & _). }
  assert (forall q, q ∈ r -> exists j, jobs m !! q = Some j /\ m_cancelled j = false /\ protocolIsData j = false) as Hj'.
  { intros q Hq. rewrite <- F1 by (by apply Hne). by apply Hj. }
  destruct Hr as [Hr|[Hr Hp]]; rewrite Hr in R'.
  - exists (S k), r. rewrite Es. cbn [drop take]. split_and!; try done. by apply sublist_cons.
  - exists (S k), (p :: r). rewrite Es. cbn [drop take]. split_and!; [done|by rewrite R', <- app_assoc|by apply sublist_skip|].
    intros q [->|Hq]%elem_of_cons; [done|by apply Hj'].
Qed.

(** The body of the loop, after the job was taken off the list. *)
Lemma round_spec ext m p l j fuel b :
  inv ext m -> inv (bump ext p) (set_scheduled m l) ->
  occ p l = 0 -> occ p (m_attached m) = 0 -> jobs m !! p = Some j -> m_doRedirectChallenge j = false ->
  exists m2,
    (if m_cancelled j then
       let m0 := if bool_decide (m_permitSend j = CANCEL) then didFail (set_scheduled m l) p j CURLE_GOT_NOTHING else set_scheduled m l in
       m0 ← update m0 p (fun j => set_handle j false); m0 ← deref m0 p; start_loop fuel m0 b
     else m0 ← startJob (set_scheduled m l) p; start_loop fuel m0 true) =
    start_loop fuel m2 (if m_cancelled j then b else true) /\ inv ext m2 /\ taken (set_scheduled m l) m2 p /\
    (m_runningJobList m2 = m_runningJobList m \/
     m_runningJobList m2 = m_runningJobList m ++ [p] /\ exists j, jobs m !! p = Some j /\ m_cancelled j = false /\ protocolIsData j = false).
Proof.
  intros I I1 S1 A1 Ej C1. destruct (m_cancelled j) eqn:Ek.
    - cbv zeta. set (m0 := if bool_decide _ then _ else _).
      assert (inv (bump ext p) m0 /\ shape m0 = shape (set_scheduled m l) /\ jobs m0 = jobs m) as (I2 & S2 & J2).
      { unfold m0. case_bool_decide; [|done]. split; [by apply inv_didFail|]. exact (shape_didFail (set_scheduled m l) p j CURLE_GOT_NOTHING). }
      destruct (release_spec ext m0 p I2 (inv_ext _ _ I)) as (m2 & E2 & I3 & S3 & F3).
      { injection S2 as _ _ _ -> _ _ _ _. done. }
      exists m2. rewrite S2 in S3. injection S3 as S3 R3 _ _ H3 T3 _ _. split_and!; [|done|unfold taken, settings; split_and!|by left].
      + destruct (update m0 p _) as [m3|]; [|done]. cbn [mbind option_bind] in E2 |- *. by rewrite E2.
      + done.
      + by rewrite H3, T3.
      + intros q Hq. rewrite F3 by done. by rewrite J2.
    - destruct (startJob_spec ext _ p j I1 (inv_ext _ _ I) S1 A1 Ej) as (m2 & E2 & I3 & T2 & R2); [done|].
      exists m2. rewrite E2. split_and!; try done. destruct R2 as [R2|[R2 Hd]]; [by left|right]. split; [done|by exists j].
Qed.

Lemma start_loop_spec fuel ext m b :
  inv ext m -> (length (m_scheduledJobList m) <= fuel)%nat ->
  exists m' b', start_loop fuel m b = Some (m', b') /\ inv ext m' /\ settings m' = settings m /\
    worked_off m m' /\ within_limit m m' /\ nothing_to_start m'.
Proof.
  revert m b. induction fuel as [|fuel IH]; intros m b I Hf; cbn [start_loop];
    (destruct ((_ =? 0)%Z || _) eqn:Ec;
      [|exists m, b; bprop; split_and!; try done; [by apply worked_off_refl|right; lia|right; left; lia]];
     destruct (m_tryProxySingleConnect m && _) eqn:Et;
      [exists m, b; bprop; split_and!; try done; [by apply worked_off_refl|right; lia|right; right; split; [done|]];
       intros E0; by rewrite E0 in *|];
     rewrite shift_head by (done || intros; by eapply scheduled_live); cbn [mbind option_bind];
     destruct (m_scheduledJobList m) as [|p l] eqn:Es;
      [exists m, true; split_and!; try done; [by apply worked_off_refl|right; lia|by left]|]); [simpl in Hf; lia|].
  destruct (shiftScheduledJob_spec ext m I) as (m1 & o & E1 & H1). rewrite shift_head, Es in E1 by (done || intros; by eapply scheduled_live).
  injection E1 as <- <-. destruct H1 as (I1 & S1 & A1 & C1 & _). destruct (inv_live _ _ p I1) as (j & Ej & _); [by apply bump_total, (inv_ext _ _ I)|].
  rewrite Ej. cbn [mbind option_bind].
  destruct (round_spec ext m p l j fuel b I I1 S1 A1 Ej (C1 j Ej)) as (m2 & E2 & I2 & (S2 & T2 & F2) & R2). cbn in S2.
  destruct (IH m2 (if m_cancelled j then b else true) I2) as (m' & b' & E' & I' & T' & W' & L' & N').
  { rewrite S2. simpl in Hf. lia. }
  exists m', b'. split_and!; [etransitivity; [exact E2|exact E']|done|by rewrite T', T2| | |done].
  - by apply (worked_off_step ext m m2 m' p l).
  - injection T2 as T2 _. unfold within_limit in *. rewrite T2 in L'.
    apply orb_true_iff in Ec as [Ec|Ec]; bprop; [by left|]. destruct L' as [L'|L']; [by left|right].
    destruct R2 as [R2|[R2 _]]; rewrite R2 in L'; [lia|]. rewrite length_app in L'. simpl in L'. lia.
Qed.

End Operations.

End QueueFacts.
