(* ===== verification/JobRuns.v ===== *)
(** * Runs of the request queue

    The operations of JobQueue.v that work on many jobs, and sequences of all of
    them as the browser makes them: pages load and cancel, the application
    answers for permission, the timer starts and cancels jobs, transfers end or
    are redirected.  [ext] counts the references the rest of the browser holds. *)
From stdpp Require Import gmap.
From S2P Require Import Prelude JobQueue.

Module ManyFacts.
Import Queue QueueInv QueueFacts.

Section Operations.
Context `{Oracles}.

Lemma permit_loop_spec ext m l p permit b :
  inv ext m -> (forall q, q ∈ l -> 0 < total ext m q) ->
  exists m' b', permit_loop m l p permit b = Some (m', b') /\ inv ext m' /\ shape m' = shape m /\ events m' = events m.
Proof.
  revert m b. induction l as [|q l IH]; intros m b I Hl; cbn [permit_loop]; [by exists m, b|].
  assert (forall q, q ∈ l -> 0 < total ext m q) as Hl' by (intros x Hx; apply Hl; set_solver).
  destruct (Nat.eqb_spec q p) as [->|Hne]; cbn [negb]; [|by apply IH].
  assert (0 < total ext m p) as Ht by (apply Hl; set_solver).
  destruct (inv_live _ _ _ I Ht) as (j & -> & _). cbn [mbind option_bind].
  destruct (m_cancelled j); [by apply IH|]. case_bool_decide; cbn [negb]; [|by apply IH].
  destruct (inv_update ext m p (fun j => if permit then set_permit j PERMIT else set_cancelled (set_permit j CANCEL) true) I Ht)
    as (j1 & E1 & -> & I1); [by destruct permit|intros ? _ [? ?]; by destruct permit|]. cbn [mbind option_bind].
  destruct (IH (set_jobs m (<[p:=if permit then set_permit j1 PERMIT else set_cancelled (set_permit j1 CANCEL) true]> (jobs m))) true I1)
    as (m' & b' & E & I' & S' & V'); [done|]. by exists m', b'.
Qed.

Lemma scheduled_total ext m p : inv ext m -> p ∈ m_scheduledJobList m -> 0 < total ext m p.
Proof. intros I Hp. apply occ_total; [done|]. left. by apply occ_in. Qed.

Lemma permitRequest_spec ext m p permit : inv ext m -> exists m', permitRequest m p permit = Some m' /\ inv ext m'.
Proof.
  intros I. unfold permitRequest.
  destruct (permit_loop_spec ext m (m_scheduledJobList m) p permit false I) as (m' & b & -> & I' & _).
  { intros q. by apply scheduled_total. }
  cbn [mbind option_bind]. eexists. split; [reflexivity|]. destruct (_ && _); [by apply inv_timers|done].
Qed.

Lemma cancel_frame_spec ext i get m frame :
  get = m_scheduledJobList \/ get = m_runningJobList ->
  inv ext m -> (i <= length (get m))%nat ->
  exists m', cancel_frame_loop i get m frame = Some m' /\ inv ext m'.
Proof.
  intros Hget. revert m. induction i as [|i IH]; intros m I Hi; cbn [cancel_frame_loop]; [by exists m|].
  destruct (lookup_lt_is_Some_2 (get m) i) as [p Ep]; [lia|]. rewrite Ep. cbn [mbind option_bind].
  apply list_elem_of_lookup_2 in Ep.
  assert (0 < total ext m p) as Ht.
  { destruct Hget as [->| ->]; [by apply scheduled_total|]. apply occ_in in Ep. apply occ_total; [done|].
    pose proof (inv_running _ _ I p). lia. }
  destruct (inv_live _ _ _ I Ht) as (j & -> & _). cbn [mbind option_bind].
  destruct (_ =? _)%nat; [|by apply IH; [|lia]].
  destruct (cancel_spec ext m p I Ht) as (m1 & -> & I1 & R1 & _ & _ & L1 & _). cbn [mbind option_bind]. apply IH; [done|].
  destruct Hget as [->| ->]; [lia|rewrite R1; lia].
Qed.

Lemma cancelByFrame_spec ext m frame : inv ext m -> exists m', cancelByFrame m frame = Some m' /\ inv ext m'.
Proof.
  intros I. unfold cancelByFrame.
  destruct (cancel_frame_spec ext (length (m_scheduledJobList m)) m_scheduledJobList m frame) as (m1 & -> & I1); [by left|done|done|].
  cbn [mbind option_bind]. apply cancel_frame_spec; [by right|done|done].
Qed.

Lemma occ_delete i p l : l !! i = Some p -> forall q, occ q l = occ q (delete i l) + (if (p =? q)%nat then 1 else 0).
Proof.
  revert i. induction l as [|x l IH]; intros i E q; [done|]. destruct i as [|i].
  - injection E as ->. change (delete 0%nat (p :: l)) with l. rewrite occ_cons. lia.
  - change (delete (S i) (x :: l)) with (x :: delete i l). change (l !! i = Some p) in E. rewrite !occ_cons, (IH i E q). lia.
Qed.

(** Failing a job that is in the hands of the caller. *)
Lemma fail_spec ext m p j :
  inv ext m -> jobs m !! p = Some j ->
  exists m', (if negb (m_cancelled j) && m_client j
              then update (didFail m p j CURLE_GOT_NOTHING) p (fun j => set_cancelled j true) else Some m) = Some m' /\
    inv ext m' /\ shape m' = shape m /\ (exists j', jobs m' !! p = Some j').
Proof.
  intros I E. destruct (_ && _); [|exists m; split_and!; try done; by exists j].
  assert (inv ext (didFail m p j CURLE_GOT_NOTHING)) as I1 by (by apply inv_didFail).
  destruct (shape_didFail m p j CURLE_GOT_NOTHING) as [S1 J1].
  assert (0 < total ext (didFail m p j CURLE_GOT_NOTHING) p) as Ht by (eapply live_total; [done|by rewrite J1]).
  upd I1 Ht j1 E1 I2. eexists. split_and!; [done|done|done|]. eexists. cbn. by rewrite lookup_insert_eq.
Qed.

Lemma remove_scheduled_spec ext num m :
  inv ext m -> (num <= length (m_scheduledJobList m))%nat ->
  exists m', remove_scheduled_loop num m = Some m' /\ inv ext m' /\
    m_scheduledJobList m' = drop num (m_scheduledJobList m).
Proof.
  revert m. induction num as [|num IH]; intros m I Hn; cbn [remove_scheduled_loop]; [by exists m|].
  destruct (lookup_lt_is_Some_2 (m_scheduledJobList m) num) as [p Ep]; [lia|]. rewrite Ep. cbn [mbind option_bind].
  pose proof (occ_delete _ _ _ Ep) as Ho. pose proof (list_elem_of_lookup_2 _ _ _ Ep) as Hin.
  destruct (inv_live ext m p I) as (j & E & _); [by apply scheduled_total|].
  assert (inv (bump ext p) (set_scheduled m (delete num (m_scheduledJobList m)))) as I1.
  { eapply inv_lists; [exact I|by apply bump_nonneg, (inv_ext _ _ I)|..].
    - intros q. unfold bump. specialize (Ho q). ptr.
    - intros q. pose proof (inv_once _ _ I q). specialize (Ho q). ptr.
    - apply (inv_running _ _ I).
    - intros q j' E'. apply (inv_job _ _ _ _ I E').
    - intros q j' E' Hc. destruct (ok_challenge _ _ _ (inv_job _ _ _ _ I E') Hc). specialize (Ho q).
      pose proof (occ_nonneg q (delete num (m_scheduledJobList m))). ptr. }
  set (m1 := set_scheduled m _) in *. change (jobs m1) with (jobs m). rewrite E. cbn [mbind option_bind].
  destruct (fail_spec _ m1 p j I1 E) as (m2 & -> & I2 & S2 & _). cbn [mbind option_bind].
  destruct (inv_deref _ _ _ I2 (inv_ext _ _ I)) as (js & -> & I3). cbn [mbind option_bind].
  assert (m_scheduledJobList (set_jobs m2 js) = delete num (m_scheduledJobList m)) as S3 by (injection S2 as S2 _ _ _ _ _ _ _; exact S2).
  destruct (IH _ I3) as (m' & -> & I' & S'); [rewrite S3, length_delete by (by exists p); lia|].
  exists m'. split_and!; try done. rewrite S', S3, delete_take_drop, drop_app_le by (rewrite length_take; lia).
  by rewrite drop_ge by (rewrite length_take; lia).
Qed.

Lemma remove_running_spec ext l m :
  inv ext m -> m_runningJobList m = l ->
  exists m', remove_running_loop l m = Some m' /\ inv ext m' /\ m_runningJobList m' = [] /\
    m_scheduledJobList m' = m_scheduledJobList m.
Proof.
  revert m. induction l as [|p l IH]; intros m I El; cbn [remove_running_loop]; [by exists m|].
  assert (p ∈ m_runningJobList m) as Hin by (rewrite El; set_solver). pose proof (occ_in _ _ Hin) as Hr.
  pose proof (inv_running _ _ I p). pose proof (running_once _ _ p I) as Ho. rewrite El, occ_cons, Nat.eqb_refl in Ho.
  pose proof (occ_nonneg p l). destruct (running_live _ _ _ I Hin) as (j & E & Eh).
  change (jobs (set_running m l)) with (jobs m). rewrite E. cbn [mbind option_bind]. rewrite Eh.
  destruct (fail_spec _ m p j I E) as (m1 & E1 & I1 & S1 & (j1 & J1)).
  assert (exists m2, (if negb (m_cancelled j) && m_client j
      then update (didFail (set_running m l) p j CURLE_GOT_NOTHING) p (fun j => set_cancelled j true) else Some (set_running m l)) =
      Some m2 /\ m2 = set_running m1 l) as (m2 & E2 & ->).
  { destruct (_ && _); [|injection E1 as <-; by eexists]. unfold didFail, update in *. destruct (m_client j);
      cbn [jobs emit set_running set_lists] in *; rewrite E in *; cbn in E1; injection E1 as <-; eexists; split; reflexivity. }
  rewrite E2. cbn [mbind option_bind]. injection S1 as S1 R1 L1 A1 _ _ _ _.
  destruct (unattach_spec ext m1 p l I1) as (I2 & A2 & _ & _ & S2 & R2 & _); [rewrite A1; lia|intros q; rewrite R1, El, occ_cons; ptr|lia|].
  cbv zeta in *. set (m3 := curl_multi_remove_handle _ _) in *.
  assert (inv (bump ext p) (emit m3 (EasyCleanup p))) as I3 by (by apply inv_emit).
  destruct (release_spec ext _ p I3 (inv_ext _ _ I)) as (m4 & E4 & I4 & S4 & _); [done|].
  destruct (update (emit m3 (EasyCleanup p)) p _) as [m5|]; [|done]. cbn [mbind option_bind] in E4 |- *. rewrite E4. cbn [mbind option_bind].
  injection S4 as S4 R4 _ _ _ _ _ _. destruct (IH m4 I4) as (m' & -> & I' & R' & S'); [done|].
  exists m'. split_and!; try done. rewrite S', S4. cbn. by rewrite S1.
Qed.

End Operations.
End ManyFacts.

(** * Sequences of operations *)
Module Runs.
Import Queue QueueInv.

Definition initialManager (connections : Z) (tryProxySingleConnect harmfulSiteFilter redirectInWKC : bool) : Manager :=
  mkManager ∅ [] [] [] [] connections tryProxySingleConnect harmfulSiteFilter redirectInWKC false false [].

Inductive op :=
  | Load (p : nat) (j : Job) (resource : option CachedResource)
  | Release (p : nat)
  | Cancel (p : nat)
  | CancelByFrame (frame : nat)
  | Answer (p : nat) (permit : bool)
  | StartScheduled
  | CancelScheduled
  | TransferDone (p : nat)
  | Redirected (p : nat) (redirectMaxCount : Z)
  | RemoveAllScheduled
  | RemoveAllRunning
  | SetMaxHTTPConnections (number : Z).

(** A new [ResourceHandle], with the reference of its creator. *)
Definition fresh (j : Job) : Job := set_refCount (set_redirect j 0 false false) 1.
Definition create (m : Manager) (p : nat) (j : Job) : Manager := set_jobs m (<[p := fresh j]> (jobs m)).

(** What may happen when: an address is used for one job at a time, the browser
    uses the jobs it holds, the transfer library those it was given. *)
Definition enabled (m : Manager) (ext : nat -> Z) (o : op) : bool :=
  match o with
  | Load p _ _ => bool_decide (jobs m !! p = None)
  | Release p | Cancel p => (0 <? ext p)%Z
  | TransferDone p | Redirected p _ => bool_decide (p ∈ m_attached m)
  | _ => true
  end.

Section Run.
Context `{Oracles}.

Definition run_op (m : Manager) (ext : nat -> Z) (o : op) : option (Manager * (nat -> Z)) :=
  match o with
  | Load p j resource => m ← add (create m p j) p resource; Some (m, bump ext p)
  | Release p => m ← deref m p; Some (m, fun q => if (q =? p)%nat then ext q - 1 else ext q)
  | Cancel p => m ← cancel m p; Some (m, ext)
  | CancelByFrame frame => m ← cancelByFrame m frame; Some (m, ext)
  | Answer p permit => m ← permitRequest m p permit; Some (m, ext)
  | StartScheduled => '(m, _) ← startScheduledJobs m; Some (m, ext)
  | CancelScheduled => m ← cancelScheduledJobs m; Some (m, ext)
  | TransferDone p => m ← removeFromCurl m p; Some (m, ext)
  | Redirected p redirectMaxCount => '(m, _) ← didReceiveRedirect m p redirectMaxCount; Some (m, ext)
  | RemoveAllScheduled => m ← removeAllScheduledJobs m; Some (m, ext)
  | RemoveAllRunning => m ← removeAllRunningJobs m; Some (m, ext)
  | SetMaxHTTPConnections number => Some (setMaxHTTPConnections m number, ext)
  end.

Fixpoint run (m : Manager) (ext : nat -> Z) (ops : list op) : option (Manager * (nat -> Z)) :=
  match ops with
  | [] => Some (m, ext)
  | o :: ops' => if enabled m ext o then '(m, ext) ← run_op m ext o; run m ext ops' else run m ext ops'
  end.

End Run.
End Runs.

Module RunFacts.
Import Queue QueueInv QueueFacts ManyFacts Runs.

Section Run.
Context `{Oracles}.

Lemma initial_inv n a b c : inv (fun _ => 0) (initialManager n a b c).
Proof. by split; intros p. Qed.

(** A new job: nothing in the queue has its address. *)
Lemma create_spec ext m p j :
  inv ext m -> jobs m !! p = None ->
  inv (bump ext p) (create m p j) /\ 0 < total (bump ext p) (create m p j) p /\
  occ p (m_scheduledJobList m) = 0 /\ occ p (m_attached m) = 0.
Proof.
  intros I E. pose proof (inv_count _ _ I p) as Hp. rewrite E in Hp. unfold total in Hp. pose proof (inv_ext _ _ I p) as He.
  pose proof (occ_nonneg p (m_scheduledJobList m)). pose proof (occ_nonneg p (m_readCacheJobList m)).
  pose proof (occ_nonneg p (m_attached m)). pose proof (lost_nonneg p (events m)).
  assert (forall q, total (bump ext p) (create m p j) q = total ext m q + (if (q =? p)%nat then 1 else 0)) as Ht
    by (intros q; unfold total, bump; cbn; ptr).
  split_and!; try lia.
  2:{ rewrite Ht, Nat.eqb_refl. unfold total. lia. }
  destruct I as [I1 I2 I3 I4]. split; try done; [by apply bump_nonneg|]. intros q. rewrite Ht. cbn [create jobs set_jobs].
  destruct (decide (q = p)) as [->|Hne].
  - rewrite lookup_insert_eq, Nat.eqb_refl. unfold total. cbn. split_and!; [lia|lia|]. split; cbn; [lia|done].
  - rewrite lookup_insert_ne by done. destruct (Nat.eqb_spec q p); [done|]. rewrite Z.add_0_r. specialize (I2 q).
    destruct (jobs m !! q); [|done]. destruct I2 as (H4 & H5 & [H6 H7]). by split_and!.
Qed.

Lemma scheduleLoad_spec ext m p :
  inv ext m -> 0 < total ext m p -> exists m', scheduleLoadResourceFromHTTPCache m p = Some m' /\ inv ext m'.
Proof.
  intros I Ht. unfold scheduleLoadResourceFromHTTPCache. destruct (inv_ref _ _ _ I Ht) as (js & -> & I1). cbn [mbind option_bind].
  set (m1 := set_jobs m js) in *. assert (inv ext (set_readCache m1 (m_readCacheJobList m1 ++ [p]))) as I2.
  { eapply inv_lists; [exact I1|apply (inv_ext _ _ I)|..].
    - intros q. unfold bump. rewrite occ_app, occ_cons, occ_nil. ptr.
    - apply (inv_once _ _ I1).
    - apply (inv_running _ _ I1).
    - intros q j E. apply (inv_job _ _ _ _ I1 E).
    - intros q j E. apply (ok_challenge _ _ _ (inv_job _ _ _ _ I1 E)). }
  eexists. split; [reflexivity|]. destruct (negb _); [by apply inv_timers|done].
Qed.

Lemma enqueue_spec ext m p :
  inv ext m -> 0 < total ext m p -> occ p (m_scheduledJobList m) = 0 -> occ p (m_attached m) = 0 ->
  (forall j, jobs m !! p = Some j -> m_doRedirectChallenge j = false) ->
  exists m', enqueue m p = Some m' /\ inv ext m'.
Proof.
  intros I Ht Hs Ha Hc. unfold enqueue. destruct (inv_ref _ _ _ I Ht) as (js & E2 & I2). rewrite E2. cbn [mbind option_bind].
  destruct (appendScheduledJob_spec ext _ p I2 (inv_ext _ _ I)) as (m2 & -> & I3 & _); [done|done| |].
  { cbn. destruct (inv_live _ _ _ I Ht) as (j & E & _). unfold ref, update in E2. rewrite E in E2. cbn in E2. injection E2 as <-.
    rewrite lookup_insert_eq. intros ? [= <-]. by apply (Hc j). }
  cbn [mbind option_bind]. eexists. split; [reflexivity|]. destruct (negb _); [by apply inv_timers|done].
Qed.

Lemma add_spec ext m p resource :
  inv ext m -> 0 < total ext m p -> occ p (m_scheduledJobList m) = 0 -> occ p (m_attached m) = 0 ->
  (forall j, jobs m !! p = Some j -> m_doRedirectChallenge j = false) ->
  exists m', add m p resource = Some m' /\ inv ext m'.
Proof.
  intros I Ht Hs Ha Hc. unfold add. upd I Ht j E I1. set (m1 := set_jobs m _) in *.
  assert (0 < total ext m1 p) as Ht1 by exact Ht.
  assert (forall j, jobs m1 !! p = Some j -> m_doRedirectChallenge j = false) as Hc1.
  { cbn. rewrite lookup_insert_eq. intros ? [= <-]. by apply (Hc j). }
  destruct resource as [r|]; [|by apply enqueue_spec].
  destruct (_ && _); [destruct (negb _); [by apply scheduleLoad_spec|by apply enqueue_spec]|].
  apply enqueue_spec; [by apply inv_emit|by rewrite emit_total|done|done|done].
Qed.

Lemma run_queue_op_spec m ext o :
  inv ext m -> enabled m ext o = true -> exists m' ext', run_op m ext o = Some (m', ext') /\ inv ext' m'.
Proof.
  intros I He. destruct o; cbn in He |- *.
  - apply bool_decide_eq_true in He. destruct (create_spec ext m p j I He) as (I1 & T1 & S1 & A1).
    destruct (add_spec _ _ p resource I1 T1) as (m' & -> & I'); [done|done| |by eexists _, _].
    cbn. rewrite lookup_insert_eq. by intros ? [= <-].
  - apply Z.ltb_lt in He. set (ext' := fun q => if (q =? p)%nat then ext q - 1 else ext q).
    assert (forall q, bump ext' p q = ext q) as Hb by (intros q; unfold bump, ext'; ptr).
    assert (inv (bump ext' p) m) as I1.
    { destruct I as [I1 I2 I3 I4]. split; try done; intros q; unfold total; rewrite ?Hb; [done|apply I2]. }
    destruct (inv_deref ext' m p I1) as (js & -> & I2); [|by eexists _, _].
    intros q. pose proof (inv_ext _ _ I q). unfold ext'. ptr.
  - apply Z.ltb_lt in He. destruct (cancel_spec ext m p I) as (m' & -> & I' & _); [by apply occ_total; [|lia]|]. by eexists _, _.
  - destruct (cancelByFrame_spec ext m frame I) as (m' & -> & I'). by eexists _, _.
  - destruct (permitRequest_spec ext m p permit I) as (m' & -> & I'). by eexists _, _.
  - unfold startScheduledJobs. destruct (_ =? _)%nat; [by eexists _, _|].
    destruct (start_loop_spec (length (m_scheduledJobList m)) ext m false I) as (m' & b & -> & I' & _); [done|]. by eexists _, _.
  - destruct (cancel_loop_spec (length (m_runningJobList m)) ext m I) as (m' & E & I' & _); [done|].
    unfold cancelScheduledJobs. rewrite E. by eexists _, _.
  - apply bool_decide_eq_true in He. apply occ_in in He. destruct (removeFromCurl_spec ext m p I He) as (m' & -> & I'). by eexists _, _.
  - apply bool_decide_eq_true in He. apply occ_in in He.
    destruct (didReceiveRedirect_spec ext m p redirectMaxCount I He) as (m' & b & -> & I'). by eexists _, _.
  - destruct (remove_scheduled_spec ext (length (m_scheduledJobList m)) m I) as (m' & E & I' & _); [done|].
    unfold removeAllScheduledJobs. rewrite E. by eexists _, _.
  - destruct (remove_running_spec ext _ m I eq_refl) as (m' & E & I' & _). unfold removeAllRunningJobs. rewrite E. by eexists _, _.
  - eexists _, _. split; [reflexivity|]. unfold setMaxHTTPConnections.
    destruct (number <? 0)%Z; [done|]. destruct (number =? 0)%Z; [by apply inv_connections|].
    destruct (_ <? _)%Z; [by apply inv_connections|done].
Qed.

Lemma run_inv ops m ext : inv ext m -> exists m' ext', run m ext ops = Some (m', ext') /\ inv ext' m'.
Proof.
  revert m ext. induction ops as [|o ops IH]; intros m ext I; cbn [run]; [by exists m, ext|].
  destruct (enabled m ext o) eqn:He; [|by apply IH].
  destruct (run_queue_op_spec m ext o I He) as (m1 & ext1 & -> & I1). cbn [mbind option_bind]. by apply IH.
Qed.

End Run.
End RunFacts.

Module RunProps.
Import Queue QueueInv QueueFacts ManyFacts Runs RunFacts.

Section Run.
Context `{Oracles}.

(** C6: Whatever sequence of operations the queue goes through, none of them uses a
    job that was deleted; afterwards the count of every job is the number of
    references to it, the jobs without one are deleted, no job is both waiting
    and with the transfer library, and every running job is with it. *)
Theorem queue_runs connections tryProxySingleConnect harmfulSiteFilter redirectInWKC ops :
  exists m ext,
    run (initialManager connections tryProxySingleConnect harmfulSiteFilter redirectInWKC) (fun _ => 0) ops = Some (m, ext) /\
    inv ext m.
Proof. apply run_inv. exact (initial_inv _ _ _ _). Qed.

(** C13: The timer ends its loop; it works off a first part of the scheduled list in
    the order the jobs were scheduled, starts of it no job that was cancelled,
    keeps to the number of connections, and stops only when the list is empty or
    no more connections may be made. *)
Theorem start_in_order connections tryProxySingleConnect harmfulSiteFilter redirectInWKC ops m ext :
  run (initialManager connections tryProxySingleConnect harmfulSiteFilter redirectInWKC) (fun _ => 0) ops = Some (m, ext) ->
  exists m' started, startScheduledJobs m = Some (m', started) /\
    worked_off m m' /\ within_limit m m' /\ nothing_to_start m'.
Proof.
  intros E. destruct (run_inv ops (initialManager connections tryProxySingleConnect harmfulSiteFilter redirectInWKC) (fun _ => 0))
    as (m0 & ext0 & E0 & I); [exact (initial_inv _ _ _ _)|].
  rewrite E in E0. injection E0 as <- <-. unfold startScheduledJobs. destruct (Nat.eqb_spec (length (m_scheduledJobList m)) 0) as [El|_].
  - exists m, false. split_and!; [done|by apply worked_off_refl|right; lia|left; by apply nil_length_inv].
  - destruct (start_loop_spec (length (m_scheduledJobList m)) ext m false I) as (m' & b & -> & _ & _ & W & L & N); [done|].
    by exists m', b.
Qed.

(** C32: The other half of the timer takes exactly the cancelled jobs off the running
    list, in the order of the list, and releases them. *)
Theorem cancelled_leave connections tryProxySingleConnect harmfulSiteFilter redirectInWKC ops m ext :
  run (initialManager connections tryProxySingleConnect harmfulSiteFilter redirectInWKC) (fun _ => 0) ops = Some (m, ext) ->
  exists m', cancelScheduledJobs m = Some m' /\ inv ext m' /\
    m_runningJobList m' = List.filter (alive m) (m_runningJobList m).
Proof.
  intros E. destruct (run_inv ops (initialManager connections tryProxySingleConnect harmfulSiteFilter redirectInWKC) (fun _ => 0))
    as (m0 & ext0 & E0 & I); [exact (initial_inv _ _ _ _)|].
  rewrite E in E0. injection E0 as <- <-. by apply cancel_loop_spec.
Qed.

End Run.
End RunProps.

(** * Concrete runs *)
Module RunWitness.
Import Queue QueueInv Runs RunProps.

(** An application that is asked and has not answered yet. *)
#[local] Instance asked : Oracles := {|
  ask_permission _ _ := Some 0;
  composition_error _ _ := false;
  match_proxy _ _ := false;
  has_frame_client _ _ := true;
  easy_init _ _ := true;
  multi_add _ _ := true;
  auth_again _ _ := false
|}.

Definition page : Job := mkJob 0 false SUSPEND false false false false false true false 7 false false 0 false false.
Definition inline : Job := mkJob 0 false SUSPEND false false false false false true false 7 false true 0 false false.

(** Four jobs, one of them cancelled before the timer; one connection. *)
Definition session : list op :=
  [Load 1 page None; Load 2 page None; Load 3 inline None; Load 4 page None; Load 5 page None;
   Load 6 page (Some (mkCached true true false)); Cancel 2].

Lemma start_in_order_witness :
  exists m ext, run (initialManager 1 false false false) (fun _ => 0) session = Some (m, ext) /\
    m_scheduledJobList m = [1; 3; 4; 5]%nat /\
    exists m' started, startScheduledJobs m = Some (m', started) /\
      worked_off m m' /\ within_limit m m' /\ nothing_to_start m' /\ m_runningJobList m' = [1; 4]%nat.
Proof.
  destruct (run (initialManager 1 false false false) (fun _ => 0) session) as [[m ext]|] eqn:E; [|by vm_compute in E].
  exists m, ext. split; [done|]. pose proof (start_in_order _ _ _ _ _ _ _ E) as (m' & b & S & W & L & N).
  assert (m_scheduledJobList m = [1; 3; 4; 5]%nat /\ m_runningJobList m' = [1; 4]%nat) as [H1 H2].
  { vm_compute in E. injection E as <- <-. vm_compute in S. by injection S as <- <-. }
  split; [exact H1|]. exists m', b. exact (conj S (conj W (conj L (conj N H2)))).
Defined.

Lemma cancelled_leave_witness :
  exists m ext, run (initialManager 1 false false false) (fun _ => 0) (session ++ [StartScheduled; Cancel 1]) = Some (m, ext) /\
    m_runningJobList m = [1; 4]%nat /\
    exists m', cancelScheduledJobs m = Some m' /\ inv ext m' /\
      m_runningJobList m' = List.filter (alive m) (m_runningJobList m) /\ m_runningJobList m' = [4]%nat.
Proof.
  destruct (run (initialManager 1 false false false) (fun _ => 0) (session ++ [StartScheduled; Cancel 1])) as [[m ext]|] eqn:E; [|by vm_compute in E].
  exists m, ext. split; [done|]. pose proof (cancelled_leave _ _ _ _ _ _ _ E) as (m' & S & I & F).
  assert (m_runningJobList m = [1; 4]%nat /\ m_runningJobList m' = [4]%nat) as [H1 H2].
  { vm_compute in E. injection E as <- <-. vm_compute in S. by injection S as <-. }
  split; [exact H1|]. exists m'. exact (conj S (conj I (conj F H2))).
Defined.

(** The harmful site filter asks the application about a request; the timer
    starts it while the question is open. *)
Example started_while_asking :
  exists m ext, run (initialManager 1 false true false) (fun _ => 0) [Load 1 page None; StartScheduled] = Some (m, ext) /\
    events m = [WillPermitSendRequest 1; MultiAdd 1] /\ m_runningJobList m = [1%nat] /\
    (m_permitSend <$> jobs m !! 1%nat) = Some ASKING.
Proof. eexists _, _. split; [vm_compute; reflexivity|]. by vm_compute. Qed.

(** A job whose handle cannot be made keeps a reference nobody releases. *)
#[local] Instance no_memory : Oracles := {|
  ask_permission _ _ := Some 1;
  composition_error _ _ := false;
  match_proxy _ _ := false;
  has_frame_client _ _ := true;
  easy_init _ _ := false;
  multi_add _ _ := true;
  auth_again _ _ := false
|}.

Example failed_job_leaks :
  exists m ext, run (H := no_memory) (initialManager 1 false false false) (fun _ => 0) [Load 1 page None; StartScheduled; Release 1] = Some (m, ext) /\
    ext 1%nat = 0 /\ lists m = ([], [], [], []) /\ (m_refCount <$> jobs m !! 1%nat) = Some 1.
Proof. eexists _, _. split; [vm_compute; reflexivity|]. by vm_compute. Qed.

End RunWitness.
