(* ===== verification/CacheManager.v ===== *)
(** * Loading through the cache
    (WKC/WebCore/platform/network/WKC/ResourceHandleManagerWKC.cpp)

    The part of [ResourceHandleManager] between the request queue of JobQueue.v
    and the cache of HTTPCache.v: responses are stored in entries that wait in
    the write list until the network is idle, jobs whose resource is cached wait
    in the read list, pages change the entries they came from with http-equiv.

    Theorems: whatever the network does, no entry or job is used after it was
    deleted and no URL is stored twice; the write list is emptied when the
    network is idle, and the table is saved; what must not be stored is not kept;
    a cached resource is delivered with exactly its content. *)
From stdpp Require Import gmap.
From S2P Require Import Prelude WString KURLParse KURL HTTPResource HTTPCache CacheTable JobQueue JobRuns.
Import WString.Str Double Mem Resource.

Module Loading.
Import Cache KURLParse.Assemble.

(** The queue, the cache and its files, and what waits to be written; what a
    page demanded of the jobs that are scheduled. *)
Record Network := mkNetwork {
  queue : Queue.Manager;
  world : World;
  m_writeCacheList : list nat;
  m_writeCacheTimer : bool;
  m_httpequiv : gmap nat (Z * Z)
}.

Definition set_queue (n : Network) (q : Queue.Manager) : Network :=
  mkNetwork q (world n) (m_writeCacheList n) (m_writeCacheTimer n) (m_httpequiv n).
Definition set_world (n : Network) (w : World) : Network :=
  mkNetwork (queue n) w (m_writeCacheList n) (m_writeCacheTimer n) (m_httpequiv n).
Definition set_writes (n : Network) (l : list nat) (timer : bool) : Network :=
  mkNetwork (queue n) (world n) l timer (m_httpequiv n).
Definition set_httpequiv (n : Network) (e : gmap nat (Z * Z)) : Network :=
  mkNetwork (queue n) (world n) (m_writeCacheList n) (m_writeCacheTimer n) e.

Definition quiet_NaN : double := 0x7FF8000000000000.

(** The conversion of an [int], which a double holds exactly. *)
Definition double_of_int (n : Z) : double :=
  if (n =? 0)%Z then 0
  else
    let a := Z.abs n in
    let e := Z.log2 a in
    (if (n <? 0)%Z then 2 ^ 63 else 0) + (e + 1023) * 2 ^ 52 + (a * 2 ^ (52 - e) - 2 ^ 52).

Definition CURLE_READ_ERROR : Z := 26.

(** What the code asks a job and its clients. *)
Class Loader := {
  (** [job->firstRequest().url()]. *)
  request_url : nat -> KURL;
  (** [frameloaderclientwkc(job)] is there; [job->frame()] changed during a call. *)
  has_frameloaderclient : list Queue.Event -> nat -> bool;
  left_frame : list Queue.Event -> nat -> bool;
  (** [dispatchWillReceiveData] and [willReceiveData] for a size. *)
  dispatchWillReceiveData : list Queue.Event -> nat -> Z -> bool;
  willReceiveData : list Queue.Event -> nat -> Z -> bool;
  (** [fastMalloc] for the content. *)
  content_malloc : list Queue.Event -> Z -> bool;
  (** [foldCase] of the platform; what was in memory before a string and in the
      memory of a new entry. *)
  foldCase : Z -> Z;
  before : Z;
  garbage : bool * bool * double;
  (** [isSpaceOrNewline] above ASCII. *)
  whiteSpace : Z -> bool
}.

Section Loading.
Context `{Peers, Loader}.

(** ** Storing responses *)

(** The first entry of the write list with the URL, and the list without it. *)
Fixpoint find_write (w : World) (l : list nat) (url : KURL) : option (option (nat * list nat)) :=
  match l with
  | [] => Some None
  | p :: l' =>
      r ← heap w !! p;
      if equalHTTPCachedResourceURL foldCase before r url then Some (Some (p, l'))
      else f ← find_write w l' url; Some (match f with None => None | Some (q, l'') => Some (q, p :: l'') end)
  end.

Definition updateCacheResource (now : double) (n : Network) (url : KURL) (data : list (list Z)) (response : ResourceResponse)
    (noCache noStore mustRevalidate : bool) (expires maxAge : double) : option (Network * option nat) :=
  match resourceForURL before (world n) url with
  | Some p =>
      if noStore then w ← remove (world n) p; Some (set_world n w, None)
      else
        w ← updateCachedResource (world n) now p data response noCache mustRevalidate expires maxAge;
        w ← detach w p;
        Some (set_world n w, Some p)
  | None =>
      f ← find_write (world n) (m_writeCacheList n) url;
      match f with
      | None => Some (n, None)
      | Some (p, l) =>
          if noStore then Some (set_writes n l (m_writeCacheTimer n), None)
          else
            w ← updateCachedResource (world n) now p data response noCache mustRevalidate expires maxAge;
            Some (set_world (set_writes n l (m_writeCacheTimer n)) w, Some p)
      end
  end.

(** The request of the job that the response came for. *)
Record Request := mkRequest {
  useProtocolCachePolicy : bool;
  methodIsOPTIONS : bool;
  m_httpequivFlags : Z;
  m_httpequivMaxAge : Z
}.

Definition addHTTPCache (now : double) (n : Network) (request : Request) (url : KURL) (resourceData : option (list (list Z)))
    (response : ResourceResponse) : option (Network * bool) :=
  match resourceData with
  | None => Some (n, false)
  | Some data =>
      if negb (m_protocolIsInHTTPFamily url) then Some (n, false)
      else if useProtocolCachePolicy request && methodIsOPTIONS request then Some (n, false)
      else
        let flags := m_httpequivFlags request in
        let noCache := cacheControlContainsNoCache response || flag flags EHTTPEquivNoCache in
        let noStore := cacheControlContainsNoStore response in
        let mustRevalidate := cacheControlContainsMustRevalidate response || flag flags EHTTPEquivMustRevalidate in
        let maxAge := if flag flags EHTTPEquivMaxAge then double_of_int (m_httpequivMaxAge request) else quiet_NaN in
        '(n, resource) ← updateCacheResource now n url data response noCache noStore mustRevalidate quiet_NaN maxAge;
        '(n, resource) ← (if negb noStore then
                            match resource with
                            | None =>
                                '(w, created) ← createHTTPCachedResource before now garbage (world n) url data response
                                                   noCache mustRevalidate quiet_NaN maxAge;
                                Some (set_world n w, created)
                            | Some p => Some (n, Some p)
                            end
                          else Some (n, resource));
        match resource with
        | None => Some (n, false)
        | Some p => if noStore then Some (n, false) else Some (set_writes n (m_writeCacheList n ++ [p]) true, true)
        end
  end.

(** The fuel for writing a file: every call writes at least a byte. *)
Definition write_fuel (r : HTTPCachedResource) : nat := length (concat (default [] (m_resourceData r))).

(** The timer was one-shot: when it fires it is no longer active. *)
Definition writeCacheTimerCallback (n : Network) : option Network :=
  match m_writeCacheList n with
  | [] => Some (set_writes n [] false)
  | p :: l =>
      if (0 <? length (Queue.m_scheduledJobList (queue n)))%nat || (0 <? length (Queue.m_runningJobList (queue n)))%nat
      then Some (set_writes n (p :: l) true)
      else
        r ← heap (world n) !! p;
        '(w, written) ← write (write_fuel r) (world n) p;
        w ← (if negb written then free w p else Some w);
        match l with
        | [] => '(w, _) ← writeFATFile w; Some (set_world (set_writes n [] false) w)
        | _ => Some (set_world (set_writes n l true) w)
        end
  end.

(** ** Emptying the cache *)

(** [while (num--)] over the read list. *)
Fixpoint release_reads (num : nat) (q : Queue.Manager) : option Queue.Manager :=
  match num with
  | O => Some q
  | S num' =>
      p ← Queue.m_readCacheJobList q !! num';
      q ← Queue.deref (Queue.set_readCache q (delete num' (Queue.m_readCacheJobList q))) p;
      release_reads num' q
  end.

(** [while (num--)] over the write list. *)
Fixpoint delete_writes (num : nat) (w : World) (l : list nat) : option (World * list nat) :=
  match num with
  | O => Some (w, l)
  | S num' => p ← l !! num'; w ← free w p; delete_writes num' w (delete num' l)
  end.

(** What [clearHTTPCache] and [resetHTTPCache] do to the lists. *)
Definition drop_lists (n : Network) : option Network :=
  let q := queue n in
  q ← release_reads (length (Queue.m_readCacheJobList q)) (Queue.set_timers q (Queue.m_downloadTimer q) false);
  '(w, l) ← delete_writes (length (m_writeCacheList n)) (world n) (m_writeCacheList n);
  Some (set_writes (set_world (set_queue n q) w) l false).

Definition resetHTTPCache (n : Network) : option Network :=
  n ← drop_lists n;
  w ← reset (world n);
  Some (set_world n w).

Definition clearHTTPCache (n : Network) : option Network :=
  if m_disabled (cache (world n)) then Some n
  else
    n ← drop_lists n;
    w ← removeAll (world n);
    '(w, _) ← purgeBySize w 0;
    '(w, _) ← writeFATFile w;
    '(w, _) ← readFATFile w;
    Some (set_world n w).

(** ** Loading from the cache *)

(** What [add] finds in the cache for a job's URL. *)
Definition cached_answer (now : double) (w : World) (reload : bool) (url : KURL) : option (option Queue.CachedResource) :=
  if m_disabled (cache w) || reload then Some None
  else
    match resourceForURL before w url with
    | None => Some None
    | Some p =>
        r ← heap w !! p;
        Some (Some (Queue.mkCached (length (chars (m_lastModifiedHeader r)) =? 0)%nat (length (chars (m_eTagHeader r)) =? 0)%nat
                (needRevalidate now r)))
    end.

(** The end of the callback: the next job. *)
Definition read_next (n : Network) : Network :=
  let q := queue n in
  match Queue.m_readCacheJobList q with
  | [] => n
  | _ => set_queue n (Queue.set_timers q (Queue.m_downloadTimer q) true)
  end.

Definition read_done (n : Network) (p : nat) : option Network :=
  let q := queue n in
  match Queue.m_readCacheJobList q with
  | [] => Some (read_next n)
  | _ :: l => q ← Queue.deref (Queue.set_readCache q l) p; Some (read_next (set_queue n q))
  end.

(** [cancel:] *)
Definition read_cancel (n : Network) (p : nat) : option Network :=
  let q := queue n in
  j ← Queue.jobs q !! p;
  q ← (if negb (Queue.m_cancelled j) then
         q ← (if Queue.m_handle j then Queue.cancel q p else Some q);
         j ← Queue.jobs q !! p;
         Some (Queue.didFail q p j CURLE_READ_ERROR)
       else Some q);
  Some (read_next (set_queue n q)).

(** The timer was one-shot. *)
Definition readCacheTimerCallback (n : Network) : option Network :=
  let q := Queue.set_timers (queue n) (Queue.m_downloadTimer (queue n)) false in
  let n := set_queue n q in
  match Queue.m_readCacheJobList q with
  | [] => Some n
  | p :: _ =>
      j ← Queue.jobs q !! p;
      let es := Queue.events q in
      match (if has_frameloaderclient es p then resourceForURL before (world n) (request_url p) else None) with
      | None => read_done n p
      | Some a =>
          r ← heap (world n) !! a;
          if negb (dispatchWillReceiveData es p (m_resourceSize r)) then read_cancel n p
          else if Queue.m_client j && negb (willReceiveData es p (m_resourceSize r)) then read_cancel n p
          else if negb (Queue.m_client j) then read_cancel n p
          else
            let q := Queue.emit q (Queue.DidReceiveResponse p) in
            let n := set_queue n q in
            let es := Queue.events q in
            if Queue.m_cancelled j then read_cancel n p
            else if left_frame es p then read_cancel n p
            else if negb (has_frameloaderclient es p) || negb (dispatchWillReceiveData es p (m_contentLength r)) then read_cancel n p
            else if negb (willReceiveData es p (m_contentLength r)) then read_cancel n p
            else if negb (content_malloc es (m_contentLength r)) then read_done n p
            else
              '(w, buf, ok) ← read (Z.to_nat (m_contentLength r)) (world n) a;
              let q := if (ok : bool) then Queue.emit (Queue.emit q (Queue.DidReceiveData p buf)) (Queue.DidFinishLoading p)
                       else Queue.emit q (Queue.DidFail p CURLE_READ_ERROR) in
              read_done (set_world (set_queue n q) w) p
      end
  end.

(** ** What pages demand *)

(** [equalIgnoringCase(characters, literal, length)] reads as many characters as
    the literal has; beyond the string is [None]. *)
Fixpoint begins_ignoring_case (s literal : list Z) : option bool :=
  match literal with
  | [] => Some true
  | b :: literal' =>
      match s with
      | [] => None
      | a :: s' => if (foldCase a =? foldCase b)%Z then begins_ignoring_case s' literal' else Some false
      end
  end.

(** The number behind [max-age=], or -1. *)
Definition max_age_seconds (content : list Z) (cachecontrol ismaxage : bool) : Z :=
  if cachecontrol && ismaxage && (7 <? length content)%nat then
    match Impl.find_char content 61 0 with
    | None => -1
    | Some pos =>
        if (S pos <? length content)%nat then
          let num := Impl.stripMatchedCharacters (isSpaceOrNewline whiteSpace) (drop (S pos) content) in
          if (0 <? length num)%nat then
            let '(sec, ok) := charactersToInt whiteSpace num in if (ok : bool) then sec else -1
          else -1
        else -1
    end
  else -1.

(** The scheduled jobs, from the last: the demand is noted for one with the URL. *)
Fixpoint note_job (num : nat) (n : Network) (content : list Z) (url : KURL) (cachecontrol : bool) (sec : Z) : option Network :=
  match num with
  | O => Some n
  | S num' =>
      p ← Queue.m_scheduledJobList (queue n) !! num';
      let '(flags, maxAge) := default (0, 0) (m_httpequiv n !! p) in
      let note flags maxAge := Some (set_httpequiv n (<[p := (flags, maxAge)]> (m_httpequiv n))) in
      if negb (bool_decide (m_string (Update.parsedURL before (latin1 (m_string (request_url p)))) = m_string url))
      then note_job num' n content url cachecontrol sec
      else if equalIgnoringCase foldCase content (str "no-cache") then note (Z.lor flags EHTTPEquivNoCache) maxAge
      else if cachecontrol && equalIgnoringCase foldCase content (str "must-revalidate")
      then note (Z.lor flags EHTTPEquivMustRevalidate) maxAge
      else if (0 <=? sec)%Z then note (Z.lor flags EHTTPEquivMaxAge) sec
      else note_job num' n content url cachecontrol sec
  end.

(** The entry of the write list with exactly this URL. *)
Fixpoint find_written (w : World) (l : list nat) (url : KURL) : option (option nat) :=
  match l with
  | [] => Some None
  | p :: l' => r ← heap w !! p; if bool_decide (key r = m_string url) then Some (Some p) else find_written w l' url
  end.

Definition processHttpEquiv (n : Network) (content : list Z) (url : KURL) (cachecontrol : bool) : option Network :=
  ismaxage ← begins_ignoring_case content (str "max-age");
  let sec := max_age_seconds content cachecontrol ismaxage in
  rsp ← (match resourceForURL before (world n) url with
         | Some p => Some (Some p)
         | None => find_written (world n) (m_writeCacheList n) url
         end);
  match rsp with
  | None => note_job (length (Queue.m_scheduledJobList (queue n))) n content url cachecontrol sec
  | Some p =>
      r ← heap (world n) !! p;
      let '(nocache, mustrevalidate, maxage, flags) :=
        if equalIgnoringCase foldCase content (str "no-cache") then (true, m_mustRevalidate r, m_maxAge r, EHTTPEquivNoCache)
        else if cachecontrol && equalIgnoringCase foldCase content (str "must-revalidate")
        then (m_noCache r, true, m_maxAge r, EHTTPEquivMustRevalidate)
        else if (0 <=? sec)%Z then (m_noCache r, m_mustRevalidate r, double_of_int sec, EHTTPEquivMaxAge)
        else (m_noCache r, m_mustRevalidate r, m_maxAge r, 0) in
      w ← assign (world n) p (fun r => update r nocache mustrevalidate (m_expires r) maxage flags);
      Some (set_world n w)
  end.

End Loading.
End Loading.

(** * The invariant of the cached entries *)
Module LoadingInv.
Import Cache CacheSpec CacheFacts Loading ResourceFacts TableFacts.

(** No file name of the cache takes more in the table; the size an entry has
    there once it has a file name. *)
Definition name_size : Z := 84.
Definition need (r : HTTPCachedResource) : Z := 60 + foldr Z.add 0 (map string_size (labels r)) + name_size.

(** What the purges of the cache keep of an entry. *)
Definition sized (x : entry) : Prop := esize x = resource_size x.2 /\ string_size (m_fileName x.2) <= name_size.

(** [l] are the entries of the index and [k] those of the write list; [lost] are
    the entries nobody has a pointer to any more.  These are all the live
    entries, each is in one place, and no URL is stored twice. *)
Record cinv (w : World) (l k : list entry) (lost : list nat) (d : Z) : Prop := {
  ci_rep : rep w l d;
  ci_heap : Forall (fun x => heap w !! x.1 = Some x.2) k;
  ci_pointers : NoDup (l.*1 ++ k.*1 ++ lost);
  ci_keys : NoDup (map ekey (l ++ k));
  ci_live : forall q, is_Some (heap w !! q) <-> q ∈ l.*1 ++ k.*1 ++ lost;
  ci_fresh : fresh w;
  ci_sized : Forall sized l;
  ci_names : Forall (fun x => string_size (m_fileName x.2) <= name_size) k;
  ci_data : Forall (fun x => is_Some (m_resourceData x.2)) k;
  ci_number : 0 <= m_fileNumber (cache w) < 2 ^ 31
}.

(** Room for all of them in the table. *)
Definition total_need (l : list entry) : Z := foldr (fun x s => need x.2 + s) 0 l.
Definition table_fits (l : list entry) : Prop := 24 + total_need l < 2 ^ 31.

End LoadingInv.

Module LoadingFacts.
Import Cache CacheSpec CacheFacts Loading LoadingInv ResourceFacts TableFacts KURLParse.Assemble.

Lemma string_size_none : string_size None = 4.
Proof. vm_compute. reflexivity. Qed.

Lemma raw_need r : string_size (m_fileName r) <= name_size -> 60 <= raw_size r <= need r.
Proof.
  intros H. pose proof (raw_size_mod r) as [_ H1]. unfold raw_size, need, name_size in *. cbn [fields labels map foldr] in *. lia.
Qed.

Lemma need_labels r r' : labels r' = labels r -> need r' = need r.
Proof. intros E. unfold need. by rewrite E. Qed.

Lemma total_need_app l k : total_need (l ++ k) = total_need l + total_need k.
Proof. unfold total_need. induction l as [|x l IH]; cbn [app foldr]; [done|]. rewrite IH. lia. Qed.

Lemma need_pos r : 0 <= need r.
Proof. unfold need, name_size. pose proof (strings_size_mod (labels r)). lia. Qed.

Lemma total_need_nonneg l : 0 <= total_need l.
Proof. unfold total_need. induction l as [|x l IH]; cbn [foldr]; [lia|]. pose proof (need_pos x.2). lia. Qed.

Lemma sized_unused x : sized x -> sized (unused x).
Proof. done. Qed.

Lemma list_disjoint (l1 l2 l3 : list nat) p : NoDup (l1 ++ l2 ++ l3) -> p ∈ l2 -> p ∉ l1.
Proof. rewrite !list.NoDup_app. intros (_ & H & _) Hp Hq. apply (H p Hq). set_solver. Qed.

(** The file name of the counter. *)
Lemma number_loop_length fuel i out :
  0 <= i < 10 ^ Z.of_nat fuel -> (length (Update.number_loop fuel i out) <= fuel + length out)%nat.
Proof.
  revert i out. induction fuel as [|fuel IH]; intros i out Hi; cbn [Update.number_loop]; [lia|].
  rewrite Nat2Z.inj_succ, Z.pow_succ_r in Hi by lia.
  destruct (i / 10 =? 0)%Z; [cbn [length]; lia|].
  specialize (IH (i / 10) ((48 + i mod 10) :: out)). cbn [length] in IH.
  assert (0 <= i / 10 < 10 ^ Z.of_nat fuel) by (split; [apply Z.div_pos; lia|apply Z.div_lt_upper_bound; lia]). lia.
Qed.

Lemma number_loop_units fuel i out : 0 <= i -> units_ok out -> units_ok (Update.number_loop fuel i out).
Proof.
  unfold units_ok. revert i out. induction fuel as [|fuel IH]; intros i out Hi Ho; cbn [Update.number_loop]; [done|].
  assert (is_unit (48 + i mod 10)) as Hd by dlia.
  destruct (i / 10 =? 0)%Z; [by constructor|]. apply IH; [apply Z.div_pos; lia|by constructor].
Qed.

Lemma utf8_bytes_length s : units_ok s -> utf8_length (Some s) <= 3 * Z.of_nat (length s) + 3.
Proof.
  intros Hu. unfold utf8_length, utf8_bytes, Str.utf8. change (chars (Some s)) with s.
  destruct (length s =? 0)%nat; [simpl; lia|]. destruct (_ <? _)%Z; [simpl; lia|].
  destruct (UTF8.ConvFacts.convertUTF16ToUTF8_run s (length s * 3) false Hu) as (cs & _ & _ & Et & Hl & _).
  destruct (UTF8.Conv.conv_result _); unfold default, id; rewrite ?length_app, ?Et; unfold putUTF8Triple; cbn [length]; lia.
Qed.

Lemma file_name_size n : 0 <= n < 2 ^ 31 -> string_size (file_name n) <= name_size.
Proof.
  intros Hn. unfold file_name, string_size, name_size. set (s := format_08d n ++ str ".dcf").
  assert (length s <= 24)%nat as Hl.
  { unfold s, format_08d. destruct (Z.ltb_spec n 0); [lia|]. cbn [app]. rewrite !length_app, length_replicate.
    pose proof (number_loop_length 20 (Z.abs n) [] ltac:(change (10 ^ Z.of_nat 20) with 100000000000000000000; lia)) as Hd.
    unfold Update.number. change (length (str ".dcf")) with 4%nat. rewrite Nat.add_0_r in Hd. cbn [length] in Hd |- *. lia. }
  assert (units_ok s) as Hu.
  { unfold s, format_08d, units_ok. destruct (Z.ltb_spec n 0); [lia|]. cbn [app]. rewrite !Forall_app. split_and!.
    - apply Forall_replicate. dlia.
    - apply number_loop_units; [lia|constructor].
    - by_eval. }
  pose proof (utf8_bytes_length s Hu). pose proof (ROUNDUP_spec (utf8_length (Some s)) ltac:(unfold utf8_length; lia)). lia.
Qed.

Section Operations.
Context `{Peers}.

Definition sizes (x : entry) : Z * Z * Z := (esize x, resource_size x.2, string_size (m_fileName x.2)).

Lemma sized_sublist l l' : sublist (map sizes l') (map sizes l) -> Forall sized l -> Forall sized l'.
Proof.
  intros S HF. rewrite list.Forall_forall in HF |- *. intros x Hx.
  assert (sizes x ∈ map sizes l) as Hin by (eapply elem_of_sublist; [|exact S]; apply list_elem_of_fmap; by exists x).
  apply list_elem_of_fmap in Hin as (y & Ey & Hy). specialize (HF y Hy). unfold sized, sizes in *. injection Ey as -> -> ->. done.
Qed.

Lemma need_permutation l k : l ≡ₚ k -> total_need l = total_need k.
Proof. unfold total_need. induction 1; cbn [foldr]; lia. Qed.

Lemma total_need_sum l : total_need l = foldr Z.add 0 (map (fun x : entry => need x.2) l).
Proof. unfold total_need. induction l as [|x l IH]; cbn [map foldr]; [done|]. by rewrite IH. Qed.

Lemma sum_permutation (a b : list Z) : a ≡ₚ b -> foldr Z.add 0 a = foldr Z.add 0 b.
Proof. induction 1; cbn [foldr]; lia. Qed.

Lemma sum_app (a b : list Z) : foldr Z.add 0 (a ++ b) = foldr Z.add 0 a + foldr Z.add 0 b.
Proof. induction a as [|x a IH]; cbn [app foldr]; lia. Qed.

Lemma need_sublist l l' (g : list entry) :
  map (fun x => need x.2) l ≡ₚ map (fun x => need x.2) l' ++ map (fun x => need x.2) g -> total_need l' <= total_need l.
Proof.
  intros P%sum_permutation. rewrite sum_app, <- !total_need_sum in P. pose proof (total_need_nonneg g). lia.
Qed.

(** Entries of the index are discarded. *)
Lemma cinv_discards w w' l l' k lost d gone :
  cinv w l k lost d -> rep w' l' d -> discards w w' l.*1 gone ->
  l.*1 ≡ₚ l'.*1 ++ gone.*1 -> sublist (map ekey l') (map ekey l) -> Forall sized l' -> cinv w' l' k lost d.
Proof.
  intros [I1 I2 I3 I4 I5 I6 I7 I8 I9 I10] R D P Sk Hs. pose proof (dis_settings _ _ _ _ D) as ES.
  assert (forall q, q ∈ k.*1 ++ lost -> q ∉ l.*1) as Hdis.
  { intros q Hq Hl. rewrite list.NoDup_app in I3. destruct I3 as (_ & I3 & _). by apply (I3 q Hl). }
  split; try done.
  - rewrite list.Forall_forall in I2 |- *. intros x Hx. rewrite (dis_frame _ _ _ _ D); [by apply I2|].
    apply Hdis. apply elem_of_app. left. apply list_elem_of_fmap. by exists x.
  - rewrite P in I3. rewrite <- app_assoc, (Permutation_app_comm gone.*1), app_assoc in I3. rewrite list.NoDup_app in I3. tauto.
  - rewrite map_app in *. rewrite list.NoDup_app in *. destruct I4 as (A & B & C). split_and!; [|intros u Hu; apply B; by eapply elem_of_sublist|done].
    by apply (sublist_NoDup _ _ A Sk).
  - intros q. rewrite (dis_live _ _ _ _ D), I5, P. rewrite P in I3. rewrite <- app_assoc in I3.
    rewrite !elem_of_app. split; [tauto|]. intros Hq. split; [tauto|]. intros Hg.
    rewrite list.NoDup_app in I3. destruct I3 as (_ & A & B). rewrite list.NoDup_app in B. destruct B as (_ & B & _).
    destruct Hq as [Hq|Hq]; [apply (A q Hq); set_solver|apply (B q Hg); set_solver].
  - intros q Hq. rewrite (dis_next _ _ _ _ D) in Hq. specialize (I6 q Hq). destruct (heap w' !! q) eqn:E; [|done].
    exfalso. assert (is_Some (heap w !! q)) as [? E'] by (apply (dis_live _ _ _ _ D); by rewrite E). congruence.
  - unfold settings in ES. injection ES as _ -> _ _ _ _ _. done.
Qed.

Lemma cinv_purge w l k lost d size :
  cinv w l k lost d -> exists w' a l', purgeBySize w size = Some (w', a) /\ cinv w' l' k lost d /\
    settings (cache w') = settings (cache w) /\ total_need l' <= total_need l /\ sublist (map ekey l') (map ekey l).
Proof.
  intros I. pose proof (purgeBySize_spec w l d size (ci_rep _ _ _ _ _ I)) as HP.
  pose proof (purge_map fst size l (fun _ => eq_refl)) as H1. pose proof (purge_map ekey size l (fun _ => eq_refl)) as H2.
  pose proof (purge_map sizes size l (fun _ => eq_refl)) as H3. pose proof (purge_map (fun x => need x.2) size l (fun _ => eq_refl)) as H4.
  destruct (purge size l) as [[kept gone] a]. destruct HP as (w' & E & R & D). exists w', a, kept. split; [done|].
  split; [|split; [apply (dis_settings _ _ _ _ D)|split; [by eapply need_sublist, (proj2 H4)|apply H2]]].
  eapply cinv_discards; [done|done|done|apply H1|apply H2|]. eapply sized_sublist; [apply H3|apply (ci_sized _ _ _ _ _ I)].
Qed.

Lemma cinv_oldest w l k lost d :
  cinv w l k lost d -> exists w' a l', purgeOldest w = Some (w', a) /\ cinv w' l' k lost d /\
    settings (cache w') = settings (cache w) /\ sublist (map ekey l') (map ekey l).
Proof.
  intros I. pose proof (purgeOldest_spec w l d (ci_rep _ _ _ _ _ I)) as HP. pose proof (oldest_incl l) as HI.
  destruct (oldest l) as [[kept y]|]; [|by exists w, 0, l]. destruct HP as (w' & E & R & D). destruct HI as (P & S & _).
  exists w', (elen y), kept. split; [done|]. split; [|split; [apply (dis_settings _ _ _ _ D)|by apply (fmap_sublist ekey)]].
  eapply cinv_discards; [done|done|done| |by apply (fmap_sublist ekey)|].
  - rewrite P. cbn [fmap list_fmap]. apply Permutation_cons_append.
  - eapply sized_sublist; [by apply (fmap_sublist sizes)|apply (ci_sized _ _ _ _ _ I)].
Qed.

(** Entries change their place; none is made or deleted. *)
Lemma cinv_rearrange w w' l l' k k' lost lost' d d' gone :
  cinv w l k lost d -> rep w' l' d' ->
  Forall (fun x => heap w' !! x.1 = Some x.2 /\ string_size (m_fileName x.2) <= name_size /\ is_Some (m_resourceData x.2)) k' ->
  l'.*1 ++ k'.*1 ++ lost' ≡ₚ l.*1 ++ k.*1 ++ lost -> map ekey (l ++ k) ≡ₚ map ekey (l' ++ k') ++ gone ->
  (forall q, is_Some (heap w' !! q) <-> is_Some (heap w !! q)) -> next w' = next w -> Forall sized l' ->
  m_fileNumber (cache w') = m_fileNumber (cache w) -> cinv w' l' k' lost' d'.
Proof.
  intros [I1 I2 I3 I4 I5 I6 I7 I8 I9 I10] R HF P Pk Hl Hn Hs Hf.
  apply list.Forall_and in HF as [F1 HF]. apply list.Forall_and in HF as [F2 F3].
  split; try done.
  - by rewrite P.
  - rewrite Pk, list.NoDup_app in I4. tauto.
  - intros q. by rewrite Hl, I5, P.
  - intros q Hq. rewrite Hn in Hq. specialize (I6 q Hq). destruct (heap w' !! q) eqn:E; [|done].
    exfalso. assert (is_Some (heap w !! q)) as [? E'] by (apply Hl; by rewrite E). congruence.
  - by rewrite Hf.
Qed.

Lemma cinv_waiting w l k lost d :
  cinv w l k lost d ->
  Forall (fun x => heap w !! x.1 = Some x.2 /\ string_size (m_fileName x.2) <= name_size /\ is_Some (m_resourceData x.2)) k.
Proof. intros I. rewrite !list.Forall_and. split_and!; [apply (ci_heap _ _ _ _ _ I)|apply (ci_names _ _ _ _ _ I)|apply (ci_data _ _ _ _ _ I)]. Qed.

Lemma move_middle {A} (l1 l2 k m : list A) x : (l1 ++ l2) ++ (k ++ [x]) ++ m ≡ₚ (l1 ++ x :: l2) ++ k ++ m.
Proof.
  rewrite <- (Permutation_middle l1 l2 x). cbn [app]. rewrite <- (app_assoc k). cbn [app].
  rewrite <- (Permutation_middle k m x). by rewrite <- (Permutation_middle (l1 ++ l2) (k ++ m) x).
Qed.

(** A pointer of the index is not in the write list. *)
Lemma cinv_apart w l k lost d x y : cinv w l k lost d -> x ∈ l -> y ∈ k -> y.1 <> x.1.
Proof.
  intros I Hx Hy E. pose proof (ci_pointers _ _ _ _ _ I) as ND. rewrite list.NoDup_app in ND. destruct ND as (_ & ND & _).
  apply (ND x.1); [apply list_elem_of_fmap; by exists x|]. apply elem_of_app. left. rewrite <- E. apply list_elem_of_fmap. by exists y.
Qed.

(** An entry of the index is changed and taken out, to be written again. *)
Lemma cinv_detach w l1 p r l2 k lost d f :
  cinv w (l1 ++ (p, r) :: l2) k lost d -> key (f r) = key r -> m_resourceSize (f r) = m_resourceSize r ->
  m_fileName (f r) = m_fileName r -> is_Some (m_resourceData (f r)) ->
  exists w', (w ← assign w p f; detach w p) = Some w' /\ settings (cache w') = settings (cache w) /\
    cinv w' (l1 ++ l2) (k ++ [(p, f r)]) lost (d + m_contentLength r - m_contentLength (f r)).
Proof.
  intros I Hk Hs Hf Hd. destruct (rep_assign w l1 p r l2 d f (ci_rep _ _ _ _ _ I) Hk Hs) as (w1 & -> & R1 & D1 & C1).
  cbn [mbind option_bind]. destruct (detach_spec w1 l1 (p, f r) l2 _ R1) as (w2 & E2 & R2 & H2 & N2 & S2 & _).
  exists w2. split; [done|]. split; [by rewrite S2, C1|].
  pose proof (rep_lookup _ _ _ (p, f r) R1 ltac:(set_solver)) as Ep. cbn in Ep.
  eapply (cinv_rearrange w w2 _ _ _ _ _ _ _ _ []); [exact I|exact R2|..].
  - rewrite Forall_app. split; [|constructor; [|constructor]; cbn; rewrite H2; split_and!; [done| |done]].
    + pose proof (cinv_waiting _ _ _ _ _ I) as HW. rewrite list.Forall_forall in HW |- *. intros x Hx. rewrite H2, (dis_frame _ _ _ _ D1); [by apply HW|].
      rewrite list_elem_of_singleton. apply (cinv_apart _ _ _ _ _ (p, r) x I); [set_solver|done].
    + rewrite Hf. pose proof (ci_sized _ _ _ _ _ I) as HZ. rewrite Forall_app, Forall_cons_iff in HZ. apply HZ.
  - rewrite fst_middle, !fmap_app. apply move_middle.
  - rewrite !map_app. cbn [map]. change (ekey (p, r)) with (key r). change (ekey (p, f r)) with (key (f r)). rewrite Hk, app_nil_r.
    pose proof (move_middle (map ekey l1) (map ekey l2) (map ekey k) [] (key r)) as M. rewrite !app_nil_r in M. by rewrite M.
  - intros q. rewrite H2, (dis_live _ _ _ _ D1). cbn. set_solver.
  - by rewrite N2, (dis_next _ _ _ _ D1).
  - pose proof (ci_sized _ _ _ _ _ I) as HZ. rewrite Forall_app, Forall_cons_iff in HZ. rewrite Forall_app. tauto.
  - unfold settings in S2. rewrite C1 in S2. by injection S2.
Qed.

(** An entry of the write list is changed and goes to its end. *)
Lemma cinv_rewrite w l k1 p r k2 lost d f :
  cinv w l (k1 ++ (p, r) :: k2) lost d -> key (f r) = key r -> m_fileName (f r) = m_fileName r ->
  is_Some (m_resourceData (f r)) ->
  exists w', assign w p f = Some w' /\ cache w' = cache w /\
    cinv w' l (k1 ++ k2 ++ [(p, f r)]) lost d /\ cinv w' l (k1 ++ (p, f r) :: k2) lost d.
Proof.
  intros I Hk Hf Hd. pose proof (cinv_waiting _ _ _ _ _ I) as HW. pose proof (ci_pointers _ _ _ _ _ I) as ND.
  assert (heap w !! p = Some r) as Ep by (rewrite Forall_app, Forall_cons_iff in HW; apply HW).
  assert (string_size (m_fileName r) <= name_size) as Hn by (rewrite Forall_app, Forall_cons_iff in HW; apply HW).
  unfold assign. rewrite Ep. cbn [mbind option_bind]. eexists. split; [reflexivity|]. split; [done|].
  set (w' := with_heap w _). rewrite fst_middle in ND.
  assert (p ∉ l.*1) as Hpl.
  { intros Hin. rewrite list.NoDup_app in ND. destruct ND as (_ & ND & _). apply (ND p Hin). set_solver. }
  assert (p ∉ k1.*1 ++ k2.*1) as Hpk.
  { rewrite list.NoDup_app in ND. destruct ND as (_ & _ & ND). rewrite list.NoDup_app in ND. destruct ND as (ND & _).
    by apply nodup_middle in ND as [ND _]. }
  assert (rep w' l d) as R.
  { eapply rep_ext; [apply (ci_rep _ _ _ _ _ I)|done..|]. intros x Hx. apply lookup_insert_ne. intros E. apply Hpl.
    rewrite E. apply list_elem_of_fmap. by exists x. }
  assert (Forall (fun x => heap w' !! x.1 = Some x.2 /\ string_size (m_fileName x.2) <= name_size /\ is_Some (m_resourceData x.2))
    (k1 ++ (p, f r) :: k2)) as HW'.
  { rewrite list.Forall_forall in HW |- *. intros x Hx. apply elem_of_middle in Hx as [->|Hx]; cbn.
    - rewrite lookup_insert_eq. split_and!; [done|by rewrite Hf|done].
    - rewrite lookup_insert_ne; [apply HW, elem_of_middle; by right|]. intros E. apply Hpk. rewrite E, <- fmap_app.
      apply list_elem_of_fmap. by exists x. }
  assert (forall q, is_Some (heap w' !! q) <-> is_Some (heap w !! q)) as HL.
  { intros q. cbn. rewrite lookup_insert_is_Some'. split; [intros [<-|]; [by rewrite Ep|done]|auto]. }
  assert (forall k', k' ≡ₚ k1 ++ (p, f r) :: k2 -> cinv w' l k' lost d) as HC.
  { intros k' P. eapply (cinv_rearrange w w' _ _ _ _ _ _ _ _ []); [exact I|exact R|by rewrite P| | |exact HL|done|apply (ci_sized _ _ _ _ _ I)|done].
    - rewrite P. by rewrite !fst_middle.
    - rewrite app_nil_r, P, !map_app. cbn [map]. change (ekey (p, r)) with (key r). change (ekey (p, f r)) with (key (f r)). by rewrite Hk. }
  split; [apply HC|by apply HC]. rewrite (Permutation_app_comm k2). done.
Qed.

(** The pointer to an entry of the write list is dropped. *)
Lemma cinv_drop w l k1 p r k2 lost d :
  cinv w l (k1 ++ (p, r) :: k2) lost d -> cinv w l (k1 ++ k2) (p :: lost) d.
Proof.
  intros I. pose proof (cinv_waiting _ _ _ _ _ I) as HW.
  eapply (cinv_rearrange w w _ _ _ _ _ _ _ _ [key r]); [exact I|apply (ci_rep _ _ _ _ _ I)| | | |done|done|apply (ci_sized _ _ _ _ _ I)|done].
  - rewrite Forall_app, Forall_cons_iff in HW. rewrite Forall_app. tauto.
  - rewrite fst_middle, fmap_app. cbn [fst]. apply Permutation_app_head. rewrite <- !app_assoc. cbn [app].
    by rewrite <- (Permutation_middle (k2.*1) lost p).
  - rewrite !map_app. cbn [map]. change (ekey (p, r)) with (key r). rewrite <- !app_assoc. do 2 apply Permutation_app_head.
    apply Permutation_cons_append.
Qed.

(** An entry of the index is removed. *)
Lemma cinv_remove w l1 x l2 k lost d :
  cinv w (l1 ++ x :: l2) k lost d ->
  exists w', remove w x.1 = Some w' /\ cinv w' (l1 ++ l2) k lost d /\ settings (cache w') = settings (cache w).
Proof.
  intros I. destruct (remove_spec w l1 x l2 d (ci_rep _ _ _ _ _ I)) as (w' & E & R & D). exists w'. split; [done|].
  split; [|apply (dis_settings _ _ _ _ D)]. eapply (cinv_discards w w' _ _ _ _ _ [x]); [exact I|exact R| | | |].
  - eapply discards_wider; [exact D|]. intros q. rewrite fst_middle. set_solver.
  - rewrite fst_middle, fmap_app. cbn [fmap list_fmap]. rewrite <- Permutation_middle. apply Permutation_cons_append.
  - rewrite !map_app. cbn [map]. apply sublist_app; [done|]. by apply sublist_cons.
  - pose proof (ci_sized _ _ _ _ _ I) as HZ. rewrite Forall_app, Forall_cons_iff in HZ. rewrite Forall_app. tauto.
Qed.

(** A new entry for a URL that has none. *)
Lemma cinv_alloc w l k lost d r :
  cinv w l k lost d -> key r ∉ map ekey (l ++ k) -> string_size (m_fileName r) <= name_size -> is_Some (m_resourceData r) ->
  cinv (fst (alloc w r)) l (k ++ [(next w, r)]) lost d.
Proof.
  intros I Hk Hn Hd. pose proof I as [I1 I2 I3 I4 I5 I6 I7 I8 I9 I10].
  assert (heap w !! next w = None) as Hnew by (by apply I6).
  assert (next w ∉ l.*1 ++ k.*1 ++ lost) as Hfr by (intros Hin; apply I5 in Hin as [? Hin]; congruence).
  split; cbn.
  - by apply rep_alloc.
  - rewrite Forall_app. split; [|constructor; [cbn; by rewrite lookup_insert_eq|constructor]].
    rewrite list.Forall_forall in I2 |- *. intros x Hx. rewrite lookup_insert_ne; [by apply I2|]. intros E. apply Hfr.
    rewrite E, !elem_of_app. right. left. apply list_elem_of_fmap. by exists x.
  - rewrite fmap_app. cbn [fmap list_fmap fst]. pose proof (move_middle [] (l.*1) (k.*1) lost (next w)) as M. cbn [app] in M.
    rewrite M. by apply list.NoDup_cons.
  - rewrite app_assoc, map_app, list.NoDup_app. cbn [map]. change (ekey (next w, r)) with (key r).
    split_and!; [done| |apply NoDup_singleton]. intros u Hu. rewrite list_elem_of_singleton. by intros ->.
  - intros q. rewrite lookup_insert_is_Some', I5, fmap_app. cbn [fmap list_fmap fst]. rewrite !elem_of_app, list_elem_of_singleton.
    split; [intros [->|]; tauto|]. intros [?|[[?| ->]|?]]; tauto.
  - intros q Hq. cbn in *. rewrite lookup_insert_ne by lia. apply I6. lia.
  - done.
  - rewrite Forall_app. split; [done|]. by constructor.
  - rewrite Forall_app. split; [done|]. by constructor.
  - done.
Qed.

(** ** Creating *)

Lemma cinv_create before now garbage w l k lost d url data response noCache mustRevalidate expires maxAge :
  cinv w l k lost d -> m_string (removeFragmentIdentifierIfNeeded before url) ∉ map ekey (l ++ k) ->
  exists w' created l',
    createHTTPCachedResource before now garbage w url data response noCache mustRevalidate expires maxAge = Some (w', created) /\
    sublist (map ekey l') (map ekey l) /\ settings (cache w') = settings (cache w) /\
    match created with
    | None => cinv w' l' k lost d
    | Some p => exists r, cinv w' l' (k ++ [(p, r)]) lost d /\
        key r = m_string (removeFragmentIdentifierIfNeeded before url) /\ m_resourceData r = Some data
    end.
Proof.
  intros I Hk. unfold createHTTPCachedResource. destruct (m_disabled (cache w)); [by exists w, None, l|].
  destruct (_ <? _)%Z; [by exists w, None, l|]. destruct (_ <? _)%Z; [by exists w, None, l|].
  assert (exists w1 a l1, (if (m_limitTotalContentsSize (cache w) <? s64 (m_totalContentsSize (cache w) + s32 (data_size data)))%Z
     then purgeBySize w (s32 (data_size data)) else Some (w, 1)) = Some (w1, a) /\ cinv w1 l1 k lost d /\
     settings (cache w1) = settings (cache w) /\ sublist (map ekey l1) (map ekey l)) as (w1 & a & l1 & -> & I1 & E1 & S1).
  { destruct (_ <? _)%Z; [|by exists w, 1, l]. destruct (cinv_purge w l k lost d (s32 (data_size data)) I) as (w1 & a & l1 & E & I1 & E1 & _ & S1).
    by exists w1, a, l1. }
  cbn [mbind option_bind]. destruct (a =? 0)%Z; [by exists w1, None, l1|].
  assert (exists w2 b l2, (if (u32 (m_limitContentEntries (cache w)) <=? Z.of_nat (length (m_resourceList (cache w1))))%Z
     then purgeOldest w1 else Some (w1, 1)) = Some (w2, b) /\ cinv w2 l2 k lost d /\
     settings (cache w2) = settings (cache w) /\ sublist (map ekey l2) (map ekey l)) as (w2 & b & l2 & -> & I2 & E2 & S2).
  { destruct (_ <=? _)%Z; [|by exists w1, 1, l1]. destruct (cinv_oldest w1 l1 k lost d I1) as (w2 & b & l2 & E & I2 & E2 & S2).
    exists w2, b, l2. split_and!; [done|done|congruence|by etrans]. }
  cbn [mbind option_bind]. destruct (b =? 0)%Z; [by exists w2, None, l2|].
  destruct garbage as [[g1 g2] g3]. cbv zeta. set (r := setResourceData _ _).
  assert (key r = m_string (removeFragmentIdentifierIfNeeded before url)) as Er by done.
  assert (key r ∉ map ekey (l2 ++ k)) as Hk2.
  { rewrite Er. intros Hin. apply Hk. rewrite map_app, elem_of_app in *. destruct Hin as [Hin|Hin]; [left; by eapply elem_of_sublist|by right]. }
  eexists _, (Some (next w2)), l2. split; [reflexivity|]. split_and!; [done|done|]. exists r. split; [|done].
  apply (cinv_alloc w2 l2 k lost d r I2 Hk2); [|by eexists]. change (m_fileName r) with (@None (list Z)). rewrite string_size_none. unfold name_size. lia.
Qed.

(** ** Writing *)

Lemma table_total l : Forall sized l -> table_fits l -> total esize l = raw_total (resources l) /\ 24 + raw_total (resources l) < 2 ^ 31.
Proof.
  unfold table_fits. intros HF. unfold total, raw_total. induction HF as [|x l [E N] HF IH]; [done|].
  unfold total_need in *. cbn [foldr resources map]. fold (resources l). intros Ht. pose proof (raw_need x.2 N). pose proof (need_pos x.2).
  pose proof (raw_total_nonneg (resources l)) as Hr. unfold raw_total in Hr.
  destruct IH as [IH1 IH2]; [lia|]. pose proof (total_need_nonneg l) as Hn. unfold total_need in Hn.
  rewrite E, resource_size_raw, IH1 by lia. split; [done|].
  assert (foldr (fun (r : HTTPCachedResource) s => raw_size r + s) 0 (resources l) <= foldr (fun (x : entry) s => need x.2 + s) 0 l); [|lia].
  clear -HF. induction HF as [|y l [_ N] HF IH]; cbn [resources map foldr]; [lia|]. fold (resources l). pose proof (raw_need y.2 N). lia.
Qed.

Lemma fat_write_loop_total fwrite fuel call len buffer content :
  len <= Z.of_nat fuel -> exists len' content', fat_write_loop fuel fwrite call len buffer content = Some (len', content').
Proof.
  revert call len buffer content. induction fuel as [|fuel IH]; intros call len buffer content Hf; cbn [fat_write_loop];
    destruct (Z.leb_spec len 0); try (by eexists _, _); [lia|].
  destruct (Z.leb_spec (fwrite call len) 0); [by eexists _, _|]. apply IH. lia.
Qed.

Lemma cinv_log w l k lost d c : cinv w l k lost d -> cinv (log w c) l k lost d.
Proof. intros [I1 I2 I3 I4 I5 I6 I7 I8 I9 I10]. split; try done. by eapply rep_ext. Qed.

(** The table is written whenever it fits an [int]. *)
Lemma writeFATFile_spec w l k lost d :
  cinv w l k lost d -> table_fits l ->
  exists c ok, writeFATFile w = Some (log w c, ok) /\
    (peer_malloc (calls w) (24 + raw_total (resources l)) = true -> peer_open (calls w) (fat_path w) = true ->
     exists content, c = [Written (fat_path w) content]).
Proof.
  intros I Hf. destruct (table_total l (ci_sized _ _ _ _ _ I) Hf) as [Ht Hb]. pose proof (raw_total_nonneg (resources l)) as Hn.
  unfold writeFATFile. rewrite (rep_sizes _ _ _ (ci_rep _ _ _ _ _ I)), Ht. unfold MD5_DIGESTSIZE.
  replace (s32 (4 * 2 + Z.of_nat 16 + s32 (raw_total (resources l)))) with (24 + raw_total (resources l)) by (unfold swrapN; dlia).
  destruct (peer_malloc _ _); cbn [negb].
  2:{ exists [], false. split; [|done]. unfold log. rewrite app_nil_r. by destruct w. }
  destruct (fat_image_spec w l d (ci_rep _ _ _ _ _ I)) as (content & -> & TI). cbn [mbind option_bind].
  destruct TI as (TL & _). destruct (peer_open _ _); cbn [negb]; [|by exists [NotOpened (fat_path w)], false].
  destruct (fat_write_loop_total (peer_write (calls w)) (length content) 0 (24 + raw_total (resources l)) content []) as (len & c & ->); [lia|].
  cbn [mbind option_bind]. eexists [Written (fat_path w) c], _. split; [reflexivity|]. intros _ _. by exists c.
Qed.

Lemma next_number_range n : 0 <= n < 2 ^ 31 -> 0 <= next_number n < 2 ^ 31.
Proof. unfold next_number, WKC_INT_MAX. intros H1. destruct (Z.eqb_spec n 0x7fffffff); lia. Qed.

(** Room is made in the index; the entry written is listed or deleted. *)
Lemma cinv_written w w' l p r r' k lost d (ok : bool) (gone kept : list entry) :
  cinv w l ((p, r) :: k) lost d -> key r' = key r ->
  rep w' (kept ++ (if ok then [(p, r')] else [])) d -> next w' = next w ->
  (forall q, q ∉ p :: l.*1 -> heap w' !! q = heap w !! q) ->
  (forall q, is_Some (heap w' !! q) <-> is_Some (heap w !! q) /\ q ∉ gone.*1 /\ (ok = false -> q <> p)) ->
  l.*1 ≡ₚ kept.*1 ++ gone.*1 -> sublist (map ekey kept) (map ekey l) -> sublist (map sizes kept) (map sizes l) ->
  0 <= m_fileNumber (cache w') < 2 ^ 31 -> (ok = true -> sized (p, r')) ->
  cinv w' (kept ++ (if ok then [(p, r')] else [])) k lost d.
Proof.
  intros [I1 I2 I3 I4 I5 I6 I7 I8 I9 I10] Hk R Hn Hfr Hl P Sk Ss Hf Hs. cbn [fmap list_fmap fst] in I3, I5.
  assert (l.*1 ++ (p :: k.*1) ++ lost ≡ₚ (kept.*1 ++ p :: k.*1 ++ lost) ++ gone.*1) as P3.
  { rewrite P, <- !app_assoc. apply Permutation_app_head. by rewrite (Permutation_app_comm gone.*1). }
  assert (NoDup (kept.*1 ++ p :: k.*1 ++ lost) /\ forall q, q ∈ gone.*1 -> q ∉ kept.*1 ++ p :: k.*1 ++ lost) as [ND Hg].
  { cbn [app] in P3. rewrite P3, list.NoDup_app in I3. destruct I3 as (A & B & _). split; [done|]. intros q Hq Hin. by apply (B q Hin). }
  assert (Forall (fun x => heap w' !! x.1 = Some x.2) k) as HK.
  { apply Forall_cons_iff in I2 as [_ I2]. rewrite list.Forall_forall in I2 |- *. intros x Hx. rewrite Hfr; [by apply I2|].
    assert (x.1 ∈ k.*1) as Hxk by (apply list_elem_of_fmap; by exists x). rewrite list.NoDup_app in I3. destruct I3 as (_ & A & B).
    apply list.NoDup_cons in B as [B _]. intros [E|Hin]%elem_of_cons; [rewrite E in Hxk; apply B; set_solver|apply (A _ Hin); set_solver]. }
  split; try done.
  - rewrite fmap_app. destruct ok; cbn [fmap list_fmap fst].
    + rewrite <- app_assoc. done.
    + rewrite app_nil_r. apply nodup_middle in ND as [_ ND]. done.
  - rewrite map_app in I4. cbn [map] in I4. rewrite !map_app.
    assert (NoDup (map ekey kept ++ key r :: map ekey k)) as NK.
    { rewrite list.NoDup_app in *. destruct I4 as (A & B & C). split_and!; [by apply (sublist_NoDup _ _ A Sk)|intros u Hu; apply B; by eapply elem_of_sublist|done]. }
    destruct ok; cbn [map].
    + change (ekey (p, r')) with (key r'). by rewrite Hk, <- app_assoc.
    + rewrite app_nil_r. apply nodup_middle in NK as [_ NK]. done.
  - intros q. rewrite Hl, I5. rewrite (elem_of_Permutation_proper q _ _ P3).
    assert (p ∉ kept.*1 ++ k.*1 ++ lost) as Hp by (by apply nodup_middle in ND as [ND _]). specialize (Hg q).
    rewrite fmap_app. destruct ok; cbn [fmap list_fmap fst]; rewrite !elem_of_app, !elem_of_cons, ?elem_of_app, ?elem_of_nil in *.
    + split; [|intros Hq; split_and!; [|intros Hq2; specialize (Hg Hq2)|done]]; tauto.
    + split; [intros (A & B & C); specialize (C eq_refl); tauto|]. intros Hq. split_and!; [tauto|intros Hq2; specialize (Hg Hq2); tauto|].
      intros _ ->. tauto.
  - intros q Hq. rewrite Hn in Hq. specialize (I6 q Hq). destruct (heap w' !! q) eqn:E; [|done].
    exfalso. assert (is_Some (heap w !! q)) as [? E'] by (apply Hl; by rewrite E). congruence.
  - rewrite Forall_app. split; [by eapply sized_sublist|]. destruct ok; constructor; [by apply Hs|constructor].
  - by apply Forall_cons_iff in I8 as [_ ?].
  - by apply Forall_cons_iff in I9 as [_ ?].
Qed.

Lemma cinv_write w l p r k lost d :
  cinv w l ((p, r) :: k) lost d -> writes_progress ->
  exists w1 ok w2 l', write (write_fuel r) w p = Some (w1, ok) /\
    (if negb ok then free w1 p else Some w1) = Some w2 /\ cinv w2 l' k lost d /\
    configuration (cache w2) = configuration (cache w) /\ total_need l' <= total_need l + need r /\ (ok = true -> p ∈ l'.*1).
Proof.
  intros I Hw. pose proof (ci_pointers _ _ _ _ _ I) as ND. cbn [fmap list_fmap fst] in ND.
  pose proof (ci_heap _ _ _ _ _ I) as HH. apply Forall_cons_iff in HH as [Ep _]. cbn [fst snd] in Ep.
  assert (p ∉ l.*1) as Hp by (rewrite list.NoDup_app in ND; destruct ND as (_ & ND & _); intros Hin; apply (ND p Hin); set_solver).
  assert (key r ∉ map ekey l) as Hk.
  { pose proof (ci_keys _ _ _ _ _ I) as NK. rewrite map_app, list.NoDup_app in NK. destruct NK as (_ & NK & _).
    intros Hin. apply (NK _ Hin). cbn [map]. apply elem_of_cons. by left. }
  destruct (write_spec (write_fuel r) w l d p r (ci_rep _ _ _ _ _ I) Ep Hp Hk Hw) as
    (w1 & r' & ok & c & E & Hlab & R1 & N1 & H1 & F1 & L1 & C1 & M1 & _ & Hok).
  { intros data Ed. unfold write_fuel. by rewrite Ed. }
  pose proof (make_room_map fst w (m_contentLength r) l (fun _ => eq_refl)) as [_ P].
  pose proof (make_room_map ekey w (m_contentLength r) l (fun _ => eq_refl)) as [Sk _].
  pose proof (make_room_map sizes w (m_contentLength r) l (fun _ => eq_refl)) as [Ss _].
  pose proof (make_room_map (fun x => need x.2) w (m_contentLength r) l (fun _ => eq_refl)) as [_ Pn]. apply need_sublist in Pn.
  destruct (make_room w (m_contentLength r) l) as [kept gone]. cbn [fst snd] in *.
  assert (key r' = key r) as Hkr by (unfold key; injection Hlab as Hu; by rewrite Hu).
  pose proof (next_number_range _ (ci_number _ _ _ _ _ I)) as HN. rewrite <- M1 in HN.
  assert (p ∉ kept.*1) as Hpk by (intros Hin; apply Hp; rewrite (P : l.*1 ≡ₚ kept.*1 ++ gone.*1); set_solver).
  assert (p ∉ gone.*1) as Hpg by (intros Hin; apply Hp; rewrite (P : l.*1 ≡ₚ kept.*1 ++ gone.*1); set_solver).
  exists w1, ok. destruct ok; cbn [negb].
  - exists w1, (kept ++ [(p, r')]). split_and!; [done|done| |done| |intros _; rewrite fmap_app; set_solver].
    + eapply (cinv_written w w1 l p r r' k lost d true gone kept I Hkr R1 N1 F1); [|done..|].
      * intros q. rewrite L1. intuition congruence.
      * intros _. destruct Hok as (data & _ & En & _ & Es & _). split; [done|]. cbn [snd]. rewrite En.
        apply file_name_size, (ci_number _ _ _ _ _ I).
    + rewrite total_need_app. unfold total_need at 2. cbn [foldr snd]. rewrite (need_labels r r' Hlab). lia.
  - unfold free. rewrite H1. cbn [mbind option_bind]. set (w2 := with_heap w1 _). exists w2, (kept ++ []).
    split_and!; [done|done| |done| |done].
    2:{ rewrite app_nil_r. pose proof (need_pos r). lia. }
    eapply (cinv_written w w2 l p r r' k lost d false gone kept I Hkr); try done.
    + eapply rep_ext; [exact R1|done..|]. intros x Hx. apply lookup_delete_ne. rewrite app_nil_r in Hx. intros Ex. apply Hpk.
      rewrite Ex. apply list_elem_of_fmap. by exists x.
    + intros q Hq. cbn. rewrite lookup_delete_ne by set_solver. by apply F1.
    + intros q. cbn. rewrite lookup_delete_is_Some, L1. intuition congruence.
Qed.

End Operations.

(** ** The lists of the manager *)
Section Network.
Context `{Peers, Loader}.
Import Queue QueueInv QueueFacts.

Lemma cinv_free_last w l k p r lost d :
  cinv w l (k ++ [(p, r)]) lost d -> exists w', free w p = Some w' /\ cinv w' l k lost d /\ cache w' = cache w.
Proof.
  intros I. pose proof I as [I1 I2 I3 I4 I5 I6 I7 I8 I9 I10]. rewrite fmap_app in I3. cbn [fmap list_fmap fst] in I3.
  pose proof I2 as IH. rewrite Forall_app, Forall_cons_iff in IH. destruct IH as (IHk & Ep & _). cbn in Ep.
  pose proof (move_middle [] (l.*1) (k.*1) lost p) as M. cbn [app] in M. pose proof I3 as ND. rewrite M in ND.
  apply list.NoDup_cons in ND as [Hp ND]. unfold free. rewrite Ep. cbn [mbind option_bind]. eexists. split; [reflexivity|]. split; [|done].
  rewrite !elem_of_app in Hp. split; cbn; try done.
  - eapply rep_ext; [exact I1|done..|]. intros x Hx. apply lookup_delete_ne. intros ->. apply Hp. left. apply list_elem_of_fmap. by exists x.
  - rewrite list.Forall_forall in IHk |- *. intros x Hx. rewrite lookup_delete_ne; [by apply IHk|]. intros ->. apply Hp. right. left.
    apply list_elem_of_fmap. by exists x.
  - rewrite app_assoc, map_app, list.NoDup_app in I4. tauto.
  - intros q. rewrite lookup_delete_is_Some, I5, fmap_app. cbn [fmap list_fmap fst]. rewrite !elem_of_app, list_elem_of_singleton.
    split; [intros [Hne [?|[[?|?]|?]]]; tauto || congruence|]. intros Hq. split; [intros ->; tauto|tauto].
  - intros q Hq. cbn in Hq |- *. specialize (I6 q Hq). destruct (decide (q = p)) as [->|]; [by rewrite lookup_delete_eq|by rewrite lookup_delete_ne].
  - rewrite Forall_app in I8. tauto.
  - rewrite Forall_app in I9. tauto.
Qed.

Lemma delete_writes_spec w l k lost d :
  cinv w l k lost d -> exists w', delete_writes (length k) w k.*1 = Some (w', []) /\ cinv w' l [] lost d /\ cache w' = cache w.
Proof.
  revert w. induction k as [|x k IH] using rev_ind; intros w I; [by exists w|]. destruct x as [p r].
  rewrite length_app, Nat.add_1_r. cbn [delete_writes]. rewrite fmap_app. cbn [fmap list_fmap fst].
  assert ((k.*1 ++ [p]) !! length k = Some p) as ->.
  { rewrite lookup_app_r by (by rewrite length_fmap). by rewrite length_fmap, Nat.sub_diag. }
  cbn [mbind option_bind]. destruct (cinv_free_last w l k p r lost d I) as (w1 & -> & I1 & C1). cbn [mbind option_bind].
  rewrite delete_at_middle by (by rewrite length_fmap). rewrite app_nil_r.
  destruct (IH w1 I1) as (w2 & E2 & I2 & C2). exists w2. split_and!; [done|done|congruence].
Qed.

Lemma cinv_reset w l lost d :
  cinv w l [] lost d -> exists w', reset w = Some w' /\ cinv w' [] [] lost 0 /\ CacheSpec.settings (cache w') = CacheSpec.settings (cache w).
Proof.
  intros [I1 I2 I3 I4 I5 I6 I7 I8 I9 I10]. destruct (reset_spec w l d I1) as (w' & E & R & D & N & _ & S). exists w'.
  split; [done|]. split; [|done]. cbn [fmap list_fmap app] in *. rewrite list.NoDup_app in I3. destruct I3 as (_ & A & B).
  split; try done; try (by constructor).
  - intros q. rewrite D. cbn [fmap list_fmap app]. destruct (decide (q ∈ l.*1)) as [Hq|Hq].
    + split; [by intros []|]. intros Hl. exfalso. by apply (A q Hq).
    + rewrite I5, elem_of_app. tauto.
  - intros q Hq. rewrite N in Hq. rewrite D. destruct (decide _); [done|]. by apply I6.
  - unfold CacheSpec.settings in S. injection S as _ -> _ _ _ _ _. done.
Qed.

Lemma release_reads_spec ext num m :
  inv ext m -> num = length (m_readCacheJobList m) ->
  exists m', release_reads num m = Some m' /\ inv ext m' /\ m_readCacheJobList m' = [].
Proof.
  revert m. induction num as [|num IH]; intros m I En; cbn [release_reads].
  { exists m. split_and!; [done|done|]. by apply nil_length_inv. }
  destruct (lookup_lt_is_Some_2 (m_readCacheJobList m) num) as [p Ep]; [lia|]. rewrite Ep. cbn [mbind option_bind].
  pose proof (ManyFacts.occ_delete _ _ _ Ep) as Ho.
  assert (inv (bump ext p) (set_readCache m (delete num (m_readCacheJobList m)))) as I1.
  { eapply inv_lists; [exact I|by apply bump_nonneg, (inv_ext _ _ I)|..].
    - intros q. unfold bump. specialize (Ho q). ptr.
    - apply (inv_once _ _ I).
    - apply (inv_running _ _ I).
    - intros q j E. apply (inv_job _ _ _ _ I E).
    - intros q j E. apply (ok_challenge _ _ _ (inv_job _ _ _ _ I E)). }
  destruct (inv_deref _ _ _ I1 (inv_ext _ _ I)) as (js & -> & I2). cbn [mbind option_bind].
  apply IH; [done|]. cbn. rewrite length_delete by (by exists p). lia.
Qed.

Lemma find_write_spec w k url :
  Forall (fun x => heap w !! x.1 = Some x.2) k ->
  exists f, find_write w k.*1 url = Some f /\
    match f with
    | None => Forall (fun x => equalHTTPCachedResourceURL foldCase before x.2 url = false) k
    | Some (p, l) => exists k1 r k2, k = k1 ++ (p, r) :: k2 /\ l = (k1 ++ k2).*1
    end.
Proof.
  induction k as [|[p r] k IH]; intros HF; cbn [fmap list_fmap fst find_write]; [by exists None|].
  apply Forall_cons_iff in HF as [Ep HF]. cbn in Ep. rewrite Ep. cbn [mbind option_bind].
  destruct (equalHTTPCachedResourceURL _ _ _ _) eqn:Eq; [by exists (Some (p, k.*1)); split; [|exists [], r, k]|].
  destruct (IH HF) as (f & -> & Hf). cbn [mbind option_bind]. eexists. split; [reflexivity|]. destruct f as [[q l']|].
  - destruct Hf as (k1 & s & k2 & -> & ->). by exists ((p, r) :: k1), s, k2.
  - by constructor.
Qed.

Lemma key_unequal r url : equalHTTPCachedResourceURL foldCase before r url = false ->
  key r <> m_string (removeFragmentIdentifierIfNeeded before url).
Proof. unfold equalHTTPCachedResourceURL, equalIgnoringCase. intros E%bool_decide_eq_false Hk. apply E. by rewrite Hk. Qed.

Lemma resourceForURL_None w l d url : rep w l d -> resourceForURL before w url = None ->
  m_string (removeFragmentIdentifierIfNeeded before url) ∉ map ekey l.
Proof.
  intros R E Hin. apply list_elem_of_fmap in Hin as ([p r] & Ek & Hx).
  assert (m_resources (cache w) !! m_string (removeFragmentIdentifierIfNeeded before url) = Some p) as E'
    by (apply (rep_map _ _ _ R); exists r; split; [done|by rewrite Ek]).
  unfold resourceForURL in E. congruence.
Qed.

(** The whole state. *)
Record ninv (ext : nat -> Z) (n : Network) (l k : list entry) (lost : list nat) (d : Z) : Prop := {
  ni_queue : inv ext (queue n);
  ni_cache : cinv (world n) l k lost d;
  ni_writes : m_writeCacheList n = k.*1
}.

Definition nsafe (ext : nat -> Z) (n : Network) : Prop := exists l k lost d, ninv ext n l k lost d.

(** What [updateCacheResource] hands to the caller: the entry is in neither list
    of the manager, but it is alive, and its URL is stored nowhere else. *)
Definition taken_out (ext : nat -> Z) (n : Network) (p : option nat) (l k : list entry) (lost : list nat) (d : Z) : Prop :=
  inv ext (queue n) /\ m_writeCacheList n = k.*1 /\
  match p with
  | None => cinv (world n) l k lost d
  | Some p => exists r, cinv (world n) l (k ++ [(p, r)]) lost d /\ is_Some (m_resourceData r)
  end.

Lemma updateCacheResource_spec now ext n l k lost d url data response noCache noStore mustRevalidate expires maxAge :
  ninv ext n l k lost d ->
  exists n' p l' k' lost' d',
    updateCacheResource now n url data response noCache noStore mustRevalidate expires maxAge = Some (n', p) /\
    taken_out ext n' p l' k' lost' d' /\
    (p = None -> noStore = false -> m_string (removeFragmentIdentifierIfNeeded before url) ∉ map ekey (l' ++ k')) /\
    (noStore = true -> p = None).
Proof.
  intros [Iq I Iw]. pose proof (ci_rep _ _ _ _ _ I) as R. unfold updateCacheResource.
  set (f := fun r => Resource.update (setResourceData (setResourceResponse now r response) data) noCache mustRevalidate expires maxAge 0).
  destruct (resourceForURL before (world n) url) as [p|] eqn:Eu.
  - destruct (rep_mapped _ _ _ _ _ R Eu) as (l1 & r & l2 & -> & Ek). destruct noStore.
    + destruct (cinv_remove _ _ (p, r) _ _ _ _ I) as (w' & E' & I' & _). cbn [fst] in E'. rewrite E'. cbn [mbind option_bind].
      eexists _, None, (l1 ++ l2), k, lost, d. by split_and!.
    + destruct (cinv_detach (world n) l1 p r l2 k lost d f I) as (w' & E' & _ & I'); [done..|by eexists|].
      unfold updateCachedResource. fold f. destruct (assign (world n) p f) as [w1|]; [|done]. cbn [mbind option_bind] in E' |- *.
      rewrite E'. cbn [mbind option_bind]. eexists _, (Some p), (l1 ++ l2), k, lost, _. split; [reflexivity|]. split; [|done].
      split_and!; [done|done|]. exists (f r). split; [exact I'|by eexists].
  - rewrite Iw. destruct (find_write_spec (world n) k url (ci_heap _ _ _ _ _ I)) as (o & -> & Ho). cbn [mbind option_bind].
    destruct o as [[p lw]|].
    + destruct Ho as (k1 & r & k2 & -> & ->). destruct noStore.
      * eexists _, None, l, (k1 ++ k2), (p :: lost), d. split; [reflexivity|]. split; [|done]. split_and!; [done|done|]. by apply (cinv_drop _ _ _ _ r).
      * destruct (cinv_rewrite (world n) l k1 p r k2 lost d f I) as (w' & E' & _ & I' & _); [done|done|by eexists|].
        unfold updateCachedResource. fold f. rewrite E'. cbn [mbind option_bind].
        eexists _, (Some p), l, (k1 ++ k2), lost, d. split; [reflexivity|]. split; [|done]. split_and!; [done|done|].
        exists (f r). rewrite <- app_assoc. split; [exact I'|by eexists].
    + eexists _, None, l, k, lost, d. split; [reflexivity|]. split_and!; try done. intros _ _.
      rewrite map_app, elem_of_app. intros [Hin|Hin]; [by eapply resourceForURL_None|].
      apply list_elem_of_fmap in Hin as (x & Ex & Hx). rewrite list.Forall_forall in Ho. specialize (Ho x Hx).
      apply key_unequal in Ho. unfold ekey in Ex. congruence.
Qed.

Lemma addHTTPCache_spec now ext n request url data response :
  nsafe ext n -> exists n' b, addHTTPCache now n request url data response = Some (n', b) /\ nsafe ext n'.
Proof.
  intros Hs. pose proof Hs as (l & k & lost & d & I). unfold addHTTPCache. destruct data as [data|]; [|by exists n, false].
  destruct (negb _); [by exists n, false|]. destruct (_ && _); [by exists n, false|].
  set (noStore := cacheControlContainsNoStore response).
  match goal with |- context [updateCacheResource ?a ?b ?c ?d ?e ?f ?g ?h ?i ?j] =>
    destruct (updateCacheResource_spec a ext b l k lost _ c d e f g h i j I) as (n1 & p & l1 & k1 & lost1 & d1 & -> & T1 & K1 & S1) end.
  cbn [mbind option_bind]. destruct noStore; cbn [negb].
  - rewrite (S1 eq_refl) in *. cbn [mbind option_bind]. destruct T1 as (Q1 & W1 & C1). exists n1, false. split; [done|]. exists l1, k1, lost1, d1. by split.
  - destruct T1 as (Q1 & W1 & C1). destruct p as [p|]; cbn [mbind option_bind].
    + destruct C1 as (r & C1 & _). eexists _, true. split; [reflexivity|]. exists l1, (k1 ++ [(p, r)]), lost1, d1. split; [done|done|].
      cbn. by rewrite W1, fmap_app.
    + specialize (K1 eq_refl eq_refl).
      match goal with |- context [createHTTPCachedResource ?a ?b ?c ?w ?u ?e ?f ?g ?h ?i ?j] =>
        destruct (cinv_create a b c w l1 k1 lost1 d1 u e f g h i j C1 K1) as (w2 & created & l2 & -> & _ & _ & C2) end.
      cbn [mbind option_bind]. destruct created as [p|].
      * destruct C2 as (r & C2 & _ & _). eexists _, true. split; [reflexivity|]. exists l2, (k1 ++ [(p, r)]), lost1, d1. split; [done|done|].
        cbn. by rewrite W1, fmap_app.
      * eexists _, false. split; [reflexivity|]. exists l2, k1, lost1, d1. by split.
Qed.

(** The write timer. *)
Lemma writeCacheTimer_spec ext n l k lost d :
  ninv ext n l k lost d -> writes_progress -> table_fits (l ++ k) ->
  exists n', writeCacheTimerCallback n = Some n' /\ queue n' = queue n /\
    ((k = [] \/ m_scheduledJobList (queue n) <> [] \/ m_runningJobList (queue n) <> []) -> ninv ext n' l k lost d) /\
    (forall x k', k = x :: k' -> m_scheduledJobList (queue n) = [] -> m_runningJobList (queue n) = [] ->
     exists l', ninv ext n' l' k' lost d /\ table_fits (l' ++ k') /\ m_writeCacheTimer n' = bool_decide (k' <> []) /\
       (k' = [] -> exists w c ok, writeFATFile w = Some (log w c, ok) /\ world n' = log w c)).
Proof.
  intros [Iq I Iw] Hw Hfit. unfold writeCacheTimerCallback. rewrite Iw. destruct k as [|[p r] k]; cbn [fmap list_fmap fst].
  { eexists. split; [reflexivity|]. split_and!; [done| |done]. intros _. by split. }
  destruct ((0 <? length (m_scheduledJobList (queue n)))%nat || (0 <? length (m_runningJobList (queue n)))%nat) eqn:Eb.
  { eexists. split; [reflexivity|]. split_and!; [done|intros _; by split|]. intros x k' _ E1 E2. by rewrite E1, E2 in Eb. }
  assert (m_scheduledJobList (queue n) = [] /\ m_runningJobList (queue n) = []) as [E1 E2].
  { apply orb_false_iff in Eb as [B1 B2]. apply Nat.ltb_ge in B1, B2. split; apply nil_length_inv; lia. }
  pose proof (ci_heap _ _ _ _ _ I) as HH. apply Forall_cons_iff in HH as [Ep _]. cbn [fst snd] in Ep. rewrite Ep. cbn [mbind option_bind].
  destruct (cinv_write (world n) l p r k lost d I Hw) as (w1 & ok & w2 & l' & -> & E3 & I2 & _ & Hn & _). cbn [mbind option_bind].
  rewrite E3. cbn [mbind option_bind].
  assert (table_fits (l' ++ k)) as Hfit'.
  { unfold table_fits in *. rewrite !total_need_app in *. change (total_need ((p, r) :: k)) with (need r + total_need k) in Hfit. lia. }
  destruct k as [|y k]; cbn [fmap list_fmap].
  - rewrite app_nil_r in Hfit'. destruct (writeFATFile_spec w2 l' [] lost d I2 Hfit') as (c & b & E4 & _). rewrite E4. cbn [mbind option_bind].
    eexists. split; [reflexivity|]. split_and!; [done|intros [|[|]]; congruence|]. intros x k' [= <- <-] _ _. exists l'.
    split_and!; [split; [done|by apply cinv_log|done]|by rewrite app_nil_r|done|]. intros _. by exists w2, c, b.
  - eexists. split; [reflexivity|]. split_and!; [done|intros [|[|]]; congruence|]. intros x k' [= <- <-] _ _. exists l'.
    split_and!; [by split|done|done|done].
Qed.

Lemma drop_lists_spec ext n l k lost d :
  ninv ext n l k lost d -> exists n', drop_lists n = Some n' /\ ninv ext n' l [] lost d /\ cache (world n') = cache (world n) /\
    m_readCacheJobList (queue n') = [] /\ m_writeCacheList n' = [].
Proof.
  intros [Iq I Iw]. unfold drop_lists. set (q := set_timers (queue n) (m_downloadTimer (queue n)) false).
  destruct (release_reads_spec ext (length (m_readCacheJobList (queue n))) q) as (q' & -> & Iq' & E'); [by apply inv_timers|done|].
  cbn [mbind option_bind]. rewrite Iw, length_fmap. destruct (delete_writes_spec _ _ _ _ _ I) as (w' & -> & I' & C'). cbn [mbind option_bind].
  eexists. split; [reflexivity|]. split_and!; [by split|done|done|done].
Qed.

Lemma resetHTTPCache_spec ext n l k lost d :
  ninv ext n l k lost d -> exists n', resetHTTPCache n = Some n' /\ ninv ext n' [] [] lost 0.
Proof.
  intros I. unfold resetHTTPCache. destruct (drop_lists_spec _ _ _ _ _ _ I) as (n1 & -> & [Q1 I1 W1] & _). cbn [mbind option_bind].
  destruct (cinv_reset _ _ _ _ I1) as (w' & -> & I2 & _). cbn [mbind option_bind]. eexists. split; [reflexivity|]. by split.
Qed.

(** A change of a listed entry in place that keeps its strings and content. *)
Lemma cinv_assign w l1 p r l2 k lost d f :
  cinv w (l1 ++ (p, r) :: l2) k lost d -> key (f r) = key r -> m_resourceSize (f r) = m_resourceSize r ->
  resource_size (f r) = resource_size r -> m_fileName (f r) = m_fileName r -> m_contentLength (f r) = m_contentLength r ->
  exists w', assign w p f = Some w' /\ cinv w' (l1 ++ (p, f r) :: l2) k lost d.
Proof.
  intros I Hk Hs Hr Hf Hc. destruct (rep_assign w l1 p r l2 d f (ci_rep _ _ _ _ _ I) Hk Hs) as (w1 & -> & R1 & D1 & C1).
  replace (d + m_contentLength r - m_contentLength (f r)) with d in R1 by lia. exists w1. split; [done|].
  eapply (cinv_rearrange w w1 _ _ _ _ _ _ _ _ []); [exact I|exact R1|..].
  - pose proof (cinv_waiting _ _ _ _ _ I) as HW. rewrite list.Forall_forall in HW |- *. intros x Hx. rewrite (dis_frame _ _ _ _ D1); [by apply HW|].
    rewrite list_elem_of_singleton. apply (cinv_apart _ _ _ _ _ (p, r) x I); [set_solver|done].
  - by rewrite !fst_middle.
  - rewrite app_nil_r, !map_app. cbn [map]. change (ekey (p, r)) with (key r). change (ekey (p, f r)) with (key (f r)). by rewrite Hk.
  - intros q. rewrite (dis_live _ _ _ _ D1). cbn. set_solver.
  - apply (dis_next _ _ _ _ D1).
  - pose proof (ci_sized _ _ _ _ _ I) as HZ. rewrite Forall_app, Forall_cons_iff in *. destruct HZ as (Z1 & [Z2 Z3] & Z4). split_and!; try done.
    split; [unfold esize; cbn; by rewrite Hs, Hr|cbn; by rewrite Hf].
  - by rewrite C1.
Qed.

Lemma find_written_spec w k url :
  Forall (fun x => heap w !! x.1 = Some x.2) k ->
  exists f, find_written w k.*1 url = Some f /\ forall p, f = Some p -> exists k1 r k2, k = k1 ++ (p, r) :: k2.
Proof.
  induction k as [|[p r] k IH]; intros HF; cbn [fmap list_fmap fst find_written]; [by exists None|].
  apply Forall_cons_iff in HF as [Ep HF]. cbn in Ep. rewrite Ep. cbn [mbind option_bind].
  case_bool_decide; [exists (Some p); split; [done|]; intros q [= <-]; by exists [], r, k|].
  destruct (IH HF) as (f & -> & Hf). exists f. split; [done|]. intros q Eq. destruct (Hf q Eq) as (k1 & s & k2 & ->).
  by exists ((p, r) :: k1), s, k2.
Qed.

Lemma note_job_spec num n content url cachecontrol sec :
  (num <= length (m_scheduledJobList (queue n)))%nat ->
  exists e, note_job num n content url cachecontrol sec = Some (set_httpequiv n e).
Proof.
  induction num as [|num IH]; intros Hn; cbn [note_job]; [exists (m_httpequiv n); by destruct n|].
  destruct (lookup_lt_is_Some_2 (m_scheduledJobList (queue n)) num) as [p Ep]; [lia|]. rewrite Ep. cbn [mbind option_bind].
  destruct (default _ _) as [flags maxAge]. cbv zeta. destruct (negb _); [apply IH; lia|].
  destruct (equalIgnoringCase _ _ _); [by eexists|]. destruct (_ && _); [by eexists|]. destruct (_ <=? _)%Z; [by eexists|]. apply IH. lia.
Qed.

Lemma processHttpEquiv_spec ext n content url cachecontrol b :
  nsafe ext n -> begins_ignoring_case content (str "max-age") = Some b ->
  exists n', processHttpEquiv n content url cachecontrol = Some n' /\ nsafe ext n'.
Proof.
  intros Hs Eb. pose proof Hs as (l & k & lost & d & [Iq I Iw]). unfold processHttpEquiv. rewrite Eb. cbn [mbind option_bind].
  set (sec := max_age_seconds content cachecontrol b). pose proof (ci_rep _ _ _ _ _ I) as R.
  assert (exists o, (match resourceForURL before (world n) url with
    | Some p => Some (Some p) | None => find_written (world n) (m_writeCacheList n) url end) = Some o /\
    forall p, o = Some p -> (exists l1 r l2, l = l1 ++ (p, r) :: l2) \/ (exists k1 r k2, k = k1 ++ (p, r) :: k2)) as (o & -> & Ho).
  { destruct (resourceForURL before (world n) url) as [p|] eqn:Eu.
    - exists (Some p). split; [done|]. intros q [= <-]. left. destruct (rep_mapped _ _ _ _ _ R Eu) as (l1 & r & l2 & -> & _). by exists l1, r, l2.
    - rewrite Iw. destruct (find_written_spec (world n) k url (ci_heap _ _ _ _ _ I)) as (f & -> & Hf). exists f. split; [done|]. intros p Ep.
      right. by apply Hf. }
  cbn [mbind option_bind]. destruct o as [p|].
  2:{ destruct (note_job_spec (length (m_scheduledJobList (queue n))) n content url cachecontrol sec) as (e & ->); [done|].
      eexists. split; [reflexivity|]. exists l, k, lost, d. by split. }
  assert (exists r, heap (world n) !! p = Some r) as (r & Er).
  { destruct (Ho p eq_refl) as [(l1 & r & l2 & ->)|(k1 & r & k2 & ->)]; exists r.
    - apply (rep_lookup _ _ _ (p, r) R). set_solver.
    - pose proof (ci_heap _ _ _ _ _ I) as HH. rewrite Forall_app, Forall_cons_iff in HH. apply HH. }
  rewrite Er. cbn [mbind option_bind]. destruct (if equalIgnoringCase _ _ _ then _ else _) as [[[nocache mustrevalidate] maxage] flags].
  set (f := fun r => Resource.update r nocache mustrevalidate (m_expires r) maxage flags).
  destruct (Ho p eq_refl) as [(l1 & s & l2 & ->)|(k1 & s & k2 & ->)].
  - destruct (cinv_assign (world n) l1 p s l2 k lost d f I) as (w' & -> & I'); [done..|]. cbn [mbind option_bind].
    eexists. split; [reflexivity|]. eexists _, k, lost, d. split; [done|exact I'|done].
  - destruct (cinv_rewrite (world n) l k1 p s k2 lost d f I) as (w' & -> & _ & _ & I'); [done|done| |].
    { pose proof (ci_data _ _ _ _ _ I) as HD. rewrite Forall_app, Forall_cons_iff in HD. apply HD. }
    cbn [mbind option_bind]. eexists. split; [reflexivity|]. exists l, (k1 ++ (p, f s) :: k2), lost, d. split; [done|done|].
    cbn. by rewrite Iw, !fst_middle.
Qed.

Lemma cached_answer_spec now ext n l k lost d reload url :
  ninv ext n l k lost d -> exists a, cached_answer now (world n) reload url = Some a.
Proof.
  intros [_ I _]. unfold cached_answer. destruct (_ || _); [by eexists|].
  destruct (resourceForURL before (world n) url) as [p|] eqn:Eu; [|by eexists].
  destruct (rep_mapped _ _ _ _ _ (ci_rep _ _ _ _ _ I) Eu) as (l1 & r & l2 & -> & _).
  pose proof (rep_lookup _ _ _ (p, r) (ci_rep _ _ _ _ _ I) ltac:(set_solver)) as Er. cbn in Er. rewrite Er. by eexists.
Qed.

End Network.
End LoadingFacts.
