(* ===== verification/NetworkRuns.v ===== *)
(** * Runs of the network layer

    The request queue, the cache and the loading between them as one system:
    sequences of everything that can happen to it, and what holds of them. *)
From stdpp Require Import gmap.
From S2P Require Import Prelude WString KURLParse KURL HTTPResource HTTPCache CacheTable JobQueue JobRuns CacheManager.
Import WString.Str Double Mem Resource.

Module NetRuns.
Import Cache Loading LoadingInv KURLParse.Assemble.

Inductive op :=
  | Queued (o : Runs.op)
  | LoadURL (now : double) (p : nat) (j : Queue.Job) (reload : bool)
  | Response (now : double) (request : Request) (url : KURL) (data : option (list (list Z))) (response : ResourceResponse)
  | HttpEquiv (content : list Z) (url : KURL) (cachecontrol : bool)
  | WriteTimer
  | ResetCache.

Section Runs.
Context `{Queue.Oracles, Peers, Loader}.

(** The sum of the sizes in the table, of what is listed and of what waits. *)
Definition table_room (n : Network) : bool :=
  let w := world n in
  (24 + foldr (fun p s => match heap w !! p with Some r => need r + s | None => s end) 0
          (m_resourceList (cache w) ++ m_writeCacheList n) <? 2 ^ 31)%Z.

(** The timer fires when it is active; the table must fit its [int]; the content
    of a http-equiv is no proper prefix of [max-age]. *)
Definition enabled (n : Network) (ext : nat -> Z) (o : op) : bool :=
  match o with
  | Queued o => Runs.enabled (queue n) ext o
  | LoadURL _ p _ _ => bool_decide (Queue.jobs (queue n) !! p = None)
  | HttpEquiv content _ _ => bool_decide (begins_ignoring_case content (str "max-age") <> None)
  | WriteTimer => m_writeCacheTimer n && table_room n
  | Response _ _ _ _ _ | ResetCache => true
  end.

Definition run_op (n : Network) (ext : nat -> Z) (o : op) : option (Network * (nat -> Z)) :=
  match o with
  | Queued o => '(q, ext) ← Runs.run_op (queue n) ext o; Some (set_queue n q, ext)
  | LoadURL now p j reload =>
      answer ← cached_answer now (world n) reload (request_url p);
      '(q, ext) ← Runs.run_op (queue n) ext (Runs.Load p j answer);
      Some (set_queue n q, ext)
  | Response now request url data response => '(n, _) ← addHTTPCache now n request url data response; Some (n, ext)
  | HttpEquiv content url cachecontrol => n ← processHttpEquiv n content url cachecontrol; Some (n, ext)
  | WriteTimer => n ← writeCacheTimerCallback n; Some (n, ext)
  | ResetCache => n ← resetHTTPCache n; Some (n, ext)
  end.

Fixpoint run (n : Network) (ext : nat -> Z) (ops : list op) : option (Network * (nat -> Z)) :=
  match ops with
  | [] => Some (n, ext)
  | o :: ops' => if enabled n ext o then '(n, ext) ← run_op n ext o; run n ext ops' else run n ext ops'
  end.

(** Firing the write timer again and again. *)
Fixpoint write_ticks (count : nat) (n : Network) : option Network :=
  match count with O => Some n | S count' => n ← writeCacheTimerCallback n; write_ticks count' n end.

(** A manager that was just made. *)
Definition initialNetwork (q : Queue.Manager) : Network := mkNetwork q (CacheRuns.new_world) [] false ∅.

End Runs.
End NetRuns.

Module NetFacts.
Import Cache CacheSpec CacheFacts Loading LoadingInv LoadingFacts NetRuns ResourceFacts TableFacts KURLParse.Assemble.

Section Facts.
Context `{Queue.Oracles, Peers, Loader}.

Lemma table_room_fits ext n l k lost d : ninv ext n l k lost d -> table_room n = bool_decide (table_fits (l ++ k)).
Proof.
  intros [_ I Iw]. unfold table_room, table_fits. rewrite Iw, (rep_list _ _ _ (ci_rep _ _ _ _ _ I)), <- fmap_app.
  assert (Forall (fun x => heap (world n) !! x.1 = Some x.2) (l ++ k)) as HF
    by (rewrite Forall_app; split; [apply (rep_heap _ _ _ (ci_rep _ _ _ _ _ I))|apply (ci_heap _ _ _ _ _ I)]).
  assert (foldr (fun p s => match heap (world n) !! p with Some r => need r + s | None => s end) 0 (l ++ k).*1 = total_need (l ++ k)) as ->.
  { unfold total_need. induction HF as [|x m E HF IH]; [done|]. cbn [fmap list_fmap foldr]. rewrite E. by rewrite IH. }
  destruct (Z.ltb_spec (24 + total_need (l ++ k)) (2 ^ 31)); [by rewrite bool_decide_true|by rewrite bool_decide_false by lia].
Qed.

Lemma run_net_op_spec n ext o :
  nsafe ext n -> enabled n ext o = true -> writes_progress ->
  exists n' ext', run_op n ext o = Some (n', ext') /\ nsafe ext' n'.
Proof.
  intros Hs He Hw. pose proof Hs as (l & k & lost & d & I). pose proof I as [Iq Ic Iw]. destruct o; cbn [enabled run_op] in *.
  - destruct (RunFacts.run_queue_op_spec _ _ _ Iq He) as (q & ext' & -> & Iq'). cbn [mbind option_bind].
    eexists _, ext'. split; [reflexivity|]. exists l, k, lost, d. by split.
  - destruct (cached_answer_spec now ext n l k lost d reload (request_url p) I) as (a & ->). cbn [mbind option_bind].
    destruct (RunFacts.run_queue_op_spec _ _ (Runs.Load p j a) Iq He) as (q & ext' & -> & Iq'). cbn [mbind option_bind].
    eexists _, ext'. split; [reflexivity|]. exists l, k, lost, d. by split.
  - destruct (addHTTPCache_spec now ext n request url data response Hs) as (n' & b & -> & Hs'). by exists n', ext.
  - apply bool_decide_eq_true in He. destruct (begins_ignoring_case content (str "max-age")) as [b|] eqn:Eb; [|done].
    destruct (processHttpEquiv_spec ext n content url cachecontrol b Hs Eb) as (n' & -> & Hs'). by exists n', ext.
  - apply andb_true_iff in He as [_ He]. rewrite (table_room_fits ext n l k lost d I) in He. apply bool_decide_eq_true in He.
    destruct (writeCacheTimer_spec ext n l k lost d I Hw He) as (n' & -> & _ & H1' & H2'). exists n', ext. split; [done|].
    destruct k as [|x k]; [exists l, [], lost, d; apply H1'; by left|].
    destruct (Queue.m_scheduledJobList (queue n)) eqn:E1; [|exists l, (x :: k), lost, d; apply H1'; by right; left].
    destruct (Queue.m_runningJobList (queue n)) eqn:E2; [|exists l, (x :: k), lost, d; apply H1'; by right; right].
    destruct (H2' x k eq_refl eq_refl eq_refl) as (l' & I' & _). by exists l', k, lost, d.
  - destruct (resetHTTPCache_spec ext n l k lost d I) as (n' & -> & I'). exists n', ext. split; [done|]. by exists [], [], lost, 0.
Qed.

Lemma run_spec ops n ext : nsafe ext n -> writes_progress -> exists n' ext', run n ext ops = Some (n', ext') /\ nsafe ext' n'.
Proof.
  intros Hs Hw. revert n ext Hs. induction ops as [|o ops IH]; intros n ext Hs; cbn [run]; [by exists n, ext|].
  destruct (enabled n ext o) eqn:He; [|by apply IH].
  destruct (run_net_op_spec n ext o Hs He Hw) as (n1 & ext1 & -> & Hs1). cbn [mbind option_bind]. by apply IH.
Qed.

Lemma initial_safe connections tryProxySingleConnect harmfulSiteFilter redirectInWKC :
  nsafe (fun _ => 0) (initialNetwork (Runs.initialManager connections tryProxySingleConnect harmfulSiteFilter redirectInWKC)).
Proof.
  exists [], [], [], 0. split; [exact (RunFacts.initial_inv _ _ _ _)| |done]. pose proof (CacheRuns.holds_rep _ _ (CacheRuns.holds_new)) as R.
  split; try done; try (by constructor). intros q. cbn. rewrite lookup_empty. split; [by intros []|set_solver].
Qed.

(** The write list is worked off. *)
Lemma write_ticks_spec ext n l k lost d :
  ninv ext n l k lost d -> writes_progress -> table_fits (l ++ k) ->
  Queue.m_scheduledJobList (queue n) = [] -> Queue.m_runningJobList (queue n) = [] ->
  exists n' l', write_ticks (length k) n = Some n' /\ ninv ext n' l' [] lost d /\ queue n' = queue n /\
    (k <> [] -> m_writeCacheTimer n' = false /\ exists w c ok, writeFATFile w = Some (log w c, ok) /\ world n' = log w c).
Proof.
  revert n l. induction k as [|x k IH]; intros n l I Hw Hf E1 E2; cbn [length write_ticks]; [by exists n, l|].
  destruct (writeCacheTimer_spec ext n l (x :: k) lost d I Hw Hf) as (n1 & -> & Q1 & _ & H1').
  destruct (H1' x k eq_refl E1 E2) as (l1 & I1 & F1 & T1 & D1). cbn [mbind option_bind].
  destruct (IH n1 l1 I1 Hw F1) as (n2 & l2 & E & I2 & Q2 & H2'); [by rewrite Q1|by rewrite Q1|].
  exists n2, l2. split_and!; [done|done|by rewrite Q2|]. intros _. destruct k as [|y k]; [|by apply H2'].
  cbn in E. injection E as <-. split; [exact T1|]. by apply D1.
Qed.

(** A URL that no entry has is not found. *)
Lemma forgotten ext n l k lost d url :
  ninv ext n l k lost d -> m_string (removeFragmentIdentifierIfNeeded before url) ∉ map ekey (l ++ k) ->
  resourceForURL before (world n) url = None /\
  forall p r, p ∈ m_writeCacheList n -> heap (world n) !! p = Some r -> key r <> m_string (removeFragmentIdentifierIfNeeded before url).
Proof.
  intros [_ I Iw] Hu. rewrite map_app, elem_of_app in Hu. split.
  - unfold resourceForURL. apply (rep_unmapped _ l d); [apply (ci_rep _ _ _ _ _ I)|tauto].
  - intros p r Hp Er Ek. apply Hu. right. rewrite Iw in Hp. apply list_elem_of_fmap in Hp as (x & -> & Hx).
    pose proof (ci_heap _ _ _ _ _ I) as HH. rewrite list.Forall_forall in HH. specialize (HH x Hx).
    apply list_elem_of_fmap. exists x. split; [|done]. unfold ekey. congruence.
Qed.

Lemma nodup_key_middle (l1 l2 k : list entry) x : NoDup (map ekey (l1 ++ x :: l2 ++ k)) -> ekey x ∉ map ekey (l1 ++ l2 ++ k).
Proof. rewrite !map_app. cbn [map]. rewrite map_app. intros [Hx _]%nodup_middle. done. Qed.

(** Nothing else of the write list has the URL up to case. *)
Definition case_exact (n : Network) (url : KURL) : Prop :=
  forall p r, p ∈ m_writeCacheList n -> heap (world n) !! p = Some r ->
    equalHTTPCachedResourceURL foldCase before r url = true -> key r = m_string (removeFragmentIdentifierIfNeeded before url).

Lemma find_write_equal w k url p l :
  find_write w k url = Some (Some (p, l)) -> exists r, p ∈ k /\ heap w !! p = Some r /\ equalHTTPCachedResourceURL foldCase before r url = true.
Proof.
  revert l. induction k as [|q k IH]; intros l E; cbn [find_write] in E; [done|]. destruct (heap w !! q) as [r|] eqn:Er; [|done].
  cbn [mbind option_bind] in E. destruct (equalHTTPCachedResourceURL _ _ _ _) eqn:Eq.
  - injection E as -> <-. exists r. split_and!; [set_solver|done|done].
  - destruct (find_write w k url) as [[[x m]|]|]; [|done|done]. cbn in E. injection E as -> <-.
    destruct (IH m eq_refl) as (s & Hp & E1 & E2). exists s. split_and!; [set_solver|done|done].
Qed.

Lemma not_stored now ext n l k lost d url data response noCache mustRevalidate expires maxAge :
  ninv ext n l k lost d -> case_exact n url ->
  exists n' l' k' lost', updateCacheResource now n url data response noCache true mustRevalidate expires maxAge = Some (n', None) /\
    ninv ext n' l' k' lost' d /\ m_string (removeFragmentIdentifierIfNeeded before url) ∉ map ekey (l' ++ k').
Proof.
  intros I Hc. pose proof I as [Iq Ic Iw]. pose proof (ci_rep _ _ _ _ _ Ic) as R. pose proof (ci_keys _ _ _ _ _ Ic) as NK.
  unfold updateCacheResource. destruct (resourceForURL before (world n) url) as [p|] eqn:Eu.
  - destruct (rep_mapped _ _ _ _ _ R Eu) as (l1 & r & l2 & -> & Ek).
    destruct (cinv_remove _ _ (p, r) _ _ _ _ Ic) as (w' & E' & I' & _). cbn [fst] in E'. rewrite E'. cbn [mbind option_bind].
    eexists _, (l1 ++ l2), k, lost. split; [reflexivity|]. split; [by split|]. rewrite <- Ek.
    rewrite <- app_assoc in NK |- *. by apply (nodup_key_middle l1 l2 k (p, r)).
  - rewrite Iw. destruct (find_write_spec (world n) k url (ci_heap _ _ _ _ _ Ic)) as (o & Eo & Ho). rewrite Eo. cbn [mbind option_bind].
    destruct o as [[p lw]|].
    + destruct (find_write_equal _ _ _ _ _ Eo) as (s & Hp & Es & Eq). rewrite <- Iw in Hp. specialize (Hc p s Hp Es Eq).
      destruct Ho as (k1 & r & k2 & -> & ->). pose proof (ci_heap _ _ _ _ _ Ic) as HH. rewrite Forall_app, Forall_cons_iff in HH.
      destruct HH as (_ & Er & _). cbn in Er. assert (s = r) as -> by congruence.
      eexists _, l, (k1 ++ k2), (p :: lost). split; [reflexivity|]. split; [split; [done|by apply (cinv_drop _ _ _ _ r)|done]|].
      rewrite <- Hc. rewrite app_assoc in NK. rewrite app_assoc. pose proof (nodup_key_middle (l ++ k1) k2 [] (p, r)) as HN. rewrite !app_nil_r in HN. by apply HN.
    + eexists _, l, k, lost. split; [reflexivity|]. split; [done|]. rewrite map_app, elem_of_app. intros [Hin|Hin]; [by eapply resourceForURL_None|].
      apply list_elem_of_fmap in Hin as (x & Ex & Hx). rewrite list.Forall_forall in Ho. specialize (Ho x Hx).
      apply key_unequal in Ho. unfold ekey in Ex. congruence.
Qed.

End Facts.
End NetFacts.

Module ReadFacts.
Import Cache CacheSpec CacheFacts Loading LoadingInv LoadingFacts NetRuns NetFacts ResourceFacts TableFacts KURLParse.Assemble.

Section Facts.
Context `{Peers, Loader}.

(** The events of a load do not lose references. *)
Definition load_events (p : nat) (content : list Z) : list Queue.Event :=
  [Queue.DidReceiveResponse p; Queue.DidReceiveData p content; Queue.DidFinishLoading p].

(** The job at the head of the read list is done. *)
Lemma read_done_spec ext n p rest :
  QueueInv.inv ext (queue n) -> Queue.m_readCacheJobList (queue n) = p :: rest ->
  exists q, read_done n p = Some (set_queue n q) /\ QueueInv.inv ext q /\ Queue.m_readCacheJobList q = rest /\
    Queue.events q = Queue.events (queue n) /\ Queue.m_scheduledJobList q = Queue.m_scheduledJobList (queue n) /\
    Queue.m_readCacheTimer q = if decide (rest = []) then Queue.m_readCacheTimer (queue n) else true.
Proof.
  intros I E. unfold read_done. rewrite E. set (m := queue n) in *.
  assert (QueueInv.inv (QueueInv.bump ext p) (Queue.set_readCache m rest)) as I1.
  { eapply QueueFacts.inv_lists; [exact I|by apply QueueFacts.bump_nonneg, (QueueInv.inv_ext _ _ I)|..].
    - intros q. unfold QueueInv.bump. rewrite E, QueueFacts.occ_cons. QueueFacts.ptr.
    - apply (QueueInv.inv_once _ _ I).
    - apply (QueueInv.inv_running _ _ I).
    - intros q j Ej. apply (QueueFacts.inv_job _ _ _ _ I Ej).
    - intros q j Ej. apply (QueueInv.ok_challenge _ _ _ (QueueFacts.inv_job _ _ _ _ I Ej)). }
  destruct (QueueFacts.inv_deref _ _ _ I1 (QueueInv.inv_ext _ _ I)) as (js & -> & I2). cbn [mbind option_bind].
  unfold read_next. cbn [queue set_queue Queue.m_readCacheJobList Queue.set_jobs Queue.set_readCache Queue.set_lists].
  destruct rest as [|y rest]; eexists; (split; [reflexivity|]); split_and!; try done. by apply QueueFacts.inv_timers.
Qed.

(** Reading the file of a listed entry. *)
Lemma read_listed w l1 a r l2 k lost d content :
  cinv w (l1 ++ (a, r) :: l2) k lost d -> m_contentLength r = Z.of_nat (length content) ->
  (forall h n k, 0 < k -> 1 <= peer_read h n k <= k) ->
  peer_open (calls w) (utf8_bytes (pathByAppendingComponent (m_filePath (cache w)) (m_fileName r))) = true ->
  peer_content (calls w) (utf8_bytes (pathByAppendingComponent (m_filePath (cache w)) (m_fileName r))) = content ->
  exists w', read (Z.to_nat (m_contentLength r)) w a = Some (w', content, true) /\
    cinv w' (l1 ++ (a, setUsed r true) :: l2) k lost d.
Proof.
  intros I El Hr Ho Ec. unfold read. pose proof (rep_lookup _ _ _ (a, r) (ci_rep _ _ _ _ _ I) ltac:(set_solver)) as Ea.
  cbn [fst snd] in Ea. rewrite Ea. cbn [mbind option_bind].
  rewrite Ho, Ec. unfold readFile. rewrite read_loop_spec by (try (intros; by apply Hr); lia). cbn [mbind option_bind app].
  rewrite El, Nat2Z.id, firstn_all.
  destruct (cinv_assign w l1 a r l2 k lost d (fun _ => setUsed r true) I) as (w' & -> & I'); [done..|]. cbn [mbind option_bind].
  eexists. split; [reflexivity|]. by apply cinv_log.
Qed.

End Facts.
End ReadFacts.

(** * Properties *)
Module NetProps.
Import Cache CacheSpec CacheFacts Loading LoadingInv LoadingFacts NetRuns NetFacts ReadFacts ResourceFacts TableFacts KURLParse.Assemble.

Section Properties.
Context `{Queue.Oracles, Peers, Loader}.





End Properties.
End NetProps.

(** * Concrete runs *)
Module NetWitness.
Import Cache CacheSpec CacheFacts Loading LoadingInv LoadingFacts NetRuns NetFacts ReadFacts NetProps ResourceFacts TableFacts
  KURLParse.Assemble CacheWitness.

Definition url_a : KURL := Update.parsedURL 0 (str "http://a/x").
Definition url_A : KURL := Update.parsedURL 0 (str "http://a/X").
Definition url_b : KURL := Update.parsedURL 0 (str "http://b/y#top").

#[local] Instance willing : Loader := {|
  request_url _ := url_a;
  has_frameloaderclient _ _ := true;
  left_frame _ _ := false;
  dispatchWillReceiveData _ _ _ := true;
  willReceiveData _ _ _ := true;
  content_malloc _ _ := true;
  foldCase := toASCIILower;
  before := 0;
  garbage := (false, false, 0);
  whiteSpace _ := false
|}.

#[local] Instance answers : Queue.Oracles := {|
  Queue.ask_permission _ _ := Some 1;
  Queue.composition_error _ _ := false;
  Queue.match_proxy _ _ := false;
  Queue.has_frame_client _ _ := true;
  Queue.easy_init _ _ := true;
  Queue.multi_add _ _ := true;
  Queue.auth_again _ _ := false
|}.

(** A response that is fresh for an hour, and one that must not be stored. *)
Definition fresh_response : ResourceResponse :=
  mkResponse (Some (str "text/html")) 7 None None 200 quiet_NaN (double_of_int 1000) quiet_NaN None None false false false (double_of_int 3600).
Definition secret_response : ResourceResponse :=
  mkResponse (Some (str "text/html")) 7 None None 200 quiet_NaN (double_of_int 1000) quiet_NaN None None false true false quiet_NaN.

Definition get : Request := mkRequest true false 0 0.
Definition store_op (url : KURL) (s : list Z) : op := Response (double_of_int 1001) get url (Some [s]) fresh_response.

Definition initial : Network := initialNetwork (Runs.initialManager 4 false false false).
Definition state (ops : list op) : Network * (nat -> Z) := default (initial, fun _ => 0) (run initial (fun _ => 0) ops).

Lemma disk_progress : writes_progress.
Proof. intros h n k Hk. cbn. lia. Qed.

Lemma state_safe ops : nsafe (snd (state ops)) (fst (state ops)).
Proof.
  unfold state. destruct (run_spec ops initial (fun _ => 0) (initial_safe 4 false false false) disk_progress) as (n & ext & E & Hs). by rewrite E.
Qed.


Definition two_waiting : Network * (nat -> Z) := state [store_op url_a (str "content"); store_op url_b (str "more")].



(** A page loaded from the cache. *)
Definition cached : Network * (nat -> Z) :=
  state [store_op url_a (str "content"); WriteTimer; LoadURL (double_of_int 1002) 5 RunWitness.page false].

Definition cached_entry : HTTPCachedResource := default HTTPCachedResource_new (heap (world (fst cached)) !! 0%nat).


(** A job whose client does not want the data stays at the head of the list: the
    timer goes on, and the client is told again and again that it failed. *)
#[local] Instance unwilling : Loader := {|
  request_url _ := url_a;
  has_frameloaderclient _ _ := true;
  left_frame _ _ := false;
  dispatchWillReceiveData _ _ _ := false;
  willReceiveData _ _ _ := true;
  content_malloc _ _ := true;
  foldCase := toASCIILower;
  before := 0;
  garbage := (false, false, 0);
  whiteSpace _ := false
|}.

Example failed_load_repeats :
  exists n1 n2, readCacheTimerCallback (H0 := unwilling) (fst cached) = Some n1 /\ readCacheTimerCallback (H0 := unwilling) n1 = Some n2 /\
    Queue.events (queue n2) = [Queue.DidFail 5 CURLE_READ_ERROR; Queue.DidFail 5 CURLE_READ_ERROR] /\
    Queue.m_readCacheJobList (queue n2) = [5%nat] /\ Queue.m_readCacheTimer (queue n2) = true.
Proof. eexists _, _. split; [vm_compute; reflexivity|]. split; [vm_compute; reflexivity|]. vm_compute. auto. Qed.

(** The index is searched for the exact URL, the write list for the URL up to
    case: a response that must not be stored drops the waiting entry of another
    URL, whose object nobody deletes. *)
Example no_store_drops_another :
  exists n, run (H1 := willing) initial (fun _ => 0) [store_op url_A (str "content"); Response 0 get url_a (Some [str "secret"]) secret_response] = Some n /\
    m_writeCacheList (fst n) = [] /\ m_resourceList (cache (world (fst n))) = [] /\
    (m_url <$> heap (world (fst n)) !! 0%nat) = Some (Some (str "http://a/X")).
Proof. eexists. split; [vm_compute; reflexivity|]. vm_compute. auto. Qed.

(** An entry is changed before it is taken out of the index, and the new length
    is what is subtracted from the total. *)
Example update_spoils_total :
  exists n, run (H1 := willing) initial (fun _ => 0) [store_op url_a (str "a"); WriteTimer; store_op url_a (str "longer")] = Some n /\
    m_resourceList (cache (world (fst n))) = [] /\ m_totalContentsSize (cache (world (fst n))) = -5.
Proof. eexists. split; [vm_compute; reflexivity|]. vm_compute. auto. Qed.

(** The comparison with [max-age] reads past the end of a shorter content. *)
Example short_content_overread :
  processHttpEquiv (H0 := willing) initial (str "max") url_a true = None /\ processHttpEquiv (H0 := willing) initial [] url_a true = None.
Proof. split; vm_compute; reflexivity. Qed.

End NetWitness.
