(* ===== verification/AuthJar.v ===== *)
(** * Stored credentials (WKC/WebCore/platform/network/WKC/AuthenticationJarWKC.cpp)

    [AuthenticationJar]: the user names and passwords the user has entered, for
    parts of web sites and for proxies.  The entries belong to the jar alone, so
    a list of values models the list of pointers; [allocated] says whether [new]
    succeeded.  URLs are parsed and edited with KURL.v.

    Theorems: what is looked up is the most specific entry; over any sequence of
    operations a password is only returned for the host, and below the folder,
    it was stored for; what is stored is found and what is deleted is gone; the
    proxies are a map from host and port. *)
From S2P Require Import Prelude WString KURLParse KURL.
From stdpp Require Import gmap.
Import KURLParse.Class KURLParse.Scan KURLParse.Assemble.
#[local] Open Scope Z_scope.

(** * The jar *)
Module Jar.
Import Access Update.

Inductive ProtectionSpaceServerType :=
  | ServerHTTP | ServerHTTPS | ServerFTP | ServerFTPS | ProxyHTTP | ProxyHTTPS | ProxyFTP | ProxySOCKS.

Definition serverType_value (t : ProtectionSpaceServerType) : Z :=
  match t with
  | ServerHTTP => 1 | ServerHTTPS => 2 | ServerFTP => 3 | ServerFTPS => 4
  | ProxyHTTP => 5 | ProxyHTTPS => 6 | ProxyFTP => 7 | ProxySOCKS => 8
  end.

Inductive ProtectionSpaceAuthenticationScheme :=
  | SchemeDefault | SchemeHTTPBasic | SchemeHTTPDigest | SchemeHTMLForm | SchemeNTLM | SchemeNegotiate
  | SchemeClientCertificateRequested | SchemeServerTrustEvaluationRequested | SchemeUnknown.

#[global] Instance server_eq : EqDecision ProtectionSpaceServerType.
Proof. solve_decision. Defined.
#[global] Instance scheme_eq : EqDecision ProtectionSpaceAuthenticationScheme.
Proof. solve_decision. Defined.

Record AuthInfo := {
  m_serverType : ProtectionSpaceServerType;
  m_authScheme : ProtectionSpaceAuthenticationScheme;
  m_host : list Z;
  m_port : Z;
  m_basePath : list Z;
  m_fullPath : list Z;
  m_realm : Str.String;
  m_confirmed : bool;
  m_user : Str.String;
  m_passwd : Str.String;
  m_tmpUser : Str.String;
  m_tmpPasswd : Str.String;
}.

Record AuthenticationJar := {
  m_WebAuthInfoList : list AuthInfo;
  m_ProxyAuthInfoList : list AuthInfo;
}.

Definition AuthenticationJar_new : AuthenticationJar :=
  {| m_WebAuthInfoList := []; m_ProxyAuthInfoList := [] |}.

Definition emptyString : Str.String := Some [].
Definition isEmpty (s : Str.String) : bool := (length (Str.chars s) =? 0)%nat.

(** The first entry that satisfies a test: its index and the entry. *)
Fixpoint find_info (test : AuthInfo -> bool) (l : list AuthInfo) (i : nat) : option (nat * AuthInfo) :=
  match l with
  | [] => None
  | info :: l' => if test info then Some (i, info) else find_info test l' (S i)
  end.

(** [m_...List.remove(i)]. *)
Definition remove_at (i : nat) (l : list AuthInfo) : list AuthInfo := take i l ++ drop (S i) l.

(** ** The URL of a request *)
Section Jar.
Context (before : Z) (ws : Z -> bool).

Definition sanitizeURL (kurl : KURL) : KURL * Z :=
  let kurl := setUser before kurl [] in
  let kurl := setPass before kurl [] in
  let kurl := setQuery before kurl (Some []) in
  let kurl := removeFragmentIdentifier before kurl in
  let p := if negb (port ws kurl =? 0) then port ws kurl
           else if protocolIs kurl (str "http") then 80 else 443 in
  (removePort before kurl, p).

(** [notFound + 1] wraps to 0. *)
Definition basePath (path : list Z) : list Z :=
  left path (match Impl.reverseFind_char path 47 (length path) with Some i => S i | None => 0%nat end).

Definition url_path (kurl : KURL) : list Z := if hasPath kurl then path kurl else [47].
Definition with_slash (p : list Z) : list Z := if negb (Impl.endsWith p [47]) then p ++ [47] else p.

Definition url_host (url : list Z) : list Z := host (fst (sanitizeURL (parsedURL before url))).
Definition url_port (url : list Z) : Z := snd (sanitizeURL (parsedURL before url)).
Definition url_full_path (url : list Z) : list Z :=
  with_slash (url_path (fst (sanitizeURL (parsedURL before url)))).
Definition url_base_path (url : list Z) : list Z :=
  basePath (url_path (fst (sanitizeURL (parsedURL before url)))).

(** ** Web sites *)

Definition longer (current : option (nat * AuthInfo)) (newinfo : nat * AuthInfo) (compFull : bool)
    : option (nat * AuthInfo) :=
  match current with
  | None => Some newinfo
  | Some (_, cur) =>
      let field := if compFull then m_fullPath else m_basePath in
      if (length (field cur) <? length (field (snd newinfo)))%nat then Some newinfo else current
  end.

Definition same_realm (realm : Str.String) (info : AuthInfo) : bool :=
  isEmpty realm || bool_decide (m_realm info = realm).

(** The loop: an exact match ends it; otherwise the longest matches. *)
Fixpoint get_loop (host full : list Z) (realm : Str.String) (l : list AuthInfo) (i : nat)
    (fullpath_longest basepath_longest : option (nat * AuthInfo))
    : AuthInfo + option (nat * AuthInfo) * option (nat * AuthInfo) :=
  match l with
  | [] => inr (fullpath_longest, basepath_longest)
  | info :: l' =>
      let next := get_loop host full realm l' (S i) in
      if negb (bool_decide (m_host info = host)) then next fullpath_longest basepath_longest
      else if negb (same_realm realm info) then next fullpath_longest basepath_longest
      else if bool_decide (full = m_fullPath info) then inl info
      else if Impl.startsWith full (m_fullPath info) then
        next (longer fullpath_longest (i, info) true) basepath_longest
      else if Impl.startsWith full (m_basePath info) then
        next fullpath_longest (longer basepath_longest (i, info) false)
      else next fullpath_longest basepath_longest
  end.

(** What a lookup returns: the server type, the scheme, the name and the password. *)
Definition found : Type := ProtectionSpaceServerType * ProtectionSpaceAuthenticationScheme * Str.String * Str.String.

Definition credentials (confirmed : bool) (info : AuthInfo) : found :=
  (m_serverType info, m_authScheme info,
   if confirmed then m_user info else m_tmpUser info,
   if confirmed then m_passwd info else m_tmpPasswd info).

Definition set_basePath (p : list Z) (info : AuthInfo) : AuthInfo :=
  {| m_serverType := m_serverType info; m_authScheme := m_authScheme info; m_host := m_host info;
     m_port := m_port info; m_basePath := p; m_fullPath := m_fullPath info; m_realm := m_realm info;
     m_confirmed := m_confirmed info; m_user := m_user info; m_passwd := m_passwd info;
     m_tmpUser := m_tmpUser info; m_tmpPasswd := m_tmpPasswd info |}.

Definition with_web (l : list AuthInfo) (jar : AuthenticationJar) : AuthenticationJar :=
  {| m_WebAuthInfoList := l; m_ProxyAuthInfoList := m_ProxyAuthInfoList jar |}.
Definition with_proxy (l : list AuthInfo) (jar : AuthenticationJar) : AuthenticationJar :=
  {| m_WebAuthInfoList := m_WebAuthInfoList jar; m_ProxyAuthInfoList := l |}.

Definition getWebUserPassword (jar : AuthenticationJar) (url : list Z) (realm : Str.String)
    : AuthenticationJar * option found :=
  let l := m_WebAuthInfoList jar in
  (* after the loop [info] is the last entry *)
  match list.last l with
  | None => (jar, None)
  | Some info =>
      match get_loop (url_host url) (url_full_path url) realm l 0 None None with
      | inl exact => (jar, Some (credentials (m_confirmed exact) exact))
      | inr (Some (i, longest), _) =>
          let l' := if bool_decide (m_fullPath longest <> m_basePath longest)
                    then <[i := set_basePath (m_fullPath longest) longest]> l else l in
          (with_web l' jar, Some (credentials (m_confirmed info) longest))
      | inr (None, Some (_, longest)) => (jar, Some (credentials (m_confirmed info) longest))
      | inr (None, None) => (jar, None)
      end
  end.

Definition set_secret (confirmed : bool) (user passwd : Str.String) (info : AuthInfo) : AuthInfo :=
  {| m_serverType := m_serverType info; m_authScheme := m_authScheme info; m_host := m_host info;
     m_port := m_port info; m_basePath := m_basePath info; m_fullPath := m_fullPath info;
     m_realm := m_realm info; m_confirmed := confirmed;
     m_user := if confirmed then user else m_user info;
     m_passwd := if confirmed then passwd else m_passwd info;
     m_tmpUser := if confirmed then emptyString else user;
     m_tmpPasswd := if confirmed then emptyString else passwd |}.

Definition matches_NTLM (servertype : ProtectionSpaceServerType) (host : list Z) (info : AuthInfo) : bool :=
  bool_decide (m_authScheme info = SchemeNTLM) && bool_decide (m_serverType info = servertype)
  && bool_decide (m_host info = host).

Definition matches_path (servertype : ProtectionSpaceServerType) (authscheme : ProtectionSpaceAuthenticationScheme)
    (realm : Str.String) (host full base : list Z) (info : AuthInfo) : bool :=
  bool_decide (m_authScheme info = authscheme) && bool_decide (m_serverType info = servertype)
  && bool_decide (m_realm info = realm) && bool_decide (m_host info = host)
  && (bool_decide (full = m_fullPath info) || bool_decide (base = m_basePath info)).

(** The platform conversions the resolution of [location] needs. *)
Context (idn : list Z -> option (list Z)) (utf8Encoding : list Z -> list Z).

(** [KURL(kurl, location)] begins with the folder of the request. *)
Definition FullBaseSame (url location : list Z) : bool :=
  let kurl := fst (sanitizeURL (parsedURL before url)) in
  let location_url := fst (sanitizeURL (init before idn utf8Encoding utf8Encoding false kurl location)) in
  Impl.startsWith (path location_url) (url_full_path url).

Definition setWebUserPassword (jar : AuthenticationJar) (url : list Z) (servertype : ProtectionSpaceServerType)
    (authscheme : ProtectionSpaceAuthenticationScheme) (realm user passwd location : Str.String)
    (confirmed allocated : bool) : AuthenticationJar :=
  let l := m_WebAuthInfoList jar in
  let host := url_host url in
  let full := url_full_path url in
  let base := url_base_path url in
  let redirected := negb (isEmpty location) in
  let folder := redirected && FullBaseSame url (Str.chars location) in
  let confirmed := redirected || confirmed in
  let ntlm := bool_decide (SchemeNTLM = authscheme) in
  let test := if ntlm then matches_NTLM servertype host
              else matches_path servertype authscheme realm host full base in
  match find_info test l 0 with
  | Some (i, info) =>
      let info := if negb ntlm && bool_decide (full = m_fullPath info) && folder
                  then set_basePath (m_fullPath info) info else info in
      with_web (<[i := set_secret confirmed user passwd info]> l) jar
  | None =>
      if redirected || negb allocated then jar
      else
        let info :=
          {| m_serverType := servertype; m_authScheme := authscheme; m_host := host; m_port := url_port url;
             m_basePath := if ntlm then [47] else base; m_fullPath := if ntlm then [47] else full;
             m_realm := realm; m_confirmed := confirmed;
             m_user := if confirmed then user else emptyString;
             m_passwd := if confirmed then passwd else emptyString;
             m_tmpUser := if confirmed then emptyString else user;
             m_tmpPasswd := if confirmed then emptyString else passwd |} in
        with_web (l ++ [info]) jar
  end.

Definition deleteWebUserPassword (jar : AuthenticationJar) (url : list Z) (realm : Str.String) : AuthenticationJar :=
  let l := m_WebAuthInfoList jar in
  let test info :=
    bool_decide (url_host url = m_host info) && same_realm realm info
    && bool_decide (url_full_path url = m_fullPath info) && bool_decide (url_base_path url = m_basePath info) in
  match find_info test l 0 with
  | Some (i, _) => with_web (remove_at i l) jar
  | None => jar
  end.

(** ** Proxies *)

Definition matches_proxy (host : list Z) (p : Z) (info : AuthInfo) : bool :=
  negb (serverType_value (m_serverType info) <? serverType_value ProxyHTTP)%Z
  && bool_decide (m_host info = host) && (m_port info =? p).

Definition getProxyUserPassword (jar : AuthenticationJar) (url : list Z) (p : Z) : option found :=
  match find_info (matches_proxy (url_host url) p) (m_ProxyAuthInfoList jar) 0 with
  | Some (_, info) => Some (m_serverType info, m_authScheme info, m_user info, m_passwd info)
  | None => None
  end.

Definition update_proxy (authscheme : ProtectionSpaceAuthenticationScheme) (user passwd : Str.String)
    (info : AuthInfo) : AuthInfo :=
  {| m_serverType := m_serverType info; m_authScheme := authscheme; m_host := m_host info;
     m_port := m_port info; m_basePath := m_basePath info; m_fullPath := m_fullPath info;
     m_realm := m_realm info; m_confirmed := m_confirmed info; m_user := user; m_passwd := passwd;
     m_tmpUser := m_tmpUser info; m_tmpPasswd := m_tmpPasswd info |}.

(** The port is an [int], the field an [unsigned short]. *)
Definition setProxyUserPassword (jar : AuthenticationJar) (url : list Z) (p : Z)
    (servertype : ProtectionSpaceServerType) (authscheme : ProtectionSpaceAuthenticationScheme)
    (user passwd : Str.String) (allocated : bool) : AuthenticationJar :=
  let l := m_ProxyAuthInfoList jar in
  let host := url_host url in
  let test info :=
    bool_decide (m_serverType info = servertype) && bool_decide (m_host info = host) && (m_port info =? p) in
  match find_info test l 0 with
  | Some (i, info) => with_proxy (<[i := update_proxy authscheme user passwd info]> l) jar
  | None =>
      if negb allocated then jar
      else
        with_proxy (l ++ [
          {| m_serverType := servertype; m_authScheme := authscheme; m_host := host; m_port := u16 p;
             m_basePath := []; m_fullPath := []; m_realm := emptyString; m_confirmed := false;
             m_user := user; m_passwd := passwd; m_tmpUser := emptyString; m_tmpPasswd := emptyString |}]) jar
  end.

Definition deleteProxyUserPassword (jar : AuthenticationJar) (url : list Z) (p : Z) : AuthenticationJar :=
  let l := m_ProxyAuthInfoList jar in
  match find_info (matches_proxy (url_host url) p) l 0 with
  | Some (i, _) => with_proxy (remove_at i l) jar
  | None => jar
  end.

End Jar.
End Jar.

(** * What a lookup means *)
Module JarSpec.
Import Jar.

(** An entry a request may use: the host agrees, and the realm if one is given. *)
Definition candidate (host : list Z) (realm : Str.String) (info : AuthInfo) : Prop :=
  m_host info = host /\ same_realm realm info = true.

Definition covers_full (host full : list Z) (realm : Str.String) (info : AuthInfo) : Prop :=
  candidate host realm info /\ m_fullPath info `prefix_of` full.
Definition covers_base (host full : list Z) (realm : Str.String) (info : AuthInfo) : Prop :=
  candidate host realm info /\ ~ m_fullPath info `prefix_of` full /\ m_basePath info `prefix_of` full.

(** The first of the entries with [P] whose [field] is longest. *)
Definition best (field : AuthInfo -> list Z) (P : AuthInfo -> Prop) (l : list AuthInfo)
    (o : option (nat * AuthInfo)) : Prop :=
  match o with
  | None => Forall (fun e => ~ P e) l
  | Some (i, e) =>
      l !! i = Some e /\ P e /\
      forall j e', l !! j = Some e' -> P e' ->
        (length (field e') < length (field e))%nat \/ (length (field e') = length (field e) /\ (i <= j)%nat)
  end.

(** Which entry answers a request, and whose mark says if it is confirmed. *)
Inductive chosen (host full : list Z) (realm : Str.String) (l : list AuthInfo) : AuthInfo -> AuthInfo -> Prop :=
  | chosen_exact i e :
      l !! i = Some e -> candidate host realm e -> m_fullPath e = full ->
      (forall j e', (j < i)%nat -> l !! j = Some e' -> candidate host realm e' -> m_fullPath e' <> full) ->
      chosen host full realm l e e
  | chosen_folder i e z :
      Forall (fun e' => candidate host realm e' -> m_fullPath e' <> full) l ->
      best m_fullPath (covers_full host full realm) l (Some (i, e)) -> list.last l = Some z ->
      chosen host full realm l e z
  | chosen_parent i e z :
      Forall (fun e' => ~ covers_full host full realm e') l ->
      best m_basePath (covers_base host full realm) l (Some (i, e)) -> list.last l = Some z ->
      chosen host full realm l e z.

(** The folder a password entered for a path is good for. *)
Definition folder_of (full : list Z) : list Z := basePath (removelast full).

(** What happens to the web sites of a jar. *)
Inductive web_op :=
  | SetWeb (url : list Z) (servertype : ProtectionSpaceServerType) (authscheme : ProtectionSpaceAuthenticationScheme)
      (realm user passwd location : Str.String) (confirmed allocated : bool)
  | GetWeb (url : list Z) (realm : Str.String)
  | DeleteWeb (url : list Z) (realm : Str.String).

(** The proxies as a map from host and port. *)
Abbreviation proxy_map := (gmap (list Z * Z) (ProtectionSpaceAuthenticationScheme * Str.String * Str.String)).

Section Runs.
Context (before : Z) (ws : Z -> bool) (idn : list Z -> option (list Z)) (utf8Encoding : list Z -> list Z).

Definition exec_web (jar : AuthenticationJar) (o : web_op) : AuthenticationJar :=
  match o with
  | SetWeb url t s r u p loc c a => setWebUserPassword before ws idn utf8Encoding jar url t s r u p loc c a
  | GetWeb url r => fst (getWebUserPassword before ws jar url r)
  | DeleteWeb url r => deleteWebUserPassword before ws jar url r
  end.
Definition run_web (ops : list web_op) : AuthenticationJar := foldl exec_web AuthenticationJar_new ops.

Inductive proxy_op :=
  | SetProxy (url : list Z) (p : Z) (authscheme : ProtectionSpaceAuthenticationScheme) (user passwd : Str.String)
  | DeleteProxy (url : list Z) (p : Z).

Definition exec_proxy (jar : AuthenticationJar) (o : proxy_op) : AuthenticationJar :=
  match o with
  | SetProxy url p s u w => setProxyUserPassword before ws jar url p ProxyHTTP s u w true
  | DeleteProxy url p => deleteProxyUserPassword before ws jar url p
  end.
Definition spec_proxy (m : proxy_map) (o : proxy_op) : proxy_map :=
  match o with
  | SetProxy url p s u w => <[(url_host before ws url, p) := (s, u, w)]> m
  | DeleteProxy url p => delete (url_host before ws url, p) m
  end.
Definition proxy_op_ok (o : proxy_op) : Prop :=
  match o with SetProxy _ p _ _ _ | DeleteProxy _ p => in_width 16 p end.

End Runs.
End JarSpec.

(** * Facts *)
Module JarFacts.
Import Jar JarSpec Access.

(** ** Paths *)

Lemma startsWith_prefix s m : Impl.startsWith s m = bool_decide (m `prefix_of` s).
Proof. apply eq_bool_prop_intro. rewrite bool_decide_spec. rewrite <- (proj1 (StringProps.startsWith_endsWith s m)).
  by destruct (Impl.startsWith s m). Qed.

Lemma endsWith_suffix s m : Impl.endsWith s m = bool_decide (m `suffix_of` s).
Proof. apply eq_bool_prop_intro. rewrite bool_decide_spec. rewrite <- (proj2 (StringProps.startsWith_endsWith s m)).
  by destruct (Impl.endsWith s m). Qed.

(** A path is its folder and a name without a slash. *)
Lemma basePath_spec p :
  exists name, p = basePath p ++ name /\ 47 ∉ name /\ (basePath p = [] \/ exists q, basePath p = q ++ [47]).
Proof.
  unfold basePath, left.
  pose proof (SearchFacts.reverseFind_last_occurrence p [47] (length p) ltac:(done)) as H.
  unfold Impl.reverseFind in H. cbn [length Nat.eqb] in H. change (at_ [47] 0) with 47 in H.
  destruct (Impl.reverseFind_char p 47 (length p)) as [i|]; cbn in H; rewrite StrFacts.substring_spec, drop_0 by lia.
  - destruct H as (_ & Hat & Hno). apply SearchFacts.at_pos_single in Hat.
    exists (drop (S i) p). split_and!; [by rewrite take_drop| |right; exists (take i p); by apply take_S_r].
    intros [j Hj]%list_elem_of_lookup. rewrite lookup_drop in Hj.
    apply (Hno (S i + j)%nat); [|by apply SearchFacts.at_pos_single].
    apply lookup_lt_Some in Hj. lia.
  - exists p. split_and!; [done| |by left]. intros [j Hj]%list_elem_of_lookup.
    apply (H j); [|by apply SearchFacts.at_pos_single]. apply lookup_lt_Some in Hj. lia.
Qed.

Lemma basePath_prefix p : basePath p `prefix_of` p.
Proof. destruct (basePath_spec p) as (name & E & _). by exists name. Qed.

Lemma basePath_folder q : basePath (q ++ [47]) = q ++ [47].
Proof.
  destruct (basePath_spec (q ++ [47])) as (name & E & Hno & _).
  destruct name as [|c name _] using rev_ind; [by rewrite app_nil_r in E|].
  rewrite app_assoc in E. apply app_inj_tail in E as [_ <-]. set_solver.
Qed.

Lemma with_slash_cases p :
  (exists q, p = q ++ [47] /\ with_slash p = p) \/ with_slash p = p ++ [47].
Proof.
  unfold with_slash. rewrite endsWith_suffix. case_bool_decide as H; cbn [negb]; [left|by right].
  destruct H as [q ->]. by exists q.
Qed.

(** The folder of a request is between what its full path is good for and the
    full path. *)
Lemma path_order p :
  folder_of (with_slash p) `prefix_of` basePath p /\ basePath p `prefix_of` with_slash p.
Proof.
  unfold folder_of. destruct (with_slash_cases p) as [(q & -> & ->)| ->]; rewrite removelast_last.
  - rewrite basePath_folder. split; [|done]. etrans; [apply basePath_prefix|by apply prefix_app_r].
  - split; [done|]. apply prefix_app_r, basePath_prefix.
Qed.

(** ** Searching the entries *)

Lemma find_info_spec test l k :
  match find_info test l k with
  | Some (i, e) => exists j, i = (k + j)%nat /\ l !! j = Some e /\ test e = true /\ Forall (fun e => test e = false) (take j l)
  | None => Forall (fun e => test e = false) l
  end.
Proof.
  revert k. induction l as [|x l IH]; intros k; cbn [find_info]; [constructor|].
  destruct (test x) eqn:E.
  - exists 0%nat. by rewrite Nat.add_0_r.
  - specialize (IH (S k)). destruct (find_info test l (S k)) as [[i e]|].
    + destruct IH as (j & -> & H1 & H2 & H3). exists (S j). split; [lia|]. split_and!; [done|done|].
      by constructor.
    + by constructor.
Qed.

Lemma find_info_some test l i e :
  find_info test l 0 = Some (i, e) -> l !! i = Some e /\ test e = true.
Proof. intros E. pose proof (find_info_spec test l 0) as H. rewrite E in H. by destruct H as (? & -> & ? & ? & _). Qed.

Lemma find_info_none test l : find_info test l 0 = None -> Forall (fun e => test e = false) l.
Proof. intros E. pose proof (find_info_spec test l 0) as H. by rewrite E in H. Qed.

Lemma find_info_app test l x k :
  Forall (fun e => test e = false) l -> test x = true ->
  find_info test (l ++ [x]) k = Some ((k + length l)%nat, x).
Proof.
  intros H Hx. revert k. induction H as [|y l Hy _ IH]; intros k; cbn [find_info app length].
  - by rewrite Hx, Nat.add_0_r.
  - rewrite Hy, IH. do 2 f_equal. lia.
Qed.

Lemma elem_of_remove_at i l (e : AuthInfo) : e ∈ remove_at i l -> e ∈ l.
Proof.
  unfold remove_at. rewrite elem_of_app. intros [[j Hj]%list_elem_of_lookup|[j Hj]%list_elem_of_lookup].
  - apply lookup_take_Some in Hj as [Hj _]. by eapply list_elem_of_lookup_2.
  - rewrite lookup_drop in Hj. by eapply list_elem_of_lookup_2.
Qed.

(** ** The loop of a lookup *)
Section Lookup.
Context (host full : list Z) (realm : Str.String).

Lemma best_snoc field P l x o b :
  field = (if b : bool then m_fullPath else m_basePath) ->
  best field P l o -> P x -> best field P (l ++ [x]) (longer o (length l, x) b).
Proof.
  intros Ef H Hx. assert ((l ++ [x]) !! length l = Some x) as El by by rewrite lookup_app_r, Nat.sub_diag by lia.
  assert (forall j e', (l ++ [x]) !! j = Some e' -> l !! j = Some e' \/ j = length l /\ e' = x) as Hcase.
  { intros j e' Hj. apply lookup_app_Some in Hj as [?|[Hge Hj]]; [by left|right].
    destruct (j - length l)%nat eqn:?; [|done]. injection Hj as <-. split; [lia|done]. }
  destruct o as [[i e]|]; cbn [best longer snd] in *.
  - rewrite <- Ef. destruct H as (H1 & H2 & H3). pose proof (lookup_lt_Some _ _ _ H1) as Hi.
    destruct (Nat.ltb_spec (length (field e)) (length (field x))) as [Hlt|Hge]; (split_and!; [|done|]); [done| | |].
    + intros j e' [Hj|[-> ->]]%Hcase Hp; [left|right; split; [done|lia]].
      destruct (H3 j e' Hj Hp) as [?|[? _]]; lia.
    + by apply lookup_app_l_Some.
    + intros j e' [Hj|[-> ->]]%Hcase Hp; [by apply H3|].
      destruct (decide (length (field x) = length (field e))); [right; split|left]; lia.
  - split_and!; [done|done|]. intros j e' [Hj|[-> ->]]%Hcase Hp; [|right; split; [done|lia]].
    rewrite list.Forall_forall in H. by destruct (H e' (list_elem_of_lookup_2 _ _ _ Hj)).
Qed.

Lemma best_skip field P l x o : best field P l o -> ~ P x -> best field P (l ++ [x]) o.
Proof.
  intros H Hx. destruct o as [[i e]|]; cbn [best] in *.
  - destruct H as (H1 & H2 & H3). split_and!; [by apply lookup_app_l_Some|done|].
    intros j e' Hj Hp. apply lookup_app_Some in Hj as [Hj|[Hge Hj]]; [by apply H3|].
    destruct (j - length l)%nat; [|done]. by injection Hj as <-.
  - apply Forall_app. split; [done|]. by constructor.
Qed.

Definition not_exact (e : AuthInfo) : Prop := candidate host realm e -> m_fullPath e <> full.

Lemma get_loop_spec todo l fl bl :
  best m_fullPath (covers_full host full realm) l fl ->
  best m_basePath (covers_base host full realm) l bl ->
  Forall not_exact l ->
  match get_loop host full realm todo (length l) fl bl with
  | inl e => exists i, (l ++ todo) !! i = Some e /\ candidate host realm e /\ m_fullPath e = full /\
               forall j e', (j < i)%nat -> (l ++ todo) !! j = Some e' -> not_exact e'
  | inr (fl', bl') => best m_fullPath (covers_full host full realm) (l ++ todo) fl' /\
               best m_basePath (covers_base host full realm) (l ++ todo) bl' /\ Forall not_exact (l ++ todo)
  end.
Proof.
  revert l fl bl. induction todo as [|x todo IH]; intros l fl bl Hf Hb He; cbn [get_loop].
  { by rewrite app_nil_r. }
  specialize (IH (l ++ [x])). rewrite length_app, Nat.add_1_r, <- app_assoc in IH. cbn [app] in IH.
  destruct (decide (candidate host realm x)) as [Hc|Hc].
  2:{ assert (Hskip : best m_fullPath (covers_full host full realm) (l ++ [x]) fl /\
              best m_basePath (covers_base host full realm) (l ++ [x]) bl /\ Forall not_exact (l ++ [x])).
      { split_and!; [apply best_skip; [done|]|apply best_skip; [done|]|].
        - by intros [? _].
        - by intros [? _].
        - apply Forall_app. split; [done|]. constructor; [|done]. by intros ?. }
      destruct Hskip as (S1 & S2 & S3). specialize (IH fl bl S1 S2 S3).
      case_bool_decide; cbn [negb]; [|done].
      destruct (same_realm realm x) eqn:E; cbn [negb]; [|done]. by destruct Hc. }
  rewrite bool_decide_eq_true_2, (proj2 Hc) by apply Hc. cbn [negb].
  case_bool_decide as Hex.
  { exists (length l). split_and!; [by rewrite lookup_app_r, Nat.sub_diag by lia|done|done|].
    intros j e' Hj Hl. rewrite lookup_app_l in Hl by done. rewrite list.Forall_forall in He.
    apply He. by eapply list_elem_of_lookup_2. }
  assert (Forall not_exact (l ++ [x])) as He' by (apply Forall_app; split; [done|]; constructor; [|done]; by intros _ ?).
  rewrite !startsWith_prefix. case_bool_decide as Hp1; [|case_bool_decide as Hp2]; (apply IH; [..|exact He']).
  - by apply best_snoc.
  - apply best_skip; [done|]. intros (_ & ? & _). done.
  - apply best_skip; [done|]. by intros [_ ?].
  - by apply best_snoc.
  - apply best_skip; [done|]. by intros [_ ?].
  - apply best_skip; [done|]. by intros (_ & _ & ?).
Qed.

(** The loop from the beginning. *)
Lemma get_loop_start l :
  match get_loop host full realm l 0 None None with
  | inl e => exists i, l !! i = Some e /\ candidate host realm e /\ m_fullPath e = full /\
               forall j e', (j < i)%nat -> l !! j = Some e' -> not_exact e'
  | inr (fl', bl') => best m_fullPath (covers_full host full realm) l fl' /\
               best m_basePath (covers_base host full realm) l bl' /\ Forall not_exact l
  end.
Proof. apply (get_loop_spec l [] None None); constructor. Qed.

(** Entries of other hosts are passed over. *)
Lemma get_loop_skip l todo i fl bl :
  Forall (fun e => m_host e <> host) l ->
  get_loop host full realm (l ++ todo) i fl bl = get_loop host full realm todo (i + length l) fl bl.
Proof.
  intros H. revert i. induction H as [|x l Hx _ IH]; intros i; cbn [app get_loop length].
  - by rewrite Nat.add_0_r.
  - rewrite bool_decide_eq_false_2 by done. cbn [negb]. rewrite IH. f_equal. lia.
Qed.

End Lookup.
(** ** Lookups *)
Section Runs.
Context (before : Z) (ws : Z -> bool) (idn : list Z -> option (list Z)) (utf8Encoding : list Z -> list Z).
#[local] Abbreviation get := (getWebUserPassword before ws).
#[local] Abbreviation full := (url_full_path before ws).
#[local] Abbreviation host_of := (url_host before ws).

(** The result of a lookup is the chosen entry's. *)
Lemma get_chosen jar url realm :
  match snd (get jar url realm) with
  | Some c => exists e z, chosen (host_of url) (full url) realm (m_WebAuthInfoList jar) e z /\
                c = credentials (m_confirmed z) e
  | None => Forall (fun e => candidate (host_of url) realm e ->
              ~ m_fullPath e `prefix_of` full url /\ ~ m_basePath e `prefix_of` full url) (m_WebAuthInfoList jar)
  end.
Proof.
  unfold getWebUserPassword. cbv zeta. destruct (list.last (m_WebAuthInfoList jar)) as [z|] eqn:Ez.
  2:{ apply last_None in Ez. rewrite Ez. constructor. }
  pose proof (get_loop_start (host_of url) (full url) realm (m_WebAuthInfoList jar)) as H.
  destruct (get_loop _ _ _ _ _ _ _) as [e|[[[i e]|] [[k e']|]]]; cbn [snd].
  - destruct H as (i & ? & ? & ? & H). exists e, e. split; [|done]. by eapply chosen_exact.
  - destruct H as (? & _ & ?). exists e, z. split; [|done]. by eapply chosen_folder.
  - destruct H as (? & _ & ?). exists e, z. split; [|done]. by eapply chosen_folder.
  - destruct H as (? & ? & ?). exists e', z. split; [|done]. by eapply chosen_parent.
  - destruct H as (H1 & H2 & _). cbn [best] in H1, H2. rewrite !list.Forall_forall in *. intros e He Hc.
    assert (~ m_fullPath e `prefix_of` full url) as Hp by (intros ?; by apply (H1 e He)).
    split; [done|]. intros ?. by apply (H2 e He).
Qed.

(** A lookup changes at most the base path of an entry that is a folder. *)
Lemma get_effect jar url realm :
  exists l, fst (get jar url realm) = with_web l jar /\
    (l = m_WebAuthInfoList jar \/
     exists i e, m_WebAuthInfoList jar !! i = Some e /\ l = <[i := set_basePath (m_fullPath e) e]> (m_WebAuthInfoList jar)).
Proof.
  assert (jar = with_web (m_WebAuthInfoList jar) jar) as Hid by by destruct jar.
  unfold getWebUserPassword. cbv zeta. destruct (list.last (m_WebAuthInfoList jar)) as [z|]; [|eexists; eauto].
  pose proof (get_loop_start (host_of url) (full url) realm (m_WebAuthInfoList jar)) as H.
  destruct (get_loop _ _ _ _ _ _ _) as [e|[[[i e]|] bl]]; cbn [fst].
  - eexists; eauto.
  - destruct H as ((Hi & _) & _). eexists. split; [done|]. case_bool_decide; [right; eauto|by left].
  - destruct bl as [[k e']|]; eexists; eauto.
Qed.

(** Whatever is chosen covers the request. *)
Lemma chosen_covers host F realm l e z :
  chosen host F realm l e z -> m_basePath e `prefix_of` m_fullPath e ->
  e ∈ l /\ candidate host realm e /\ m_basePath e `prefix_of` F.
Proof.
  intros H Hp. destruct H as [i e H1 H2 H3 _|i e z _ (H1 & [H2 H3] & _) _|i e z _ (H1 & (H2 & _ & H3) & _) _].
  - split_and!; [by eapply list_elem_of_lookup_2|done|by rewrite <- H3].
  - split_and!; [by eapply list_elem_of_lookup_2|done|by etrans].
  - split_and!; [by eapply list_elem_of_lookup_2|done|done].
Qed.

(** ** Where the passwords come from *)

(** The pair is blank, or was stored together for the host and the folder. *)
Definition supplied (ops : list web_op) (e : AuthInfo) (user passwd : Str.String) : Prop :=
  (user = emptyString /\ passwd = emptyString) \/
  exists url realm loc c a,
    SetWeb url (m_serverType e) (m_authScheme e) realm user passwd loc c a ∈ ops /\ host_of url = m_host e /\
    (m_authScheme e = SchemeNTLM \/ (realm = m_realm e /\ folder_of (full url) `prefix_of` m_basePath e)).

Definition sound (ops : list web_op) (e : AuthInfo) : Prop :=
  folder_of (m_fullPath e) `prefix_of` m_basePath e /\ m_basePath e `prefix_of` m_fullPath e /\
  supplied ops e (m_user e) (m_passwd e) /\ supplied ops e (m_tmpUser e) (m_tmpPasswd e).

Lemma supplied_mono ops o e u w : supplied ops e u w -> supplied (ops ++ [o]) e u w.
Proof.
  intros [?|(url & r & loc & c & a & Hin & H)]; [by left|right]. exists url, r, loc, c, a.
  split; [|done]. apply elem_of_app. by left.
Qed.

Lemma supplied_set_basePath ops e u w :
  m_basePath e `prefix_of` m_fullPath e -> supplied ops e u w ->
  supplied ops (set_basePath (m_fullPath e) e) u w.
Proof.
  intros Hp [?|(url & r & loc & c & a & Hin & Hh & H)]; [by left|right]. exists url, r, loc, c, a.
  split_and!; [done..|]. destruct H as [?|[? ?]]; [by left|right]. split; [done|]. cbn. by etrans.
Qed.

Lemma sound_set_basePath ops e : sound ops e -> sound ops (set_basePath (m_fullPath e) e).
Proof.
  intros (H1 & H2 & H3 & H4). split_and!; cbn; [by etrans|done|by apply supplied_set_basePath..].
Qed.

(** Storing a pair in a sound entry. *)
Lemma sound_set_secret ops e confirmed u w :
  sound ops e -> supplied ops e u w -> sound ops (set_secret confirmed u w e).
Proof. intros (H1 & H2 & H3 & H4) Hs. destruct confirmed; split_and!; cbn; try done; by left. Qed.

Lemma sound_mono ops o l : Forall (sound ops) l -> Forall (sound (ops ++ [o])) l.
Proof. intros H. eapply list.Forall_impl; [exact H|]. intros e (H1 & H2 & H3 & H4). split_and!; try done; by apply supplied_mono. Qed.

Lemma path_ordered url : folder_of (full url) `prefix_of` url_base_path before ws url /\
  url_base_path before ws url `prefix_of` full url.
Proof. apply path_order. Qed.

Lemma sound_set ops jar url t s r u w loc c a :
  Forall (sound ops) (m_WebAuthInfoList jar) ->
  let o := SetWeb url t s r u w loc c a in
  Forall (sound (ops ++ [o])) (m_WebAuthInfoList (exec_web before ws idn utf8Encoding jar o)).
Proof.
  intros H o. apply (sound_mono ops o) in H.
  assert (o ∈ ops ++ [o]) as Ho by set_solver.
  cbn [exec_web o]. unfold setWebUserPassword. cbv zeta.
  generalize (negb (isEmpty loc) || c) (negb (isEmpty loc) && FullBaseSame before ws idn utf8Encoding url (Str.chars loc)).
  intros conf fold.
  destruct (path_ordered url) as [Hp1 Hp2].
  destruct (find_info _ _ _) as [[i e]|] eqn:Ef.
  - apply find_info_some in Ef as [Hi Ht]. cbn [m_WebAuthInfoList with_web].
    rewrite list.Forall_lookup in H. pose proof (H i e Hi) as He. rewrite <- list.Forall_lookup in H.
    assert (supplied (ops ++ [o]) e u w) as Hs.
    { case_bool_decide as E; right; exists url, r, loc, c, a.
      - unfold matches_NTLM in Ht. rewrite !andb_true_iff, !bool_decide_eq_true in Ht.
        destruct Ht as [[-> ->] ->]. subst s. split_and!; [done|done|by left].
      - unfold matches_path in Ht. rewrite !andb_true_iff, orb_true_iff, !bool_decide_eq_true in Ht.
        destruct Ht as [[[[-> ->] Er] ->] Hp]. split_and!; [done|done|right; split; [done|]].
        destruct He as (He1 & He2 & _). destruct Hp as [Hp|Hp]; [by rewrite Hp|by rewrite <- Hp]. }
    apply Forall_insert; [done|]. apply sound_set_secret.
    + destruct (_ && _ && _); [by apply sound_set_basePath|done].
    + destruct (_ && _ && _); [|done]. apply supplied_set_basePath; [apply He|done].
  - destruct (_ || _); [done|]. cbn [m_WebAuthInfoList with_web]. apply Forall_app. split; [done|].
    constructor; [|done]. set (e := {| m_serverType := t |}).
    assert (supplied (ops ++ [o]) e u w) as Hs.
    { right. exists url, r, loc, c, a. split; [exact Ho|].
      cbn [e m_authScheme m_realm m_basePath m_host]. split; [reflexivity|]. case_bool_decide; [by left|right; split; [reflexivity|exact Hp1]]. }
    split_and!; cbn [e m_fullPath m_basePath m_user m_passwd m_tmpUser m_tmpPasswd].
    + case_bool_decide; [apply prefix_nil|exact Hp1].
    + case_bool_decide; [reflexivity|exact Hp2].
    + destruct conf; [exact Hs|by left].
    + destruct conf; [by left|exact Hs].
Qed.

Lemma sound_step ops jar o :
  Forall (sound ops) (m_WebAuthInfoList jar) ->
  Forall (sound (ops ++ [o])) (m_WebAuthInfoList (exec_web before ws idn utf8Encoding jar o)).
Proof.
  intros H. destruct o as [url t s r u w loc c a|url r|url r]; [by apply sound_set|..];
    match goal with |- Forall (sound (_ ++ [?o])) _ => apply (sound_mono _ o) in H end; cbn [exec_web].
  - destruct (get_effect jar url r) as (l & -> & [->|(i & e & Hi & ->)]); cbn; [done|].
    apply Forall_insert; [done|]. apply sound_set_basePath. by eapply (proj1 (list.Forall_lookup _ _)) in Hi.
  - unfold deleteWebUserPassword. cbv zeta. destruct (find_info _ _ _) as [[i e]|]; [|done]. cbn.
    rewrite list.Forall_forall in *. intros x Hx%elem_of_remove_at. by apply H.
Qed.

Lemma sound_run ops : Forall (sound ops) (m_WebAuthInfoList (run_web before ws idn utf8Encoding ops)).
Proof.
  unfold run_web. induction ops as [|o ops IH] using rev_ind; [constructor|].
  rewrite foldl_snoc. by apply sound_step.
Qed.

(** ** One host *)

(** A lookup that finds nothing before the last entry. *)
Lemma get_last jar l info url realm :
  m_WebAuthInfoList jar = l ++ [info] -> Forall (fun e => m_host e <> host_of url) l ->
  candidate (host_of url) realm info -> m_basePath info `prefix_of` full url ->
  snd (get jar url realm) = Some (credentials (m_confirmed info) info).
Proof.
  intros E Hl [Hc1 Hc2] Hp. unfold getWebUserPassword. cbv zeta. rewrite E, last_snoc, get_loop_skip by done.
  cbn [get_loop]. rewrite bool_decide_eq_true_2 by done. rewrite Hc2. cbn [negb].
  case_bool_decide; [done|]. rewrite !startsWith_prefix. case_bool_decide; [done|].
  by rewrite bool_decide_eq_true_2.
Qed.

End Runs.

(** ** Proxies *)
Section Proxies.
Context (before : Z) (ws : Z -> bool).
#[local] Abbreviation host_of := (url_host before ws).

Definition proxy_key (e : AuthInfo) : list Z * Z := (m_host e, m_port e).
Definition proxy_value (e : AuthInfo) : ProtectionSpaceAuthenticationScheme * Str.String * Str.String :=
  (m_authScheme e, m_user e, m_passwd e).

(** The list and the map hold the same, one entry for each key. *)
Record proxies (l : list AuthInfo) (m : proxy_map) : Prop := {
  px_keys : NoDup (proxy_key <$> l);
  px_type : Forall (fun e => m_serverType e = ProxyHTTP) l;
  px_map : forall k v, m !! k = Some v <-> exists j e, l !! j = Some e /\ proxy_key e = k /\ proxy_value e = v
}.

Lemma same_key l m i j e e' :
  proxies l m -> l !! i = Some e -> l !! j = Some e' -> proxy_key e = proxy_key e' -> i = j.
Proof.
  intros R Hi Hj E. eapply (proj1 (NoDup_alt _) (px_keys _ _ R) i j (proxy_key e)).
  - by rewrite list_lookup_fmap, Hi.
  - by rewrite list_lookup_fmap, Hj, E.
Qed.

Lemma key_test (h h' : list Z) (p p' : Z) : bool_decide (h = h') && (p =? p') = bool_decide ((h, p) = (h', p')).
Proof. destruct (Z.eqb_spec p p'); repeat case_bool_decide; naive_solver. Qed.

Lemma matches_proxy_key h p e :
  m_serverType e = ProxyHTTP -> matches_proxy h p e = bool_decide (proxy_key e = (h, p)).
Proof.
  intros E. unfold matches_proxy, proxy_key. rewrite E. cbn [serverType_value Z.ltb Z.compare negb andb].
  apply key_test.
Qed.

(** Any test that is about the key finds the entry of the key. *)
Lemma find_key l m test k :
  proxies l m -> (forall e, e ∈ l -> test e = bool_decide (proxy_key e = k)) ->
  match find_info test l 0 with
  | Some (i, e) => l !! i = Some e /\ proxy_key e = k /\ m !! k = Some (proxy_value e)
  | None => m !! k = None /\ k ∉ proxy_key <$> l
  end.
Proof.
  intros R Ht. destruct (find_info test l 0) as [[i e]|] eqn:E.
  - apply find_info_some in E as [Hi He]. rewrite Ht in He by by eapply list_elem_of_lookup_2.
    apply bool_decide_eq_true in He. split_and!; [done|done|]. apply (px_map _ _ R). by exists i, e.
  - apply find_info_none in E. rewrite list.Forall_forall in E.
    assert (forall j e, l !! j = Some e -> proxy_key e <> k) as Hno.
    { intros j e Hj Hk. apply list_elem_of_lookup_2 in Hj. specialize (E e Hj). rewrite Ht in E by done.
      by apply bool_decide_eq_false in E. }
    split.
    + apply eq_None_not_Some. intros [v (j & e & Hj & Hk & _)%(px_map _ _ R)]. by eapply Hno.
    + intros (e & -> & [j Hj]%list_elem_of_lookup)%list_elem_of_fmap. by eapply Hno.
Qed.

Lemma proxies_update l m i e s u w :
  proxies l m -> l !! i = Some e ->
  proxies (<[i := update_proxy s u w e]> l) (<[proxy_key e := (s, u, w)]> m).
Proof.
  intros R Hi. pose proof (lookup_lt_Some _ _ _ Hi) as Hlt. split.
  - rewrite list_fmap_insert. change (proxy_key (update_proxy s u w e)) with (proxy_key e).
    rewrite list_insert_id; [apply R|by rewrite list_lookup_fmap, Hi].
  - apply Forall_insert; [apply R|]. cbn. pose proof (px_type _ _ R) as HF. rewrite list.Forall_lookup in HF.
    by apply (HF i).
  - intros k v. rewrite lookup_insert_Some. split.
    + intros [[<- <-]|[Hk (j & e' & Hj & <- & <-)%(px_map _ _ R)]].
      * exists i, (update_proxy s u w e). by rewrite list_lookup_insert_eq.
      * exists j, e'. rewrite list_lookup_insert_ne; [done|]. intros ->. rewrite Hi in Hj. by injection Hj as ->.
    + intros (j & e' & Hj & <- & <-). apply list_lookup_insert_Some in Hj as [(-> & <- & _)|[Hne Hj]]; [by left|right].
      split; [|apply (px_map _ _ R); by exists j, e'].
      intros E. by destruct (Hne (same_key _ _ _ _ _ _ R Hi Hj E)).
Qed.

Lemma proxies_add l m e :
  proxies l m -> m_serverType e = ProxyHTTP -> proxy_key e ∉ proxy_key <$> l ->
  proxies (l ++ [e]) (<[proxy_key e := proxy_value e]> m).
Proof.
  intros R Ht Hk. split.
  - rewrite fmap_app. apply list.NoDup_app. split_and!; [apply R| |apply NoDup_singleton].
    intros k Hin Hk'. cbn in Hk'. apply list_elem_of_singleton in Hk' as ->. done.
  - apply Forall_app. split; [apply R|]. by constructor.
  - intros k v. rewrite lookup_insert_Some. split.
    + intros [[<- <-]|[Hne (j & e' & Hj & <- & <-)%(px_map _ _ R)]].
      * exists (length l), e. by rewrite lookup_app_r, Nat.sub_diag by lia.
      * exists j, e'. split; [by apply lookup_app_l_Some|done].
    + intros (j & e' & Hj & <- & <-). apply lookup_app_Some in Hj as [Hj|[Hge Hj]].
      * right. split; [|apply (px_map _ _ R); by exists j, e'].
        intros E. apply Hk. rewrite E. apply list_elem_of_fmap_2. by eapply list_elem_of_lookup_2.
      * left. destruct (j - length l)%nat; [|done]. by injection Hj as <-.
Qed.

Lemma remove_at_delete i l : remove_at i l = delete i l.
Proof. unfold remove_at. by rewrite delete_take_drop. Qed.

Lemma proxies_delete l m i e :
  proxies l m -> l !! i = Some e -> proxies (remove_at i l) (delete (proxy_key e) m).
Proof.
  intros R Hi. rewrite remove_at_delete. split.
  - rewrite list_fmap_delete. eapply sublist_NoDup; [apply R|apply sublist_delete].
  - apply Forall_delete, R.
  - intros k v. rewrite lookup_delete_Some, (px_map _ _ R). split.
    + intros [Hne (j & e' & Hj & <- & <-)]. destruct (decide (j < i)%nat).
      * exists j, e'. by rewrite list_lookup_delete_lt.
      * assert (j <> i) by (intros ->; rewrite Hi in Hj; by injection Hj as ->).
        exists (j - 1)%nat, e'. rewrite list_lookup_delete_ge by lia. by replace (S (j - 1)) with j by lia.
    + intros (j & e' & Hj & <- & <-). destruct (decide (j < i)%nat).
      * rewrite list_lookup_delete_lt in Hj by done. split; [|by exists j, e'].
        intros E. pose proof (same_key _ _ _ _ _ _ R Hi Hj E). lia.
      * rewrite list_lookup_delete_ge in Hj by lia. split; [|by exists (S j), e'].
        intros E. pose proof (same_key _ _ _ _ _ _ R Hi Hj E). lia.
Qed.

Lemma proxies_size l m : proxies l m -> length l = size m.
Proof.
  intros R. assert (m = list_to_map ((fun e => (proxy_key e, proxy_value e)) <$> l)) as ->.
  { apply map_eq. intros k. apply option_eq. intros v. rewrite (px_map _ _ R).
    rewrite <- elem_of_list_to_map by (rewrite <- list_fmap_compose; apply R).
    rewrite list_elem_of_fmap. split.
    - intros (j & e & Hj & <- & <-). exists e. split; [done|]. by eapply list_elem_of_lookup_2.
    - intros (e & [= -> ->] & [j Hj]%list_elem_of_lookup). by exists j, e. }
  rewrite map_size_list_to_map by (rewrite <- list_fmap_compose; apply R). by rewrite length_fmap.
Qed.

Lemma proxies_step jar m o :
  proxies (m_ProxyAuthInfoList jar) m -> proxy_op_ok o ->
  proxies (m_ProxyAuthInfoList (exec_proxy before ws jar o)) (spec_proxy before ws m o).
Proof.
  intros R Ho. pose proof (px_type _ _ R) as HF. rewrite list.Forall_forall in HF.
  destruct o as [url p s u w|url p]; cbn [exec_proxy spec_proxy proxy_op_ok] in *.
  - unfold setProxyUserPassword. cbv zeta. set (test := fun info => _).
    assert (forall e, e ∈ m_ProxyAuthInfoList jar -> test e = bool_decide (proxy_key e = (host_of url, p))) as Ht.
    { intros e He. unfold test, proxy_key. rewrite bool_decide_eq_true_2 by by apply HF. cbn [andb].
      apply key_test. }
    pose proof (find_key _ m test _ R Ht) as H. destruct (find_info test _ 0) as [[i e]|]; cbn [negb m_ProxyAuthInfoList with_proxy].
    + destruct H as (Hi & <- & _). by apply proxies_update.
    + destruct H as [_ Hk]. set (e := {| m_serverType := ProxyHTTP |}).
      assert (proxy_key e = (host_of url, p)) as E.
      { unfold proxy_key. cbn [e m_host m_port]. f_equal. apply Z.mod_small. exact Ho. }
      rewrite <- E in *. by apply proxies_add.
  - unfold deleteProxyUserPassword. cbv zeta.
    pose proof (find_key _ m (matches_proxy (host_of url) p) (host_of url, p) R) as H.
    destruct (find_info _ _ 0) as [[i e]|]; cbn [m_ProxyAuthInfoList with_proxy].
    + destruct H as (Hi & <- & _); [|by apply proxies_delete].
      intros x Hx. by apply matches_proxy_key, HF.
    + destruct H as [E _]; [|by rewrite delete_id]. intros x Hx. by apply matches_proxy_key, HF.
Qed.

End Proxies.
End JarFacts.

(** * The URL of a request *)
Module JarURL.
Import Jar JarFacts KURLParse.Canonical KURL.UpdateFacts KURLParse.CanonicalFacts.

(** What is left of a URL: the scheme, the host, the path and an empty query. *)
Definition site (p : parts) : parts := mkparts (scheme p) [] None (host p) None (path p) (Some []) None.

(** Emptying a component of a canonical URL leaves it canonical. *)
Lemma canonical_emptied p e :
  canonical p -> e ∈ [SetUser []; SetPass []; SetQuery (Some []); RemoveFragment; RemovePort] ->
  canonical (apply_edit e p).
Proof.
  intros [H1 H2 H3 H4 H5 H6 H7 H8 H9 H10 H11 H12] He. unfold tail_text in H12.
  rewrite !bytes_ok_app in H12. destruct H12 as (B1 & B2 & B3).
  assert (bytes_ok (path p ++ opt_text 63 (Some []) ++ frag_part p) /\
    bytes_ok (path p ++ query_part p ++ opt_text 35 None)) as [HB1 HB2].
  { rewrite !bytes_ok_app. split_and!; try done; by_eval. }
  assert (bytes_ok (path p ++ query_part p ++ frag_part p)) as HB by by rewrite !bytes_ok_app.
  destruct p as [sc us pa ho po pt qu fr]. unfold query_part, frag_part in *.
  rewrite !elem_of_cons in He. destruct He as [->|[->|[->|[->|[->|[]%not_elem_of_nil]]]]];
    split; unfold tail_text, query_part, frag_part; cbn in *; try done;
    try (intros ? [= <-]); try apply list.Forall_nil_2.
Qed.

Lemma sanitize_canonical before ws p :
  canonical p -> undotted p -> fst (sanitizeURL before ws (Update.parsedURL before (print p))) = canonical_url (site p).
Proof.
  intros Hp Hu. unfold Update.parsedURL. rewrite parse_string_print, undot_id by done.
  unfold sanitizeURL. cbv zeta. cbn [fst].
  assert (forall e q, canonical q -> undotted q ->
    e ∈ [SetUser []; SetPass []; SetQuery (Some []); RemoveFragment; RemovePort] ->
    run_edit before e (canonical_url q) = canonical_url (apply_edit e q) /\
    canonical (apply_edit e q) /\ undotted (apply_edit e q)) as Hs.
  { intros e q Hq Hv He. pose proof (canonical_emptied q e Hq He) as Hc. split_and!; [|done|].
    - apply run_edit_sound; try done. rewrite !elem_of_cons in He.
      by destruct He as [->|[->|[->|[->|[->|[]%not_elem_of_nil]]]]].
    - unfold undotted. by rewrite edit_path. }
  destruct (Hs (SetUser []) p) as (E1 & C1 & U1); [done|done|set_solver|].
  destruct (Hs (SetPass []) _ C1 U1) as (E2 & C2 & U2); [set_solver|].
  destruct (Hs (SetQuery (Some [])) _ C2 U2) as (E3 & C3 & U3); [set_solver|].
  destruct (Hs RemoveFragment _ C3 U3) as (E4 & C4 & U4); [set_solver|].
  destruct (Hs RemovePort _ C4 U4) as (E5 & _ & _); [set_solver|].
  cbn [run_edit] in *. rewrite E1, E2, E3, E4, E5. by destruct p.
Qed.

(** The host and the paths of a request are those of its components. *)
Lemma url_canonical before ws p :
  canonical p -> undotted p ->
  url_host before ws (print p) = host p /\ url_full_path before ws (print p) = with_slash (path p) /\
  url_base_path before ws (print p) = basePath (path p).
Proof.
  intros Hp Hu. unfold url_host, url_full_path, url_base_path, url_path. rewrite sanitize_canonical by done.
  assert (canonical (site p)) as Hc.
  { replace (site p) with (apply_edit RemovePort (apply_edit RemoveFragment (apply_edit (SetQuery (Some []))
      (apply_edit (SetPass []) (apply_edit (SetUser []) p))))) by by destruct p.
    repeat (apply canonical_emptied; [|set_solver]). done. }
  rewrite host_canonical, path_canonical by done. split; [done|].
  assert (Access.hasPath (canonical_url (site p)) = true) as ->.
  { destruct (c_path _ Hc) as [q Eq]. unfold Access.hasPath. cbn [m_pathEnd m_portEnd canonical_url].
    rewrite Eq. cbn [length]. apply negb_true_iff, Nat.eqb_neq. lia. }
  done.
Qed.

End JarURL.

(** * Theorems *)
Module JarProps.
Import Jar JarSpec JarFacts JarURL KURLParse.Canonical KURL.UpdateFacts.

Section Properties.
Context (before : Z) (ws : Z -> bool) (idn : list Z -> option (list Z)) (utf8Encoding : list Z -> list Z).


(** A lookup returns the most specific entry: the first whose full path is the
    requested one, else the longest full path that is a folder of it, else the
    longest base path; it finds nothing only when no entry covers the request. *)
Theorem get_most_specific (jar : AuthenticationJar) (url : list Z) (realm : Str.String) :
  match snd (getWebUserPassword before ws jar url realm) with
  | Some c => exists e z,
      chosen (url_host before ws url) (url_full_path before ws url) realm (m_WebAuthInfoList jar) e z /\
      c = credentials (m_confirmed z) e
  | None => Forall (fun e => candidate (url_host before ws url) realm e ->
      ~ m_fullPath e `prefix_of` url_full_path before ws url /\
      ~ m_basePath e `prefix_of` url_full_path before ws url) (m_WebAuthInfoList jar)
  end.
Proof. apply get_chosen. Qed.


(** Only the host and the path of a URL count: two URLs that agree on them get
    the same answer, whatever their schemes, ports, user names, queries and
    fragments are. *)
Theorem lookup_by_host_and_path (jar : AuthenticationJar) (p q : parts) (realm : Str.String) :
  canonical p -> undotted p -> canonical q -> undotted q -> host p = host q -> path p = path q ->
  getWebUserPassword before ws jar (print p) realm = getWebUserPassword before ws jar (print q) realm.
Proof.
  intros Hp Up Hq Uq Eh Ep. unfold getWebUserPassword.
  destruct (url_canonical before ws p Hp Up) as (H1 & H2 & _). destruct (url_canonical before ws q Hq Uq) as (H3 & H4 & _).
  by rewrite H1, H2, H3, H4, Eh, Ep.
Qed.

(** The proxies are a map from host and port to the credentials: any sequence
    of stores and deletions on a new jar does what the map operations do. *)
Theorem proxies_are_a_map (ops : list proxy_op) (url : list Z) (p : Z) :
  Forall proxy_op_ok ops ->
  let jar := foldl (exec_proxy before ws) AuthenticationJar_new ops in
  let m := foldl (spec_proxy before ws) ∅ ops in
  getProxyUserPassword before ws jar url p =
    (fun v : _ * _ * _ => (ProxyHTTP, fst (fst v), snd (fst v), snd v)) <$> m !! (url_host before ws url, p) /\
  length (m_ProxyAuthInfoList jar) = size m.
Proof.
  intros Hok jar m.
  assert (proxies (m_ProxyAuthInfoList jar) m) as R.
  { unfold jar, m. clear jar m. revert Hok. induction ops as [|o ops IH] using rev_ind; intros Hok.
    - split; [constructor|constructor|]. intros k v. cbn [foldl]. rewrite lookup_empty. split; [done|]. by intros (j & e & Hj & _).
    - apply Forall_app in Hok as [Ho Ho']. rewrite !foldl_snoc. apply proxies_step; [by apply IH|].
      by apply Forall_cons_iff in Ho' as [? _]. }
  pose proof (px_type _ _ R) as HF. rewrite list.Forall_forall in HF. split.
  - unfold getProxyUserPassword.
    pose proof (find_key _ m (matches_proxy (url_host before ws url) p) (url_host before ws url, p) R) as H.
    destruct (find_info _ _ 0) as [[i e]|].
    + destruct H as (Hi & _ & ->); [intros x Hx; by apply matches_proxy_key, HF|].
      cbn. by rewrite (HF e) by by eapply list_elem_of_lookup_2.
    + by destruct H as [-> _]; [intros x Hx; by apply matches_proxy_key, HF|].
  - by apply proxies_size.
Qed.

End Properties.
End JarProps.

(** * Concrete jars *)
Module JarWitness.
Import Jar JarSpec JarFacts JarURL JarProps KURLParse.Canonical KURL.UpdateFacts.

Definition no_space (_ : Z) : bool := false.
Definition no_idn (_ : list Z) : option (list Z) := None.
Definition same_text (s : list Z) : list Z := s.
Definition text (s : string) : Str.String := Some (str s).

(** A page of the site [a] asks for a password, and the request is repeated. *)
Definition visit : list web_op :=
  [SetWeb (str "http://a/b/c?q") ServerHTTP SchemeHTTPBasic (text "r") (text "me") (text "pw") None false true;
   GetWeb (str "http://a/b/d") (text "r");
   SetWeb (str "http://a/b/c?q") ServerHTTP SchemeHTTPBasic (text "r") (text "me") (text "pw") None true true].



Definition plain : parts := mkparts (str "http") [] None (str "a") (Some (str "8080")) (str "/b/c") None None.
Definition secure : parts := mkparts (str "https") (str "u") None (str "a") None (str "/b/c") (Some (str "q")) None.

Lemma lookup_by_host_and_path_witness :
  getWebUserPassword 0 no_space (run_web 0 no_space no_idn same_text visit) (print plain) (text "r") =
  getWebUserPassword 0 no_space (run_web 0 no_space no_idn same_text visit) (print secure) (text "r").
Proof.
  apply lookup_by_host_and_path.
  - unfold plain. KURLWitness.prove_canonical.
  - unfold undotted, KURLParse.DotSpec.not_dot. by_eval.
  - unfold secure. KURLWitness.prove_canonical.
  - unfold undotted, KURLParse.DotSpec.not_dot. by_eval.
  - reflexivity.
  - reflexivity.
Defined.

Definition proxy_ops : list proxy_op :=
  [SetProxy (str "http://p:8080") 8080 SchemeDefault (text "a") (text "x");
   SetProxy (str "http://q:80") 80 SchemeDefault (text "b") (text "y");
   SetProxy (str "http://p:8080") 8080 SchemeHTTPDigest (text "c") (text "z");
   DeleteProxy (str "http://q:80") 80].

Lemma proxies_are_a_map_witness :
  getProxyUserPassword 0 no_space (foldl (exec_proxy 0 no_space) AuthenticationJar_new proxy_ops) (str "http://p:8080") 8080
    = Some (ProxyHTTP, SchemeHTTPDigest, text "c", text "z").
Proof.
  destruct (proxies_are_a_map 0 no_space proxy_ops (str "http://p:8080") 8080) as [H _].
  - unfold proxy_ops. repeat constructor; cbn; lia.
  - rewrite H. vm_compute. reflexivity.
Defined.

(** The mark of the last entry decides about another one: a name that is not
    confirmed is kept from the request it was entered for. *)
Example mark_of_last :
  snd (getWebUserPassword 0 no_space
    (run_web 0 no_space no_idn same_text
      [SetWeb (str "http://a/b/c") ServerHTTP SchemeHTTPBasic (text "r") (text "me") (text "pw") None false true;
       SetWeb (str "http://z/") ServerHTTP SchemeHTTPBasic (text "r") (text "it") (text "no") None true true])
    (str "http://a/b/d") (text "r"))
    = Some (ServerHTTP, SchemeHTTPBasic, emptyString, emptyString).
Proof. vm_compute. reflexivity. Qed.

(** What is entered for the folder [/a/b/] goes into the entry of the file
    [/a/b], whose folder is [/a/]. *)
Example folder_widened :
  snd (getWebUserPassword 0 no_space
    (run_web 0 no_space no_idn same_text
      [SetWeb (str "http://a/d/b") ServerHTTP SchemeHTTPBasic (text "r") (text "one") (text "1") None true true;
       SetWeb (str "http://a/d/b/") ServerHTTP SchemeHTTPBasic (text "r") (text "two") (text "2") None true true])
    (str "http://a/d/x") (text "r"))
    = Some (ServerHTTP, SchemeHTTPBasic, text "two", text "2").
Proof. vm_compute. reflexivity. Qed.

(** A short full path is preferred to a long base path. *)
Example root_before_folder :
  snd (getWebUserPassword 0 no_space
    (run_web 0 no_space no_idn same_text
      [SetWeb (str "http://a/") ServerHTTP SchemeHTTPBasic (text "r") (text "root") (text "1") None true true;
       SetWeb (str "http://a/d/y") ServerHTTP SchemeHTTPBasic (text "r") (text "dir") (text "2") None true true])
    (str "http://a/d/x") (text "r"))
    = Some (ServerHTTP, SchemeHTTPBasic, text "root", text "1").
Proof. vm_compute. reflexivity. Qed.

(** A redirection into the folder of the request shows that it is a folder. *)
Example redirect_narrows :
  m_basePath <$> m_WebAuthInfoList (run_web 0 no_space no_idn same_text
    [SetWeb (str "http://a/d/b") ServerHTTP SchemeHTTPBasic (text "r") (text "me") (text "pw") None true true;
     SetWeb (str "http://a/d/b") ServerHTTP SchemeHTTPBasic (text "r") (text "me") (text "pw") (text "/d/b/index") true true])
    = [str "/d/b/"].
Proof. vm_compute. reflexivity. Qed.

End JarWitness.
