(* ===== verification/ProxyFilter.v ===== *)
(** * The proxy filter (ResourceHandleManager::ProxyFilter of
    WKC/WebCore/platform/network/WKC/ResourceHandleManagerWKC.cpp)

    The list of hosts that are reached without the proxy: names, domains,
    addresses and networks.  [Filters] translates the class: the reading of the
    user's list, the conversion of addresses and the test of a host.  A write
    outside the 16 bytes of an address, a string that cannot be built and a name
    that does not fit the buffer are [None].

    Theorems: the conversion of addresses stays in its array on any text and
    inverts the usual notations; a list of names lets through exactly these hosts
    and their subdomains; the hosts of a listed network are let through. *)
From stdpp Require Import sets.
From S2P Require Import Prelude UTF8 WString KURLParse KURL.
Import KURLParse.Class KURLParse.Scan KURLParse.Assemble.
#[local] Open Scope Z_scope.

(** * The class *)
Module Filters.
Import Str.

Inductive ProxyFilterType := NONE | FQDN | Domain | IPAddress | IPMask.
#[global] Instance filter_type_eq : EqDecision ProxyFilterType.
Proof. solve_decision. Defined.

Record Filter := {
  m_type : ProxyFilterType;
  m_filter : list Z;
  m_maskd : list Z;
}.
#[global] Instance filter_eq : EqDecision Filter.
Proof. solve_decision. Defined.

(** [Filter(type, filter, mask)], [None] for a null mask. *)
Definition Filter_new (type : ProxyFilterType) (filter : list Z) (mask : option (list Z)) : Filter :=
  {| m_type := type; m_filter := filter; m_maskd := default (replicate 16 0) mask |}.

(** ** Strings *)
Definition contains (s : list Z) (c : Z) : bool := bool_decide (Impl.find_char s c 0 <> None).
Definition split_char (s : list Z) (c : Z) : option (list (list Z)) := Str.split s [c] false.
(** [substring(length() - len, len)], where the difference wraps. *)
Definition right (s : list Z) (len : nat) : list Z :=
  if (length s <? len)%nat then [] else Impl.substring s (length s - len) len.
Definition in_brackets (s : list Z) : bool := Impl.startsWith s [91] && Impl.endsWith s [93].
Definition remove_brackets (s : list Z) : list Z :=
  if in_brackets s then Impl.substring s 1 (length s - 2) else s.

Section Filters.
Context (whiteSpaceNeutral : Z -> bool) (unicodeLower : list Z -> list Z).

(** The tables of Unicode are needed for other characters only. *)
Definition lower (s : list Z) : list Z := if forallb isASCII s then map toASCIILower s else unicodeLower s.

Definition stripWhiteSpace (s : list Z) : list Z :=
  Impl.stripMatchedCharacters (isSpaceOrNewline whiteSpaceNeutral) s.

(** ** Addresses *)

Definition CONV (c : Z) : Z := Z.land (if negb (Z.land c 0x10 =? 0) then c else c + 9) 0x0f.

(** [ip[i] = v]. *)
Definition put (ip : list Z) (i : nat) (v : Z) : option (list Z) :=
  if (i <? length ip)%nat then Some (<[i := u8 v]> ip) else None.

Definition high_byte (part : list Z) : Z :=
  let len := length part in
  Z.lor (if (3 <? len)%nat then Z.shiftl (CONV (at_ part (len - 4))) 4 else 0)
        (if (2 <? len)%nat then CONV (at_ part (len - 3)) else 0).
Definition low_byte (part : list Z) : Z :=
  let len := length part in
  Z.lor (if (1 <? len)%nat then Z.shiftl (CONV (at_ part (len - 2))) 4 else 0)
        (CONV (at_ part (len - 1))).

(** The version of the address, 0 if it is none, and the bytes. *)
Fixpoint ipv6_loop (parts : list (list Z)) (i pos size : nat) (ip : list Z) : option (Z * list Z) :=
  match parts with
  | [] => Some (6, ip)
  | part :: rest =>
      if (4 <? length part)%nat then Some (0, ip)
      else if bool_decide ([35] = part) then ipv6_loop rest (S i) (8 - (size - i) + 1) size ip
      else if negb (forallb isASCII part) then Some (0, ip)
      else
        match put ip (pos * 2) (high_byte part) with
        | Some ip =>
            match put ip (pos * 2 + 1) (low_byte part) with
            | Some ip => ipv6_loop rest (S i) (S pos) size ip
            | None => None
            end
        | None => None
        end
  end.

Fixpoint ipv4_loop (parts : list (list Z)) (i : nat) (ip : list Z) : option (Z * list Z) :=
  match parts with
  | [] => Some (4, ip)
  | part :: rest =>
      let '(num, isOK) := charactersToInt whiteSpaceNeutral part in
      if negb isOK then Some (0, ip)
      else if ((num <? 0) || (255 <? num))%Z then Some (0, ip)
      else match put ip i num with Some ip => ipv4_loop rest (S i) ip | None => None end
  end.

Definition convertIPStringToChar (host : list Z) : option (Z * list Z) :=
  let ip := replicate 16 0 in
  if contains host 58 then
    match Impl.replace (remove_brackets host) [58; 58] [58; 35; 58] with
    | None => None
    | Some host =>
        match split_char host 58 with
        | None => None
        | Some IPs =>
            if (8 <? length IPs)%nat then Some (0, ip) else ipv6_loop IPs 0 0 (length IPs) ip
        end
    end
  else if contains host 46 then
    if (length host <? 7)%nat then Some (0, ip)
    else
      match split_char host 46 with
      | None => None
      | Some IPs => if negb (length IPs =? 4)%nat then Some (0, ip) else ipv4_loop IPs 0 ip
      end
  else Some (0, ip).

(** ** Adding filters *)

(** Whether [new] succeeds. *)
Context (allocated : bool).

(** The member [append]. *)
Definition append_filter (l : list Filter) (newfilter : Filter) : list Filter :=
  if existsb (fun filter => bool_decide (m_type filter = m_type newfilter)
                && bool_decide (m_filter filter = m_filter newfilter)
                && bool_decide (m_maskd filter = m_maskd newfilter)) l
  then l else l ++ [newfilter].
Definition add_new (l : list Filter) (newfilter : Filter) : list Filter :=
  if allocated then append_filter l newfilter else l.

Definition prohibited : list Z := str "!$%&'()*+,./:;<=>?@[\]^`{|}~" ++ [34].

Definition hasProhibitCharactor (filter : list Z) : option bool :=
  match split_char filter 46 with
  | None => None
  | Some Parts =>
      Some (if (length Parts <? 2)%nat then true
            else existsb (fun part => Impl.startsWith part [45] || Impl.endsWith part [45]
                            || existsb (fun c => bool_decide (c ∈ prohibited)) part) Parts)
  end.

(** [strncpy(buf + 1, s, 510)] and the string read back from [buf + 1]: 510
    bytes and more are not terminated. *)
Definition buffered (s : list Z) : option (list Z) :=
  match Str.utf8 false false s with
  | None => None
  | Some c =>
      let c := Update.cstring c in
      if (length c <? 510)%nat then Some c else None
  end.

(** The trailing dot stays: the value of [left] is not used. *)
Definition setFQDN (l : list Filter) (filter : list Z) : option (list Filter * bool) :=
  if negb (contains filter 46) then Some (l, false)
  else
    match hasProhibitCharactor filter with
    | None => None
    | Some true => Some (l, false)
    | Some false =>
        match buffered filter with
        | None => None
        | Some buf =>
            let l := add_new l (Filter_new FQDN buf None) in
            Some (add_new l (Filter_new Domain (46 :: buf) None), true)
        end
    end.

Definition setDomain (l : list Filter) (filter : list Z) : option (list Filter * bool) :=
  if negb (Impl.startsWith filter [46]) then Some (l, false)
  else
    match hasProhibitCharactor filter with
    | None => None
    | Some true => Some (l, false)
    | Some false =>
        match buffered (right filter (length filter - 1)) with
        | None => None
        | Some buf =>
            let l := add_new l (Filter_new Domain (46 :: buf) None) in
            Some (add_new l (Filter_new FQDN buf None), true)
        end
    end.

Definition setIPAddress (l : list Filter) (filter : list Z) : option (list Filter * bool) :=
  if contains filter 47 then Some (l, false)
  else
    match convertIPStringToChar filter with
    | None => None
    | Some (ipver, _) =>
        if negb (4 =? ipver) && negb (6 =? ipver) then Some (l, false)
        else Some (add_new l (Filter_new IPAddress (remove_brackets filter) None), true)
    end.

(** The loop over the 16 bytes. *)
Fixpoint mask_bytes (mask : Z) (ip : list Z) : list Z :=
  match ip with
  | [] => []
  | b :: ip' =>
      let mask := if (mask <? 0)%Z then 0 else mask in
      (if (mask <? 8)%Z then u8 (Z.land b (Z.shiftl 0xff (8 - mask))) else b) :: mask_bytes (mask - 8) ip'
  end.

Definition setIPNetwork (l : list Filter) (filter : list Z) : option (list Filter * bool) :=
  if negb (contains filter 47) then Some (l, false)
  else
    match split_char filter 47 with
    | None => None
    | Some [ip0; ip1] =>
        match convertIPStringToChar ip0 with
        | None => None
        | Some (ipver, ipaddr) =>
            if negb (4 =? ipver) && negb (6 =? ipver) then Some (l, false)
            else
              let '(mask, isOK) := charactersToInt whiteSpaceNeutral ip1 in
              if negb isOK then Some (l, false)
              else if (if 4 =? ipver then (mask <? 8) || (32 <? mask) else negb (mask =? 48) && negb (mask =? 64))%Z
              then Some (l, false)
              else Some (add_new l (Filter_new IPMask [] (Some (mask_bytes mask ipaddr))), true)
        end
    | Some _ => Some (l, false)
    end.

(** The [else if] chain. *)
Definition set_one (l : list Filter) (filter : list Z) : option (list Filter) :=
  match setDomain l filter with
  | None => None
  | Some (l, true) => Some l
  | Some (l, false) =>
      match setIPAddress l filter with
      | None => None
      | Some (l, true) => Some l
      | Some (l, false) =>
          match setIPNetwork l filter with
          | None => None
          | Some (l, true) => Some l
          | Some (l, false) => fst <$> setFQDN l filter
          end
      end
  end.

Fixpoint set_loop (l : list Filter) (proxyFilters : list (list Z)) : option (list Filter) :=
  match proxyFilters with
  | [] => Some l
  | f :: rest =>
      let filter := stripWhiteSpace f in
      if contains filter 32 then set_loop l rest
      else match set_one l filter with Some l => set_loop l rest | None => None end
  end.

(** The filters the member had are deleted first. *)
Definition setProxyFilters (filters : Str.String) : option (list Filter) :=
  match filters with
  | None => Some []
  | Some filters =>
      match split_char (lower filters) 44 with Some fs => set_loop [] fs | None => None end
  end.

(** ** Testing a host *)

Definition masked (ipaddr maskd : list Z) : bool :=
  forallb (fun j => Z.land (at_ ipaddr j) (at_ maskd j) =? at_ maskd j) (seq 0 16).

Fixpoint match_loop (l : list Filter) (host lowerHost : list Z) (hostLen : nat) : option bool :=
  match l with
  | [] => Some false
  | filter :: rest =>
      let next := match_loop rest host lowerHost hostLen in
      match m_type filter with
      | FQDN | IPAddress => if bool_decide (m_filter filter = lowerHost) then Some true else next
      | Domain =>
          let filterLen := length (m_filter filter) in
          if (hostLen <=? filterLen)%nat then next
          else if bool_decide (m_filter filter = right lowerHost filterLen) then Some true else next
      | NONE | IPMask =>
          match convertIPStringToChar host with
          | None => None
          | Some (ipver, ipaddr) =>
              if 0 =? ipver then next else if masked ipaddr (m_maskd filter) then Some true else next
          end
      end
  end.

Definition isMatchProxyFilter (l : list Filter) (host : list Z) : option bool :=
  if bool_decide (host = str "127.0.0.1") then Some true
  else if bool_decide (host = str "localhost") then Some true
  else
    let '(lowerHost, hostLen) :=
      if in_brackets host then (remove_brackets host, length (remove_brackets host)) else (lower host, length host) in
    match_loop l host lowerHost hostLen.

End Filters.
End Filters.

(** * Facts *)
Module FilterFacts.
Import Impl Str SearchFacts StrFacts Filters.

(** ** Searching and splitting at a character *)

Lemma contains_spec s c : contains s c = bool_decide (c ∈ s).
Proof.
  unfold contains. apply bool_decide_ext. pose proof (find_char_first s c 0) as H.
  destruct (find_char s c 0) as [i|]; cbn in H.
  - destruct H as (_ & Hat & _). apply at_pos_single in Hat. split; [|done]. intros _. by eapply list_elem_of_lookup_2.
  - split; [done|]. intros [i Hi]%list_elem_of_lookup. by destruct (H i ltac:(lia)); apply at_pos_single.
Qed.

Lemma startsWith_char s c : startsWith s [c] = bool_decide (s !! 0%nat = Some c).
Proof.
  apply eq_bool_prop_intro. rewrite bool_decide_spec, Is_true_true, (proj1 (StringProps.startsWith_endsWith s [c])).
  split; [by intros [k ->]|]. destruct s as [|x s]; [done|]. intros [= ->]. by exists s.
Qed.

Lemma endsWith_char s c : endsWith s [c] = bool_decide (list.last s = Some c).
Proof.
  apply eq_bool_prop_intro. rewrite bool_decide_spec, Is_true_true, (proj2 (StringProps.startsWith_endsWith s [c])).
  rewrite last_Some. done.
Qed.

Lemma absent_char c p : absent [c] p <-> c ∉ p.
Proof.
  unfold absent. setoid_rewrite at_pos_single. split.
  - intros H [i Hi]%list_elem_of_lookup. by apply (H i).
  - intros H i Hi. apply H. by eapply list_elem_of_lookup_2.
Qed.

Lemma join_inj c ps qs :
  ps <> [] -> qs <> [] -> Forall (fun p => c ∉ p) ps -> Forall (fun p => c ∉ p) qs ->
  join [c] ps = join [c] qs -> ps = qs.
Proof.
  intros Hp Hq Fp. revert qs Hp Hq. induction Fp as [|p ps Hc Fp IH]; intros qs Hp Hq Fq E; [done|].
  destruct Fq as [|q qs Hd Fq]; [done|].
  assert (forall (r : list Z) rs x, c ∉ x -> rs <> [] -> x <> join [c] (r :: rs)) as Hne.
  { intros r rs x Hx Hrs ->. rewrite join_cons in Hx by done. set_solver. }
  destruct ps as [|p' ps], qs as [|q' qs]; [cbn in E; congruence| | |].
  - by destruct (Hne q (q' :: qs) p Hc).
  - by destruct (Hne p (p' :: ps) q Hd).
  - rewrite !join_cons in E by done. cbn [app] in E.
    apply not_elem_of_app_cons_inv_l in E as (-> & _ & E); [|done..]. f_equal. by apply IH.
Qed.

Lemma split_join c ps :
  ps <> [] -> Forall (fun p => c ∉ p) ps -> split_char (join [c] ps) c = Some (List.filter nonempty ps).
Proof.
  intros Hne Hp.
  destruct (split_loop_spec (S (length (join [c] ps))) (join [c] ps) [c] 0 ltac:(done) ltac:(lia) ltac:(lia))
    as (qs & _ & Hq & Ej & Hab & E & _).
  rewrite drop_0 in Ej. unfold split_char, split. rewrite E. do 2 f_equal. symmetry. apply (join_inj c); try done.
  eapply list.Forall_impl; [exact Hab|]. intros q. apply absent_char.
Qed.

Lemma split_nonempty s c : exists ps, split_char s c = Some ps /\ Forall (fun p => p <> [] /\ c ∉ p) ps.
Proof.
  destruct (split_loop_spec (S (length s)) s [c] 0 ltac:(done) ltac:(lia) ltac:(lia))
    as (qs & _ & _ & _ & Hab & E & _).
  exists (List.filter nonempty qs). split; [exact E|]. rewrite list.Forall_forall in *. intros p Hp.
  apply list_elem_of_In, filter_In in Hp as [Hin Hn]. split; [by intros ->|].
  apply absent_char, Hab. by apply list_elem_of_In.
Qed.

Lemma filter_nonempty ps : Forall (fun p => p <> []) ps -> List.filter nonempty ps = ps.
Proof. intros H. induction H as [|p ps Hp _ IH]; [done|]. cbn. rewrite IH. by destruct p. Qed.

Lemma join_app sep ps qs : ps <> [] -> qs <> [] -> join sep (ps ++ qs) = join sep ps ++ sep ++ join sep qs.
Proof.
  intros Hp Hq. induction ps as [|p ps IH]; [done|]. destruct ps as [|p' ps].
  - cbn [app]. by rewrite join_cons.
  - change ((p :: p' :: ps) ++ qs) with (p :: (p' :: ps) ++ qs).
    rewrite (join_cons _ p), IH, (join_cons _ p) by done. by rewrite <- !app_assoc.
Qed.

Lemma elem_of_join c d ps : c ∈ join [d] ps -> c = d \/ exists p, p ∈ ps /\ c ∈ p.
Proof.
  induction ps as [|p ps IH]; [set_solver|]. destruct ps as [|p' ps].
  - cbn [join]. intros ?. right. exists p. set_solver.
  - rewrite join_cons by done. rewrite !elem_of_app, list_elem_of_singleton. intros [?|[?|?]].
    + right. exists p. set_solver.
    + by left.
    + destruct IH as [?|(q & ? & ?)]; [done|by left|right]. exists q. set_solver.
Qed.

Lemma in_brackets_false s : s !! 0%nat <> Some 91 -> in_brackets s = false.
Proof. intros H. unfold in_brackets. by rewrite startsWith_char, bool_decide_eq_false_2. Qed.

Lemma remove_brackets_none s : s !! 0%nat <> Some 91 -> remove_brackets s = s.
Proof. intros H. unfold remove_brackets. by rewrite in_brackets_false. Qed.

(** ** Writing addresses *)

Definition is_ip (ip : list Z) : Prop := length ip = 16%nat /\ bytes_ok ip.

Lemma put_ok ip i v : is_ip ip -> (i < 16)%nat -> exists ip', put ip i v = Some ip' /\ is_ip ip'.
Proof.
  intros [Hl Hb] Hi. unfold put. rewrite Hl. destruct (Nat.ltb_spec i 16); [|lia].
  eexists. split; [done|]. split; [by rewrite length_insert|]. apply Forall_insert; [done|]. dlia.
Qed.

Definition known_version (v : Z) : Prop := v = 0 \/ v = 4 \/ v = 6.

(** The position never passes the parts that are left. *)
Lemma ipv6_loop_ok parts i pos size ip :
  is_ip ip -> (pos + length parts <= 8)%nat -> (i + length parts = size)%nat -> (size <= 8)%nat ->
  exists v ip', ipv6_loop parts i pos size ip = Some (v, ip') /\ known_version v /\ is_ip ip'.
Proof.
  unfold known_version. revert i pos ip. induction parts as [|part rest IH]; intros i pos ip Hip Hpos Hi Hs; cbn [ipv6_loop length] in *.
  { exists 6, ip. auto. }
  destruct (4 <? length part)%nat; [exists 0, ip; auto|]. case_bool_decide; [apply IH; [done|lia..]|].
  destruct (negb _); [exists 0, ip; auto|].
  destruct (put_ok ip (pos * 2) (high_byte part)) as (ip1 & -> & H1); [done|lia|].
  destruct (put_ok ip1 (pos * 2 + 1) (low_byte part)) as (ip2 & -> & H2); [done|lia|].
  apply IH; [done|lia..].
Qed.

Lemma ipv4_loop_ok ws parts i ip :
  is_ip ip -> (i + length parts <= 16)%nat ->
  exists v ip', ipv4_loop ws parts i ip = Some (v, ip') /\ known_version v /\ is_ip ip'.
Proof.
  unfold known_version. revert i ip. induction parts as [|part rest IH]; intros i ip Hip Hi; cbn [ipv4_loop length] in *.
  { exists 4, ip. auto. }
  destruct (charactersToInt ws part) as [num isOK]. destruct (negb isOK); [exists 0, ip; auto|].
  destruct (_ || _); [exists 0, ip; auto|].
  destruct (put_ok ip i num) as (ip1 & -> & H1); [done|lia|]. apply IH; [done|lia].
Qed.

Lemma zeros_ip : is_ip (replicate 16 0).
Proof. split; [done|by_eval]. Qed.

(** Doubling the colons fits in a string. *)
Lemma replace_fits s :
  Z.of_nat (length s) <= 2 ^ 31 -> exists r, Impl.replace s [58; 58] [58; 35; 58] = Some r.
Proof.
  intros Hs. destruct (StringProps.replace_is_join s [58; 58] [58; 35; 58] ltac:(done)) as (ps & E & ->).
  { unfold UINT_MAX. lia. }
  destruct (split_loop_spec (S (length s)) s [58; 58] 0 ltac:(done) ltac:(lia) ltac:(lia)) as (qs & E' & Hq & Ej & _).
  unfold split in E. rewrite E in E'. injection E' as <-. rewrite drop_0 in Ej.
  pose proof (length_join [58; 58] ps Hq) as L1. pose proof (length_join [58; 35; 58] ps Hq) as L2.
  rewrite Ej in L1. cbn [length] in L1, L2. unfold UINT_MAX.
  destruct (Z.leb_spec (Z.of_nat (length (join [58; 35; 58] ps))) (2 ^ 32 - 1)); [eauto|lia].
Qed.

(** ** The notations of addresses *)

Definition hexval (c : Z) : Z :=
  if isASCIIDigit c then c - 48 else if (97 <=? c)%Z then c - 87 else c - 55.
Definition is_hex (c : Z) : bool :=
  isASCIIDigit c || ((97 <=? c) && (c <=? 102)) || ((65 <=? c) && (c <=? 70)).

(** One to four hexadecimal digits, and the two bytes they stand for. *)
Definition group (g : list Z) : Prop := (1 <= length g <= 4)%nat /\ Forall (fun c => is_hex c = true) g.
Definition group_value (g : list Z) : Z := fold_left (fun v c => 16 * v + hexval c) g 0.
Definition group_bytes (g : list Z) : list Z := [group_value g / 256; group_value g mod 256].
Definition groups_bytes (gs : list (list Z)) : list Z := concat (map group_bytes gs).

Lemma is_hex_range c : is_hex c = true -> 48 <= c <= 102 /\ c <> 58 /\ c <> 91.
Proof. unfold is_hex, isASCIIDigit. lia. Qed.

Lemma CONV_hexval c : is_hex c = true -> CONV c = hexval c /\ 0 <= hexval c < 16.
Proof.
  intros H. pose proof (is_hex_range c H) as [Hr _].
  assert (forallb (fun k => let c := Z.of_nat k in
    negb (is_hex c) || ((CONV c =? hexval c) && (0 <=? hexval c) && (hexval c <? 16))) (seq 0 128) = true) as A
    by (vm_compute; reflexivity).
  rewrite forallb_forall in A. specialize (A (Z.to_nat c) ltac:(apply in_seq; lia)). cbv zeta in A.
  rewrite Z2Nat.id, H in A by lia. cbn [negb orb] in A. lia.
Qed.

Lemma nibbles a b : 0 <= a < 16 -> 0 <= b < 16 -> Z.lor (Z.shiftl a 4) b = 16 * a + b.
Proof.
  intros Ha Hb. assert (forallb (fun i => forallb (fun j =>
    Z.lor (Z.shiftl (Z.of_nat i) 4) (Z.of_nat j) =? 16 * Z.of_nat i + Z.of_nat j) (seq 0 16)) (seq 0 16) = true) as A
    by (vm_compute; reflexivity).
  rewrite forallb_forall in A. specialize (A (Z.to_nat a) ltac:(apply in_seq; lia)). rewrite forallb_forall in A.
  specialize (A (Z.to_nat b) ltac:(apply in_seq; lia)). rewrite !Z2Nat.id in A by lia. lia.
Qed.

Lemma group_written g : group g -> [u8 (high_byte g); u8 (low_byte g)] = group_bytes g.
Proof.
  intros [Hl Hg]. unfold group_bytes, group_value, high_byte, low_byte.
  assert (forall a b c d, 0 <= a < 16 -> 0 <= b < 16 -> 0 <= c < 16 -> 0 <= d < 16 ->
    [u8 (16 * a + b); u8 (16 * c + d)] =
    [(16 * (16 * (16 * a + b) + c) + d) / 256; (16 * (16 * (16 * a + b) + c) + d) mod 256]) as Hv.
  { intros. cons_eq; dlia. }
  repeat match goal with
  | H : Forall _ (_ :: _) |- _ => apply Forall_cons_iff in H as [? H]
  | H : Forall _ ?l |- _ => is_var l; destruct l as [|? l]; cbn [length] in Hl; try lia
  end; cbn [length Nat.ltb Nat.leb Nat.sub at_ lookup list_lookup default id fold_left];
  repeat match goal with H : is_hex ?c = true |- _ => destruct (CONV_hexval c H) as [-> ?]; clear H end;
  rewrite ?Z.lor_0_r, ?Z.lor_0_l, ?nibbles by lia.
  - etrans; [|etrans; [apply (Hv 0 0 0 (hexval z)); lia|]]; cons_eq; f_equal; lia.
  - etrans; [|etrans; [apply (Hv 0 0 (hexval z) (hexval z0)); lia|]]; cons_eq; f_equal; lia.
  - etrans; [|etrans; [apply (Hv 0 (hexval z) (hexval z0) (hexval z1)); lia|]]; cons_eq; f_equal; lia.
  - etrans; [|etrans; [apply (Hv (hexval z) (hexval z0) (hexval z1) (hexval z2)); lia|]]; cons_eq; f_equal; lia.
Qed.

Lemma put_here X y Y i v : i = length X -> put (X ++ y :: Y) i v = Some (X ++ u8 v :: Y).
Proof.
  intros ->. unfold put. rewrite length_app. cbn [length].
  destruct (Nat.ltb_spec (length X) (length X + S (length Y))); [|lia].
  f_equal. by rewrite insert_app_r_alt, Nat.sub_diag by lia.
Qed.

Lemma group_ascii g : group g -> forallb isASCII g = true.
Proof.
  intros [_ Hg]. apply forallb_forall. intros c Hc. rewrite list.Forall_forall in Hg.
  apply list_elem_of_In, Hg, is_hex_range in Hc. unfold isASCII. lia.
Qed.

(** Groups are written one after the other. *)
Lemma ipv6_groups gs rest i pos size X Y :
  Forall group gs -> length X = (2 * pos)%nat -> (2 * length gs <= length Y)%nat ->
  ipv6_loop (gs ++ rest) i pos size (X ++ Y) =
  ipv6_loop rest (i + length gs) (pos + length gs) size (X ++ groups_bytes gs ++ drop (2 * length gs) Y).
Proof.
  intros Hg. revert i pos X Y. induction Hg as [|g gs Hg Hgs IH]; intros i pos X Y HX HY.
  { cbn [app length]. by rewrite !Nat.add_0_r. }
  cbn [app length ipv6_loop] in *. pose proof Hg as [Hl Hh].
  destruct (Nat.ltb_spec 4 (length g)); [lia|].
  rewrite bool_decide_eq_false_2 by (intros <-; by apply Forall_cons_iff in Hh as [? _]).
  rewrite group_ascii by done. cbn [negb].
  destruct Y as [|y0 [|y1 Y]]; cbn [length] in HY; try lia.
  rewrite put_here by lia. change (X ++ u8 (high_byte g) :: y1 :: Y) with (X ++ [u8 (high_byte g)] ++ y1 :: Y).
  rewrite app_assoc, put_here by (rewrite length_app; cbn [length]; lia).
  replace ((X ++ [u8 (high_byte g)]) ++ u8 (low_byte g) :: Y) with ((X ++ group_bytes g) ++ Y)
    by (rewrite <- group_written by done; by rewrite <- !app_assoc).
  rewrite IH; [|rewrite length_app; cbn [group_bytes length]; lia|lia].
  replace (2 * S (length gs))%nat with (S (S (2 * length gs))) by lia. cbn [drop].
  unfold groups_bytes. cbn [map concat]. rewrite <- !app_assoc. f_equal; lia.
Qed.

(** No colon is last or followed by another. *)
Definition no_double (s : list Z) : Prop := forall p, s !! p = Some 58 -> exists d, s !! S p = Some d /\ d <> 58.

Lemma no_double_join gs : Forall group gs -> no_double (join [58] gs).
Proof.
  intros Hg. induction Hg as [|g gs Hg Hgs IH]; [done|].
  assert (forall p, g !! p <> Some 58) as Hno.
  { intros p Hp%list_elem_of_lookup_2. destruct Hg as [_ Hg]. rewrite list.Forall_forall in Hg.
    apply Hg, is_hex_range in Hp. lia. }
  destruct gs as [|g' gs]; [intros p Hp; by destruct (Hno p)|].
  rewrite join_cons by done. intros p Hp. rewrite lookup_app in Hp.
  destruct (g !! p) eqn:E; [injection Hp as ->; by destruct (Hno p)|]. apply lookup_ge_None in E.
  rewrite lookup_app_r by lia. replace (S p - length g)%nat with (S (p - length g)) by lia.
  destruct (p - length g)%nat as [|k]; [|cbn in Hp |- *; by apply IH].
  apply Forall_cons_iff in Hgs as [[Hl Hh] _]. destruct g' as [|c g']; [cbn in Hl; lia|]. exists c.
  apply Forall_cons_iff in Hh as [Hc _]. apply is_hex_range in Hc.
  split; [|lia]. by destruct gs.
Qed.

Lemma double_here A B p : no_double A -> at_pos (A ++ B) [58; 58] p -> (length A <= p)%nat \/ (S p = length A)%nat.
Proof.
  intros HA Hat. destruct (decide (length A <= p)%nat); [by left|right].
  unfold at_pos in Hat. cbn [length] in Hat.
  assert ((A ++ B) !! p = Some 58 /\ (A ++ B) !! S p = Some 58) as [H1 H2].
  { rewrite <- (Nat.add_0_r p) at 1. rewrite <- Nat.add_1_r, <- !lookup_drop.
    split; rewrite <- (lookup_take_lt _ 2) by lia; by rewrite Hat. }
  rewrite lookup_app_l in H1 by lia. destruct (HA p H1) as (d & Hd & Hn). exfalso.
  rewrite lookup_app_l in H2 by (by eapply lookup_lt_Some). congruence.
Qed.

Lemma no_double_end A B p : no_double A -> at_pos (A ++ B) [58; 58] p -> (length A <= p)%nat.
Proof.
  intros HA Hat. destruct (double_here A B p HA Hat) as [?|E]; [done|].
  assert (A !! p = Some 58) as Hp.
  { unfold at_pos in Hat. cbn [length] in Hat.
    assert ((A ++ B) !! p = Some 58) as H by (rewrite <- (Nat.add_0_r p) at 1; rewrite <- lookup_drop,
      <- (lookup_take_lt _ 2) by lia; by rewrite Hat).
    by rewrite lookup_app_l in H by lia. }
  destruct (HA p Hp) as (d & Hd & _). apply lookup_lt_Some in Hd. lia.
Qed.

Lemma replace_none A : no_double A -> Impl.replace A [58; 58] [58; 35; 58] = Some A.
Proof.
  intros HA. assert (find A [58; 58] 0 = None) as E.
  { pose proof (find_first_occurrence A [58; 58] 0 ltac:(by left)) as H. destruct (find _ _ _) as [p|]; [|done].
    destruct H as (_ & Hat & _). pose proof (at_pos_bound A [58; 58] p ltac:(done) Hat) as Hb. cbn in Hb.
    rewrite <- (app_nil_r A) in Hat. apply no_double_end in Hat; [lia|done]. }
  unfold Impl.replace. cbn [length Nat.eqb count_matches]. by rewrite E.
Qed.

Lemma replace_one A B :
  no_double A -> no_double B -> Z.of_nat (length A + length B) < 2 ^ 31 ->
  Impl.replace (A ++ [58; 58] ++ B) [58; 58] [58; 35; 58] = Some (A ++ [58; 35; 58] ++ B).
Proof.
  intros HA HB Hmax. set (s := A ++ [58; 58] ++ B).
  assert (find s [58; 58] 0 = Some (length A)) as E1.
  { pose proof (find_first_occurrence s [58; 58] 0 ltac:(by left)) as H.
    assert (at_pos s [58; 58] (length A)) as Hhere by (unfold at_pos, s; by rewrite drop_app_length).
    destruct (find s _ _) as [p|]; cbn in H; [|by destruct (H (length A) ltac:(lia))].
    destruct H as (_ & Hat & Hno). apply no_double_end in Hat; [|done]. f_equal.
    destruct (decide (p = length A)); [done|]. by destruct (Hno (length A) ltac:(lia)). }
  assert (find s [58; 58] (length A + 2) = None) as E2.
  { pose proof (find_first_occurrence s [58; 58] (length A + 2) ltac:(by left)) as H.
    destruct (find s [58; 58] (length A + 2)) as [p|]; [|done]. cbn [first_occurrence] in H. destruct H as (Hp & Hat & _).
    pose proof (at_pos_bound s [58; 58] p ltac:(done) Hat) as Hb. unfold s in Hb. rewrite !length_app in Hb. cbn in Hb.
    replace p with ((length A + 2) + (p - (length A + 2)))%nat in Hat by lia.
    apply at_pos_drop in Hat. replace (drop (length A + 2) s) with (B ++ []) in Hat.
    - apply no_double_end in Hat; [lia|done].
    - unfold s. rewrite app_nil_r, app_assoc, drop_app_length'; [done|]. by rewrite length_app. }
  assert (length s = (length A + 2 + length B)%nat) as El by (unfold s; rewrite !length_app; cbn; lia).
  unfold Impl.replace. destruct (length s) as [|k] eqn:Ek; [lia|].
  cbn [length Nat.eqb count_matches replace_loop]. rewrite !E1. cbn [count_matches replace_loop length]. rewrite !E2.
  cbn [Z.of_nat Pos.of_succ_nat]. unfold UINT_MAX.
  repeat match goal with |- context [Z.eqb ?a ?b] => destruct (Z.eqb_spec a b); [lia|] end. cbn [negb andb].
  repeat match goal with |- context [Z.ltb ?a ?b] => destruct (Z.ltb_spec a b); [lia|] end.
  assert (drop (length A + 2) s = B) as ->.
  { unfold s. rewrite app_assoc, drop_app_length'; [done|]. by rewrite length_app. }
  rewrite Nat.sub_0_r, drop_0. unfold s. rewrite take_app_length. cbn [app]. by rewrite <- app_assoc.
Qed.

Definition colons (gs : list (list Z)) : list Z := join [58] gs.

Lemma group_chars g c : group g -> c ∈ g -> 48 <= c <= 102 /\ c <> 58 /\ c <> 91.
Proof. intros [_ Hg] Hc. rewrite list.Forall_forall in Hg. by apply is_hex_range, Hg. Qed.

Lemma colons_chars gs c : Forall group gs -> c ∈ colons gs -> c = 58 \/ 48 <= c <= 102 /\ c <> 91.
Proof.
  intros Hg [?|(g & Hin & Hc)]%elem_of_join; [by left|right]. rewrite list.Forall_forall in Hg.
  apply (group_chars g) in Hc; [lia|by apply Hg].
Qed.

Lemma group_piece g : group g -> g <> [] /\ 58 ∉ g.
Proof.
  intros Hg. split; [by intros ->; destruct Hg; cbn in *; lia|]. intros Hc%group_chars; [lia|done].
Qed.

Lemma groups_kept gs : Forall group gs -> List.filter nonempty gs = gs /\ Forall (fun p => 58 ∉ p) gs.
Proof.
  intros H. split; [apply filter_nonempty|]; (eapply list.Forall_impl; [exact H|]; apply group_piece).
Qed.

Lemma no_bracket (s : list Z) : 91 ∉ s -> s !! 0%nat <> Some 91.
Proof. intros H Hs. apply H. by eapply list_elem_of_lookup_2. Qed.

Lemma groups_bytes_length gs : length (groups_bytes gs) = (2 * length gs)%nat.
Proof. induction gs as [|g gs IH]; [done|]. unfold groups_bytes in *. cbn. rewrite IH. lia. Qed.

Section Addresses.
Context (ws : Z -> bool).

(** Eight groups. *)
Lemma convert_groups gs :
  length gs = 8%nat -> Forall group gs -> convertIPStringToChar ws (colons gs) = Some (6, groups_bytes gs).
Proof.
  intros Hl Hg. unfold convertIPStringToChar. cbv zeta.
  assert (91 ∉ colons gs) as Hb by (intros Hc%colons_chars; [lia|done]).
  rewrite contains_spec, bool_decide_eq_true_2; [|destruct gs as [|g [|g' gs]]; try done; unfold colons;
    rewrite join_cons by done; set_solver].
  rewrite remove_brackets_none by by apply no_bracket.
  rewrite replace_none by by apply no_double_join.
  destruct (groups_kept gs Hg) as [Hk Hc]. unfold colons. rewrite split_join.
  - rewrite Hk, Hl. cbn [Nat.ltb Nat.leb]. rewrite <- (app_nil_r gs) at 1.
    change (replicate 16 0) with ([] ++ replicate 16 0). rewrite ipv6_groups by (done || (rewrite Hl; cbn; lia)).
    rewrite Hl. cbn [ipv6_loop app]. by rewrite app_nil_r.
  - by destruct gs.
  - done.
Qed.

(** Two runs of groups around a pair of colons. *)
Lemma convert_compressed pre post :
  Forall group pre -> Forall group post -> (length pre + length post <= 7)%nat ->
  convertIPStringToChar ws (colons pre ++ [58; 58] ++ colons post) =
  Some (6, groups_bytes pre ++ replicate (16 - 2 * (length pre + length post)) 0 ++ groups_bytes post).
Proof.
  intros Hpre Hpost Hl. unfold convertIPStringToChar. cbv zeta.
  assert (91 ∉ colons pre ++ [58; 58] ++ colons post) as Hb.
  { rewrite !elem_of_app. intros [Hc|[Hc|Hc]]; [apply colons_chars in Hc; [lia|done]|set_solver|apply colons_chars in Hc; [lia|done]]. }
  rewrite contains_spec, bool_decide_eq_true_2 by set_solver.
  rewrite remove_brackets_none by by apply no_bracket.
  assert (forall gs, Forall group gs -> (length gs <= 7)%nat -> (length (colons gs) <= 40)%nat) as Hshort.
  { intros gs Hg Hgl. unfold colons. destruct (decide (gs = [])) as [->|Hne]; [cbn; lia|].
    pose proof (length_join [58] gs Hne) as E. cbn [length] in E.
    assert (length (join [] gs) <= 4 * length gs)%nat; [|lia]. clear -Hg. induction Hg as [|g gs [Hl _] _ IH]; [done|].
    destruct gs as [|g' gs]; [cbn; lia|]. rewrite join_cons, !length_app by done. cbn [length] in *. lia. }
  pose proof (Hshort pre Hpre ltac:(lia)). pose proof (Hshort post Hpost ltac:(lia)).
  rewrite replace_one by (by apply no_double_join || lia).
  set (pre' := match pre with [] => [[]] | _ => pre end). set (post' := match post with [] => [[]] | _ => post end).
  assert (colons pre ++ [58; 35; 58] ++ colons post = join [58] (pre' ++ [35] :: post')) as ->.
  { rewrite join_app by (by destruct pre || done). rewrite join_cons by by destruct post.
    unfold pre', post'. by destruct pre, post. }
  assert (Forall (fun p => 58 ∉ p) pre' /\ Forall (fun p => 58 ∉ p) post') as [F1 F2].
  { split; [destruct pre|destruct post]; cbn; try (repeat constructor; set_solver); by apply groups_kept. }
  rewrite split_join; [|by destruct pre|apply Forall_app; split; [done|]; constructor; [set_solver|done]].
  rewrite filter_app. change (List.filter nonempty ([35] :: post')) with ([35] :: List.filter nonempty post').
  assert (List.filter nonempty pre' = pre /\ List.filter nonempty post' = post) as [-> ->].
  { split; [destruct pre|destruct post]; try done; by apply groups_kept. }
  rewrite length_app. cbn [length]. destruct (Nat.ltb_spec 8 (length pre + S (length post))); [lia|].
  change (replicate 16 0) with ([] ++ replicate 16 0).
  rewrite ipv6_groups by (done || (rewrite length_replicate; lia)). cbn [app ipv6_loop length Nat.ltb Nat.leb].
  rewrite bool_decide_eq_true_2 by done. rewrite drop_replicate. 
  set (n := (8 - _ + 1)%nat). assert (n = 8 - length post)%nat as En by (unfold n; lia).
  rewrite <- (app_nil_r post) at 1.
  replace (groups_bytes pre ++ replicate (16 - 2 * length pre) 0) with
    ((groups_bytes pre ++ replicate (16 - 2 * (length pre + length post)) 0) ++ replicate (2 * length post) 0)
    by (rewrite <- app_assoc; f_equal; rewrite <- replicate_add; f_equal; lia).
  rewrite ipv6_groups; [|done|rewrite length_app, groups_bytes_length, length_replicate; lia|by rewrite length_replicate].
  cbn [ipv6_loop]. rewrite drop_replicate, Nat.sub_diag. cbn [replicate]. by rewrite app_nil_r, <- app_assoc.
Qed.

(** The brackets of a URL. *)
Lemma convert_bracketed t :
  58 ∈ t -> t !! 0%nat <> Some 91 -> convertIPStringToChar ws (91 :: t ++ [93]) = convertIPStringToChar ws t.
Proof.
  intros Hc Hb. unfold convertIPStringToChar. cbv zeta. rewrite !contains_spec, !bool_decide_eq_true_2 by set_solver.
  assert (remove_brackets (91 :: t ++ [93]) = remove_brackets t) as ->; [|done].
  rewrite (remove_brackets_none t) by done. unfold remove_brackets, in_brackets.
  rewrite startsWith_char, endsWith_char, !bool_decide_eq_true_2; [|by rewrite app_comm_cons, last_snoc|done].
  cbn [andb]. rewrite substring_spec by (cbn; lia). cbn [drop length]. rewrite length_app. cbn [length].
  replace (S (length t + 1) - 2)%nat with (length t) by lia. apply take_app_length.
Qed.

(** ** Dotted addresses *)

Definition dotted (bs : list Z) : list Z := join [46] (map Update.number bs).

Lemma number_facts n : 0 <= n < 256 ->
  Update.number n <> [] /\ Forall (fun c => 48 <= c <= 57) (Update.number n) /\ charactersToInt ws (Update.number n) = (n, true).
Proof.
  intros Hn. assert (forallb (fun k => let n := Z.of_nat k in
    bool_decide (Update.number n <> []) && bool_decide (Forall (fun c => 48 <= c <= 57) (Update.number n))
    && bool_decide (charactersToInt ws (Update.number n) = (n, true))) (seq 0 256) = true) as A
    by (vm_compute; reflexivity).
  rewrite forallb_forall in A. specialize (A (Z.to_nat n) ltac:(apply in_seq; lia)). cbv zeta in A.
  rewrite Z2Nat.id, !andb_true_iff, !bool_decide_eq_true in A by lia. naive_solver.
Qed.

Lemma ipv4_bytes bs i X Y :
  Forall is_byte bs -> length X = i -> (length bs <= length Y)%nat ->
  ipv4_loop ws (map Update.number bs) i (X ++ Y) = Some (4, X ++ bs ++ drop (length bs) Y).
Proof.
  intros Hb. revert i X Y. induction Hb as [|b bs Hb _ IH]; intros i X Y HX HY; [done|].
  cbn [map ipv4_loop length] in *. destruct (number_facts b Hb) as (_ & _ & ->). cbn [negb].
  unfold in_width in Hb. destruct (Z.ltb_spec b 0), (Z.ltb_spec 255 b); cbn [orb]; try (exfalso; lia).
  destruct Y as [|y Y]; cbn [length] in HY; [lia|]. rewrite put_here by done.
  change (X ++ u8 b :: Y) with (X ++ [u8 b] ++ Y). rewrite app_assoc, IH by (rewrite ?length_app; cbn; lia).
  replace (u8 b) with b by dlia. by rewrite <- app_assoc.
Qed.

Lemma dotted_pieces bs : Forall is_byte bs ->
  Forall (fun p => p <> [] /\ 46 ∉ p /\ 58 ∉ p /\ 91 ∉ p) (map Update.number bs).
Proof.
  intros Hb. induction Hb as [|b bs Hb _ IH]; [constructor|]. cbn [map]. constructor; [|done].
  destruct (number_facts b Hb) as (Hn & Hd & _). rewrite list.Forall_forall in Hd.
  split_and!; [done|..]; (intros Hx%Hd; lia).
Qed.

Lemma convert_dotted bs :
  length bs = 4%nat -> Forall is_byte bs -> convertIPStringToChar ws (dotted bs) = Some (4, bs ++ replicate 12 0).
Proof.
  intros Hl Hb. pose proof (dotted_pieces bs Hb) as Hp. unfold convertIPStringToChar. cbv zeta.
  assert (forall c, c ∈ dotted bs -> c = 46 \/ exists p, p ∈ map Update.number bs /\ c ∈ p) as Hc by (intros c; apply elem_of_join).
  rewrite list.Forall_forall in Hp.
  rewrite !contains_spec, bool_decide_eq_false_2, bool_decide_eq_true_2.
  - assert (7 <= length (dotted bs))%nat as H7.
    { unfold dotted. destruct bs as [|a [|b [|c [|d [|e bs]]]]]; try done. cbn [map] in *.
      assert (forall x, x ∈ [a; b; c; d] -> (1 <= length (Update.number x))%nat) as H1.
      { intros x Hx. destruct (Hp (Update.number x)) as [Hn _]; [|by destruct (Update.number x); cbn; [done|lia]].
        change [_; _; _; _] with (map Update.number [a; b; c; d]). by apply list_elem_of_fmap_2. }
      pose proof (H1 a ltac:(set_solver)). pose proof (H1 b ltac:(set_solver)).
      pose proof (H1 c ltac:(set_solver)). pose proof (H1 d ltac:(set_solver)).
      cbn [join]. rewrite !length_app. cbn [length]. lia. }
    destruct (Nat.ltb_spec (length (dotted bs)) 7); [lia|]. unfold dotted. rewrite split_join.
    + rewrite filter_nonempty, length_map, Hl by (rewrite list.Forall_forall; intros p Hin; by apply Hp). cbn [Nat.eqb negb].
      change (replicate 16 0) with ([] ++ replicate 16 0). rewrite ipv4_bytes by (done || (rewrite Hl; cbn; lia)).
      by rewrite Hl.
    + by destruct bs.
    + rewrite list.Forall_forall. intros p Hin. by apply Hp.
  - unfold dotted. destruct bs as [|a [|b bs]]; try done. cbn [map]. rewrite join_cons by done. set_solver.
  - intros [?|(p & Hin & Hx)]%Hc; [done|]. by destruct (Hp p Hin) as (_ & _ & ? & _).
Qed.

(** Any text is converted inside the array. *)
Lemma convert_ok host :
  Z.of_nat (length host) <= 2 ^ 31 ->
  exists v ip, convertIPStringToChar ws host = Some (v, ip) /\ known_version v /\ is_ip ip.
Proof.
  intros Hl. unfold convertIPStringToChar. cbv zeta.
  assert (known_version 0) as H0 by by left. pose proof zeros_ip as Hz.
  destruct (contains host 58).
  - destruct (replace_fits (remove_brackets host)) as [r ->].
    { unfold remove_brackets. destruct (in_brackets host); [|done]. unfold Impl.substring.
      repeat case_match; cbn [length]; rewrite ?length_take, ?length_drop; lia. }
    destruct (split_nonempty r 58) as (ps & -> & _).
    destruct (Nat.ltb_spec 8 (length ps)); [eauto|]. apply ipv6_loop_ok; [done|lia..].
  - destruct (contains host 46); [|eauto]. destruct (_ <? 7)%nat; [eauto|].
    destruct (split_nonempty host 46) as (ps & -> & _). destruct (Nat.eqb_spec (length ps) 4); cbn [negb]; [|eauto].
    apply ipv4_loop_ok; [done|lia].
Qed.

End Addresses.
(** ** Names *)

Definition label_char (c : Z) : bool := ((97 <=? c) && (c <=? 122)) || isASCIIDigit c || (c =? 45).

(** The labels of a host name, one of which begins with a letter. *)
Definition label (p : list Z) : Prop :=
  p <> [] /\ Forall (fun c => label_char c = true) p /\ p !! 0%nat <> Some 45 /\ list.last p <> Some 45.
Definition name (labels : list (list Z)) : list Z := join [46] labels.
Definition begins_with_letter (p : list Z) : Prop := exists c, p !! 0%nat = Some c /\ 97 <= c <= 122.
Record name_ok (labels : list (list Z)) : Prop := {
  nm_two : (2 <= length labels)%nat;
  nm_labels : Forall label labels;
  nm_letter : Exists begins_with_letter labels;
  nm_short : (length (name labels) < 510)%nat
}.

Lemma label_char_range c : label_char c = true -> 45 <= c <= 122 /\ c <> 46 /\ c <> 47 /\ c <> 58 /\ c <> 91 /\ (c < 65 \/ 90 < c).
Proof. unfold label_char, isASCIIDigit. lia. Qed.

Lemma name_chars labels c : Forall label labels -> c ∈ name labels ->
  45 <= c <= 122 /\ c <> 47 /\ c <> 58 /\ c <> 91 /\ (c < 65 \/ 90 < c).
Proof.
  intros Hl [->|(p & Hin & Hc)]%elem_of_join; [lia|]. rewrite list.Forall_forall in Hl.
  destruct (Hl p Hin) as (_ & Hp & _). rewrite list.Forall_forall in Hp. apply Hp, label_char_range in Hc. lia.
Qed.

Lemma labels_pieces labels : Forall label labels -> Forall (fun p => p <> [] /\ 46 ∉ p) labels.
Proof.
  intros H. eapply list.Forall_impl; [exact H|]. intros p (Hn & Hp & _). split; [done|].
  rewrite list.Forall_forall in Hp. intros Hc%Hp%label_char_range. lia.
Qed.

Lemma name_split labels : name_ok labels -> split_char (name labels) 46 = Some labels.
Proof.
  intros [H2 Hl _ _]. pose proof (labels_pieces labels Hl) as Hp. unfold name. rewrite split_join.
  - rewrite filter_nonempty; [done|]. eapply list.Forall_impl; [exact Hp|]. by intros p [? _].
  - intros ->. cbn in H2. lia.
  - eapply list.Forall_impl; [exact Hp|]. by intros p [_ ?].
Qed.

Section Names.
Context (ws : Z -> bool) (unicodeLower : list Z -> list Z).

Lemma letter_not_number p : begins_with_letter p -> charactersToInt ws p = (0, false).
Proof.
  intros (c & Hc & Hr). destruct p as [|c' p]; [done|]. injection Hc as ->.
  unfold charactersToInt, lengthOfCharactersAsInteger. cbn [span_len length Nat.ltb Nat.leb].
  assert (isSpaceOrNewline ws c = false) as ->.
  { unfold isSpaceOrNewline, isASCIISpace. destruct (Z.leb_spec c 0x7F); lia. }
  change (at_ (c :: p) 0) with c. replace ((c =? 43) || (c =? 45)) with false by lia.
  cbn [Nat.leb andb drop span_len Nat.add]. replace (isASCIIDigit c) with false by (unfold isASCIIDigit; lia). done.
Qed.

Lemma ipv4_letter parts i ip :
  is_ip ip -> (i + length parts <= 16)%nat -> Exists begins_with_letter parts ->
  exists ip', ipv4_loop ws parts i ip = Some (0, ip').
Proof.
  intros Hip Hi He. revert i ip Hip Hi. induction He as [p parts Hp|p parts _ IH]; intros i ip Hip Hi; cbn [ipv4_loop length] in *.
  - rewrite letter_not_number by done. by eexists.
  - destruct (charactersToInt ws p) as [num isOK]. destruct (negb isOK); [by eexists|].
    destruct (_ || _); [by eexists|]. destruct (put_ok ip i num) as (ip1 & -> & H1); [done|lia|].
    apply IH; [done|lia].
Qed.

Lemma name_dot labels : name_ok labels -> 46 ∈ name labels.
Proof.
  intros [H2 _ _ _]. unfold name. destruct labels as [|a [|b labels]]; cbn in H2; try lia.
  rewrite join_cons by done. set_solver.
Qed.

Lemma name_no_colon labels c : name_ok labels -> c = 58 \/ c = 47 \/ c = 91 \/ c = 32 \/ c = 44 -> c ∉ name labels.
Proof. intros [_ Hl _ _] Hc Hin%name_chars; [lia|done]. Qed.

Lemma name_not_address labels : name_ok labels ->
  exists ip, convertIPStringToChar ws (name labels) = Some (0, ip).
Proof.
  intros H. unfold convertIPStringToChar. cbv zeta. rewrite !contains_spec.
  rewrite bool_decide_eq_false_2 by (apply name_no_colon; auto).
  rewrite bool_decide_eq_true_2 by by apply name_dot.
  destruct (_ <? 7)%nat; [by eexists|]. rewrite name_split by done.
  destruct (Nat.eqb_spec (length labels) 4); cbn [negb]; [|by eexists].
  apply ipv4_letter; [apply zeros_ip|lia|apply H].
Qed.

Lemma name_first labels : name_ok labels -> exists c r, name labels = c :: r /\ label_char c = true.
Proof.
  intros [H2 Hl _ _]. unfold name. destruct labels as [|p [|q labels]]; cbn in H2; try lia.
  apply Forall_cons_iff in Hl as [(Hn & Hp & _) _]. destruct p as [|c p]; [done|].
  apply Forall_cons_iff in Hp as [Hc _]. rewrite join_cons by done. by exists c, (p ++ [46] ++ join [46] (q :: labels)).
Qed.

Lemma name_last labels : name_ok labels -> exists r c, name labels = r ++ [c] /\ label_char c = true.
Proof.
  intros [H2 Hl _ _]. unfold name. destruct labels as [|p labels _] using rev_ind; [cbn in H2; lia|].
  apply Forall_app in Hl as [_ Hl]. apply Forall_cons_iff in Hl as [(Hn & Hp & _) _].
  destruct p as [|c p _] using rev_ind; [done|]. apply Forall_app in Hp as [_ Hc]. apply Forall_cons_iff in Hc as [Hc _].
  rewrite length_app in H2. cbn in H2. rewrite join_app by (first [by destruct labels; [cbn in H2; lia|]|done]).
  cbn [join]. exists (join [46] labels ++ [46] ++ p), c. by rewrite <- !app_assoc.
Qed.

Lemma name_allowed labels : name_ok labels -> hasProhibitCharactor (name labels) = Some false.
Proof.
  intros H. unfold hasProhibitCharactor. rewrite name_split by done. f_equal.
  destruct (Nat.ltb_spec (length labels) 2); [pose proof (nm_two _ H); lia|].
  apply not_true_iff_false. intros (p & Hin & Hp)%existsb_exists. apply list_elem_of_In in Hin.
  pose proof (nm_labels _ H) as Hl. rewrite list.Forall_forall in Hl. destruct (Hl p Hin) as (_ & Hc & H1 & H2).
  rewrite startsWith_char, endsWith_char, !bool_decide_eq_false_2 in Hp by done. cbn [orb] in Hp.
  apply existsb_exists in Hp as (c & Hcin & Hcp). apply bool_decide_eq_true in Hcp.
  rewrite list.Forall_forall in Hc. apply list_elem_of_In, Hc in Hcin.
  assert (forallb (fun c => negb (label_char c)) prohibited = true) as A by (vm_compute; reflexivity).
  rewrite forallb_forall in A. apply list_elem_of_In, A in Hcp. by rewrite Hcin in Hcp.
Qed.

Lemma ascii_utf8 s : Forall (fun c => 0 < c < 128) s -> Z.of_nat (length s) < 510 -> buffered s = Some s.
Proof.
  intros Hs Hl. unfold buffered.
  assert (UTF8.Spec.utf16s s = s /\ UTF8.Spec.utf8s s = s) as [E16 E8].
  { split; [apply utf16s_latin1; eapply list.Forall_impl; [exact Hs|]; intros c Hc; cbv beta in Hc; unfold in_width; zpow; lia|].
    clear Hl. induction Hs as [|c s Hc _ IH]; [done|]. rewrite UTF8.Spec.utf8s_cons, IH.
    unfold UTF8.Spec.utf8. by destruct (Z.ltb_spec c 0x80); [|lia]. }
  assert (Str.utf8 false false s = Some s) as ->.
  { rewrite <- E16 at 1. rewrite <- E8 at 2. apply utf8_of_scalars.
    - eapply list.Forall_impl; [exact Hs|]. intros c Hc. cbv beta in Hc. unfold UTF8.Spec.scalar. lia.
    - rewrite E16. unfold UINT_MAX. change ((2 ^ 32 - 1) / 3) with 1431655765. lia. }
  assert (Update.cstring s = s) as ->.
  { unfold Update.cstring. clear -Hs. induction Hs as [|c s Hc _ IH]; [done|]. cbn [span_len].
    destruct (Z.eqb_spec c 0); [lia|]. cbn [negb take]. by rewrite IH. }
  by destruct (Nat.ltb_spec (length s) 510); [|lia].
Qed.

(** ** The list of names *)

Lemma label_not_space c : label_char c = true -> isSpaceOrNewline ws c = false.
Proof.
  intros H%label_char_range. unfold isSpaceOrNewline, isASCIISpace. destruct (Z.leb_spec c 0x7F); lia.
Qed.

Lemma strip_name labels : name_ok labels -> stripWhiteSpace ws (name labels) = name labels.
Proof.
  intros H. destruct (name_first labels H) as (c & r & Ef & Hc). destruct (name_last labels H) as (r' & d & El & Hd).
  unfold stripWhiteSpace, stripMatchedCharacters. rewrite Ef. cbn [span_len length Nat.eqb drop].
  rewrite (label_not_space c Hc). cbn [Nat.ltb Nat.leb Nat.sub]. rewrite !Nat.sub_0_r.
  assert (at_ (c :: r) (length r) = d) as Hat.
  { rewrite <- Ef, El. assert (length r = length r') as ->.
    { apply (f_equal length) in El. rewrite Ef, length_app in El. cbn in El. lia. }
    unfold at_. by rewrite lookup_app_r, Nat.sub_diag by lia. }
  assert (strip_end (isSpaceOrNewline ws) (c :: r) (length r) = length r) as ->.
  { destruct (length r) as [|k] eqn:E; [done|]. cbn [strip_end]. rewrite Hat. by rewrite (label_not_space d Hd). }
  change (drop 0 (c :: r)) with (c :: r). apply take_ge. cbn [length]. lia.
Qed.

Lemma elem_of_append_filter l f g : g ∈ append_filter l f <-> g ∈ l \/ g = f.
Proof.
  unfold append_filter. destruct (existsb _ l) eqn:E.
  - split; [by left|]. intros [?| ->]; [done|]. apply existsb_exists in E as (h & Hin & Hh).
    apply list_elem_of_In in Hin. rewrite !andb_true_iff, !bool_decide_eq_true in Hh. destruct Hh as [[H1 H2] H3].
    by assert (h = f) as -> by (destruct h, f; cbn in *; congruence).
  - rewrite elem_of_app. set_solver.
Qed.

(** The two filters a name adds. *)
Definition name_filters (l : list Filter) (labels : list (list Z)) : list Filter :=
  append_filter (append_filter l (Filter_new FQDN (name labels) None)) (Filter_new Domain (46 :: name labels) None).

Lemma set_one_name l labels : name_ok labels ->
  set_one ws true l (name labels) = Some (name_filters l labels).
Proof.
  intros H. destruct (name_first labels H) as (c & r & Ef & Hc). destruct (name_not_address labels H) as (ip & Ea).
  unfold set_one, setDomain, setIPAddress, setIPNetwork, setFQDN.
  rewrite startsWith_char, bool_decide_eq_false_2.
  2:{ rewrite Ef. intros [= ->]. by apply label_char_range in Hc as (_ & ? & _). }
  cbn [negb]. rewrite !contains_spec, (bool_decide_eq_false_2 (47 ∈ _)) by (apply name_no_colon; auto).
  rewrite Ea. cbn [Z.eqb negb andb]. rewrite bool_decide_eq_true_2 by by apply name_dot. cbn [negb].
  rewrite name_allowed by done. rewrite ascii_utf8.
  - done.
  - rewrite list.Forall_forall. intros x Hx%name_chars; [lia|apply H].
  - pose proof (nm_short _ H). lia.
Qed.

Lemma set_loop_names l ns : Forall name_ok ns ->
  set_loop ws true l (map name ns) = Some (foldl name_filters l ns).
Proof.
  intros Hn. revert l. induction Hn as [|n ns H _ IH]; intros l; [done|].
  cbn [map set_loop foldl]. rewrite strip_name, contains_spec, bool_decide_eq_false_2 by (done || (apply name_no_colon; auto)).
  by rewrite set_one_name, IH.
Qed.

Lemma elem_of_names l ns f :
  f ∈ foldl name_filters l ns <->
  f ∈ l \/ exists n, n ∈ ns /\ (f = Filter_new FQDN (name n) None \/ f = Filter_new Domain (46 :: name n) None).
Proof.
  revert l. induction ns as [|n ns IH]; intros l; cbn [foldl]; [set_solver|].
  rewrite IH. unfold name_filters. rewrite !elem_of_append_filter. set_solver.
Qed.

Lemma lower_names ns : Forall name_ok ns -> lower unicodeLower (join [44] (map name ns)) = join [44] (map name ns).
Proof.
  intros Hn. assert (forall c, c ∈ join [44] (map name ns) -> isASCII c = true /\ toASCIILower c = c) as Hc.
  { intros c [->|(p & Hin & Hc)]%elem_of_join; [done|]. apply list_elem_of_fmap in Hin as (n & -> & Hin).
    rewrite list.Forall_forall in Hn. apply name_chars in Hc; [|by apply Hn].
    unfold isASCII, toASCIILower, isASCIIUpper. destruct (Z.leb_spec 65 c), (Z.leb_spec c 90); cbn [andb]; lia || (split; [lia|done]). }
  unfold lower. rewrite (proj2 (forallb_forall _ _)) by (intros c Hin%list_elem_of_In; by apply Hc).
  rewrite <- (map_id (join [44] (map name ns))) at 2. apply map_ext_in. intros c Hin%list_elem_of_In. by apply Hc.
Qed.

Lemma set_names ns : Forall name_ok ns ->
  setProxyFilters ws unicodeLower true (Some (join [44] (map name ns))) = Some (foldl name_filters [] ns).
Proof.
  intros Hn. unfold setProxyFilters. rewrite lower_names by done.
  destruct ns as [|n ns]; [done|]. rewrite split_join.
  - rewrite filter_nonempty; [by apply set_loop_names|]. apply Forall_map.
    eapply list.Forall_impl; [exact Hn|]. intros m Hm. destruct (name_first m Hm) as (c & r & -> & _). done.
  - done.
  - apply Forall_map. eapply list.Forall_impl; [exact Hn|]. intros m Hm. apply name_no_colon; auto.
Qed.

End Names.

(** ** Matching *)
Section Match.
Context (ws : Z -> bool).

Lemma right_suffix s t : (length t < length s)%nat -> t = right s (length t) <-> t `suffix_of` s.
Proof.
  intros Hl. unfold right. destruct (Nat.ltb_spec (length s) (length t)); [lia|].
  rewrite substring_spec by lia. rewrite take_ge by (rewrite length_drop; lia). split.
  - intros ->. apply suffix_drop.
  - intros [k ->]. rewrite length_app. replace (length k + length t - length t)%nat with (length k) by lia.
    by rewrite drop_app_length.
Qed.

(** Without networks the list is searched by name. *)
Lemma match_names l host lowerHost :
  Forall (fun f => m_type f = FQDN \/ m_type f = Domain) l -> length lowerHost = length host ->
  exists b, match_loop ws l host lowerHost (length host) = Some b /\
    (b = true <-> exists f, f ∈ l /\
      (m_type f = FQDN /\ m_filter f = lowerHost \/
       m_type f = Domain /\ m_filter f `suffix_of` lowerHost /\ (length (m_filter f) < length host)%nat)).
Proof.
  intros Hl El. induction Hl as [|f l Hf _ IH]; cbn [match_loop].
  { exists false. split; [done|]. split; [done|]. intros (f & H & _). by apply elem_of_nil in H. }
  destruct IH as (b & IHb & IH). rewrite IHb.
  assert (forall P : Filter -> Prop, (exists g, g ∈ f :: l /\ P g) <-> P f \/ exists g, g ∈ l /\ P g) as Hex by set_solver.
  setoid_rewrite Hex. destruct Hf as [Hf|Hf]; rewrite Hf.
  - case_bool_decide as E; eexists; (split; [reflexivity|]); [naive_solver|]. rewrite IH. naive_solver.
  - destruct (Nat.leb_spec (length host) (length (m_filter f))) as [Hle|Hlt].
    + eexists. split; [reflexivity|]. rewrite IH. split; [by right|]. intros [[[? ?]|(_ & _ & ?)]|?]; [done|lia|done].
    + case_bool_decide as E; eexists; (split; [reflexivity|]); rewrite right_suffix in E by lia; [naive_solver|].
      rewrite IH. naive_solver.
Qed.

(** A network that covers the host is enough. *)
Lemma match_loop_some l host lowerHost hostLen w hb :
  convertIPStringToChar ws host = Some (w, hb) -> w <> 0 ->
  (exists f, f ∈ l /\ m_type f = IPMask /\ masked hb (m_maskd f) = true) ->
  match_loop ws l host lowerHost hostLen = Some true.
Proof.
  intros Eh Hw (f & Hin & Hf & Hm). induction l as [|g l IH]; [by apply elem_of_nil in Hin|]. cbn [match_loop].
  rewrite Eh. destruct (Z.eqb_spec 0 w); [congruence|]. apply elem_of_cons in Hin as [<-|Hin].
  - by rewrite Hf, Hm.
  - rewrite (IH Hin). by repeat case_match.
Qed.

(** ** Networks *)

(** Equal network parts stay equal under the mask. *)
Lemma mask_land mask a b :
  mask_bytes mask a = mask_bytes mask b -> Forall is_byte a -> Forall is_byte b ->
  Forall2 (fun x y => Z.land x y = y) a (mask_bytes mask b).
Proof.
  intros E Ha. revert mask b E. induction Ha as [|x a Hx _ IH]; intros mask [|y b] E Hb; cbn [mask_bytes] in *; try done.
  injection E as E1 E2. apply Forall_cons_iff in Hb as [Hy Hb]. constructor; [|by apply IH].
  destruct (_ <? 8).
  - assert (forall z, is_byte z -> u8 (Z.land z (Z.shiftl 0xff (8 - (if mask <? 0 then 0 else mask)))) =
      Z.land z (Z.shiftl 0xff (8 - (if mask <? 0 then 0 else mask)))) as Hu.
    { intros z Hz. apply Z.mod_small. split; [apply Z.land_nonneg; left; apply Hz|].
      destruct (Z.eq_dec (Z.land z (Z.shiftl 255 (8 - (if mask <? 0 then 0 else mask)))) 0) as [->|Hne]; [lia|].
      assert (0 <= Z.land z (Z.shiftl 255 (8 - (if mask <? 0 then 0 else mask)))) by (apply Z.land_nonneg; left; apply Hz).
      apply Z.log2_lt_pow2; [lia|]. destruct (Z.eq_dec z 0) as [->|]; [by rewrite Z.land_0_l in Hne|].
      eapply Z.le_lt_trans; [apply Z.log2_land; [apply Hz|]|].
      - apply Z.shiftl_nonneg. lia.
      - eapply Z.le_lt_trans; [apply Z.le_min_l|]. apply Z.log2_lt_pow2; [|apply Hz].
        destruct Hz. lia. }
    rewrite !Hu in * by done. rewrite <- E1. by rewrite Z.land_assoc, Z.land_diag.
  - subst y. apply Z.land_diag.
Qed.

Lemma masked_network mask a b :
  is_ip a -> is_ip b -> mask_bytes mask a = mask_bytes mask b -> masked a (mask_bytes mask b) = true.
Proof.
  intros [La Ha] [Lb Hb] E. pose proof (mask_land mask a b E Ha Hb) as H.
  unfold masked. apply forallb_forall. intros j Hj%in_seq. apply Z.eqb_eq.
  pose proof (Forall2_length H) as Hlen.
  destruct (lookup_lt_is_Some_2 a j ltac:(lia)) as [x Hx].
  destruct (lookup_lt_is_Some_2 (mask_bytes mask b) j ltac:(lia)) as [y Hy].
  unfold at_. rewrite Hx, Hy. by apply (Forall2_lookup_lr _ _ _ _ _ _ H Hx Hy).
Qed.

End Match.
End FilterFacts.

(** * Theorems *)
Module FilterProps.
Import Impl Str StrFacts Filters FilterFacts.

Section Properties.
Context (ws : Z -> bool) (unicodeLower : list Z -> list Z).

(** Whatever the text of a host or of a filter is, its conversion ends, writes
    only inside the 16 bytes of the address and says 0, 4 or 6. *)
Theorem conversion_in_bounds (host : list Z) :
  Z.of_nat (length host) <= 2 ^ 31 ->
  exists v ip, convertIPStringToChar ws host = Some (v, ip) /\ (v = 0 \/ v = 4 \/ v = 6) /\
    length ip = 16%nat /\ bytes_ok ip.
Proof. apply convert_ok. Qed.

(** C24: The conversion inverts the usual notations: four decimal bytes, eight
    groups of hexadecimal digits, fewer groups with a pair of colons for the
    zeros, and the brackets a URL puts around them. *)
Theorem notations_read :
  (forall bs, length bs = 4%nat -> Forall is_byte bs ->
     convertIPStringToChar ws (dotted bs) = Some (4, bs ++ replicate 12 0)) /\
  (forall gs, length gs = 8%nat -> Forall group gs ->
     convertIPStringToChar ws (colons gs) = Some (6, groups_bytes gs)) /\
  (forall pre post, Forall group pre -> Forall group post -> (length pre + length post <= 7)%nat ->
     convertIPStringToChar ws (colons pre ++ [58; 58] ++ colons post) =
     Some (6, groups_bytes pre ++ replicate (16 - 2 * (length pre + length post)) 0 ++ groups_bytes post)) /\
  (forall t, 58 ∈ t -> t !! 0%nat <> Some 91 ->
     convertIPStringToChar ws (91 :: t ++ [93]) = convertIPStringToChar ws t).
Proof.
  split_and!; [apply convert_dotted|apply convert_groups|apply convert_compressed|apply convert_bracketed].
Qed.

(** C22: A list of host names, separated by commas, lets through the local host and
    exactly the hosts that are one of the names or below one, in any case. *)
Theorem names_filtered (ns : list (list (list Z))) :
  Forall name_ok ns ->
  exists l, setProxyFilters ws unicodeLower true (Some (join [44] (map name ns))) = Some l /\
    forall host, forallb isASCII host = true -> host !! 0%nat <> Some 91 ->
      exists b, isMatchProxyFilter ws unicodeLower l host = Some b /\
        (b = true <-> host = str "127.0.0.1" \/ host = str "localhost" \/
          exists n, n ∈ ns /\ (map toASCIILower host = name n \/
            exists x, x <> [] /\ map toASCIILower host = x ++ 46 :: name n)).
Proof.
  intros Hn. eexists. split; [by apply set_names|]. intros host Ha Hb.
  unfold isMatchProxyFilter. rewrite in_brackets_false by done.
  case_bool_decide as E1; [exists true; split; [done|]; split; [by left|done]|].
  case_bool_decide as E2; [exists true; split; [done|]; split; [by right; left|done]|].
  unfold lower. rewrite Ha. pose proof (length_map toASCIILower host) as El.
  destruct (match_names ws (foldl name_filters [] ns) host (map toASCIILower host)) as (b & Eb & Hbm); [|done|].
  { rewrite list.Forall_forall. intros f. rewrite elem_of_names. intros [Hf|(n & _ & [->| ->])]; [by apply elem_of_nil in Hf|by left|by right]. }
  exists b. split; [done|]. rewrite Hbm. setoid_rewrite elem_of_names. split.
  - intros (f & [Hf|(n & Hin & Hf)] & Hm); [by apply elem_of_nil in Hf|]. right; right. exists n. split; [done|].
    destruct Hf as [->| ->]; cbn in Hm; destruct Hm as [[? Hm]|(? & Hs & Hlt)]; try done; [by left|right].
    destruct Hs as [x Hx]. exists x. split; [|done]. intros ->. rewrite <- El, Hx in Hlt. cbn in Hlt. lia.
  - intros [?|[?|(n & Hin & [E|(x & Hx & E)])]]; [done|done| |].
    + exists (Filter_new FQDN (name n) None). split; [right; exists n; by auto|left; by cbn].
    + exists (Filter_new Domain (46 :: name n) None). split; [right; exists n; by auto|right]. cbn.
      split_and!; [done|by exists x|]. rewrite <- El, E, length_app. destruct x; cbn; [done|lia].
Qed.

(** A network is accepted with the masks the code knows, and every host whose
    address has the same network part is let through. *)
Theorem network_let_through (l : list Filter) (a : list Z) (v : Z) (nb : list Z) (mask : Z) :
  convertIPStringToChar ws a = Some (v, nb) -> is_ip nb -> 47 ∉ a ->
  (v = 4 /\ 8 <= mask <= 32 \/ v = 6 /\ (mask = 48 \/ mask = 64)) ->
  exists l', setIPNetwork ws true l (a ++ [47] ++ Update.number mask) = Some (l', true) /\
    forall host w hb, convertIPStringToChar ws host = Some (w, hb) -> w <> 0 -> is_ip hb ->
      mask_bytes mask hb = mask_bytes mask nb ->
      isMatchProxyFilter ws unicodeLower l' host = Some true.
Proof.
  intros Ea Hip Hs Hv. assert (0 <= mask < 256) as Hm by lia.
  destruct (number_facts ws mask Hm) as (Hne & Hd & Et). rewrite list.Forall_forall in Hd.
  eexists. split.
  - unfold setIPNetwork. rewrite contains_spec, bool_decide_eq_true_2 by set_solver. cbn [negb].
    change (a ++ [47] ++ Update.number mask) with (join [47] [a; Update.number mask]).
    rewrite split_join; [|done|repeat constructor; [done|intros Hx%Hd; lia]].
    rewrite filter_nonempty.
    2:{ repeat constructor; [|done]. intros ->. vm_compute in Ea. destruct Hv as [[-> _]|[-> _]]; done. }
    rewrite Ea, Et. destruct Hv as [[-> Hr]|[-> Hr]]; cbn [Z.eqb Pos.eqb negb andb].
    + replace ((mask <? 8) || (32 <? mask))%Z with false by lia. reflexivity.
    + replace (negb (mask =? 48) && negb (mask =? 64)) with false by lia. reflexivity.
  - intros host w hb Eh Hw Hhb Hmask. unfold isMatchProxyFilter, add_new.
    do 2 (case_bool_decide; [done|]). destruct (if in_brackets host then _ else _) as [lowerHost hostLen].
    apply match_loop_some with (w := w) (hb := hb); [done|done|].
    exists (Filter_new IPMask [] (Some (mask_bytes mask nb))). split; [apply elem_of_append_filter; by right|].
    split; [done|]. by apply masked_network.
Qed.

End Properties.
End FilterProps.

(** * Concrete lists *)
Module FilterWitness.
Import Str Filters FilterFacts FilterProps.

Definition no_space (_ : Z) : bool := false.
Definition same_text (s : list Z) : list Z := s.

Lemma conversion_in_bounds_witness :
  exists v ip, convertIPStringToChar no_space (str "1:2::3::4") = Some (v, ip) /\ (v = 0 \/ v = 4 \/ v = 6) /\
    length ip = 16%nat /\ bytes_ok ip.
Proof. apply conversion_in_bounds. cbn. lia. Defined.

Lemma notations_read_witness :
  convertIPStringToChar no_space (str "fe80::1:a0F") =
    Some (6, [254; 128; 0; 0; 0; 0; 0; 0; 0; 0; 0; 0; 0; 1; 10; 15]).
Proof.
  destruct (notations_read no_space) as (_ & _ & H & _).
  exact (H [str "fe80"] [str "1"; str "a0F"] ltac:(unfold group; by_eval) ltac:(unfold group; by_eval) ltac:(cbn; lia)).
Defined.

Definition intranet : list (list (list Z)) := [[str "corp"; str "example"]; [str "a-1"; str "test"; str "org"]].

Lemma names_filtered_witness :
  exists l, setProxyFilters no_space same_text true (Some (str "corp.example,a-1.test.org")) = Some l /\
    exists b, isMatchProxyFilter no_space same_text l (str "www.Corp.example") = Some b /\ b = true.
Proof.
  destruct (names_filtered no_space same_text intranet) as (l & E & H).
  - repeat constructor; try (intros [=]; fail); try (cbn; lia); try reflexivity;
      try (exists 99; split; [reflexivity|lia]); try (exists 97; split; [reflexivity|lia]); discriminate.
  - exists l. split; [exact E|].
    destruct (H (str "www.Corp.example")) as (b & Eb & Hb); [reflexivity|discriminate|].
    exists b. split; [exact Eb|]. apply Hb. right; right. exists [str "corp"; str "example"].
    split; [left|]. right. exists (str "www"). split; [discriminate|reflexivity].
Defined.

Lemma network_let_through_witness :
  exists l, setIPNetwork no_space true [] (str "10.0.0.0/8") = Some (l, true) /\
    isMatchProxyFilter no_space same_text l (str "10.20.30.40") = Some true.
Proof.
  destruct (network_let_through no_space same_text [] (str "10.0.0.0") 4 (10 :: replicate 15 0) 8) as (l & E & H).
  - vm_compute. reflexivity.
  - split; [reflexivity|by_eval].
  - by_eval.
  - left. split; [reflexivity|lia].
  - exists l. split; [exact E|]. apply (H (str "10.20.30.40") 4 ([10; 20; 30; 40] ++ replicate 12 0)).
    + vm_compute. reflexivity.
    + discriminate.
    + split; [reflexivity|by_eval].
    + vm_compute. reflexivity.
Defined.

(** The filters of a text, and whether a host gets through. *)
Definition passes (filters host : string) : option bool :=
  match setProxyFilters no_space same_text true (Some (str filters)) with
  | Some l => isMatchProxyFilter no_space same_text l (str host)
  | None => None
  end.

(** The test of a network asks for the bits of the network to be set, not for
    the same bits: 11 has all the bits of 10. *)
Example network_too_wide : passes "10.0.0.0/8" "11.2.3.4" = Some true /\ passes "0.0.0.0/8" "8.8.8.8" = Some true.
Proof. vm_compute. split; reflexivity. Qed.

(** The dot at the end of an absolute name is not taken off. *)
Example absolute_name_missed : passes "example.com." "example.com" = Some false.
Proof. vm_compute. reflexivity. Qed.

(** Any characters are taken for hexadecimal digits. *)
Example port_is_an_address : convertIPStringToChar no_space (str "web:80") =
  Some (6, [7; 235; 0; 128; 0; 0; 0; 0; 0; 0; 0; 0; 0; 0; 0; 0]).
Proof. vm_compute. reflexivity. Qed.

End FilterWitness.
