(* ===== verification/SecurityOrigin.v ===== *)
(** * Security origins (WebCore/page/SecurityOrigin.cpp, SecurityPolicy.cpp,
    OriginAccessEntry.cpp and WebCore/platform/SchemeRegistry.cpp)

    The same-origin policy.  [Schemes] is the registry of schemes with special
    treatment, [Origin] the class [SecurityOrigin] less what needs the policy,
    [Policy] the white lists and the referrer rules, [Requests] the questions a
    loader asks an origin.  The comparison of an object with itself by its
    address is an argument ([same]); nullness of strings is dropped where an
    empty string does the same.

    Parameters: case mapping and folding outside ASCII, the Unicode direction
    table and the IDN conversion. *)
From stdpp Require Import gmap sets.
From S2P Require Import Prelude UTF8 WString KURLParse KURL TextCodec UTF8Codec Escape HTTPCache ProxyFilter.
Import KURLParse.Assemble.
#[local] Open Scope Z_scope.

(** * The registry of schemes *)
Module Schemes.

(** A [HashSet] whose hash folds case holds names up to the folding of their
    units; [schemesForbiddenFromDomainRelaxation] compares exactly. *)
Abbreviation URLSchemesMap := (gset (list Z)).

Record SchemeRegistry := mkRegistry {
  localSchemes : URLSchemesMap;
  displayIsolatedSchemes : URLSchemesMap;
  secureSchemes_ : URLSchemesMap;
  schemesWithUniqueOrigins_ : URLSchemesMap;
  emptyDocumentSchemes_ : URLSchemesMap;
  schemesForbidden : URLSchemesMap;
  canDisplayOnlyIfCanRequestSchemes_ : URLSchemesMap;
  notAllowingJavascriptURLsSchemes : URLSchemesMap;
  localStorageSchemes : URLSchemesMap;
  databaseSchemes : URLSchemesMap;
  CORSEnabledSchemes_ : URLSchemesMap;
}.

(** Nothing registered, before the first access. *)
Definition registry_new : SchemeRegistry := mkRegistry ∅ ∅ ∅ ∅ ∅ ∅ ∅ ∅ ∅ ∅ ∅.

Section Schemes.
Context (foldCase : Z -> Z).

Definition folded (s : list Z) : list Z := map foldCase s.
Definition names (l : list string) : URLSchemesMap := list_to_set (map (fun s => folded (str s)) l).

(** [if (set.isEmpty()) { set.add(...); }]: an empty set is filled by every
    access, so what an access sees is a function of the set. *)
Definition filled (s : URLSchemesMap) (defaults : list string) : URLSchemesMap :=
  if decide (s = ∅) then names defaults else s.

Definition localURLSchemes (r : SchemeRegistry) := filled (localSchemes r) ["file"%string].
Definition secureSchemes (r : SchemeRegistry) := filled (secureSchemes_ r) ["https"; "about"; "data"]%string.
Definition schemesWithUniqueOrigins (r : SchemeRegistry) :=
  filled (schemesWithUniqueOrigins_ r) ["about"; "javascript"; "data"]%string.
Definition emptyDocumentSchemes (r : SchemeRegistry) := filled (emptyDocumentSchemes_ r) ["about"%string].
Definition canDisplayOnlyIfCanRequestSchemes (r : SchemeRegistry) :=
  filled (canDisplayOnlyIfCanRequestSchemes_ r) ["blob"%string].
Definition CORSEnabledSchemes (r : SchemeRegistry) := filled (CORSEnabledSchemes_ r) ["http"; "https"]%string.

(** [if (scheme.isEmpty()) return false; return set.contains(scheme);] *)
Definition contains (s : URLSchemesMap) (scheme : list Z) : bool :=
  if (length scheme =? 0)%nat then false else bool_decide (folded scheme ∈ s).

(** ** Questions *)
Definition shouldTreatURLSchemeAsLocal r scheme := contains (localURLSchemes r) scheme.
Definition shouldTreatURLSchemeAsNoAccess r scheme := contains (schemesWithUniqueOrigins r) scheme.
Definition shouldTreatURLSchemeAsDisplayIsolated r scheme := contains (displayIsolatedSchemes r) scheme.
Definition shouldTreatURLSchemeAsSecure r scheme := contains (secureSchemes r) scheme.
Definition shouldLoadURLSchemeAsEmptyDocument r scheme := contains (emptyDocumentSchemes r) scheme.
Definition canDisplayOnlyIfCanRequest r scheme := contains (canDisplayOnlyIfCanRequestSchemes r) scheme.
Definition shouldTreatURLSchemeAsNotAllowingJavascriptURLs r scheme := contains (notAllowingJavascriptURLsSchemes r) scheme.
Definition allowsLocalStorageAccessInPrivateBrowsing r scheme := contains (localStorageSchemes r) scheme.
Definition allowsDatabaseAccessInPrivateBrowsing r scheme := contains (databaseSchemes r) scheme.
Definition shouldTreatURLSchemeAsCORSEnabled r scheme := contains (CORSEnabledSchemes r) scheme.
Definition isDomainRelaxationForbiddenForURLScheme (r : SchemeRegistry) (scheme : list Z) : bool :=
  if (length scheme =? 0)%nat then false else bool_decide (scheme ∈ schemesForbidden r).

(** ** Changes *)
Definition registerURLSchemeAsLocal (r : SchemeRegistry) (scheme : list Z) : SchemeRegistry :=
  mkRegistry ({[folded scheme]} ∪ localURLSchemes r) (displayIsolatedSchemes r) (secureSchemes_ r)
    (schemesWithUniqueOrigins_ r) (emptyDocumentSchemes_ r) (schemesForbidden r) (canDisplayOnlyIfCanRequestSchemes_ r)
    (notAllowingJavascriptURLsSchemes r) (localStorageSchemes r) (databaseSchemes r) (CORSEnabledSchemes_ r).

(** The test for "file" is exact. *)
Definition removeURLSchemeRegisteredAsLocal (r : SchemeRegistry) (scheme : list Z) : SchemeRegistry :=
  if bool_decide (scheme = str "file") then r
  else
    mkRegistry (localURLSchemes r ∖ {[folded scheme]}) (displayIsolatedSchemes r) (secureSchemes_ r)
      (schemesWithUniqueOrigins_ r) (emptyDocumentSchemes_ r) (schemesForbidden r) (canDisplayOnlyIfCanRequestSchemes_ r)
      (notAllowingJavascriptURLsSchemes r) (localStorageSchemes r) (databaseSchemes r) (CORSEnabledSchemes_ r).

Definition registerURLSchemeAsNoAccess (r : SchemeRegistry) (scheme : list Z) : SchemeRegistry :=
  mkRegistry (localSchemes r) (displayIsolatedSchemes r) (secureSchemes_ r)
    ({[folded scheme]} ∪ schemesWithUniqueOrigins r) (emptyDocumentSchemes_ r) (schemesForbidden r)
    (canDisplayOnlyIfCanRequestSchemes_ r) (notAllowingJavascriptURLsSchemes r) (localStorageSchemes r) (databaseSchemes r)
    (CORSEnabledSchemes_ r).

Definition registerURLSchemeAsDisplayIsolated (r : SchemeRegistry) (scheme : list Z) : SchemeRegistry :=
  mkRegistry (localSchemes r) ({[folded scheme]} ∪ displayIsolatedSchemes r) (secureSchemes_ r)
    (schemesWithUniqueOrigins_ r) (emptyDocumentSchemes_ r) (schemesForbidden r) (canDisplayOnlyIfCanRequestSchemes_ r)
    (notAllowingJavascriptURLsSchemes r) (localStorageSchemes r) (databaseSchemes r) (CORSEnabledSchemes_ r).

Definition registerURLSchemeAsSecure (r : SchemeRegistry) (scheme : list Z) : SchemeRegistry :=
  mkRegistry (localSchemes r) (displayIsolatedSchemes r) ({[folded scheme]} ∪ secureSchemes r)
    (schemesWithUniqueOrigins_ r) (emptyDocumentSchemes_ r) (schemesForbidden r) (canDisplayOnlyIfCanRequestSchemes_ r)
    (notAllowingJavascriptURLsSchemes r) (localStorageSchemes r) (databaseSchemes r) (CORSEnabledSchemes_ r).

Definition registerURLSchemeAsEmptyDocument (r : SchemeRegistry) (scheme : list Z) : SchemeRegistry :=
  mkRegistry (localSchemes r) (displayIsolatedSchemes r) (secureSchemes_ r)
    (schemesWithUniqueOrigins_ r) ({[folded scheme]} ∪ emptyDocumentSchemes r) (schemesForbidden r)
    (canDisplayOnlyIfCanRequestSchemes_ r) (notAllowingJavascriptURLsSchemes r) (localStorageSchemes r) (databaseSchemes r)
    (CORSEnabledSchemes_ r).

Definition setDomainRelaxationForbiddenForURLScheme (r : SchemeRegistry) (forbidden : bool) (scheme : list Z) : SchemeRegistry :=
  if (length scheme =? 0)%nat then r
  else
    mkRegistry (localSchemes r) (displayIsolatedSchemes r) (secureSchemes_ r) (schemesWithUniqueOrigins_ r)
      (emptyDocumentSchemes_ r) (if forbidden then {[scheme]} ∪ schemesForbidden r else schemesForbidden r ∖ {[scheme]})
      (canDisplayOnlyIfCanRequestSchemes_ r) (notAllowingJavascriptURLsSchemes r) (localStorageSchemes r) (databaseSchemes r)
      (CORSEnabledSchemes_ r).

Definition registerAsCanDisplayOnlyIfCanRequest (r : SchemeRegistry) (scheme : list Z) : SchemeRegistry :=
  mkRegistry (localSchemes r) (displayIsolatedSchemes r) (secureSchemes_ r) (schemesWithUniqueOrigins_ r)
    (emptyDocumentSchemes_ r) (schemesForbidden r) ({[folded scheme]} ∪ canDisplayOnlyIfCanRequestSchemes r)
    (notAllowingJavascriptURLsSchemes r) (localStorageSchemes r) (databaseSchemes r) (CORSEnabledSchemes_ r).

Definition registerURLSchemeAsNotAllowingJavascriptURLs (r : SchemeRegistry) (scheme : list Z) : SchemeRegistry :=
  mkRegistry (localSchemes r) (displayIsolatedSchemes r) (secureSchemes_ r) (schemesWithUniqueOrigins_ r)
    (emptyDocumentSchemes_ r) (schemesForbidden r) (canDisplayOnlyIfCanRequestSchemes_ r)
    ({[folded scheme]} ∪ notAllowingJavascriptURLsSchemes r) (localStorageSchemes r) (databaseSchemes r) (CORSEnabledSchemes_ r).

Definition registerURLSchemeAsAllowingLocalStorageAccessInPrivateBrowsing (r : SchemeRegistry) (scheme : list Z) : SchemeRegistry :=
  mkRegistry (localSchemes r) (displayIsolatedSchemes r) (secureSchemes_ r) (schemesWithUniqueOrigins_ r)
    (emptyDocumentSchemes_ r) (schemesForbidden r) (canDisplayOnlyIfCanRequestSchemes_ r)
    (notAllowingJavascriptURLsSchemes r) ({[folded scheme]} ∪ localStorageSchemes r) (databaseSchemes r) (CORSEnabledSchemes_ r).

Definition registerURLSchemeAsAllowingDatabaseAccessInPrivateBrowsing (r : SchemeRegistry) (scheme : list Z) : SchemeRegistry :=
  mkRegistry (localSchemes r) (displayIsolatedSchemes r) (secureSchemes_ r) (schemesWithUniqueOrigins_ r)
    (emptyDocumentSchemes_ r) (schemesForbidden r) (canDisplayOnlyIfCanRequestSchemes_ r)
    (notAllowingJavascriptURLsSchemes r) (localStorageSchemes r) ({[folded scheme]} ∪ databaseSchemes r) (CORSEnabledSchemes_ r).

Definition registerURLSchemeAsCORSEnabled (r : SchemeRegistry) (scheme : list Z) : SchemeRegistry :=
  mkRegistry (localSchemes r) (displayIsolatedSchemes r) (secureSchemes_ r) (schemesWithUniqueOrigins_ r)
    (emptyDocumentSchemes_ r) (schemesForbidden r) (canDisplayOnlyIfCanRequestSchemes_ r)
    (notAllowingJavascriptURLsSchemes r) (localStorageSchemes r) (databaseSchemes r) ({[folded scheme]} ∪ CORSEnabledSchemes r).
End Schemes.
End Schemes.

(** * SecurityOrigin.cpp *)
Module Origin.
Import Schemes.

Record SecurityOrigin := mkOrigin {
  m_protocol : list Z;
  m_host : list Z;
  m_encodedHost : list Z;
  m_domain : list Z;
  m_filePath : option (list Z);
  m_port : Z;
  m_isUnique : bool;
  m_universalAccess : bool;
  m_domainWasSetInDOM : bool;
  m_canLoadLocalResources : bool;
  m_enforceFilePathSeparation : bool;
  m_needsDatabaseIdentifierQuirkForFiles : bool;
}.

#[global] Instance origin_eq : EqDecision SecurityOrigin.
Proof. solve_decision. Defined.

Definition InvalidPort : Z := 0.
Definition MaxAllowedPort : Z := 65535.

(** [KURL()] *)
Definition KURL_null : KURL := invalid [].

Definition schemeRequiresAuthority (url : KURL) : bool :=
  m_protocolIsInHTTPFamily url || Access.protocolIs url (str "ftp").

(** Blobs are built in, file systems are not. *)
Definition shouldUseInnerURL (url : KURL) : bool := Access.protocolIs url (str "blob").

(** [String::number(int)] *)
Definition number_int (i : Z) : list Z := if i <? 0 then 45 :: Update.number (- i) else Update.number i.

Section Origin.
Context (before : Z) (ws : Z -> bool) (unicodeLower : list Z -> list Z) (foldCase : Z -> Z)
  (idn : list Z -> option (list Z)).

Definition lower : list Z -> list Z := Filters.lower unicodeLower.

(** [innerURL()] returns no URL. *)
Definition extractInnerURL (url : KURL) : KURL :=
  Update.parsedURL before (Escape.decodeURLEscapeSequences (Access.path url)).

(** [UTF8Encoding().encode] *)
Definition UTF8Encoding_encode (s : list Z) : list Z := default [] (UTF8Codec.encode s).

(** [KURL(KURL(), s)] *)
Definition KURL_from (s : list Z) : KURL :=
  Update.init before idn UTF8Encoding_encode UTF8Encoding_encode false KURL_null s.

Definition isLocal_protocol (r : SchemeRegistry) (protocol : list Z) : bool := shouldTreatURLSchemeAsLocal foldCase r protocol.
Definition isLocal (r : SchemeRegistry) (o : SecurityOrigin) : bool := isLocal_protocol r (m_protocol o).

Definition shouldTreatAsUniqueOrigin (r : SchemeRegistry) (url : KURL) : bool :=
  if negb (m_isValid url) then true
  else
    let innerURL := if shouldUseInnerURL url then extractInnerURL url else url in
    if schemeRequiresAuthority innerURL && (length (Access.host innerURL) =? 0)%nat then true
    else shouldTreatURLSchemeAsNoAccess foldCase r (lower (Access.protocol innerURL)).

(** The constructor from a URL. *)
Definition SecurityOrigin_url (r : SchemeRegistry) (url : KURL) : SecurityOrigin :=
  let protocol := lower (Access.protocol url) in
  let host := lower (Access.host url) in
  let port := Access.port ws url in
  let canLoadLocalResources := isLocal_protocol r protocol in
  mkOrigin protocol host [] host
    (if canLoadLocalResources then Some (Access.path url) else None)
    (if Access.isDefaultPortForProtocol port protocol then InvalidPort else port)
    false false false canLoadLocalResources false false.

(** The constructor of unique origins. *)
Definition SecurityOrigin_unique : SecurityOrigin :=
  mkOrigin [] [] [] [] None InvalidPort true false false false false false.

Definition set_quirk (o : SecurityOrigin) : SecurityOrigin :=
  mkOrigin (m_protocol o) (m_host o) (m_encodedHost o) (m_domain o) (m_filePath o) (m_port o) (m_isUnique o)
    (m_universalAccess o) (m_domainWasSetInDOM o) (m_canLoadLocalResources o) (m_enforceFilePathSeparation o) true.

Definition create (r : SchemeRegistry) (url : KURL) : SecurityOrigin :=
  if shouldTreatAsUniqueOrigin r url then
    if Access.protocolIs url (str "file") then set_quirk SecurityOrigin_unique else SecurityOrigin_unique
  else if shouldUseInnerURL url then SecurityOrigin_url r (extractInnerURL url)
  else SecurityOrigin_url r url.

Definition createUnique : SecurityOrigin := SecurityOrigin_unique.

(** The copy constructor copies every field. *)
Definition isolatedCopy (o : SecurityOrigin) : SecurityOrigin :=
  mkOrigin (m_protocol o) (m_host o) (m_encodedHost o) (m_domain o) (m_filePath o) (m_port o) (m_isUnique o)
    (m_universalAccess o) (m_domainWasSetInDOM o) (m_canLoadLocalResources o) (m_enforceFilePathSeparation o)
    (m_needsDatabaseIdentifierQuirkForFiles o).

Definition setDomainFromDOM (o : SecurityOrigin) (newDomain : list Z) : SecurityOrigin :=
  mkOrigin (m_protocol o) (m_host o) (m_encodedHost o) (lower newDomain) (m_filePath o) (m_port o) (m_isUnique o)
    (m_universalAccess o) true (m_canLoadLocalResources o) (m_enforceFilePathSeparation o)
    (m_needsDatabaseIdentifierQuirkForFiles o).

Definition grantLoadLocalResources (o : SecurityOrigin) : SecurityOrigin :=
  mkOrigin (m_protocol o) (m_host o) (m_encodedHost o) (m_domain o) (m_filePath o) (m_port o) (m_isUnique o)
    (m_universalAccess o) (m_domainWasSetInDOM o) true (m_enforceFilePathSeparation o)
    (m_needsDatabaseIdentifierQuirkForFiles o).

Definition grantUniversalAccess (o : SecurityOrigin) : SecurityOrigin :=
  mkOrigin (m_protocol o) (m_host o) (m_encodedHost o) (m_domain o) (m_filePath o) (m_port o) (m_isUnique o)
    true (m_domainWasSetInDOM o) (m_canLoadLocalResources o) (m_enforceFilePathSeparation o)
    (m_needsDatabaseIdentifierQuirkForFiles o).

Definition enforceFilePathSeparation (o : SecurityOrigin) : SecurityOrigin :=
  mkOrigin (m_protocol o) (m_host o) (m_encodedHost o) (m_domain o) (m_filePath o) (m_port o) (m_isUnique o)
    (m_universalAccess o) (m_domainWasSetInDOM o) (m_canLoadLocalResources o) true
    (m_needsDatabaseIdentifierQuirkForFiles o).

Definition passesFileCheck (o other : SecurityOrigin) : bool :=
  if negb (m_enforceFilePathSeparation o) && negb (m_enforceFilePathSeparation other) then true
  else bool_decide (m_filePath o = m_filePath other).

(** [same] is [this == other]. *)
Definition canAccess (r : SchemeRegistry) (same : bool) (o other : SecurityOrigin) : bool :=
  if m_universalAccess o then true
  else if same then true
  else if m_isUnique o || m_isUnique other then false
  else
    let canAccess :=
      if bool_decide (m_protocol o = m_protocol other) then
        if negb (m_domainWasSetInDOM o) && negb (m_domainWasSetInDOM other) then
          bool_decide (m_host o = m_host other) && (m_port o =? m_port other)
        else if m_domainWasSetInDOM o && m_domainWasSetInDOM other then bool_decide (m_domain o = m_domain other)
        else false
      else false in
    if canAccess && isLocal r o then passesFileCheck o other else canAccess.

Definition canReceiveDragData (r : SchemeRegistry) (same : bool) (o dragInitiator : SecurityOrigin) : bool :=
  if same then true else canAccess r same o dragInitiator.

Definition isSameSchemeHostPort (r : SchemeRegistry) (o other : SecurityOrigin) : bool :=
  if negb (bool_decide (m_host o = m_host other)) then false
  else if negb (bool_decide (m_protocol o = m_protocol other)) then false
  else if negb (m_port o =? m_port other) then false
  else if isLocal r o && negb (passesFileCheck o other) then false
  else true.

Definition equal (r : SchemeRegistry) (same : bool) (o other : SecurityOrigin) : bool :=
  if same then true
  else if negb (isSameSchemeHostPort r o other) then false
  else if negb (eqb (m_domainWasSetInDOM o) (m_domainWasSetInDOM other)) then false
  else if m_domainWasSetInDOM o && negb (bool_decide (m_domain o = m_domain other)) then false
  else true.

Inductive NotificationPolicy := AlwaysDeny | AlwaysAllow | Ask.

Definition canShowNotifications (o : SecurityOrigin) : NotificationPolicy :=
  if m_universalAccess o then AlwaysAllow else if m_isUnique o then AlwaysDeny else Ask.

(** ** Names of origins *)

Definition toRawString (o : SecurityOrigin) : list Z :=
  if bool_decide (m_protocol o = str "file") then str "file://"
  else m_protocol o ++ str "://" ++ m_host o ++ (if negb (m_port o =? 0) then str ":" ++ number_int (m_port o) else []).

Definition toString (o : SecurityOrigin) : list Z :=
  if m_isUnique o then str "null"
  else if bool_decide (m_protocol o = str "file") && m_enforceFilePathSeparation o then str "null"
  else toRawString o.

Definition createFromString (r : SchemeRegistry) (originString : list Z) : SecurityOrigin := create r (KURL_from originString).

Definition SeparatorCharacter : Z := 95.

Definition createFromDatabaseIdentifier (r : SchemeRegistry) (databaseIdentifier : list Z) : SecurityOrigin :=
  match Impl.find_char databaseIdentifier SeparatorCharacter 0 with
  | None => create r KURL_null
  | Some separator1 =>
      match Impl.reverseFind_char databaseIdentifier SeparatorCharacter (length databaseIdentifier) with
      | None => create r KURL_null
      | Some separator2 =>
          if (separator1 =? separator2)%nat then create r KURL_null
          else
            let '(port, portOkay) :=
              Str.charactersToInt ws (Filters.right databaseIdentifier (length databaseIdentifier - separator2 - 1)) in
            let portAbsent := (separator2 =? length databaseIdentifier - 1)%nat in
            if negb (portOkay || portAbsent) then create r KURL_null
            else if (port <? 0) || (MaxAllowedPort <? port) then create r KURL_null
            else
              let protocol := Impl.substring databaseIdentifier 0 separator1 in
              let host := Impl.substring databaseIdentifier (separator1 + 1) (separator2 - separator1 - 1) in
              let host := Escape.decodeURLEscapeSequences host in
              create r (KURL_from (protocol ++ str "://" ++ host ++ str ":" ++ number_int port))
      end
  end.

(** [create(protocol, host, port)]: the unique origin made for a port out of
    range is dropped, the decoded host is not used. *)
Definition create_parts (r : SchemeRegistry) (protocol host : list Z) (port : Z) : SecurityOrigin :=
  create r (KURL_from (protocol ++ str "://" ++ host ++ str ":" ++ number_int port)).

(** The encoded host is kept in the object. *)
Definition databaseIdentifier (o : SecurityOrigin) : SecurityOrigin * list Z :=
  if m_needsDatabaseIdentifierQuirkForFiles o then (o, str "file__0")
  else
    let encodedHost :=
      if (length (m_encodedHost o) =? 0)%nat then Escape.encodeForFileName (m_host o) else m_encodedHost o in
    (mkOrigin (m_protocol o) (m_host o) encodedHost (m_domain o) (m_filePath o) (m_port o) (m_isUnique o)
       (m_universalAccess o) (m_domainWasSetInDOM o) (m_canLoadLocalResources o) (m_enforceFilePathSeparation o)
       (m_needsDatabaseIdentifierQuirkForFiles o),
     m_protocol o ++ [SeparatorCharacter] ++ encodedHost ++ [SeparatorCharacter] ++ number_int (m_port o)).

End Origin.
End Origin.

(** * OriginAccessEntry.cpp and SecurityPolicy.cpp *)
Module Policy.
Import Schemes Origin.

Inductive SubdomainSetting := AllowSubdomains | DisallowSubdomains.
#[global] Instance subdomain_eq : EqDecision SubdomainSetting.
Proof. solve_decision. Defined.

Record OriginAccessEntry := mkEntry {
  e_protocol : list Z;
  e_host : list Z;
  m_subdomainSettings : SubdomainSetting;
  m_hostIsIPAddress : bool;
}.

Inductive LocalLoadPolicy :=
  AllowLocalLoadsForAll | AllowLocalLoadsForLocalAndSubstituteData | AllowLocalLoadsForLocalOnly.
#[global] Instance local_load_policy_eq : EqDecision LocalLoadPolicy.
Proof. solve_decision. Defined.

Inductive ReferrerPolicy := ReferrerPolicyDefault | ReferrerPolicyNever | ReferrerPolicyAlways | ReferrerPolicyOrigin.

(** The statics of SecurityPolicy.cpp. *)
Record SecurityPolicy := mkPolicy {
  localLoadPolicy : LocalLoadPolicy;
  originAccessMap : gmap (list Z) (list OriginAccessEntry);
}.

Definition policy_new : SecurityPolicy := mkPolicy AllowLocalLoadsForLocalOnly ∅.

Section Policy.
Context (before : Z) (ws : Z -> bool) (unicodeLower : list Z -> list Z) (foldCase : Z -> Z)
  (idn : list Z -> option (list Z)).

Definition OriginAccessEntry_new (protocol host : list Z) (subdomainSetting : SubdomainSetting) : OriginAccessEntry :=
  let host := lower unicodeLower host in
  mkEntry (lower unicodeLower protocol) host subdomainSetting
    (negb (length host =? 0)%nat && isASCIIDigit (at_ host (length host - 1))).

Definition matchesOrigin (e : OriginAccessEntry) (origin : SecurityOrigin) : bool :=
  if negb (bool_decide (e_protocol e = m_protocol origin)) then false
  else if bool_decide (m_subdomainSettings e = AllowSubdomains) && (length (e_host e) =? 0)%nat then true
  else if bool_decide (e_host e = m_host origin) then true
  else if bool_decide (m_subdomainSettings e = DisallowSubdomains) then false
  else if m_hostIsIPAddress e then false
  else if (length (e_host e) <? length (m_host origin))%nat
          && (at_ (m_host origin) (length (m_host origin) - length (e_host e) - 1) =? 46)
          && Impl.endsWith (m_host origin) (e_host e) then true
  else false.

(** [operator==] *)
Definition entry_equal (a b : OriginAccessEntry) : bool :=
  Cache.equalIgnoringCase foldCase (e_protocol a) (e_protocol b)
  && Cache.equalIgnoringCase foldCase (e_host a) (e_host b)
  && bool_decide (m_subdomainSettings a = m_subdomainSettings b).

Definition shouldHideReferrer (url : KURL) (referrer : list Z) : bool :=
  let referrerIsSecureURL := Access.protocolIs_text referrer (str "https") in
  let referrerIsWebURL := referrerIsSecureURL || Access.protocolIs_text referrer (str "http") in
  if negb referrerIsWebURL then true
  else if negb referrerIsSecureURL then false
  else negb (Access.protocolIs url (str "https")).

(** An empty list for the null string. *)
Definition generateReferrerHeader (r : SchemeRegistry) (policy : ReferrerPolicy) (url : KURL) (referrer : list Z) : list Z :=
  if (length referrer =? 0)%nat then []
  else
    match policy with
    | ReferrerPolicyNever => []
    | ReferrerPolicyAlways => referrer
    | ReferrerPolicyOrigin =>
        let origin := toString (createFromString before ws unicodeLower foldCase idn r referrer) in
        if bool_decide (origin = str "null") then [] else origin ++ str "/"
    | ReferrerPolicyDefault => if shouldHideReferrer url referrer then [] else referrer
    end.

Definition setLocalLoadPolicy (p : SecurityPolicy) (policy : LocalLoadPolicy) : SecurityPolicy :=
  mkPolicy policy (originAccessMap p).

Definition restrictAccessToLocal (p : SecurityPolicy) : bool :=
  negb (bool_decide (localLoadPolicy p = AllowLocalLoadsForAll)).

Definition allowSubstituteDataAccessToLocal (p : SecurityPolicy) : bool :=
  negb (bool_decide (localLoadPolicy p = AllowLocalLoadsForLocalOnly)).

Definition isAccessWhiteListed (p : SecurityPolicy) (activeOrigin targetOrigin : SecurityOrigin) : bool :=
  match originAccessMap p !! toString activeOrigin with
  | Some entries => existsb (fun e => matchesOrigin e targetOrigin) entries
  | None => false
  end.

Definition isAccessToURLWhiteListed (r : SchemeRegistry) (p : SecurityPolicy) (activeOrigin : SecurityOrigin) (url : KURL) : bool :=
  isAccessWhiteListed p activeOrigin (create before ws unicodeLower foldCase r url).

Definition subdomains (allowDestinationSubdomains : bool) : SubdomainSetting :=
  if allowDestinationSubdomains then AllowSubdomains else DisallowSubdomains.

Definition addOriginAccessWhitelistEntry (p : SecurityPolicy) (sourceOrigin : SecurityOrigin)
    (destinationProtocol destinationDomain : list Z) (allowDestinationSubdomains : bool) : SecurityPolicy :=
  if m_isUnique sourceOrigin then p
  else
    let sourceString := toString sourceOrigin in
    let entries := default [] (originAccessMap p !! sourceString) in
    mkPolicy (localLoadPolicy p)
      (<[sourceString := entries ++ [OriginAccessEntry_new destinationProtocol destinationDomain (subdomains allowDestinationSubdomains)]]>
         (originAccessMap p)).

(** [list->find(entry)] and [list->remove(index)]: the first equal entry. *)
Fixpoint remove_entry (entry : OriginAccessEntry) (entries : list OriginAccessEntry) : option (list OriginAccessEntry) :=
  match entries with
  | [] => None
  | e :: entries => if entry_equal e entry then Some entries else l ← remove_entry entry entries; Some (e :: l)
  end.

Definition removeOriginAccessWhitelistEntry (p : SecurityPolicy) (sourceOrigin : SecurityOrigin)
    (destinationProtocol destinationDomain : list Z) (allowDestinationSubdomains : bool) : SecurityPolicy :=
  if m_isUnique sourceOrigin then p
  else
    let sourceString := toString sourceOrigin in
    match originAccessMap p !! sourceString with
    | None => p
    | Some entries =>
        match remove_entry (OriginAccessEntry_new destinationProtocol destinationDomain (subdomains allowDestinationSubdomains)) entries with
        | None => p
        | Some [] => mkPolicy (localLoadPolicy p) (delete sourceString (originAccessMap p))
        | Some entries => mkPolicy (localLoadPolicy p) (<[sourceString := entries]> (originAccessMap p))
        end
    end.

Definition resetOriginAccessWhitelists (p : SecurityPolicy) : SecurityPolicy := mkPolicy (localLoadPolicy p) ∅.

End Policy.
End Policy.

(** * What an origin may load *)
Module Requests.
Import Schemes Origin Policy.

Section Requests.
Context (before : Z) (ws : Z -> bool) (unicodeLower : list Z -> list Z) (foldCase : Z -> Z).

Definition canRequest (r : SchemeRegistry) (p : SecurityPolicy) (o : SecurityOrigin) (url : KURL) : bool :=
  if m_universalAccess o then true
  else if m_isUnique o then false
  else
    let targetOrigin := create before ws unicodeLower foldCase r url in
    if m_isUnique targetOrigin then false
    else if isSameSchemeHostPort foldCase r o targetOrigin then true
    else if isAccessWhiteListed p o targetOrigin then true
    else false.

Definition taintsCanvas (r : SchemeRegistry) (p : SecurityPolicy) (o : SecurityOrigin) (url : KURL) : bool :=
  if canRequest r p o url then false
  else if Access.protocolIs url (str "data") then false
  else true.

(** [startsWith(prefix, false)] *)
Definition startsWithIgnoringCase (s prefix : list Z) : bool :=
  (length prefix <=? length s)%nat && Cache.equalIgnoringCase foldCase (take (length prefix) s) prefix.

Definition isFeedWithNestedProtocolInHTTPFamily (url : KURL) : bool :=
  let urlString := m_string url in
  if negb (startsWithIgnoringCase urlString (str "feed")) then false
  else
    startsWithIgnoringCase urlString (str "feed://")
    || startsWithIgnoringCase urlString (str "feed:http:") || startsWithIgnoringCase urlString (str "feed:https:")
    || startsWithIgnoringCase urlString (str "feeds:http:") || startsWithIgnoringCase urlString (str "feeds:https:")
    || startsWithIgnoringCase urlString (str "feedsearch:http:") || startsWithIgnoringCase urlString (str "feedsearch:https:").

Definition canDisplay (r : SchemeRegistry) (p : SecurityPolicy) (o : SecurityOrigin) (url : KURL) : bool :=
  let protocol := lower unicodeLower (Access.protocol url) in
  if isFeedWithNestedProtocolInHTTPFamily url then true
  else if canDisplayOnlyIfCanRequest foldCase r protocol then canRequest r p o url
  else if shouldTreatURLSchemeAsDisplayIsolated foldCase r protocol then
    bool_decide (m_protocol o = protocol) || isAccessToURLWhiteListed before ws unicodeLower foldCase r p o url
  else if restrictAccessToLocal p && shouldTreatURLSchemeAsLocal foldCase r protocol then
    m_canLoadLocalResources o || isAccessToURLWhiteListed before ws unicodeLower foldCase r p o url
  else true.
End Requests.
End Requests.
