(* ===== verification/OriginFacts.v ===== *)
(** * Theorems about security origins (SecurityOrigin.v)

    [OriginFacts] computes the origin of a canonical URL and what a history of
    changes makes of it; [WhiteListSpec] is the abstract white list; [OriginProps]
    has the properties. *)
From stdpp Require Import gmap sets.
From S2P Require Import Prelude UTF8 WString KURLParse KURL TextCodec UTF8Codec Escape HTTPCache ProxyFilter SecurityOrigin.
#[local] Open Scope Z_scope.

Module OriginFacts.
Import KURLParse.Class KURLParse.Scan KURLParse.Assemble ScanFacts Canonical CanonicalFacts UpdateFacts.
Import Schemes Origin Policy Requests.

(** ** Lower case *)

Lemma plain_ascii c : plain c -> isASCII c = true.
Proof. unfold plain, isASCII. intros H. apply Z.leb_le. lia. Qed.

Lemma lower_ascii unicodeLower s : Forall (fun c => isASCII c = true) s -> lower unicodeLower s = map toASCIILower s.
Proof. intros H. unfold lower, Filters.lower. by rewrite (proj2 (forallb_forall _ _) (proj1 (List.Forall_forall _ _) H)). Qed.

(** Names the parser has put in lower case. *)
Definition lower_name (s : list Z) : Prop := Forall (fun c => plain c /\ toASCIILower c = c) s.

Lemma lower_name_id unicodeLower s : lower_name s -> lower unicodeLower s = s.
Proof.
  intros H. rewrite lower_ascii by (eapply list.Forall_impl; [exact H|]; intros c [Hc _]; by apply plain_ascii).
  induction H as [|c s [_ Hc] _ IH]; [done|]. cbn. by rewrite Hc, IH.
Qed.

Section Canonical.
Context (p : parts) (Hp : canonical p).

Lemma scheme_lower : lower_name (scheme p).
Proof. eapply list.Forall_impl; [apply (c_scheme p Hp)|]. intros c [Hc Hl]. split; [by apply scheme_plain|done]. Qed.

Lemma host_lower : lower_name (host p).
Proof. eapply list.Forall_impl; [apply (c_host p Hp)|]. intros c [Hc Hl]. split; [by apply hostname_plain|done]. Qed.

Lemma scheme_matches_eq l : Forall (fun c => isASCIILower c = true) l ->
  Access.scheme_matches (scheme p) l = bool_decide (scheme p = l).
Proof.
  intros Hl. pose proof (c_scheme p Hp) as Hs. revert l Hl. induction Hs as [|c s [Hc Hlow] Hs IH]; intros l Hl.
  { destruct l; [done|]. symmetry. by apply bool_decide_eq_false. }
  destruct l as [|d l]; [symmetry; by apply bool_decide_eq_false|]. apply Forall_cons_iff in Hl as [Hd Hl].
  cbn [Access.scheme_matches]. rewrite IH by done.
  destruct (Access.isSchemeCharacterMatchIgnoringCase c d) eqn:Hm; cbn [andb].
  - assert (c = d) as -> by (by apply lower_match).
    apply bool_decide_ext. split; [by intros ->|by intros [= ->]].
  - symmetry. apply bool_decide_eq_false. intros [= -> _].
    unfold Access.isSchemeCharacterMatchIgnoringCase in Hm. bprop.
    unfold isASCIILower in Hd. bprop. apply Hm.
    assert ((Z.lor d 0x20 =? d) || negb ((97 <=? d) && (d <=? 122)) = true) as Hor.
    { apply (range_check 7 (fun d => (Z.lor d 0x20 =? d) || negb ((97 <=? d) && (d <=? 122)))); [by vm_compute|cbn; lia]. }
    rewrite (proj2 (Z.leb_le 97 d)), (proj2 (Z.leb_le d 122)), orb_false_r in Hor by lia. by apply Z.eqb_eq in Hor.
Qed.

Lemma protocolIs_canonical l : Forall (fun c => isASCIILower c = true) l ->
  Access.protocolIs (canonical_url p) l = bool_decide (scheme p = l).
Proof.
  intros Hl. unfold Access.protocolIs. cbn [m_isValid canonical_url negb m_schemeEnd m_string].
  unfold print. rewrite take_app_length. by apply scheme_matches_eq.
Qed.

(** The port number less the default one. *)
Definition effective_port : Z :=
  if Access.isDefaultPortForProtocol (port_value (port p)) (scheme p) then InvalidPort else port_value (port p).

End Canonical.

(** ** The origin of a canonical URL *)

(** Schemes without special treatment. *)
Definition ordinary (foldCase : Z -> Z) (r : SchemeRegistry) (p : parts) : Prop :=
  scheme p <> str "blob" /\ shouldTreatURLSchemeAsNoAccess foldCase r (scheme p) = false
  /\ shouldTreatURLSchemeAsLocal foldCase r (scheme p) = false.

Section Create.
Context (before : Z) (ws : Z -> bool) (unicodeLower : list Z -> list Z) (foldCase : Z -> Z) (r : SchemeRegistry).

Lemma unique_test p : canonical p -> scheme p <> str "blob" ->
  shouldTreatAsUniqueOrigin before unicodeLower foldCase r (canonical_url p)
  = shouldTreatURLSchemeAsNoAccess foldCase r (scheme p).
Proof.
  intros Hp Hblob. unfold shouldTreatAsUniqueOrigin, shouldUseInnerURL.
  rewrite (protocolIs_canonical p Hp) by by_eval. rewrite bool_decide_false by done. cbn [m_isValid canonical_url negb].
  rewrite host_canonical, protocol_canonical. destruct (c_host p Hp) as [Hh _].
  rewrite (proj2 (Nat.eqb_neq _ _)) by (by destruct (host p)). rewrite andb_false_r.
  by rewrite lower_name_id by by apply scheme_lower.
Qed.

Lemma create_canonical p : canonical p -> ordinary foldCase r p ->
  create before ws unicodeLower foldCase r (canonical_url p) =
    mkOrigin (scheme p) (host p) [] (host p) None (effective_port p) false false false false false false.
Proof.
  intros Hp (Hblob & Hna & Hloc). unfold create. rewrite unique_test, Hna by done.
  unfold shouldUseInnerURL. rewrite (protocolIs_canonical p Hp) by by_eval. rewrite bool_decide_false by done.
  unfold SecurityOrigin_url. rewrite protocol_canonical, host_canonical, port_canonical by done.
  rewrite !lower_name_id by (by apply scheme_lower || by apply host_lower).
  unfold isLocal_protocol. by rewrite Hloc.
Qed.
End Create.

(** Equal scheme, host and port. *)
Definition same_site (p q : parts) : Prop :=
  scheme p = scheme q /\ host p = host q /\ effective_port p = effective_port q.

#[global] Instance same_site_dec p q : Decision (same_site p q).
Proof. unfold same_site. apply _. Defined.

Section Compare.
Context (before : Z) (ws : Z -> bool) (unicodeLower : list Z -> list Z) (foldCase : Z -> Z) (r : SchemeRegistry).
Abbreviation origin_of := (create before ws unicodeLower foldCase r).

Lemma compare_origins p q : canonical p -> canonical q -> ordinary foldCase r p -> ordinary foldCase r q ->
  isSameSchemeHostPort foldCase r (origin_of (canonical_url p)) (origin_of (canonical_url q)) = bool_decide (same_site p q)
  /\ canAccess foldCase r false (origin_of (canonical_url p)) (origin_of (canonical_url q)) = bool_decide (same_site p q)
  /\ equal foldCase r false (origin_of (canonical_url p)) (origin_of (canonical_url q)) = bool_decide (same_site p q).
Proof.
  intros Hp Hq Hop Hoq. rewrite !create_canonical by done. destruct Hop as (_ & _ & Hl).
  unfold isSameSchemeHostPort, canAccess, equal, isSameSchemeHostPort, isLocal, isLocal_protocol.
  cbn [m_protocol m_host m_port m_universalAccess m_isUnique m_domainWasSetInDOM orb negb andb eqb]. rewrite Hl.
  unfold same_site. cbn [andb]. rewrite andb_false_r.
  destruct (bool_decide_reflect (host p = host q)), (bool_decide_reflect (scheme p = scheme q)),
    (Z.eqb_spec (effective_port p) (effective_port q)); cbn [negb andb];
    ((rewrite bool_decide_true by done) || (rewrite bool_decide_false by tauto)); done.
Qed.
End Compare.

(** ** The names of origins *)

Definition port_text (i : Z) : list Z := if negb (i =? 0) then str ":" ++ number_int i else [].

Lemma toString_canonical before ws unicodeLower foldCase r p : canonical p -> ordinary foldCase r p ->
  toString (create before ws unicodeLower foldCase r (canonical_url p)) = scheme p ++ 58 :: str "//" ++ host p ++ port_text (effective_port p).
Proof.
  intros Hp Ho. rewrite create_canonical by done. unfold toString, toRawString. cbn [m_isUnique m_protocol m_host m_port m_enforceFilePathSeparation].
  by rewrite bool_decide_false by apply (c_not_file p Hp).
Qed.

Lemma split_unique (c : Z) a r a' r' : c ∉ a -> c ∉ a' -> a ++ c :: r = a' ++ c :: r' -> a = a' /\ r = r'.
Proof.
  revert a'. induction a as [|x a IH]; intros [|y a'] Ha Ha' Heq; cbn [app] in Heq.
  - by injection Heq as ->.
  - injection Heq as -> _. set_solver.
  - injection Heq as -> _. set_solver.
  - injection Heq as -> Heq. destruct (IH a') as [-> ->]; [set_solver..|done|done].
Qed.

Lemma effective_port_range p : canonical p -> 0 <= effective_port p <= 65535.
Proof.
  intros Hp. unfold effective_port, InvalidPort. destruct (Access.isDefaultPortForProtocol _ _); [lia|].
  unfold port_value. destruct (port p) as [d|] eqn:Hd; [|lia]. destruct (c_port p Hp d Hd) as (_ & Hdig & _).
  pose proof (WString.IntFacts.decimal_from_ge 0 d (Z.le_refl 0) Hdig).
  destruct (Z.ltb_spec (WString.IntFacts.decimal_from 0 d) 65535); lia.
Qed.

Lemma port_text_inj i j : 0 <= i <= 65535 -> 0 <= j <= 65535 -> port_text i = port_text j -> i = j.
Proof.
  assert (forall i, 0 <= i <= 65535 ->
    (match port_text i with [] => 0 | _ :: d => WString.IntFacts.decimal_from 0 d end) = i) as Hinv.
  { intros k Hk. apply Z.eqb_eq. apply (range_check 16 (fun i => (match port_text i with [] => 0 | _ :: d => WString.IntFacts.decimal_from 0 d end) =? i));
      [by vm_compute|cbn; lia]. }
  intros Hi Hj Heq. by rewrite <- (Hinv i), <- (Hinv j), Heq.
Qed.

(** Origins that do not separate files have the same name only if they are the
    same. *)
Lemma names_differ before ws unicodeLower foldCase r p q :
  canonical p -> canonical q -> ordinary foldCase r p -> ordinary foldCase r q ->
  toString (create before ws unicodeLower foldCase r (canonical_url p)) = toString (create before ws unicodeLower foldCase r (canonical_url q))
  <-> same_site p q.
Proof.
  intros Hp Hq Hop Hoq. rewrite !toString_canonical by done. unfold same_site. split; [|by intros (-> & -> & ->)].
  assert (forall s, canonical s -> 58 ∉ scheme s /\ 58 ∉ host s) as Hno.
  { intros s Hs. split; intros Hin; [pose proof (c_scheme s Hs) as H|destruct (c_host s Hs) as [_ H]];
      apply (proj1 (list.Forall_forall _ _) H) in Hin as [Hin _]; by vm_compute in Hin. }
  intros Heq. destruct (Hno p Hp) as [Hp1 Hp2], (Hno q Hq) as [Hq1 Hq2].
  apply split_unique in Heq as [-> Heq]; [|done..]. apply app_inv_head in Heq.
  pose proof (effective_port_range p Hp) as Hrp. pose proof (effective_port_range q Hq) as Hrq.
  assert (host p = host q /\ port_text (effective_port p) = port_text (effective_port q)) as [-> Ht].
  { unfold port_text in *. destruct (negb (effective_port p =? 0)), (negb (effective_port q =? 0)).
    - change (str ":" ++ ?x) with (58 :: x) in *. apply split_unique in Heq as [-> ->]; done.
    - rewrite app_nil_r in Heq. exfalso. apply Hq2. rewrite <- Heq. set_solver.
    - rewrite app_nil_r in Heq. exfalso. apply Hp2. rewrite Heq. set_solver.
    - by rewrite !app_nil_r in Heq. }
  split_and!; [done..|]. by apply port_text_inj.
Qed.

Section CanRequest.
Context (before : Z) (ws : Z -> bool) (unicodeLower : list Z -> list Z) (foldCase : Z -> Z) (r : SchemeRegistry).
Abbreviation origin_of := (create before ws unicodeLower foldCase r).

Lemma request_origins pol p q : canonical p -> canonical q -> ordinary foldCase r p -> ordinary foldCase r q ->
  canRequest before ws unicodeLower foldCase r pol (origin_of (canonical_url p)) (canonical_url q)
  = bool_decide (same_site p q) || isAccessWhiteListed pol (origin_of (canonical_url p)) (origin_of (canonical_url q)).
Proof.
  intros Hp Hq Hop Hoq. destruct (compare_origins before ws unicodeLower foldCase r p q Hp Hq Hop Hoq) as [Hs _].
  unfold canRequest. rewrite Hs, !create_canonical by done. cbn [m_universalAccess m_isUnique].
  by destruct (bool_decide (same_site p q)), (isAccessWhiteListed _ _ _).
Qed.
End CanRequest.

(** ** Histories *)

(** What happens to an origin after its creation. *)
Inductive change :=
| SetDomainFromDOM (newDomain : list Z)
| GrantLoadLocalResources
| GrantUniversalAccess
| EnforceFilePathSeparation
| Copied
| DatabaseIdentifierAsked.

#[global] Instance change_eq : EqDecision change.
Proof. solve_decision. Defined.

Definition apply_change (unicodeLower : list Z -> list Z) (o : SecurityOrigin) (c : change) : SecurityOrigin :=
  match c with
  | SetDomainFromDOM d => setDomainFromDOM unicodeLower o d
  | GrantLoadLocalResources => grantLoadLocalResources o
  | GrantUniversalAccess => grantUniversalAccess o
  | EnforceFilePathSeparation => enforceFilePathSeparation o
  | Copied => isolatedCopy o
  | DatabaseIdentifierAsked => (databaseIdentifier o).1
  end.

Definition history (unicodeLower : list Z -> list Z) (o : SecurityOrigin) (l : list change) : SecurityOrigin :=
  fold_left (apply_change unicodeLower) l o.

(** The domain that was set last. *)
Definition domain_set (l : list change) : option (list Z) :=
  fold_left (fun d c => match c with SetDomainFromDOM d => Some d | _ => d end) l None.

Lemma domain_set_snoc l c :
  domain_set (l ++ [c]) = match c with SetDomainFromDOM d => Some d | _ => domain_set l end.
Proof. unfold domain_set. by rewrite fold_left_app. Qed.

Record fresh (o : SecurityOrigin) : Prop := {
  f_universal : m_universalAccess o = false;
  f_domain : m_domainWasSetInDOM o = false;
  f_separate : m_enforceFilePathSeparation o = false;
  f_encoded : m_encodedHost o = [];
}.

(** A history leaves the identity of an origin and records the rest. *)
Lemma history_spec unicodeLower o l : fresh o ->
  let o' := history unicodeLower o l in
  (m_protocol o' = m_protocol o /\ m_host o' = m_host o /\ m_port o' = m_port o /\ m_filePath o' = m_filePath o
   /\ m_isUnique o' = m_isUnique o)
  /\ m_universalAccess o' = bool_decide (GrantUniversalAccess ∈ l)
  /\ m_enforceFilePathSeparation o' = bool_decide (EnforceFilePathSeparation ∈ l)
  /\ m_domainWasSetInDOM o' = bool_decide (domain_set l <> None)
  /\ (forall d, domain_set l = Some d -> m_domain o' = lower unicodeLower d)
  /\ (m_encodedHost o' = [] \/ m_encodedHost o' = Escape.encodeForFileName (m_host o)).
Proof.
  intros Hf. cbv zeta. induction l as [|c l IH] using rev_ind.
  { destruct Hf as [H1 H2 H3 H4]. cbn. rewrite H1, H2, H3, H4. split_and!; try done; by left. }
  unfold history in *. rewrite fold_left_app. cbn [fold_left].
  set (o' := fold_left _ l o) in *. destruct IH as ((H1 & H2 & H3 & H4 & H5) & Hu & Hs & Hd & Hl & He).
  rewrite domain_set_snoc.
  assert (forall x, x <> c -> bool_decide (x ∈ l ++ [c]) = bool_decide (x ∈ l)) as Hother.
  { intros x Hx. apply bool_decide_ext. rewrite elem_of_app, list_elem_of_singleton. tauto. }
  assert (bool_decide (c ∈ l ++ [c]) = true) as Hsame.
  { apply bool_decide_eq_true. rewrite elem_of_app, list_elem_of_singleton. by right. }
  destruct c; cbn [apply_change setDomainFromDOM grantLoadLocalResources grantUniversalAccess enforceFilePathSeparation
    isolatedCopy m_protocol m_host m_port m_filePath m_isUnique m_universalAccess m_enforceFilePathSeparation
    m_domainWasSetInDOM m_domain m_encodedHost]; rewrite ?Hsame, ?Hother by done.
  6: { unfold databaseIdentifier. destruct (m_needsDatabaseIdentifierQuirkForFiles o'); cbn [fst m_protocol m_host m_port
         m_filePath m_isUnique m_universalAccess m_enforceFilePathSeparation m_domainWasSetInDOM m_domain m_encodedHost];
         [by split_and!|].
       split_and!; try done. rewrite H2. destruct (Nat.eqb_spec (length (m_encodedHost o')) 0) as [H0|H0]; [by right|done]. }
  all: split_and!; try done.
  by intros d [= ->].
Qed.

(** Where origins come from. *)
Definition born (before : Z) (ws : Z -> bool) (unicodeLower : list Z -> list Z) (foldCase : Z -> Z) (o : SecurityOrigin) : Prop :=
  o = createUnique \/ exists r url, o = create before ws unicodeLower foldCase r url.

Lemma born_fresh before ws unicodeLower foldCase o : born before ws unicodeLower foldCase o -> fresh o.
Proof.
  intros [->|(r & url & ->)]; [done|]. unfold create, SecurityOrigin_url. repeat casif; done.
Qed.

(** What lets one origin script another. *)
Definition may_script (unicodeLower : list Z -> list Z) (local : bool) (a b : SecurityOrigin) (la lb : list change) : Prop :=
  m_isUnique a = false /\ m_isUnique b = false /\ m_protocol a = m_protocol b
  /\ match domain_set la, domain_set lb with
     | None, None => m_host a = m_host b /\ m_port a = m_port b
     | Some d, Some e => lower unicodeLower d = lower unicodeLower e
     | _, _ => False
     end
  /\ (local = true -> EnforceFilePathSeparation ∈ la \/ EnforceFilePathSeparation ∈ lb -> m_filePath a = m_filePath b).

Lemma may_script_comm unicodeLower foldCase r a b la lb :
  may_script unicodeLower (isLocal foldCase r a) a b la lb <-> may_script unicodeLower (isLocal foldCase r b) b a lb la.
Proof.
  unfold may_script. split; intros (H1 & H2 & H3 & H4 & H5).
  all: split_and!; try done; [destruct (domain_set la), (domain_set lb); naive_solver|].
  all: intros Hl Hs; symmetry; apply H5; [|tauto]; unfold isLocal in *; congruence.
Qed.

Lemma access_after unicodeLower foldCase r a b la lb :
  fresh a -> fresh b -> GrantUniversalAccess ∉ la ->
  canAccess foldCase r false (history unicodeLower a la) (history unicodeLower b lb) = true
  <-> may_script unicodeLower (isLocal foldCase r a) a b la lb.
Proof.
  intros Hfa Hfb Hu.
  destruct (history_spec unicodeLower a la Hfa) as ((A1 & A2 & A3 & A4 & A5) & A6 & A7 & A8 & A9 & _).
  destruct (history_spec unicodeLower b lb Hfb) as ((B1 & B2 & B3 & B4 & B5) & B6 & B7 & B8 & B9 & _).
  unfold canAccess, isLocal, passesFileCheck, may_script. rewrite A1, A2, A3, A4, A5, A6, A7, A8, B1, B2, B3, B4, B5, B7, B8.
  rewrite (bool_decide_false (GrantUniversalAccess ∈ la)) by done.
  destruct (m_isUnique a), (m_isUnique b); cbn [orb]; try (split; [done|intros (? & ? & _); done]).
  destruct (bool_decide_reflect (m_protocol a = m_protocol b)) as [Hpr|Hpr].
  2: { cbn [andb]. split; [done|]. by intros (_ & _ & ? & _). }
  assert (forall (x : bool) (P : Prop), (x = true <-> P) ->
    (if x && isLocal_protocol foldCase r (m_protocol a)
     then if negb (bool_decide (EnforceFilePathSeparation ∈ la)) && negb (bool_decide (EnforceFilePathSeparation ∈ lb)) then true
          else bool_decide (m_filePath a = m_filePath b)
     else x) = true <->
    false = false /\ false = false /\ m_protocol a = m_protocol b /\ P
    /\ (isLocal_protocol foldCase r (m_protocol a) = true ->
        EnforceFilePathSeparation ∈ la \/ EnforceFilePathSeparation ∈ lb -> m_filePath a = m_filePath b)) as Hfile.
  { intros x P HP. destruct x; cbn [andb].
    - assert P as HP' by (by apply HP). destruct (isLocal_protocol foldCase r (m_protocol a)); [|by split].
      destruct (bool_decide_reflect (EnforceFilePathSeparation ∈ la)), (bool_decide_reflect (EnforceFilePathSeparation ∈ lb));
        cbn [negb andb]; rewrite ?bool_decide_eq_true; naive_solver.
    - split; [done|]. intros (_ & _ & _ & HP' & _). by apply HP in HP'. }
  destruct (domain_set la) as [d|], (domain_set lb) as [e|]; rewrite ?(bool_decide_true (Some _ <> None)) by done;
    rewrite ?(bool_decide_false (None <> None)) by (intros H; by apply H); cbn [negb andb];
    first [apply Hfile|split; [done|]; by intros (_ & _ & _ & [] & _)].
  - rewrite (A9 d), (B9 e) by done. apply bool_decide_eq_true.
  - rewrite andb_true_iff, bool_decide_eq_true, Z.eqb_eq. done.
Qed.
End OriginFacts.

(** * The abstract white list *)
Module WhiteListSpec.
Import Schemes Origin Policy.

(** A grant lets the origins with one name load from a scheme and a host, with
    or without what is below it. *)
Record grant := mkGrant { g_source : list Z; g_protocol : list Z; g_host : list Z; g_subdomains : bool }.

#[global] Instance grant_eq : EqDecision grant.
Proof. solve_decision. Defined.

Definition is_address (host : list Z) : Prop := exists h c, host = h ++ [c] /\ isASCIIDigit c = true.

Definition covers (g : grant) (target : SecurityOrigin) : Prop :=
  g_protocol g = m_protocol target
  /\ (g_host g = m_host target
     \/ g_subdomains g = true
        /\ (g_host g = [] \/ ~ is_address (g_host g) /\ exists x, m_host target = x ++ 46 :: g_host g)).

(** The grants in force, as a list with repetitions. *)
Fixpoint withdraw (g : grant) (l : list grant) : list grant :=
  match l with
  | [] => []
  | h :: l => if decide (h = g) then l else h :: withdraw g l
  end.

Inductive call :=
| Add (source : SecurityOrigin) (protocol domain : list Z) (subdomains : bool)
| Remove (source : SecurityOrigin) (protocol domain : list Z) (subdomains : bool)
| ResetLists
| SetLocalLoads (policy : LocalLoadPolicy).

Definition grant_of (source : SecurityOrigin) (protocol domain : list Z) (subdomains : bool) : grant :=
  mkGrant (toString source) (map toASCIILower protocol) (map toASCIILower domain) subdomains.

Definition spec_step (l : list grant) (c : call) : list grant :=
  match c with
  | Add source protocol domain subs => if m_isUnique source then l else l ++ [grant_of source protocol domain subs]
  | Remove source protocol domain subs => if m_isUnique source then l else withdraw (grant_of source protocol domain subs) l
  | ResetLists => []
  | SetLocalLoads _ => l
  end.

Definition call_ok (c : call) : Prop :=
  match c with
  | Add _ protocol domain _ | Remove _ protocol domain _ =>
      Forall (fun c => isASCII c = true) protocol /\ Forall (fun c => isASCII c = true) domain
  | _ => True
  end.

Definition policy_step (unicodeLower : list Z -> list Z) (foldCase : Z -> Z) (p : SecurityPolicy) (c : call) : SecurityPolicy :=
  match c with
  | Add source protocol domain subs => addOriginAccessWhitelistEntry unicodeLower p source protocol domain subs
  | Remove source protocol domain subs => removeOriginAccessWhitelistEntry unicodeLower foldCase p source protocol domain subs
  | ResetLists => resetOriginAccessWhitelists p
  | SetLocalLoads policy => setLocalLoadPolicy p policy
  end.
End WhiteListSpec.

Module WhiteListFacts.
Import Schemes Origin Policy OriginFacts WhiteListSpec.

Section Facts.
Context (unicodeLower : list Z -> list Z) (foldCase : Z -> Z).
Context (fold_ascii : forall c, isASCII c = true -> foldCase c = toASCIILower c).

(** Lower-case ASCII text. *)
Definition lowered (s : list Z) : Prop := Forall (fun c => isASCII c = true /\ toASCIILower c = c) s.

Lemma lower_idem c : isASCII c = true -> isASCII (toASCIILower c) = true /\ toASCIILower (toASCIILower c) = toASCIILower c.
Proof.
  intros H. assert (toASCIILower c = if isASCIIUpper c then Z.lor c 0x20 else c) as Hl by done.
  destruct (isASCIIUpper c) eqn:Hu; rewrite Hl; [|done].
  unfold isASCIIUpper in Hu. bprop.
  assert (isASCII (Z.lor c 0x20) && (toASCIILower (Z.lor c 0x20) =? Z.lor c 0x20) || negb ((65 <=? c) && (c <=? 90)) = true) as Hc.
  { apply (range_check 7 (fun c => isASCII (Z.lor c 0x20) && (toASCIILower (Z.lor c 0x20) =? Z.lor c 0x20) || negb ((65 <=? c) && (c <=? 90))));
      [by vm_compute|cbn; lia]. }
  rewrite (proj2 (Z.leb_le 65 c)), (proj2 (Z.leb_le c 90)), orb_false_r in Hc by lia.
  apply andb_true_iff in Hc as [Ha Hb]. by apply Z.eqb_eq in Hb.
Qed.

Lemma lowered_map s : Forall (fun c => isASCII c = true) s -> lowered (map toASCIILower s).
Proof. intros H. apply Forall_fmap. eapply list.Forall_impl; [exact H|]. intros c Hc. cbn. by apply lower_idem. Qed.

Lemma lowered_fold s : lowered s -> map foldCase s = s.
Proof. induction 1 as [|c s [Hc Hl] _ IH]; [done|]. cbn. by rewrite IH, fold_ascii, Hl. Qed.

Lemma fold_equal a b : lowered a -> lowered b -> Cache.equalIgnoringCase foldCase a b = bool_decide (a = b).
Proof. intros Ha Hb. unfold Cache.equalIgnoringCase. by rewrite !lowered_fold. Qed.

(** The entry of a grant. *)
Definition entry_of (g : grant) : OriginAccessEntry :=
  mkEntry (g_protocol g) (g_host g) (subdomains (g_subdomains g))
    (negb (length (g_host g) =? 0)%nat && isASCIIDigit (at_ (g_host g) (length (g_host g) - 1))).

Definition grant_ok (g : grant) : Prop := lowered (g_protocol g) /\ lowered (g_host g).

Lemma entry_new source protocol domain subs :
  Forall (fun c => isASCII c = true) protocol -> Forall (fun c => isASCII c = true) domain ->
  OriginAccessEntry_new unicodeLower protocol domain (subdomains subs) = entry_of (grant_of source protocol domain subs)
  /\ grant_ok (grant_of source protocol domain subs).
Proof.
  intros Hp Hd. unfold OriginAccessEntry_new. rewrite !lower_ascii by done. split; [done|].
  split; by apply lowered_map.
Qed.

Lemma entry_of_equal g h : grant_ok g -> grant_ok h -> g_source g = g_source h ->
  entry_equal foldCase (entry_of g) (entry_of h) = bool_decide (g = h).
Proof.
  intros [Hg1 Hg2] [Hh1 Hh2] Hs. unfold entry_equal. cbn [e_protocol e_host m_subdomainSettings entry_of].
  rewrite !fold_equal by done. destruct g as [gs gp gh gb], h as [hs hp hh hb]. cbn in *. subst gs.
  destruct (bool_decide_reflect (gp = hp)) as [->|]; cbn [andb]; [|symmetry; apply bool_decide_eq_false; congruence].
  destruct (bool_decide_reflect (gh = hh)) as [->|]; cbn [andb]; [|symmetry; apply bool_decide_eq_false; congruence].
  destruct gb, hb; cbn [subdomains]; [rewrite !bool_decide_true|rewrite !bool_decide_false|rewrite !bool_decide_false|rewrite !bool_decide_true]; done.
Qed.

Lemma entry_covers g target : matchesOrigin (entry_of g) target = true <-> covers g target.
Proof.
  unfold matchesOrigin, covers. cbn [e_protocol e_host m_subdomainSettings m_hostIsIPAddress entry_of].
  destruct (bool_decide_reflect (g_protocol g = m_protocol target)) as [Hp|Hp]; cbn [negb]; [|split; [done|by intros [? _]]].
  assert (forall P, (true = true <-> P) <-> P) as Htrue by (intros P; tauto).
  destruct (bool_decide_reflect (subdomains (g_subdomains g) = AllowSubdomains)) as [Hs|Hs]; cbn [andb].
  2: { assert (g_subdomains g = false) as Hs' by (by destruct (g_subdomains g)). rewrite Hs'. cbn [subdomains].
       destruct (bool_decide_reflect (g_host g = m_host target)) as [Hh|Hh].
       - split; [|done]. intros _. split; [done|by left].
       - rewrite bool_decide_true by done. split; [done|]. by intros [_ [?|[? _]]]. }
  assert (g_subdomains g = true) as Hs' by (by destruct (g_subdomains g)). rewrite Hs'. cbn [subdomains].
  destruct (Nat.eqb_spec (length (g_host g)) 0) as [H0|H0].
  { apply length_zero_iff_nil in H0. split; [|done]. intros _. split; [done|]. right. split; [done|by left]. }
  destruct (bool_decide_reflect (g_host g = m_host target)) as [Hh|Hh].
  { split; [|done]. intros _. split; [done|by left]. }
  rewrite bool_decide_false by done. cbn [negb andb].
  assert (is_address (g_host g) <-> isASCIIDigit (at_ (g_host g) (length (g_host g) - 1)) = true) as Hip.
  { destruct (g_host g) as [|c h _] using rev_ind; [done|]. rewrite length_app. cbn [length].
    replace (length h + 1 - 1)%nat with (length h) by lia. unfold at_. rewrite list_lookup_middle by done. cbn [default].
    split; [intros (h' & c' & Heq & Hc); by apply app_inj_tail in Heq as [_ ->]|intros Hc; by exists h, c]. }
  destruct (isASCIIDigit _) eqn:Hd.
  { split; [done|]. intros [_ [?|[_ [Hn|[Hn _]]]]]; [done|by rewrite Hn in H0|]. exfalso. apply Hn. by apply Hip. }
  set (th := m_host target). set (gh := g_host g) in *.
  transitivity (exists x, th = x ++ 46 :: gh).
  - destruct (Nat.ltb_spec (length gh) (length th)) as [Hlt|Hge]; cbn [andb].
    2: { split; [done|]. intros [x Hx]. apply (f_equal length) in Hx. rewrite length_app in Hx. cbn [length] in Hx. lia. }
    destruct (Z.eqb_spec (at_ th (length th - length gh - 1)) 46) as [Hdot|Hdot]; cbn [andb].
    + destruct (Impl.endsWith th gh) eqn:He.
      * split; [|done]. intros _. apply WString.StringProps.startsWith_endsWith in He as [y Hy].
        destruct y as [|c y _] using rev_ind; [rewrite Hy in Hlt; cbn in Hlt; lia|].
        exists y. rewrite Hy, <- app_assoc. cbn [app]. f_equal. f_equal.
        rewrite Hy in Hdot. rewrite !length_app in Hdot. cbn [length] in Hdot.
        replace (length y + 1 + length gh - length gh - 1)%nat with (length y) in Hdot by lia.
        unfold at_ in Hdot. rewrite <- app_assoc in Hdot. cbn [app] in Hdot. by rewrite list_lookup_middle in Hdot.
      * split; [done|]. intros [x Hx]. assert (Impl.endsWith th gh = true); [|congruence].
        apply WString.StringProps.startsWith_endsWith. exists (x ++ [46]). by rewrite Hx, <- app_assoc.
    + split; [done|]. intros [x Hx]. exfalso. apply Hdot. rewrite Hx. rewrite length_app. cbn [length].
      replace (length x + S (length gh) - length gh - 1)%nat with (length x) by lia.
      unfold at_. by rewrite list_lookup_middle.
  - split.
    + intros Hx. split; [done|]. right. split; [done|]. right. split; [|done]. intros Ha. apply Hip in Ha. done.
    + intros [_ [?|[_ [Hn|[_ Hx]]]]]; [done|by rewrite Hn in H0|done].
Qed.

(** ** Refinement *)

Definition of_source (s : list Z) (l : list grant) : list grant := base.filter (fun g => g_source g = s) l.

(** The map holds, under each name, the entries of its grants in order, and no
    empty list. *)
Definition represents (l : list grant) (p : SecurityPolicy) : Prop :=
  Forall grant_ok l
  /\ forall s, originAccessMap p !! s = match of_source s l with [] => None | gs => Some (map entry_of gs) end.

Lemma of_source_app s a b : of_source s (a ++ b) = of_source s a ++ of_source s b.
Proof. apply list.filter_app. Qed.

Lemma of_source_snoc s l g : of_source s (l ++ [g]) = of_source s l ++ (if decide (g_source g = s) then [g] else []).
Proof. by rewrite of_source_app. Qed.

Lemma of_source_withdraw_ne s g l : g_source g <> s -> of_source s (withdraw g l) = of_source s l.
Proof.
  intros Hne. induction l as [|h l IH]; [done|]. cbn [withdraw]. destruct (decide (h = g)) as [->|Hh].
  - unfold of_source. by rewrite filter_cons_False.
  - unfold of_source in *. rewrite !filter_cons. by rewrite IH.
Qed.

Lemma of_source_withdraw g l : of_source (g_source g) (withdraw g l) = withdraw g (of_source (g_source g) l).
Proof.
  induction l as [|h l IH]; [done|]. cbn [withdraw]. unfold of_source in *. rewrite filter_cons.
  destruct (decide (h = g)) as [->|Hh].
  - rewrite decide_True by done. cbn [withdraw]. by rewrite decide_True.
  - rewrite filter_cons, IH. destruct (decide (g_source h = g_source g)); [|done]. cbn [withdraw]. by rewrite decide_False.
Qed.

Lemma withdraw_forall (P : grant -> Prop) g l : Forall P l -> Forall P (withdraw g l).
Proof.
  induction 1 as [|h l Hh Hl IH]; [constructor|]. cbn [withdraw]. destruct (decide (h = g)); [done|by constructor].
Qed.

Lemma withdraw_absent g l : g ∉ l -> withdraw g l = l.
Proof.
  induction l as [|h l IH]; [done|]. intros Hn. cbn [withdraw]. rewrite decide_False, IH; [done|..]; set_solver.
Qed.

Lemma remove_entry_spec g l : grant_ok g -> Forall grant_ok l -> Forall (fun h => g_source h = g_source g) l ->
  remove_entry foldCase (entry_of g) (map entry_of l) = if decide (g ∈ l) then Some (map entry_of (withdraw g l)) else None.
Proof.
  intros Hg Hl Hs. induction Hl as [|h l Hh Hl IH]; [by rewrite decide_False by set_solver|].
  apply Forall_cons_iff in Hs as [Hsh Hs]. cbn [map remove_entry withdraw]. rewrite entry_of_equal by done.
  destruct (bool_decide_reflect (h = g)) as [->|Hne].
  - rewrite decide_True by set_solver. by rewrite decide_True.
  - rewrite IH by done. destruct (decide (h = g)); [done|]. destruct (decide (g ∈ l)) as [Hin|Hin].
    + destruct (decide (g ∈ h :: l)) as [_|Hn]; [done|]. by destruct Hn; right.
    + destruct (decide (g ∈ h :: l)) as [Hn|_]; [|done]. apply elem_of_cons in Hn as [->|]; done.
Qed.

Lemma represents_step l p c : represents l p -> call_ok c ->
  represents (spec_step l c) (policy_step unicodeLower foldCase p c).
Proof.
  intros [Hok Hmap] Hc. destruct c as [source protocol domain subs|source protocol domain subs| |policy]; cbn [spec_step policy_step call_ok] in *.
  - unfold addOriginAccessWhitelistEntry. destruct (m_isUnique source); [done|]. destruct Hc as [Hp Hd].
    destruct (entry_new source protocol domain subs Hp Hd) as [-> Hg]. set (g := grant_of source protocol domain subs) in *.
    split; [apply Forall_app; split; [done|by constructor]|]. intros s. cbn [originAccessMap]. rewrite of_source_snoc.
    change (toString source) with (g_source g). destruct (decide (g_source g = s)) as [<-|Hne].
    + rewrite lookup_insert_eq, Hmap. destruct (of_source (g_source g) l) as [|h gs]; [done|].
      cbn [default app]. by rewrite app_comm_cons, map_app.
    + rewrite lookup_insert_ne by done. by rewrite Hmap, app_nil_r.
  - unfold removeOriginAccessWhitelistEntry. destruct (m_isUnique source); [done|]. destruct Hc as [Hp Hd].
    destruct (entry_new source protocol domain subs Hp Hd) as [-> Hg]. set (g := grant_of source protocol domain subs) in *.
    change (toString source) with (g_source g). rewrite Hmap.
    assert (Forall grant_ok (of_source (g_source g) l)) as Hok'.
    { apply list.Forall_forall. intros h Hh. apply list_elem_of_filter in Hh as [_ Hh]. by eapply list.Forall_forall in Hok. }
    assert (Forall (fun h => g_source h = g_source g) (of_source (g_source g) l)) as Hsrc.
    { apply list.Forall_forall. intros h Hh. by apply list_elem_of_filter in Hh as [? _]. }
    pose proof (remove_entry_spec g _ Hg Hok' Hsrc) as Hrem. rewrite <- of_source_withdraw in Hrem.
    assert (forall s, s <> g_source g -> originAccessMap p !! s =
      match of_source s (withdraw g l) with [] => None | gs => Some (map entry_of gs) end) as Hother.
    { intros s Hne. by rewrite of_source_withdraw_ne. }
    assert (g ∉ of_source (g_source g) l -> represents (withdraw g l) p) as Habsent.
    { intros Hn. split; [by apply withdraw_forall|]. intros s. destruct (decide (s = g_source g)) as [->|]; [|by apply Hother].
      by rewrite of_source_withdraw, withdraw_absent. }
    destruct (of_source (g_source g) l) as [|h gs] eqn:Hgs; [apply Habsent; set_solver|].
    rewrite Hrem. destruct (decide (g ∈ h :: gs)) as [Hin|Hin]; [|by apply Habsent].
    destruct (of_source (g_source g) (withdraw g l)) as [|h' gs'] eqn:Hw; cbn [map].
    + split; [by apply withdraw_forall|]. intros s. cbn [originAccessMap].
      destruct (decide (s = g_source g)) as [->|Hne]; [by rewrite lookup_delete_eq, Hw|].
      rewrite lookup_delete_ne by done. by apply Hother.
    + split; [by apply withdraw_forall|]. intros s. cbn [originAccessMap].
      destruct (decide (s = g_source g)) as [->|Hne]; [by rewrite lookup_insert_eq, Hw|].
      rewrite lookup_insert_ne by done. by apply Hother.
  - split; [done|]. intros s. apply lookup_empty.
  - done.
Qed.

Lemma represents_run l p cs : represents l p -> Forall call_ok cs ->
  represents (fold_left spec_step cs l) (fold_left (policy_step unicodeLower foldCase) cs p).
Proof.
  intros Hr Hcs. revert l p Hr. induction Hcs as [|c cs Hc Hcs IH]; intros l p Hr; [done|].
  cbn [fold_left]. by apply IH, represents_step.
Qed.

Lemma represents_listed l p active target : represents l p ->
  isAccessWhiteListed p active target = true <-> exists g, g ∈ l /\ g_source g = toString active /\ covers g target.
Proof.
  intros [Hok Hmap]. unfold isAccessWhiteListed. rewrite Hmap.
  transitivity (existsb (fun e => matchesOrigin e target) (map entry_of (of_source (toString active) l)) = true).
  { by destruct (of_source (toString active) l). }
  rewrite existsb_exists. split.
  - intros (e & He & Hm). apply in_map_iff in He as (g & <- & Hg). apply list_elem_of_In, list_elem_of_filter in Hg as [Hs Hg].
    exists g. split_and!; [done|done|by apply entry_covers].
  - intros (g & Hg & Hs & Hc). exists (entry_of g). split; [|by apply entry_covers].
    apply in_map_iff. exists g. split; [done|]. by apply list_elem_of_In, list_elem_of_filter.
Qed.
End Facts.
End WhiteListFacts.

(** * Properties *)
Module OriginProps.
Import Canonical CanonicalFacts Schemes Origin Policy Requests OriginFacts WhiteListSpec WhiteListFacts.

(** C12: The origins of two canonical URLs whose schemes have no special
    treatment may script each other, are of the same scheme, host and port and
    are equal exactly when scheme, host and port (the default port counted as
    none) of the URLs agree; what the path, the query, the fragment, the user
    and the password are plays no part.  They have the same name (which is what a
    server is told and answers) exactly then, too.  A page may request a URL when they
    agree, and otherwise exactly when a white list entry of its origin covers
    the origin of the URL. *)
Theorem origins_compare before ws unicodeLower foldCase r pol p q :
  canonical p -> canonical q -> ordinary foldCase r p -> ordinary foldCase r q ->
  let origin_of := fun p => create before ws unicodeLower foldCase r (canonical_url p) in
  canAccess foldCase r false (origin_of p) (origin_of q) = bool_decide (same_site p q)
  /\ isSameSchemeHostPort foldCase r (origin_of p) (origin_of q) = bool_decide (same_site p q)
  /\ equal foldCase r false (origin_of p) (origin_of q) = bool_decide (same_site p q)
  /\ canRequest before ws unicodeLower foldCase r pol (origin_of p) (canonical_url q)
     = bool_decide (same_site p q) || isAccessWhiteListed pol (origin_of p) (origin_of q)
  /\ (toString (origin_of p) = toString (origin_of q) <-> same_site p q).
Proof.
  intros Hp Hq Hop Hoq. cbv zeta.
  destruct (compare_origins before ws unicodeLower foldCase r p q Hp Hq Hop Hoq) as (H1 & H2 & H3).
  split; [done|]. split; [done|]. split; [done|]. split; [by apply request_origins|by apply names_differ].
Qed.

(** C4: The same-origin policy over time: take two origins as the code makes
    them, put each through any sequence of changes (a domain set by script, the
    right to load local files, path separation, copies, database names asked
    for) without the grant of universal access.  Then one may script the other
    exactly when neither is unique, the protocols agree, and either both have
    had their domain set and set last to the same name, or neither has and host
    and port agree; and, where the protocol is a local one and one of the two
    separates files, the file paths agree.  The answer is the same in both
    directions. *)
Theorem access_exact before ws unicodeLower foldCase r a b la lb :
  born before ws unicodeLower foldCase a -> born before ws unicodeLower foldCase b ->
  GrantUniversalAccess ∉ la -> GrantUniversalAccess ∉ lb ->
  let a' := history unicodeLower a la in let b' := history unicodeLower b lb in
  (canAccess foldCase r false a' b' = true <-> may_script unicodeLower (isLocal foldCase r a) a b la lb)
  /\ canAccess foldCase r false a' b' = canAccess foldCase r false b' a'.
Proof.
  intros Ha Hb Hla Hlb. cbv zeta. apply born_fresh in Ha, Hb.
  split; [by apply access_after|]. apply eq_bool_prop_intro.
  rewrite !Is_true_true. rewrite !access_after by done. apply may_script_comm.
Qed.

(** C8: Whatever calls have added, removed and reset white list entries, a page
    may reach beyond its origin exactly where a grant in force says so: entries
    added for its origin and not removed since, repetitions counted, of which
    one names the scheme and the host of the target, or a suffix of the host at
    a dot when it extends to subdomains and does not end in a digit. *)
Theorem whitelist_refines unicodeLower foldCase cs active target :
  (forall c, isASCII c = true -> foldCase c = toASCIILower c) -> Forall call_ok cs ->
  isAccessWhiteListed (fold_left (policy_step unicodeLower foldCase) cs policy_new) active target = true
  <-> exists g, g ∈ fold_left spec_step cs [] /\ g_source g = toString active /\ covers g target.
Proof.
  intros Hfold Hcs. apply represents_listed. apply (represents_run unicodeLower foldCase Hfold); [|done].
  split; [constructor|]. intros s. apply lookup_empty.
Qed.
End OriginProps.

Module OriginWitness.
Import Canonical CanonicalFacts KURLWitness Schemes Origin Policy Requests OriginFacts WhiteListSpec WhiteListFacts OriginProps.

(** Registrations as at start-up, folding and lower case of ASCII. *)
Abbreviation page_origin := (create 0 (fun _ => false) (fun s => s) toASCIILower registry_new).

Definition page : parts := mkparts (str "http") [] None (str "a.com") None (str "/x") None None.
Definition other_port : parts := mkparts (str "http") [] None (str "a.com") (Some (str "8080")) (str "/y") None None.

Lemma page_canonical : canonical page.
Proof. unfold page. prove_canonical. Qed.
Lemma other_canonical : canonical other_port.
Proof. unfold other_port. prove_canonical. Qed.

Lemma ordinary_check p : scheme p = str "http" -> ordinary toASCIILower registry_new p.
Proof. intros H. unfold ordinary. rewrite H. split; [done|]. by vm_compute. Qed.

Lemma origins_compare_witness :
  canonical page /\ canonical other_port
  /\ canAccess toASCIILower registry_new false (page_origin (canonical_url page)) (page_origin (canonical_url other_port)) = false.
Proof.
  split; [exact page_canonical|]. split; [exact other_canonical|].
  rewrite (proj1 (origins_compare 0 (fun _ => false) (fun s => s) toASCIILower registry_new policy_new page other_port
    page_canonical other_canonical (ordinary_check page eq_refl) (ordinary_check other_port eq_refl))).
  vm_compute. reflexivity.
Defined.

(** Two hosts that have both set their domain to the one above them. *)
Definition sub_page : SecurityOrigin := page_origin (KURLParse.Assemble.parse 0 (str "http://www.a.com/") []).

Lemma access_exact_witness :
  let a := page_origin (canonical_url page) in let la := [SetDomainFromDOM (str "A.com")] in
  born 0 (fun _ => false) (fun s => s) toASCIILower a /\ born 0 (fun _ => false) (fun s => s) toASCIILower sub_page
  /\ GrantUniversalAccess ∉ la
  /\ canAccess toASCIILower registry_new false (history (fun s => s) a la) (history (fun s => s) sub_page la) = true.
Proof.
  cbv zeta. set (a := page_origin (canonical_url page)). set (la := [SetDomainFromDOM (str "A.com")]).
  assert (born 0 (fun _ => false) (fun s => s) toASCIILower a) as Ha by (right; by exists registry_new, (canonical_url page)).
  assert (born 0 (fun _ => false) (fun s => s) toASCIILower sub_page) as Hb
    by (right; exists registry_new, (KURLParse.Assemble.parse 0 (str "http://www.a.com/") []); reflexivity).
  assert (GrantUniversalAccess ∉ la) as Hla by (intros H; apply list_elem_of_In in H as [H|[]]; discriminate H).
  split; [exact Ha|]. split; [exact Hb|]. split; [exact Hla|].
  apply (proj1 (access_exact 0 (fun _ => false) (fun s => s) toASCIILower registry_new a sub_page la la Ha Hb Hla Hla)).
  split; [reflexivity|]. split; [reflexivity|]. split; [vm_compute; reflexivity|]. split; [reflexivity|].
  intros _ [H|H]; apply list_elem_of_In in H as [H|[]]; discriminate H.
Defined.

Definition sample_calls : list call :=
  [Add (page_origin (canonical_url page)) (str "HTTPS") (str "b.org") true;
   Add (page_origin (canonical_url page)) (str "https") (str "B.org") true;
   Remove (page_origin (canonical_url page)) (str "https") (str "b.org") true].
Definition sample_target : SecurityOrigin := page_origin (KURLParse.Assemble.parse 0 (str "https://www.b.org/") []).

Lemma whitelist_refines_witness :
  Forall call_ok sample_calls
  /\ isAccessWhiteListed (fold_left (policy_step (fun s => s) toASCIILower) sample_calls policy_new)
       (page_origin (canonical_url page)) sample_target = true.
Proof.
  assert (Forall call_ok sample_calls) as Hok.
  { unfold sample_calls. repeat constructor. }
  split; [exact Hok|].
  apply (whitelist_refines (fun s => s) toASCIILower sample_calls (page_origin (canonical_url page)) sample_target
    (fun c _ => eq_refl) Hok).
  exists (mkGrant (str "http://a.com") (str "https") (str "b.org") true).
  split; [vm_compute; left|]. split; [vm_compute; reflexivity|].
  split; [vm_compute; reflexivity|]. right. split; [reflexivity|]. right. split.
  - intros (h & c & H & Hc). change (g_host _) with (str "b.or" ++ [103]) in H. apply app_inj_tail in H as [_ <-]. discriminate Hc.
  - exists (str "www"). vm_compute. reflexivity.
Defined.

(** Once a second local scheme is registered, removing "FILE" removes "file":
    the guard compares exactly and the set folds case. *)
Example file_unregistered :
  let r := registerURLSchemeAsLocal toASCIILower registry_new (str "wkc") in
  shouldTreatURLSchemeAsLocal toASCIILower (removeURLSchemeRegisteredAsLocal toASCIILower r (str "file")) (str "file") = true
  /\ shouldTreatURLSchemeAsLocal toASCIILower (removeURLSchemeRegisteredAsLocal toASCIILower r (str "FILE")) (str "file") = false.
Proof. vm_compute. done. Qed.

(** [create(protocol, host, port)] makes a unique origin for a port out of range
    and throws it away; what it returns has the port 65535. *)
Example port_not_refused :
  let o := create_parts 0 (fun _ => false) (fun s => s) toASCIILower (fun _ => None) registry_new (str "http") (str "a.com") 70000 in
  m_isUnique o = false /\ m_port o = 65535.
Proof. vm_compute. done. Qed.

(** A file origin that separates files is listed under the name of all unique
    origins: every unique origin may then display what is listed for it. *)
Example null_is_shared :
  let file := enforceFilePathSeparation (page_origin (KURLParse.Assemble.parse 0 (str "file:///a.html") [])) in
  let r := registerURLSchemeAsDisplayIsolated toASCIILower registry_new (str "app") in
  let url := KURLParse.Assemble.parse 0 (str "app://h/x") [] in
  let p := addOriginAccessWhitelistEntry (fun s => s) policy_new file (str "app") [] true in
  canDisplay 0 (fun _ => false) (fun s => s) toASCIILower r policy_new createUnique url = false
  /\ canDisplay 0 (fun _ => false) (fun s => s) toASCIILower r p createUnique url = true.
Proof. vm_compute. done. Qed.
End OriginWitness.
