(* ===== verification/CrossOrigin.v ===== *)
(** * Cross-origin requests (WebCore/loader/CrossOriginAccessControl.cpp,
    CrossOriginPreflightResultCache.cpp, platform/network/HTTPHeaderMap.cpp,
    ResourceRequestBase.cpp)

    [HTTPHeaders] and [Request] are header maps and requests, [AccessControl]
    the rules of cross-origin resource sharing, [Preflight] the results of
    preflight requests and their cache.  The texts of the error descriptions are
    left out, a null string is an empty one where the code does the same with
    both, and a request keeps what these files read and write (not the timeout,
    the first party, the encodings and the reporting flags).

    Parameters: as in SecurityOrigin.v, and [iterate], the order in which a hash
    table hands out its entries. *)
From Stdlib Require Import SpecFloat.
From stdpp Require Import gmap sets.
From S2P Require Import Prelude UTF8 WString KURLParse KURL TextCodec UTF8Codec Escape HTTPResource HTTPCache ProxyFilter SecurityOrigin.
Import KURLParse.Assemble.
#[local] Open Scope Z_scope.

(** * Header maps *)
Module HTTPHeaders.

(** Under the folded name: the name as it was first written and the value. *)
Abbreviation HTTPHeaderMap := (gmap (list Z) (list Z * list Z)).

Section Headers.
Context (foldCase : Z -> Z) (iterate : HTTPHeaderMap -> list (list Z * list Z)).

Definition key (name : list Z) : list Z := map foldCase name.

(** A null string when there is none. *)
Definition get (m : HTTPHeaderMap) (name : list Z) : WString.Str.String := snd <$> m !! key name.

Definition contains (m : HTTPHeaderMap) (name : list Z) : bool := bool_decide (is_Some (m !! key name)).

(** [add] leaves a value that is there, and says whether it added. *)
Definition add (m : HTTPHeaderMap) (name value : list Z) : HTTPHeaderMap * bool :=
  match m !! key name with
  | Some _ => (m, false)
  | None => (<[key name := (name, value)]> m, true)
  end.

(** [set] keeps the name that is there. *)
Definition set (m : HTTPHeaderMap) (name value : list Z) : HTTPHeaderMap :=
  match m !! key name with
  | Some (old, _) => <[key name := (old, value)]> m
  | None => <[key name := (name, value)]> m
  end.

Definition remove (m : HTTPHeaderMap) (name : list Z) : HTTPHeaderMap := delete (key name) m.

(** The data for another thread, and back. *)
Definition copyData (m : HTTPHeaderMap) : list (list Z * list Z) := iterate m.
Definition adopt (data : list (list Z * list Z)) : HTTPHeaderMap :=
  fold_left (fun m header => set m header.1 header.2) data ∅.
End Headers.
End HTTPHeaders.

(** * Requests and responses *)
Module Request.
Import Origin HTTPHeaders.

Inductive ResourceRequestCachePolicy :=
  UseProtocolCachePolicy | ReloadIgnoringCacheData | ReturnCacheDataElseLoad | ReturnCacheDataDontLoad.

(** [FormData] is the bytes it stands for. *)
Record ResourceRequest := mkRequest {
  url : KURL;
  cachePolicy : ResourceRequestCachePolicy;
  httpMethod : list Z;
  httpHeaderFields : HTTPHeaderMap;
  httpBody : option (list Z);
  allowCookies : bool;
  priority : Z;
}.

Definition ResourceLoadPriorityLow : Z := 1.

(** The constructor from a URL. *)
Definition ResourceRequest_url (u : KURL) : ResourceRequest :=
  mkRequest u UseProtocolCachePolicy (str "GET") ∅ None true ResourceLoadPriorityLow.

(** The default constructor, a null request. *)
Definition ResourceRequest_null : ResourceRequest := ResourceRequest_url KURL_null.

Definition set_headers (r : ResourceRequest) (headers : HTTPHeaderMap) : ResourceRequest :=
  mkRequest (url r) (cachePolicy r) (httpMethod r) headers (httpBody r) (allowCookies r) (priority r).

Definition setURL (r : ResourceRequest) (u : KURL) : ResourceRequest :=
  mkRequest u (cachePolicy r) (httpMethod r) (httpHeaderFields r) (httpBody r) (allowCookies r) (priority r).

Definition setHTTPMethod (r : ResourceRequest) (method : list Z) : ResourceRequest :=
  mkRequest (url r) (cachePolicy r) method (httpHeaderFields r) (httpBody r) (allowCookies r) (priority r).

Definition setHTTPBody (r : ResourceRequest) (body : option (list Z)) : ResourceRequest :=
  mkRequest (url r) (cachePolicy r) (httpMethod r) (httpHeaderFields r) body (allowCookies r) (priority r).

Definition setAllowCookies (r : ResourceRequest) (allow : bool) : ResourceRequest :=
  mkRequest (url r) (cachePolicy r) (httpMethod r) (httpHeaderFields r) (httpBody r) allow (priority r).

Definition setPriority (r : ResourceRequest) (p : Z) : ResourceRequest :=
  mkRequest (url r) (cachePolicy r) (httpMethod r) (httpHeaderFields r) (httpBody r) (allowCookies r) p.

Definition setCachePolicy (r : ResourceRequest) (policy : ResourceRequestCachePolicy) : ResourceRequest :=
  mkRequest (url r) policy (httpMethod r) (httpHeaderFields r) (httpBody r) (allowCookies r) (priority r).

Section Request.
Context (before : Z) (foldCase : Z -> Z) (iterate : HTTPHeaderMap -> list (list Z * list Z)).

Definition removeCredentials (r : ResourceRequest) : ResourceRequest :=
  setURL r (Update.setPass before (Update.setUser before (url r) []) []).

Definition httpHeaderField (r : ResourceRequest) (name : list Z) : WString.Str.String :=
  get foldCase (httpHeaderFields r) name.

Definition setHTTPHeaderField (r : ResourceRequest) (name value : list Z) : ResourceRequest :=
  set_headers r (set foldCase (httpHeaderFields r) name value).

Definition addHTTPHeaderField (r : ResourceRequest) (name value : list Z) : ResourceRequest :=
  let '(m, isNewEntry) := add foldCase (httpHeaderFields r) name value in
  if isNewEntry then set_headers r m
  else set_headers r (set foldCase m name (default [] (get foldCase m name) ++ [44] ++ value)).

Definition addHTTPHeaderFields (r : ResourceRequest) (headerFields : HTTPHeaderMap) : ResourceRequest :=
  fold_left (fun r h => addHTTPHeaderField r h.1 h.2) (iterate headerFields) r.

Definition clear (r : ResourceRequest) (name : list Z) : ResourceRequest :=
  set_headers r (remove foldCase (httpHeaderFields r) name).
Definition clearHTTPAuthorization r := clear r (str "Authorization").
Definition clearHTTPContentType r := clear r (str "Content-Type").
Definition clearHTTPReferrer r := clear r (str "Referer").
Definition clearHTTPOrigin r := clear r (str "Origin").
Definition clearHTTPUserAgent r := clear r (str "User-Agent").
Definition clearHTTPAccept r := clear r (str "Accept").

Definition setHTTPOrigin (r : ResourceRequest) (origin : list Z) : ResourceRequest :=
  setHTTPHeaderField r (str "Origin") origin.

Definition isConditional (r : ResourceRequest) : bool :=
  contains foldCase (httpHeaderFields r) (str "If-Match") || contains foldCase (httpHeaderFields r) (str "If-Modified-Since")
  || contains foldCase (httpHeaderFields r) (str "If-None-Match") || contains foldCase (httpHeaderFields r) (str "If-Range")
  || contains foldCase (httpHeaderFields r) (str "If-Unmodified-Since").
End Request.

(** What the checks ask a response. *)
Record ResourceResponse := mkResponse {
  responseURL : KURL;
  httpStatusCode : Z;
  responseHeaderFields : HTTPHeaderMap;
}.
End Request.

(** * CrossOriginAccessControl.cpp *)
Module AccessControl.
Import Schemes Origin HTTPHeaders Request.

Inductive StoredCredentials := AllowStoredCredentials | DoNotAllowStoredCredentials.
#[global] Instance stored_credentials_eq : EqDecision StoredCredentials.
Proof. solve_decision. Defined.

Definition isOnAccessControlSimpleRequestMethodWhitelist (method : list Z) : bool :=
  bool_decide (method = str "GET") || bool_decide (method = str "HEAD") || bool_decide (method = str "POST").

Section Rules.
Context (before : Z) (ws : Z -> bool) (unicodeLower : list Z -> list Z) (foldCase : Z -> Z)
  (iterate : HTTPHeaderMap -> list (list Z * list Z)).

(** HTTPParsers.cpp: the characters up to a semicolon or a comma, white space
    left out anywhere. *)
Fixpoint mime_loop (s : list Z) : list Z :=
  match s with
  | [] => []
  | c :: s =>
      if c =? 59 then [] else if c =? 44 then []
      else if isSpaceOrNewline ws c then mime_loop s else c :: mime_loop s
  end.

Definition extractMIMETypeFromMediaType (mediaType : list Z) : list Z :=
  let mimeType := mime_loop mediaType in
  if (length mimeType =? length mediaType)%nat then mediaType else mimeType.

Definition isOnAccessControlSimpleRequestHeaderWhitelist (name value : list Z) : bool :=
  if Cache.equalIgnoringCase foldCase name (str "accept") || Cache.equalIgnoringCase foldCase name (str "accept-language")
     || Cache.equalIgnoringCase foldCase name (str "content-language") || Cache.equalIgnoringCase foldCase name (str "origin")
     || Cache.equalIgnoringCase foldCase name (str "referer") then true
  else if Cache.equalIgnoringCase foldCase name (str "content-type") then
    let mimeType := extractMIMETypeFromMediaType value in
    Cache.equalIgnoringCase foldCase mimeType (str "application/x-www-form-urlencoded")
    || Cache.equalIgnoringCase foldCase mimeType (str "multipart/form-data")
    || Cache.equalIgnoringCase foldCase mimeType (str "text/plain")
  else false.

Definition isSimpleCrossOriginAccessRequest (method : list Z) (headerMap : HTTPHeaderMap) : bool :=
  if negb (isOnAccessControlSimpleRequestMethodWhitelist method) then false
  else forallb (fun h => isOnAccessControlSimpleRequestHeaderWhitelist h.1 h.2) (iterate headerMap).

(** A [HashSet] that folds case. *)
Definition allowedCrossOriginResponseHeaders : gset (list Z) :=
  names foldCase ["cache-control"; "content-language"; "content-type"; "expires"; "last-modified"; "pragma"]%string.

Definition isOnAccessControlResponseHeaderWhitelist (name : list Z) : bool :=
  bool_decide (key foldCase name ∈ allowedCrossOriginResponseHeaders).

Definition updateRequestForAccessControl (request : ResourceRequest) (origin : SecurityOrigin)
    (allowCredentials : StoredCredentials) : ResourceRequest :=
  let request := removeCredentials before request in
  let request := setAllowCookies request (bool_decide (allowCredentials = AllowStoredCredentials)) in
  setHTTPOrigin foldCase request (toString origin).

(** The names in the order of the table, with a comma and a space between. *)
Definition join_names (headers : list (list Z * list Z)) : list Z :=
  match headers with
  | [] => []
  | h :: headers => h.1 ++ concat (map (fun h => [44; 32] ++ h.1) headers)
  end.

Definition createAccessControlPreflightRequest (request : ResourceRequest) (origin : SecurityOrigin) : ResourceRequest :=
  let preflight := ResourceRequest_url (url request) in
  let preflight := updateRequestForAccessControl preflight origin DoNotAllowStoredCredentials in
  let preflight := setHTTPMethod preflight (str "OPTIONS") in
  let preflight := setHTTPHeaderField foldCase preflight (str "Access-Control-Request-Method") (httpMethod request) in
  let preflight := setPriority preflight (priority request) in
  if (0 <? size (httpHeaderFields request))%nat then
    setHTTPHeaderField foldCase preflight (str "Access-Control-Request-Headers")
      (lower unicodeLower (join_names (iterate (httpHeaderFields request))))
  else preflight.

Definition response_header (response : ResourceResponse) (name : list Z) : list Z :=
  default [] (get foldCase (responseHeaderFields response) name).

Definition passesAccessControlCheck (response : ResourceResponse) (includeCredentials : StoredCredentials)
    (origin : SecurityOrigin) : bool :=
  let accessControlOriginString := response_header response (str "access-control-allow-origin") in
  if bool_decide (accessControlOriginString = str "*") && bool_decide (includeCredentials = DoNotAllowStoredCredentials)
  then true
  else if m_isUnique origin then false
  else if negb (bool_decide (accessControlOriginString = toString origin)) then false
  else if bool_decide (includeCredentials = AllowStoredCredentials)
          && negb (bool_decide (response_header response (str "access-control-allow-credentials") = str "true")) then false
  else true.

Definition parseAccessControlExposeHeadersAllowList (headerValue : list Z) (headerSet : gset (list Z)) : option (gset (list Z)) :=
  headers ← WString.Str.split headerValue [44] false;
  Some (fold_left (fun headerSet header =>
    let strippedHeader := Filters.stripWhiteSpace ws header in
    if negb (length strippedHeader =? 0)%nat then {[key foldCase strippedHeader]} ∪ headerSet else headerSet) headers headerSet).
End Rules.
End AccessControl.

(** * CrossOriginPreflightResultCache.cpp *)
Module Preflight.
Import Double HTTPHeaders Request AccessControl.

Definition defaultPreflightCacheTimeoutSeconds : Z := 5.
Definition maxPreflightCacheTimeoutSeconds : Z := 600.

(** Methods are compared exactly, headers with their case folded. *)
Record CrossOriginPreflightResultCacheItem := mkItem {
  m_absoluteExpiryTime : spec_float;
  m_credentials : StoredCredentials;
  m_methods : gset (list Z);
  m_headers : gset (list Z);
}.

Definition Item_new (credentials : StoredCredentials) : CrossOriginPreflightResultCacheItem :=
  mkItem (S754_zero false) credentials ∅ ∅.

(** Under the name of the origin and the text of the URL, by which URLs are
    compared. *)
Abbreviation PreflightCache := (gmap (list Z * list Z) CrossOriginPreflightResultCacheItem).

(** The sum of a time and a whole number of seconds, in double precision. *)
Definition seconds (n : Z) : spec_float := binary_normalize 53 1024 n 0 false.
Definition add_seconds (t : double) (n : Z) : spec_float := SFadd 53 1024 (decode t) (seconds n).

Section Preflight.
Context (ws : Z -> bool) (foldCase : Z -> Z) (iterate : HTTPHeaderMap -> list (list Z * list Z)).

Definition parseAccessControlMaxAge (s : list Z) : Z * bool := WString.Str.charactersToUIntStrict ws s.

(** Skipping white space from [start] on, up to [end] and not beyond. *)
Fixpoint skip_start (s : list Z) (fuel start e : nat) : nat :=
  match fuel with
  | O => start
  | S fuel => if (start <=? e)%nat && isSpaceOrNewline ws (at_ s start) then skip_start s fuel (S start) e else start
  end.

Definition addToAccessControlAllowList (name : list Z -> list Z) (s : list Z) (start e : nat) (l : gset (list Z)) : gset (list Z) :=
  let start := skip_start s (length s) start e in
  if (e <? start)%nat then l
  else
    let e := Impl.strip_end (isSpaceOrNewline ws) s e in
    {[name (Impl.substring s start (e - start + 1))]} ∪ l.

(** [None] when the fuel ends before the loop does. *)
Fixpoint allow_loop (name : list Z -> list Z) (s : list Z) (fuel start : nat) (l : gset (list Z)) : option (gset (list Z) * bool) :=
  match fuel with
  | O => None
  | S fuel =>
      match Impl.find_char s 44 start with
      | Some e =>
          if (start =? e)%nat then Some (l, false)
          else allow_loop name s fuel (S e) (addToAccessControlAllowList name s start (e - 1) l)
      | None =>
          Some (if negb (start =? length s)%nat then addToAccessControlAllowList name s start (length s - 1) l else l, true)
      end
  end.

Definition parseAccessControlAllowList (name : list Z -> list Z) (s : list Z) (l : gset (list Z)) : gset (list Z) * bool :=
  default (l, false) (allow_loop name s (S (length s)) 0 l).

(** The item, and whether the response could be read. *)
Definition parse (now : double) (item : CrossOriginPreflightResultCacheItem) (response : ResourceResponse)
    : CrossOriginPreflightResultCacheItem * bool :=
  let field name := response_header foldCase response (str name) in
  let '(methods, ok) := parseAccessControlAllowList (fun s => s) (field "Access-Control-Allow-Methods"%string) ∅ in
  if negb ok then (mkItem (m_absoluteExpiryTime item) (m_credentials item) methods (m_headers item), false)
  else
    let '(headers, ok) := parseAccessControlAllowList (key foldCase) (field "Access-Control-Allow-Headers"%string) ∅ in
    if negb ok then (mkItem (m_absoluteExpiryTime item) (m_credentials item) methods headers, false)
    else
      let '(maxAge, ok) := parseAccessControlMaxAge (field "Access-Control-Max-Age"%string) in
      let expiryDelta :=
        if ok then if maxPreflightCacheTimeoutSeconds <? maxAge then maxPreflightCacheTimeoutSeconds else maxAge
        else defaultPreflightCacheTimeoutSeconds in
      (mkItem (add_seconds now expiryDelta) (m_credentials item) methods headers, true).

Definition allowsCrossOriginMethod (item : CrossOriginPreflightResultCacheItem) (method : list Z) : bool :=
  bool_decide (method ∈ m_methods item) || isOnAccessControlSimpleRequestMethodWhitelist method.

Definition allowsCrossOriginHeaders (item : CrossOriginPreflightResultCacheItem) (requestHeaders : HTTPHeaderMap) : bool :=
  forallb (fun h => bool_decide (key foldCase h.1 ∈ m_headers item)
                    || isOnAccessControlSimpleRequestHeaderWhitelist ws foldCase h.1 h.2) (iterate requestHeaders).

Definition allowsRequest (now : double) (item : CrossOriginPreflightResultCacheItem) (includeCredentials : StoredCredentials)
    (method : list Z) (requestHeaders : HTTPHeaderMap) : bool :=
  if SFltb (m_absoluteExpiryTime item) (decode now) then false
  else if bool_decide (includeCredentials = AllowStoredCredentials)
          && bool_decide (m_credentials item = DoNotAllowStoredCredentials) then false
  else if negb (allowsCrossOriginMethod item method) then false
  else if negb (allowsCrossOriginHeaders item requestHeaders) then false
  else true.

Definition appendEntry (c : PreflightCache) (origin : list Z) (url : KURL) (item : CrossOriginPreflightResultCacheItem) : PreflightCache :=
  <[(origin, m_string url) := item]> c.

Definition canSkipPreflight (now : double) (c : PreflightCache) (origin : list Z) (url : KURL)
    (includeCredentials : StoredCredentials) (method : list Z) (requestHeaders : HTTPHeaderMap) : PreflightCache * bool :=
  match c !! (origin, m_string url) with
  | None => (c, false)
  | Some item =>
      if allowsRequest now item includeCredentials method requestHeaders then (c, true)
      else (delete (origin, m_string url) c, false)
  end.

Definition empty (c : PreflightCache) : PreflightCache := ∅.
End Preflight.
End Preflight.
