(* ===== verification/CrossOriginFacts.v ===== *)
(** * Theorems about cross-origin requests (CrossOrigin.v)

    [AllowListFacts]: what a list of names in a header means; [RequestFacts]: how
    a request is stripped of its credentials; [CacheSpec]: the cache of preflight
    results against the history of what was put into it; [CrossOriginProps] has
    the properties. *)
From Stdlib Require Import SpecFloat.
From stdpp Require Import gmap sets.
From S2P Require Import Prelude UTF8 WString KURLParse KURL TextCodec UTF8Codec Escape HTTPResource HTTPCache ProxyFilter SecurityOrigin OriginFacts CrossOrigin.
Import KURLParse.Assemble.
#[local] Open Scope Z_scope.

(** * Lists of names *)
Module AllowListSpec.

(** The text between the commas: always at least one piece. *)
Fixpoint pieces (s : list Z) : list (list Z) :=
  match s with
  | [] => [[]]
  | c :: s =>
      if c =? 44 then [] :: pieces s
      else match pieces s with p :: ps => (c :: p) :: ps | [] => [[c]] end
  end.

Definition trim (ws : Z -> bool) (p : list Z) : list Z := Impl.stripMatchedCharacters (isSpaceOrNewline ws) p.

(** Only the last piece may be empty. *)
Definition well_formed (s : list Z) : Prop := Forall (fun p => p <> []) (removelast (pieces s)).
#[global] Instance well_formed_dec s : Decision (well_formed s).
Proof. unfold well_formed. apply _. Defined.

(** The names a list holds: the pieces trimmed, blank ones left out. *)
Definition listed (ws : Z -> bool) (s n : list Z) : Prop := n <> [] /\ exists p, p ∈ pieces s /\ trim ws p = n.
End AllowListSpec.

Module AllowListFacts.
Import CrossOrigin.Preflight AllowListSpec.

Section Facts.
Context (ws : Z -> bool) (name : list Z -> list Z).
Abbreviation sp := (isSpaceOrNewline ws).

Lemma at_app_middle a q b i : (i < length q)%nat -> at_ (a ++ q ++ b) (length a + i) = at_ q i.
Proof. intros H. unfold at_. rewrite lookup_app_r by lia. rewrite lookup_app_l by lia. by rewrite Nat.add_comm, Nat.add_sub. Qed.

Lemma skip_start_span a q b fuel e : (length q <= fuel)%nat -> (e + 1 = length a + length q)%nat ->
  skip_start ws (a ++ q ++ b) fuel (length a) e = (length a + span_len sp q)%nat.
Proof.
  revert a fuel. induction q as [|c q IH]; intros a fuel Hf He; cbn [length span_len] in *.
  { destruct fuel; cbn [skip_start]; [lia|]. destruct (Nat.leb_spec (length a) e); [lia|]. cbn [andb]. lia. }
  destruct fuel as [|fuel]; [lia|]. cbn [skip_start]. destruct (Nat.leb_spec (length a) e); [|lia]. cbn [andb].
  pose proof (at_app_middle a (c :: q) b 0) as Hat. rewrite Nat.add_0_r in Hat. rewrite Hat by (cbn; lia).
  change (at_ (c :: q) 0) with c. destruct (sp c); [|lia].
  specialize (IH (a ++ [c]) fuel). rewrite <- app_assoc in IH. cbn [app] in *. rewrite length_app in IH. cbn [length] in IH.
  replace (S (length a)) with (length a + 1)%nat by lia. rewrite IH by lia. lia.
Qed.

Lemma strip_end_shift a q b j k : (j <= k)%nat -> (k < length q)%nat -> sp (at_ q j) = false ->
  Impl.strip_end sp (a ++ q ++ b) (length a + k) = (length a + Impl.strip_end sp q k)%nat
  /\ (j <= Impl.strip_end sp q k <= k)%nat.
Proof.
  intros Hj Hk Hn. induction k as [|k IH].
  { assert (j = O) as -> by lia. cbn [Impl.strip_end]. split; [|lia].
    destruct (length a + 0)%nat as [|n] eqn:En; [cbn; lia|]. cbn [Impl.strip_end]. rewrite <- En.
    rewrite at_app_middle, Hn by lia. lia. }
  replace (length a + S k)%nat with (S (length a + k)) by lia. cbn [Impl.strip_end].
  replace (S (length a + k)) with (length a + S k)%nat by lia. rewrite at_app_middle by lia.
  destruct (sp (at_ q (S k))) eqn:Hs; [|lia].
  destruct (decide (j = S k)) as [->|Hne]; [congruence|]. destruct IH as [IH1 IH2]; [lia|lia|]. by split; [|lia].
Qed.

Definition add_piece (p : list Z) (l : gset (list Z)) : gset (list Z) :=
  if (length (trim ws p) =? 0)%nat then l else {[name (trim ws p)]} ∪ l.

Lemma addTo_piece a q b l : q <> [] ->
  addToAccessControlAllowList ws name (a ++ q ++ b) (length a) (length a + length q - 1) l = add_piece q l.
Proof.
  intros Hq. assert (0 < length q)%nat as Hlen by (destruct q; [done|cbn; lia]).
  unfold addToAccessControlAllowList. rewrite skip_start_span by (rewrite ?length_app; lia).
  unfold add_piece, trim, Impl.stripMatchedCharacters. rewrite (proj2 (Nat.eqb_neq (length q) 0)) by lia. cbv zeta.
  destruct (Nat.ltb_spec (length q - 1) (span_len sp q)) as [Hlt|Hge].
  { rewrite (proj2 (Nat.ltb_lt _ _)) by lia. done. }
  rewrite (proj2 (Nat.ltb_ge _ _)) by lia.
  assert (sp (at_ q (span_len sp q)) = false) as Hstop.
  { destruct (lookup_lt_is_Some_2 q (span_len sp q)) as [c Hc]; [lia|]. unfold at_. rewrite Hc. cbn.
    by apply (span_len_stop sp q). }
  destruct (strip_end_shift a q b (span_len sp q) (length q - 1)) as [He Hb]; [lia|lia|done|].
  replace (length a + length q - 1)%nat with (length a + (length q - 1))%nat by lia. rewrite He.
  set (e := Impl.strip_end sp q (length q - 1)) in *.
  rewrite StrFacts.substring_spec by (rewrite !length_app; lia).
  replace (length a + e - (length a + span_len sp q) + 1)%nat with (e + 1 - span_len sp q)%nat by lia.
  assert (take (e + 1 - span_len sp q) (drop (length a + span_len sp q) (a ++ q ++ b))
    = take (e + 1 - span_len sp q) (drop (span_len sp q) q)) as ->.
  { rewrite <- drop_drop, drop_app_length, drop_app_le, take_app_le by (rewrite ?length_drop; lia). done. }
  rewrite (proj2 (Nat.eqb_neq (length _) 0)); [done|]. rewrite length_take, length_drop. lia.
Qed.

(** ** The loop *)

Fixpoint read_pieces (ps : list (list Z)) (l : gset (list Z)) : gset (list Z) * bool :=
  match ps with
  | [] => (l, true)
  | [p] => (add_piece p l, true)
  | p :: ps => if (length p =? 0)%nat then (l, false) else read_pieces ps (add_piece p l)
  end.

Definition comma_free (c : Z) : bool := negb (c =? 44).

Lemma pieces_nonempty t : pieces t <> [].
Proof. destruct t as [|c t]; cbn; [done|]. destruct (c =? 44); [done|]. by destruct (pieces t). Qed.

Lemma pieces_span t :
  pieces t = if (span_len comma_free t =? length t)%nat then [t]
             else take (span_len comma_free t) t :: pieces (drop (S (span_len comma_free t)) t).
Proof.
  induction t as [|c t IH]; [done|]. cbn [pieces span_len length].
  assert (comma_free c = negb (c =? 44)) as -> by done.
  destruct (c =? 44) eqn:Hc; cbn [negb]; [done|].
  rewrite IH. cbn [Nat.eqb]. by destruct (span_len comma_free t =? length t)%nat.
Qed.

Lemma allow_loop_pieces fuel a t l : (length t < fuel)%nat ->
  allow_loop ws name (a ++ t) fuel (length a) l = Some (read_pieces (pieces t) l).
Proof.
  revert a t l. induction fuel as [|fuel IH]; intros a t l Hf; [lia|]. cbn [allow_loop].
  rewrite pieces_span. unfold Impl.find_char. rewrite drop_app_length. change (fun x : Z => negb (x =? 44)) with comma_free.
  pose proof (span_len_le comma_free t) as Hle. set (n := span_len comma_free t) in *. rewrite length_app.
  destruct (Nat.eqb_spec n (length t)) as [Hn|Hn].
  - rewrite Hn, (proj2 (Nat.ltb_ge _ _)) by lia. cbn [read_pieces]. f_equal. f_equal.
    destruct (Nat.eqb_spec (length a) (length a + length t)) as [H0|H0]; cbn [negb].
    + assert (t = []) as -> by (apply length_zero_iff_nil; lia). done.
    + pose proof (addTo_piece a t [] l) as Ht. rewrite app_nil_r in Ht. apply Ht. intros ->. cbn in H0. lia.
  - rewrite (proj2 (Nat.ltb_lt _ _)) by lia.
    assert (exists r, t = take n t ++ 44 :: r /\ drop (S n) t = r) as (r & Ht & Hr).
    { destruct (lookup_lt_is_Some_2 t n) as [c Hc]; [lia|]. exists (drop (S n) t). split; [|done].
      assert (c = 44) as ->.
      { pose proof (span_len_stop comma_free t c Hc) as Hs. unfold comma_free in Hs. bprop. done. }
      by rewrite <- (drop_S t 44 n Hc), take_drop. }
    rewrite Hr. pose proof (pieces_nonempty r) as Hne.
    assert (length (take n t) = n) as Hln by (rewrite length_take; lia).
    assert (read_pieces (take n t :: pieces r) l =
      if (n =? 0)%nat then (l, false) else read_pieces (pieces r) (add_piece (take n t) l)) as ->.
    { cbn [read_pieces]. rewrite Hln. by destruct (pieces r). }
    destruct (Nat.eqb_spec (length a) (length a + n)) as [H0|H0].
    { rewrite (proj2 (Nat.eqb_eq n 0)) by lia. done. }
    rewrite (proj2 (Nat.eqb_neq n 0)) by lia.
    rewrite <- (IH (a ++ take n t ++ [44]) r) by (rewrite Ht in Hf; rewrite length_app in Hf; cbn in Hf; lia).
    rewrite !length_app, Hln. cbn [length].
    replace (length a + (n + 1))%nat with (S (length a + n)) by lia.
    replace (length a + n - 1)%nat with (length a + length (take n t) - 1)%nat by lia.
    assert (a ++ t = a ++ take n t ++ 44 :: r) as -> by (by rewrite Ht at 1).
    rewrite (addTo_piece a (take n t) (44 :: r)) by (intros He; rewrite He in Hln; cbn in Hln; lia).
    by rewrite <- !app_assoc.
Qed.

Lemma add_piece_elem p l x : x ∈ add_piece p l <-> x ∈ l \/ trim ws p <> [] /\ x = name (trim ws p).
Proof.
  unfold add_piece. destruct (Nat.eqb_spec (length (trim ws p)) 0) as [H0|H0].
  - apply length_zero_iff_nil in H0. rewrite H0. naive_solver.
  - assert (trim ws p <> []) by (intros E; by rewrite E in H0). set_solver.
Qed.

Lemma read_pieces_spec ps l :
  (read_pieces ps l).2 = bool_decide (Forall (fun p => p <> []) (removelast ps))
  /\ ((read_pieces ps l).2 = true -> forall x, x ∈ (read_pieces ps l).1 <->
        x ∈ l \/ exists p, p ∈ ps /\ trim ws p <> [] /\ x = name (trim ws p)).
Proof.
  revert l. induction ps as [|p ps IH]; intros l.
  { split; [symmetry; apply bool_decide_eq_true; constructor|]. cbn [read_pieces fst]. intros _ x. set_solver. }
  destruct ps as [|q ps].
  { cbn [read_pieces removelast fst snd]. split; [symmetry; apply bool_decide_eq_true; constructor|]. intros _ x.
    rewrite add_piece_elem. set_solver. }
  assert (read_pieces (p :: q :: ps) l = if (length p =? 0)%nat then (l, false) else read_pieces (q :: ps) (add_piece p l)) as -> by done.
  assert (removelast (p :: q :: ps) = p :: removelast (q :: ps)) as -> by done.
  destruct (IH (add_piece p l)) as [IH1 IH2]. destruct (Nat.eqb_spec (length p) 0) as [H0|H0].
  { cbn [fst snd]. split; [|done]. symmetry. apply bool_decide_eq_false. intros [Hp _]%Forall_cons_iff.
    by apply length_zero_iff_nil in H0. }
  split.
  - rewrite IH1. apply bool_decide_ext. rewrite Forall_cons_iff. split; [|tauto]. intros H. split; [|done]. intros ->. done.
  - intros H x. rewrite IH2 by done. rewrite add_piece_elem. split.
    + intros [[?|?]|(p' & ? & ?)]; [by left|right; exists p; split; [by left|done]|right; exists p'; split; [by right|done]].
    + intros [?|(p' & [->|?]%elem_of_cons & ?)]; [by left; left|by left; right|right; by exists p'].
Qed.

Lemma allow_list_spec s :
  (parseAccessControlAllowList ws name s ∅).2 = bool_decide (well_formed s)
  /\ ((parseAccessControlAllowList ws name s ∅).2 = true ->
      forall x, x ∈ (parseAccessControlAllowList ws name s ∅).1 <-> exists n, listed ws s n /\ x = name n).
Proof.
  assert (parseAccessControlAllowList ws name s ∅ = read_pieces (pieces s) ∅) as ->.
  { unfold parseAccessControlAllowList. pose proof (allow_loop_pieces (S (length s)) [] s ∅) as Hl.
    cbn [app length] in Hl. by rewrite Hl by lia. }
  destruct (read_pieces_spec (pieces s) ∅) as [H1 H2]. split; [by rewrite H1|].
  intros H x. rewrite H2 by done. unfold listed. set_solver.
Qed.
End Facts.
End AllowListFacts.

(** * The results of preflight requests over time *)
Module CacheSpec.
Import Schemes Origin CrossOrigin.HTTPHeaders CrossOrigin.Request AccessControl CrossOrigin.Preflight AllowListSpec.

(** What happens to the cache: a response to a preflight that passed the access
    check, a question, and the cache being emptied. *)
Inductive operation :=
| Approved (origin : list Z) (u : KURL) (at_time : Double.double) (credentials : StoredCredentials) (response : ResourceResponse)
| Asked (now : Double.double) (origin : list Z) (u : KURL) (credentials : StoredCredentials) (method : list Z) (headers : HTTPHeaderMap)
| Emptied.

Section Spec.
Context (ws : Z -> bool) (foldCase : Z -> Z) (iterate : HTTPHeaderMap -> list (list Z * list Z)).

Definition run (c : PreflightCache) (o : operation) : PreflightCache :=
  match o with
  | Approved origin u t credentials response =>
      let '(item, ok) := parse ws foldCase t (Item_new credentials) response in
      if ok then appendEntry c origin u item else c
  | Asked now origin u credentials method headers =>
      (canSkipPreflight ws foldCase iterate now c origin u credentials method headers).1
  | Emptied => CrossOrigin.Preflight.empty c
  end.

Definition field (response : ResourceResponse) (name : string) : list Z := response_header foldCase response (str name).

(** A response whose lists can be read. *)
Definition readable (response : ResourceResponse) : Prop :=
  well_formed (field response "Access-Control-Allow-Methods") /\ well_formed (field response "Access-Control-Allow-Headers").

(** Seconds a response is remembered for: never more than ten minutes. *)
Definition lifetime (response : ResourceResponse) : Z :=
  let '(n, ok) := WString.Str.charactersToUIntStrict ws (field response "Access-Control-Max-Age") in
  if ok then Z.min 600 n else 5.

(** A response lists a method and headers, less the simple ones. *)
Definition lists (response : ResourceResponse) (method : list Z) (headers : HTTPHeaderMap) : Prop :=
  (listed ws (field response "Access-Control-Allow-Methods") method
   \/ isOnAccessControlSimpleRequestMethodWhitelist method = true)
  /\ (forall k name value, headers !! k = Some (name, value) ->
      (exists n, listed ws (field response "Access-Control-Allow-Headers") n /\ key foldCase n = key foldCase name)
      \/ isOnAccessControlSimpleRequestHeaderWhitelist ws foldCase name value = true).

(** What a response got at a time permits later. *)
Definition permits (t : Double.double) (given : StoredCredentials) (response : ResourceResponse)
    (now : Double.double) (credentials : StoredCredentials) (method : list Z) (headers : HTTPHeaderMap) : Prop :=
  SFltb (add_seconds t (lifetime response)) (Double.decode now) = false
  /\ (credentials = AllowStoredCredentials -> given = AllowStoredCredentials)
  /\ lists response method headers.

(** Operations that leave an approval as it is. *)
Definition harmless (origin : list Z) (u : KURL) (t : Double.double) (given : StoredCredentials) (response : ResourceResponse)
    (o : operation) : Prop :=
  match o with
  | Approved origin' u' _ _ response' => (origin', m_string u') <> (origin, m_string u) \/ ~ readable response'
  | Asked now origin' u' credentials method headers =>
      (origin', m_string u') <> (origin, m_string u) \/ permits t given response now credentials method headers
  | Emptied => False
  end.

(** The approval in force for an origin and a URL. *)
Definition stands (history : list operation) (origin : list Z) (u : KURL) (t : Double.double) (given : StoredCredentials)
    (response : ResourceResponse) : Prop :=
  readable response
  /\ exists l1 u' l2, history = l1 ++ Approved origin u' t given response :: l2 /\ m_string u' = m_string u
     /\ Forall (harmless origin u t given response) l2.
End Spec.
End CacheSpec.

Module CacheFacts.
Import Schemes Origin CrossOrigin.HTTPHeaders CrossOrigin.Request AccessControl CrossOrigin.Preflight AllowListSpec AllowListFacts CacheSpec.

Section Facts.
Context (ws : Z -> bool) (foldCase : Z -> Z) (iterate : HTTPHeaderMap -> list (list Z * list Z)).
Context (iterate_ok : forall m, iterate m ≡ₚ (map_to_list m).*2).

(** A loop over a header map. *)
Lemma forall_headers (f : list Z * list Z -> bool) m :
  forallb f (iterate m) = true <-> forall k name value, m !! k = Some (name, value) -> f (name, value) = true.
Proof.
  rewrite forallb_forall. split.
  - intros H k name value Hk. apply H, list_elem_of_In. rewrite iterate_ok. apply list_elem_of_fmap.
    exists (k, (name, value)). by split; [|apply elem_of_map_to_list].
  - intros H [name value] Hin. apply list_elem_of_In in Hin. rewrite iterate_ok in Hin.
    apply list_elem_of_fmap in Hin as ([k h] & Heq & Hin). cbn in Heq. subst h. apply elem_of_map_to_list in Hin. by eapply H.
Qed.

Definition item_of (t : Double.double) (given : StoredCredentials) (response : ResourceResponse) : CrossOriginPreflightResultCacheItem :=
  (parse ws foldCase t (Item_new given) response).1.

Lemma parse_readable t given response :
  (parse ws foldCase t (Item_new given) response).2 = bool_decide (readable foldCase response).
Proof.
  unfold parse, readable, field.
  destruct (allow_list_spec ws (fun s => s) (response_header foldCase response (str "Access-Control-Allow-Methods"))) as [H1 _].
  destruct (parseAccessControlAllowList _ _ _ _) as [methods ok1]. cbn [snd] in H1. subst ok1.
  destruct (bool_decide_reflect (well_formed (response_header foldCase response (str "Access-Control-Allow-Methods"))));
    cbn [negb]; [|symmetry; apply bool_decide_eq_false; tauto].
  destruct (allow_list_spec ws (key foldCase) (response_header foldCase response (str "Access-Control-Allow-Headers"))) as [H2 _].
  destruct (parseAccessControlAllowList _ _ _ _) as [headers ok2]. cbn [snd] in H2. subst ok2.
  destruct (bool_decide_reflect (well_formed (response_header foldCase response (str "Access-Control-Allow-Headers"))));
    cbn [negb]; [|symmetry; apply bool_decide_eq_false; tauto].
  destruct (parseAccessControlMaxAge _ _) as [n ok]. symmetry. by apply bool_decide_eq_true.
Qed.

Lemma item_fields t given response : readable foldCase response ->
  exists methods headers,
    item_of t given response = mkItem (add_seconds t (lifetime ws foldCase response)) given methods headers
    /\ (forall x, x ∈ methods <-> listed ws (field foldCase response "Access-Control-Allow-Methods") x)
    /\ (forall x, x ∈ headers <-> exists n, listed ws (field foldCase response "Access-Control-Allow-Headers") n /\ x = key foldCase n).
Proof.
  intros [Hm Hh]. unfold item_of, parse, lifetime, field in *.
  destruct (allow_list_spec ws (fun s => s) (response_header foldCase response (str "Access-Control-Allow-Methods"))) as [H1 H2].
  destruct (parseAccessControlAllowList _ _ (response_header _ _ (str "Access-Control-Allow-Methods")) _) as [methods ok1].
  cbn [fst snd] in *. rewrite H1, bool_decide_true by done. cbn [negb].
  destruct (allow_list_spec ws (key foldCase) (response_header foldCase response (str "Access-Control-Allow-Headers"))) as [H3 H4].
  destruct (parseAccessControlAllowList _ _ (response_header _ _ (str "Access-Control-Allow-Headers")) _) as [headers ok2].
  cbn [fst snd] in *. rewrite H3, bool_decide_true by done. cbn [negb].
  unfold parseAccessControlMaxAge. destruct (WString.Str.charactersToUIntStrict _ _) as [n ok]. cbn [fst m_credentials Item_new].
  exists methods, headers. split_and!.
  - f_equal. f_equal. unfold maxPreflightCacheTimeoutSeconds, defaultPreflightCacheTimeoutSeconds. destruct ok; [|done].
    destruct (Z.ltb_spec 600 n); lia.
  - intros x. rewrite H2 by (by rewrite H1, bool_decide_true). naive_solver.
  - apply H4. by rewrite H3, bool_decide_true.
Qed.

Lemma headers_allowed (names : gset (list Z)) (l : list Z) (m : HTTPHeaderMap) :
  (forall x, x ∈ names <-> exists n, listed ws l n /\ x = key foldCase n) ->
  forallb (fun h => bool_decide (key foldCase h.1 ∈ names) || isOnAccessControlSimpleRequestHeaderWhitelist ws foldCase h.1 h.2)
    (iterate m) = true
  <-> forall k name value, m !! k = Some (name, value) ->
      (exists n, listed ws l n /\ key foldCase n = key foldCase name)
      \/ isOnAccessControlSimpleRequestHeaderWhitelist ws foldCase name value = true.
Proof.
  intros Hn. rewrite forall_headers. cbn [fst snd].
  split; intros H k name value Hk; specialize (H k name value Hk);
    [apply orb_true_iff in H as [H|H]; [left|by right]|apply orb_true_iff; destruct H as [(n & Hl & He)|H]; [left|by right]].
  - apply bool_decide_eq_true, Hn in H as (n & Hl & He). by exists n.
  - apply bool_decide_eq_true, Hn. by exists n.
Qed.

Lemma allows_lists t given response method headers : readable foldCase response ->
  allowsCrossOriginMethod (item_of t given response) method && allowsCrossOriginHeaders ws foldCase iterate (item_of t given response) headers
    = true <-> lists ws foldCase response method headers.
Proof.
  intros Hr. destruct (item_fields t given response Hr) as (ms & hs & -> & Hms & Hhs).
  unfold allowsCrossOriginMethod, allowsCrossOriginHeaders, lists. cbn [m_methods m_headers].
  by rewrite andb_true_iff, (headers_allowed hs _ headers Hhs), orb_true_iff, bool_decide_eq_true, Hms.
Qed.

Lemma allows_permits t given response now credentials method headers : readable foldCase response ->
  allowsRequest ws foldCase iterate now (item_of t given response) credentials method headers = true
  <-> permits ws foldCase t given response now credentials method headers.
Proof.
  intros Hr. pose proof (allows_lists t given response method headers Hr) as Hl.
  destruct (item_fields t given response Hr) as (ms & hs & Hi & _ & _).
  unfold allowsRequest, permits. rewrite <- Hl.
  assert (m_absoluteExpiryTime (item_of t given response) = add_seconds t (lifetime ws foldCase response)
    /\ m_credentials (item_of t given response) = given) as [-> ->] by (by rewrite Hi).
  destruct (SFltb _ _); [naive_solver|].
  destruct (allowsCrossOriginMethod _ _), (allowsCrossOriginHeaders _ _ _ _ _), credentials, given; vm_compute; naive_solver.
Qed.

Lemma run_other c o k origin u t given response : harmless ws foldCase origin u t given response o ->
  readable foldCase response -> k = (origin, m_string u) -> c !! k = Some (item_of t given response) ->
  run ws foldCase iterate c o !! k = Some (item_of t given response).
Proof.
  intros Hh Hr -> Hc. destruct o as [origin' u' t' given' response'|now origin' u' credentials method headers|]; [| |done].
  - cbn [run]. pose proof (parse_readable t' given' response') as Hp. destruct (parse _ _ _ _ _) as [item ok]. cbn [snd] in Hp. subst ok.
    destruct Hh as [Hne|Hn]; [|by rewrite bool_decide_false].
    case_bool_decide; [|done]. unfold appendEntry. by rewrite lookup_insert_ne.
  - cbn [run]. unfold canSkipPreflight. destruct Hh as [Hne|Hp].
    + destruct (c !! (origin', m_string u')); [|done]. case_match; cbn [fst]; [done|]. by rewrite lookup_delete_ne.
    + destruct (decide ((origin', m_string u') = (origin, m_string u))) as [->|Hne].
      * rewrite Hc. by rewrite (proj2 (allows_permits _ _ _ _ _ _ _ Hr) Hp).
      * destruct (c !! (origin', m_string u')); [|done]. case_match; cbn [fst]; [done|]. by rewrite lookup_delete_ne.
Qed.

Lemma stands_lookup history origin u t given response : stands ws foldCase history origin u t given response ->
  fold_left (run ws foldCase iterate) history ∅ !! (origin, m_string u) = Some (item_of t given response).
Proof.
  intros (Hr & l1 & u' & l2 & -> & Hu & Hl). rewrite fold_left_app. cbn [fold_left].
  set (c := fold_left _ l1 ∅). assert (run ws foldCase iterate c (Approved origin u' t given response) !! (origin, m_string u)
    = Some (item_of t given response)) as H0.
  { cbn [run]. pose proof (parse_readable t given response) as Hp. unfold item_of. destruct (parse _ _ _ _ _) as [item ok].
    cbn [snd fst] in *. rewrite Hp, bool_decide_true by done. unfold appendEntry. by rewrite Hu, lookup_insert_eq. }
  revert H0. generalize (run ws foldCase iterate c (Approved origin u' t given response)). clear c.
  induction Hl as [|o l2 Ho Hl IH]; intros c Hc; [done|]. cbn [fold_left]. apply IH. by eapply run_other.
Qed.

Lemma stands_snoc history o origin u t given response : harmless ws foldCase origin u t given response o ->
  stands ws foldCase history origin u t given response -> stands ws foldCase (history ++ [o]) origin u t given response.
Proof.
  intros Ho (Hr & l1 & u' & l2 & -> & Hu & Hl). split; [done|]. exists l1, u', (l2 ++ [o]). rewrite <- app_assoc. split_and!; [done..|].
  apply Forall_app. split; [done|by constructor].
Qed.

Lemma lookup_stands history origin u item :
  fold_left (run ws foldCase iterate) history ∅ !! (origin, m_string u) = Some item ->
  exists t given response, stands ws foldCase history origin u t given response /\ item = item_of t given response.
Proof.
  revert item. induction history as [|o history IH] using rev_ind; intros item H; [done|].
  rewrite fold_left_app in H. cbn [fold_left] in H. set (c := fold_left _ history ∅) in *.
  destruct o as [origin' u' t' given' response'|now origin' u' credentials method headers|]; cbn [run] in H; [| |done].
  - pose proof (parse_readable t' given' response') as Hp. unfold item_of in *.
    destruct (parse ws foldCase t' (Item_new given') response') as [item' ok] eqn:Hparse. cbn [snd fst] in *.
    assert (~ readable foldCase response' \/ (origin', m_string u') <> (origin, m_string u) -> c !! (origin, m_string u) = Some item ->
      exists t given response, stands ws foldCase (history ++ [Approved origin' u' t' given' response']) origin u t given response
        /\ item = (parse ws foldCase t (Item_new given) response).1) as Hkeep.
    { intros Hor Hc. destruct (IH item Hc) as (t & given & response & Hs & ->). exists t, given, response. split; [|done].
      apply stands_snoc; [|done]. cbn [harmless]. tauto. }
    rewrite Hp in H. case_bool_decide as Hr; [|apply Hkeep; [by left|done]].
    unfold appendEntry in H. destruct (decide ((origin', m_string u') = (origin, m_string u))) as [He|Hne].
    + rewrite He, lookup_insert_eq in H. injection H as <-. injection He as -> Hu.
      exists t', given', response'. rewrite Hparse. split; [|done]. split; [done|]. exists history, u', []. by split_and!.
    + rewrite lookup_insert_ne in H by done. apply Hkeep; [by right|done].
  - unfold canSkipPreflight in H.
    assert (c !! (origin, m_string u) = Some item
      /\ ((origin', m_string u') <> (origin, m_string u) \/ allowsRequest ws foldCase iterate now item credentials method headers = true))
      as [Hc Hor].
    { destruct (decide ((origin', m_string u') = (origin, m_string u))) as [He|Hne].
      - rewrite He in H. destruct (c !! (origin, m_string u)) as [i|] eqn:Hi; [|by cbn in H; congruence].
        destruct (allowsRequest _ _ _ _ _ _ _ _) eqn:Ha; cbn [fst] in H; [|by rewrite lookup_delete_eq in H].
        rewrite Hi in H. injection H as ->. by split; [|right].
      - split; [|by left]. destruct (c !! (origin', m_string u')); [|done]. case_match; cbn [fst] in H; [done|].
        by rewrite lookup_delete_ne in H. }
    destruct (IH item Hc) as (t & given & response & Hs & ->). exists t, given, response. split; [|done].
    apply stands_snoc; [|done]. cbn [harmless]. destruct Hor as [?|Ha]; [by left|right].
    destruct Hs as [Hr _]. by apply allows_permits in Ha.
Qed.
End Facts.
End CacheFacts.

(** * Requests without credentials *)
Module RequestFacts.
Import KURLParse.Class Canonical CanonicalFacts UpdateFacts ResolveFacts Origin CrossOrigin.HTTPHeaders CrossOrigin.Request AccessControl.

(** URLs as the parser makes them, and those without a user and a password. *)
Definition parsed (u : KURL) : Prop := exists p, canonical p /\ undotted p /\ u = canonical_url p.
Definition bare (u : KURL) : Prop :=
  exists p, canonical p /\ undotted p /\ user p = [] /\ pass p = None /\ u = canonical_url p.

Definition without_credentials (p : parts) : parts :=
  mkparts (scheme p) [] None (host p) (port p) (path p) (query p) (frag p).

Section Facts.
Context (before : Z).

Lemma without_canonical p : canonical p -> canonical (without_credentials p).
Proof. intros []. split; try done; by constructor. Qed.

Lemma removeCredentials_url r p : canonical p -> undotted p -> url r = canonical_url p ->
  url (removeCredentials before r) = canonical_url (without_credentials p).
Proof.
  intros Hp Hu Hr. unfold removeCredentials. cbn [url setURL]. rewrite Hr.
  assert (canonical (apply_edit (SetUser []) p)) as H1.
  { destruct p. destruct Hp. split; try done. }
  assert (canonical (apply_edit (SetPass []) (apply_edit (SetUser []) p))) as H2.
  { pose proof (without_canonical p Hp). by destruct p. }
  assert (undotted (apply_edit (SetUser []) p)) as H3 by by destruct p.
  pose proof (run_edit_sound before p (SetUser []) Hp Hu I H1) as E1. cbn [run_edit] in E1. rewrite E1.
  pose proof (run_edit_sound before _ (SetPass []) H1 H3 I H2) as E2. cbn [run_edit] in E2. rewrite E2. by destruct p.
Qed.

Lemma removeCredentials_bare r : parsed (url r) -> bare (url (removeCredentials before r)).
Proof.
  intros (p & Hp & Hu & Hr). rewrite (removeCredentials_url r p) by done.
  exists (without_credentials p). split_and!; [by apply without_canonical|by destruct p|done..].
Qed.

Lemma bare_parsed u : bare u -> parsed u.
Proof. intros (p & ? & ? & _ & _ & ->). by exists p. Qed.

Lemma bare_user u : bare u -> Escape.user u = [].
Proof.
  intros (p & Hp & _ & Hu & Hw & ->). unfold Escape.user. cbn [m_userEnd m_userStart canonical_url]. rewrite Hu.
  cbn [length]. match goal with |- context [Impl.substring _ ?a (?b - ?a)] => replace (b - a)%nat with O by lia end.
  rewrite StrFacts.substring_spec; [done|]. cbn [m_string canonical_url]. unfold print. rewrite !length_app. cbn. lia.
Qed.

Lemma bare_pass u : bare u -> Escape.pass u = None.
Proof.
  intros (p & Hp & _ & Hu & Hw & ->). unfold Escape.pass. cbn [m_userEnd m_passwordEnd canonical_url]. unfold userinfo.
  rewrite Hu, Hw. cbn [app opt_text length]. by rewrite Nat.eqb_refl by lia.
Qed.
End Facts.
End RequestFacts.

(** * Properties *)
Module CrossOriginProps.
Import Schemes Origin CrossOrigin.HTTPHeaders CrossOrigin.Request AccessControl CrossOrigin.Preflight AllowListSpec CacheSpec CacheFacts.

(** C7: After any history of approved preflights, questions and resets, a
    request skips its preflight exactly when an approval is in force that permits
    it: the last readable response for the same origin and URL, not emptied away
    and not found wanting by a question since, whose time (as long as its maximum
    age says, ten minutes at most, five seconds when it says nothing) has not
    run out, which was given with credentials if the request has them, and which
    lists the method and, whatever their case, the headers that are not simple. *)
Theorem preflight_refines ws foldCase iterate history now origin u credentials method headers :
  (forall m, iterate m ≡ₚ (map_to_list m).*2) ->
  (canSkipPreflight ws foldCase iterate now (fold_left (run ws foldCase iterate) history ∅) origin u credentials method headers).2 = true
  <-> exists t given response, stands ws foldCase history origin u t given response
      /\ permits ws foldCase t given response now credentials method headers.
Proof.
  intros Hit. unfold canSkipPreflight. split.
  - destruct (_ !! (origin, m_string u)) as [item|] eqn:Hc; [|done].
    apply (lookup_stands ws foldCase iterate Hit) in Hc as (t & given & response & Hs & ->).
    destruct (allowsRequest _ _ _ _ _ _ _ _) eqn:Ha; [|done]. intros _. exists t, given, response. split; [done|].
    destruct Hs as [Hr _]. by apply (allows_permits ws foldCase iterate Hit) in Ha.
  - intros (t & given & response & Hs & Hp). rewrite (stands_lookup ws foldCase iterate Hit _ _ _ _ _ _ Hs).
    destruct Hs as [Hr _]. by rewrite (proj2 (allows_permits ws foldCase iterate Hit _ _ _ _ _ _ _ Hr) Hp).
Qed.
End CrossOriginProps.
