(* ===== verification/ThreadableLoader.v ===== *)
(** * Loading for scripts (WebCore/loader/DocumentThreadableLoader.cpp)

    [DocumentThreadableLoader], which loads a URL for a page (XMLHttpRequest,
    workers, event sources) under the same-origin policy and cross-origin
    resource sharing.  An operation takes the state, its own fields and the
    cache of preflight results, and gives the new state and the calls it makes,
    in order ([effect]).  What the layer below answers to a request is an
    argument ([Answer]), and what it calls back is an [event].

    Calls on a null client and failed assertions are effects, so that their
    absence is a theorem.  The texts of errors and the calls to the inspector are
    left out, and the client does not call the loader from a callback. *)
From stdpp Require Import gmap sets.
From S2P Require Import Prelude UTF8 WString KURLParse KURL TextCodec UTF8Codec Escape HTTPResource HTTPCache ProxyFilter SecurityOrigin CrossOrigin.
Import KURLParse.Assemble.
#[local] Open Scope Z_scope.

Module Loader.
Import Schemes Origin Policy Requests HTTPHeaders CrossOrigin.Request AccessControl Preflight.

(** ResourceLoaderOptions.h and ThreadableLoader.h *)
Inductive SendCallbackPolicy := SendCallbacks | DoNotSendCallbacks.
Inductive ContentSniffingPolicy := SniffContent | DoNotSniffContent.
Inductive DataBufferingPolicy := BufferData | DoNotBufferData.
Inductive ClientCrossOriginCredentialPolicy := AskClientForCrossOriginCredentials | DoNotAskClientForCrossOriginCredentials.
Inductive SecurityCheckPolicy := SkipSecurityCheck | DoSecurityCheck.
Inductive CrossOriginRequestPolicy := DenyCrossOriginRequests | UseAccessControl | AllowCrossOriginRequests.
Inductive PreflightPolicy := ConsiderPreflight | ForcePreflight | PreventPreflight.

#[global] Instance cross_policy_eq : EqDecision CrossOriginRequestPolicy.
Proof. solve_decision. Defined.
#[global] Instance preflight_policy_eq : EqDecision PreflightPolicy.
Proof. solve_decision. Defined.

Record ThreadableLoaderOptions := mkOptions {
  sendLoadCallbacks : SendCallbackPolicy;
  sniffContent : ContentSniffingPolicy;
  shouldBufferData : DataBufferingPolicy;
  allowCredentials : StoredCredentials;
  crossOriginCredentialPolicy : ClientCrossOriginCredentialPolicy;
  securityCheck : SecurityCheckPolicy;
  preflightPolicy : PreflightPolicy;
  crossOriginRequestPolicy : CrossOriginRequestPolicy;
  optionsOrigin : option SecurityOrigin;
}.

(** What the loader asks the resource it is a client of. *)
Record CachedRawResource := mkResource { resource_url : list Z; resource_identifier : Z }.

(** [m_client]: whether it is a [DocumentThreadableLoaderClient]. *)
Record DocumentThreadableLoader := mkLoader {
  m_resource : option CachedRawResource;
  m_client : option bool;
  m_options : ThreadableLoaderOptions;
  m_sameOriginRequest : bool;
  m_simpleRequest : bool;
  m_async : bool;
  m_actualRequest : option ResourceRequest;
}.

(** The loader and [CrossOriginPreflightResultCache::shared()]. *)
Record World := mkWorld { loader : DocumentThreadableLoader; preflights : PreflightCache }.

Inductive assertion := NoResource | CredentialsRemoved | SimpleRequest | PreflightPending.

Inductive effect :=
(* calls to the client *)
| DidFail (failingURL : list Z) (isCancellation : bool)
| DidFailRedirectCheck
| WillSendRequest (request : ResourceRequest) (redirectResponse : ResourceResponse)
| DidSendData (bytesSent totalBytesToBeSent : Z)
| DidReceiveResponse (identifier : Z) (response : ResourceResponse)
| DidReceiveData (data : list Z)
| DidFinishLoading (identifier : Z)
(* calls to the layer below *)
| RequestRawResource (request : ResourceRequest) (options : ThreadableLoaderOptions)
| LoadResourceSynchronously (request : ResourceRequest) (credentials : StoredCredentials)
| RemoveClient (resource : CachedRawResource)
| ResourceSetDefersLoading (resource : CachedRawResource) (value : bool)
(* the request a redirection goes on with *)
| ContinueWith (request : ResourceRequest)
(* what must not happen *)
| NullClient
| AssertionFailed (a : assertion).

(** The answer to one request: a resource or none, and for a synchronous one the
    reply: an identifier, an error and whether it is one, a response, data. *)
Record Answer := mkAnswer {
  answer_resource : option CachedRawResource;
  reply_identifier : Z;
  reply_error : option (list Z * bool);
  reply_response : ResourceResponse;
  reply_data : list Z;
}.

(** ** Operations with effects *)
Definition M : Type := World -> World * list effect.
Definition skip : M := fun w => (w, []).
Definition say (e : effect) : M := fun w => (w, [e]).
Definition andThen (m n : M) : M := fun w => let '(w, es) := m w in let '(w, fs) := n w in (w, es ++ fs).
Definition reading (k : World -> M) : M := fun w => k w w.
Definition modify (f : DocumentThreadableLoader -> DocumentThreadableLoader) : M :=
  fun w => (mkWorld (f (loader w)) (preflights w), []).
Definition assert (a : assertion) (b : bool) : M := if b then skip else say (AssertionFailed a).
(** [m_client->...] *)
Definition client (e : effect) : M := reading (fun w => match m_client (loader w) with Some _ => say e | None => say NullClient end).

Declare Scope loader_scope.
Notation "m >> n" := (andThen m n) (at level 85, right associativity) : loader_scope.
#[local] Open Scope loader_scope.

Definition set_resource (resource : option CachedRawResource) (l : DocumentThreadableLoader) : DocumentThreadableLoader :=
  mkLoader resource (m_client l) (m_options l) (m_sameOriginRequest l) (m_simpleRequest l) (m_async l) (m_actualRequest l).
Definition set_client (c : option bool) (l : DocumentThreadableLoader) : DocumentThreadableLoader :=
  mkLoader (m_resource l) c (m_options l) (m_sameOriginRequest l) (m_simpleRequest l) (m_async l) (m_actualRequest l).
Definition set_options (o : ThreadableLoaderOptions) (l : DocumentThreadableLoader) : DocumentThreadableLoader :=
  mkLoader (m_resource l) (m_client l) o (m_sameOriginRequest l) (m_simpleRequest l) (m_async l) (m_actualRequest l).
Definition set_same (b : bool) (l : DocumentThreadableLoader) : DocumentThreadableLoader :=
  mkLoader (m_resource l) (m_client l) (m_options l) b (m_simpleRequest l) (m_async l) (m_actualRequest l).
Definition set_simple (b : bool) (l : DocumentThreadableLoader) : DocumentThreadableLoader :=
  mkLoader (m_resource l) (m_client l) (m_options l) (m_sameOriginRequest l) b (m_async l) (m_actualRequest l).
Definition set_actual (r : option ResourceRequest) (l : DocumentThreadableLoader) : DocumentThreadableLoader :=
  mkLoader (m_resource l) (m_client l) (m_options l) (m_sameOriginRequest l) (m_simpleRequest l) (m_async l) r.

Definition with_check (c : SecurityCheckPolicy) (o : ThreadableLoaderOptions) : ThreadableLoaderOptions :=
  mkOptions (sendLoadCallbacks o) (sniffContent o) (shouldBufferData o) (allowCredentials o) (crossOriginCredentialPolicy o) c
    (preflightPolicy o) (crossOriginRequestPolicy o) (optionsOrigin o).
Definition with_origin (origin : SecurityOrigin) (o : ThreadableLoaderOptions) : ThreadableLoaderOptions :=
  mkOptions (sendLoadCallbacks o) (sniffContent o) (shouldBufferData o) (allowCredentials o) (crossOriginCredentialPolicy o)
    (securityCheck o) (preflightPolicy o) (crossOriginRequestPolicy o) (Some origin).

(** The options of a request that goes down, and of one that is a preflight. *)
Definition quiet (preflight : bool) (o : ThreadableLoaderOptions) : ThreadableLoaderOptions :=
  if preflight then
    mkOptions DoNotSendCallbacks DoNotSniffContent BufferData (allowCredentials o) DoNotAskClientForCrossOriginCredentials
      (securityCheck o) (preflightPolicy o) (crossOriginRequestPolicy o) (optionsOrigin o)
  else
    mkOptions (sendLoadCallbacks o) (sniffContent o) (shouldBufferData o) (allowCredentials o)
      DoNotAskClientForCrossOriginCredentials (securityCheck o) (preflightPolicy o) (crossOriginRequestPolicy o) (optionsOrigin o).

Section Loader.
Context (before : Z) (ws : Z -> bool) (unicodeLower : list Z -> list Z) (foldCase : Z -> Z)
  (idn : list Z -> option (list Z)) (iterate : HTTPHeaderMap -> list (list Z * list Z)).
(** The registry of schemes, the white lists and the origin of the document. *)
Context (registry : SchemeRegistry) (policy : SecurityPolicy) (documentOrigin : SecurityOrigin).

Definition securityOrigin (l : DocumentThreadableLoader) : SecurityOrigin := default documentOrigin (optionsOrigin (m_options l)).

Definition canRequest (o : SecurityOrigin) (u : KURL) : bool :=
  Requests.canRequest before ws unicodeLower foldCase registry policy o u.

Definition isAllowedRedirect (l : DocumentThreadableLoader) (u : KURL) : bool :=
  if bool_decide (crossOriginRequestPolicy (m_options l) = AllowCrossOriginRequests) then true
  else m_sameOriginRequest l && canRequest (securityOrigin l) u.

Definition clearResource : M := reading (fun w =>
  match m_resource (loader w) with
  | Some resource => modify (set_resource None) >> say (RemoveClient resource)
  | None => skip
  end).

(** The destructor. *)
Definition destroy : M := reading (fun w =>
  match m_resource (loader w) with Some resource => say (RemoveClient resource) | None => skip end).

Definition didFail (failingURL : list Z) (isCancellation : bool) : M := client (DidFail failingURL isCancellation).

Definition cancel : M :=
  reading (fun w =>
    match m_client (loader w), m_resource (loader w) with
    | Some _, Some resource => didFail (resource_url resource) true
    | _, _ => skip
    end) >>
  clearResource >> modify (set_client None).

Definition setDefersLoading (value : bool) : M := reading (fun w =>
  match m_resource (loader w) with Some resource => say (ResourceSetDefersLoading resource value) | None => skip end).

Definition preflightFailure (u : list Z) : M := modify (set_actual None) >> client (DidFail u false).

Definition append_result (item : CrossOriginPreflightResultCacheItem) (u : KURL) : M := fun w =>
  (mkWorld (loader w) (appendEntry (preflights w) (toString (securityOrigin (loader w))) u item), []).

Definition didReceiveResponse (now : Double.double) (identifier : Z) (response : ResourceResponse) : M := reading (fun w =>
  let l := loader w in
  let o := m_options l in
  let passes := passesAccessControlCheck foldCase response (allowCredentials o) (securityOrigin l) in
  match m_actualRequest l with
  | Some actual =>
      if negb passes then preflightFailure (m_string (responseURL response))
      else
        let '(result, ok) := parse ws foldCase now (Item_new (allowCredentials o)) response in
        if negb ok || negb (allowsCrossOriginMethod result (httpMethod actual))
           || negb (allowsCrossOriginHeaders ws foldCase iterate result (httpHeaderFields actual))
        then preflightFailure (m_string (responseURL response))
        else append_result result (url actual)
  | None =>
      if negb (m_sameOriginRequest l) && bool_decide (crossOriginRequestPolicy o = UseAccessControl) && negb passes
      then client (DidFail (m_string (responseURL response)) false)
      else client (DidReceiveResponse identifier response)
  end).

Definition responseReceived (now : Double.double) (response : ResourceResponse) : M := reading (fun w =>
  match m_resource (loader w) with
  | Some resource => didReceiveResponse now (resource_identifier resource) response
  | None => skip
  end).

Definition dataSent (bytesSent totalBytesToBeSent : Z) : M := client (DidSendData bytesSent totalBytesToBeSent).

Definition dataReceived (data : list Z) : M := reading (fun w =>
  match m_actualRequest (loader w) with Some _ => skip | None => client (DidReceiveData data) end).

(** The next two are given the function that loads the actual request. *)
Definition preflightSuccess_with (load : ResourceRequest -> SecurityCheckPolicy -> M) : M := reading (fun w =>
  match m_actualRequest (loader w) with
  | Some actual =>
      modify (set_actual None) >>
      let actual := setHTTPOrigin foldCase actual (toString (securityOrigin (loader w))) in
      clearResource >> load actual SkipSecurityCheck
  | None => skip
  end).

Definition didFinishLoading_with (load : ResourceRequest -> SecurityCheckPolicy -> M) (identifier : Z) : M := reading (fun w =>
  match m_actualRequest (loader w) with
  | Some _ =>
      assert PreflightPending (negb (m_sameOriginRequest (loader w))) >>
      assert PreflightPending (bool_decide (crossOriginRequestPolicy (m_options (loader w)) = UseAccessControl)) >>
      preflightSuccess_with load
  | None => client (DidFinishLoading identifier)
  end).

Definition loadAsynchronously (answer : option CachedRawResource) (request : ResourceRequest) : M := reading (fun w =>
  let l := loader w in
  let options := quiet (bool_decide (is_Some (m_actualRequest l))) (m_options l) in
  assert NoResource (bool_decide (m_resource l = None)) >>
  say (RequestRawResource request options) >>
  modify (set_resource answer)).

(** After the reply to a synchronous request. *)
Definition takeReply (now : Double.double) (load : ResourceRequest -> SecurityCheckPolicy -> M) (answer : Answer)
    (request : ResourceRequest) : M := reading (fun w =>
  let requestURL := url request in
  let response := reply_response answer in
  let failure :=
    if negb (Access.isLocalFile requestURL) && (httpStatusCode response <=? 0) then reply_error answer else None in
  match failure with
  | Some (failingURL, isCancellation) => client (DidFail failingURL isCancellation)
  | None =>
      if negb (bool_decide (m_string requestURL = m_string (responseURL response)))
         && negb (isAllowedRedirect (loader w) (responseURL response)) then client DidFailRedirectCheck
      else
        didReceiveResponse now (reply_identifier answer) response >>
        dataReceived (reply_data answer) >>
        didFinishLoading_with load (reply_identifier answer)
  end).

(** A synchronous request without an answer does not return. *)
Fixpoint loadRequest (now : Double.double) (answers : list Answer) (request : ResourceRequest) (check : SecurityCheckPolicy) : M :=
  modify (fun l => set_options (with_check check (m_options l)) l) >>
  reading (fun w =>
    let l := loader w in
    assert CredentialsRemoved (m_sameOriginRequest l || (length (Escape.user (url request)) =? 0)%nat) >>
    assert CredentialsRemoved (m_sameOriginRequest l || (length (default [] (Escape.pass (url request))) =? 0)%nat) >>
    if m_async l then loadAsynchronously (answers ← head answers; answer_resource answers) request
    else
      say (LoadResourceSynchronously request (allowCredentials (m_options l))) >>
      match answers with
      | answer :: answers => takeReply now (loadRequest now answers) answer request
      | [] => skip
      end).

Definition preflightSuccess (now : Double.double) (answers : list Answer) : M := preflightSuccess_with (loadRequest now answers).
Definition didFinishLoading (now : Double.double) (answers : list Answer) (identifier : Z) : M :=
  didFinishLoading_with (loadRequest now answers) identifier.

Definition makeSimpleCrossOriginAccessRequest (now : Double.double) (answers : list Answer) (request : ResourceRequest) : M :=
  reading (fun w =>
    let preflight := preflightPolicy (m_options (loader w)) in
    assert SimpleRequest (negb (bool_decide (preflight = ForcePreflight))) >>
    assert SimpleRequest (bool_decide (preflight = PreventPreflight)
                          || isSimpleCrossOriginAccessRequest ws foldCase iterate (httpMethod request) (httpHeaderFields request)) >>
    if negb (shouldTreatURLSchemeAsCORSEnabled foldCase registry (Access.protocol (url request)))
    then client (DidFail (m_string (url request)) false)
    else loadRequest now answers request DoSecurityCheck).

Definition makeCrossOriginAccessRequestWithPreflight (now : Double.double) (answers : list Answer) (request : ResourceRequest) : M :=
  reading (fun w =>
    loadRequest now answers
      (createAccessControlPreflightRequest before unicodeLower foldCase iterate request (securityOrigin (loader w))) DoSecurityCheck).

(** [CrossOriginPreflightResultCache::shared().canSkipPreflight(...)] *)
Definition askCache (now : Double.double) (request : ResourceRequest) (k : bool -> M) : M := fun w =>
  let '(c, answer) := canSkipPreflight ws foldCase iterate now (preflights w) (toString (securityOrigin (loader w))) (url request)
    (allowCredentials (m_options (loader w))) (httpMethod request) (httpHeaderFields request) in
  k answer (mkWorld (loader w) c).

Definition makeCrossOriginAccessRequest (now : Double.double) (answers : list Answer) (request : ResourceRequest) : M :=
  reading (fun w =>
    let l := loader w in
    let o := m_options l in
    let request := updateRequestForAccessControl before foldCase request (securityOrigin l) (allowCredentials o) in
    if bool_decide (preflightPolicy o = ConsiderPreflight)
       && isSimpleCrossOriginAccessRequest ws foldCase iterate (httpMethod request) (httpHeaderFields request)
       || bool_decide (preflightPolicy o = PreventPreflight)
    then makeSimpleCrossOriginAccessRequest now answers request
    else
      modify (fun l => set_actual (Some request) (set_simple false l)) >>
      askCache now request (fun canSkip =>
        if canSkip then preflightSuccess now answers
        else makeCrossOriginAccessRequestWithPreflight now answers request)).

(** The constructor, on the members it initialises. *)
Definition start (now : Double.double) (answers : list Answer) (request : ResourceRequest) : M := reading (fun w =>
  let l := loader w in
  if m_sameOriginRequest l || bool_decide (crossOriginRequestPolicy (m_options l) = AllowCrossOriginRequests)
  then loadRequest now answers request DoSecurityCheck
  else if bool_decide (crossOriginRequestPolicy (m_options l) = DenyCrossOriginRequests)
  then client (DidFail (m_string (url request)) false)
  else makeCrossOriginAccessRequest now answers request).

Definition initial (isDocumentThreadableLoaderClient async : bool) (request : ResourceRequest) (options : ThreadableLoaderOptions)
    : DocumentThreadableLoader :=
  mkLoader None (Some isDocumentThreadableLoaderClient) options
    (canRequest (default documentOrigin (optionsOrigin options)) (url request)) true async None.

(** [create]: no loader without a resource. *)
Definition create (now : Double.double) (answers : list Answer) (c : PreflightCache) (isDocumentThreadableLoaderClient : bool)
    (request : ResourceRequest) (options : ThreadableLoaderOptions) : World * option DocumentThreadableLoader * list effect :=
  let '(w, es) := start now answers request (mkWorld (initial isDocumentThreadableLoaderClient true request options) c) in
  (w, if bool_decide (is_Some (m_resource (loader w))) then Some (loader w) else None, es).

(** [loadResourceSynchronously]: the loader does not outlive the call. *)
Definition loadResourceSynchronously (now : Double.double) (answers : list Answer) (c : PreflightCache)
    (isDocumentThreadableLoaderClient : bool) (request : ResourceRequest) (options : ThreadableLoaderOptions) : World * list effect :=
  (start now answers request >> destroy) (mkWorld (initial isDocumentThreadableLoaderClient false request options) c).

(** When access control is used: the redirection of a simple request to a
    supported scheme, without a user, from a response that passes the check. *)
Definition allowRedirect (l : DocumentThreadableLoader) (request : ResourceRequest) (redirectResponse : ResourceResponse) : bool :=
  let o := m_options l in
  bool_decide (crossOriginRequestPolicy o = UseAccessControl) && m_simpleRequest l
  && shouldTreatURLSchemeAsCORSEnabled foldCase registry (Access.protocol (url request))
  && (length (Escape.user (url request)) =? 0)%nat && (length (default [] (Escape.pass (url request))) =? 0)%nat
  && passesAccessControlCheck foldCase redirectResponse (allowCredentials o) (securityOrigin l).

(** [audit] is what the client makes of the request it is shown. *)
Definition redirectReceived (now : Double.double) (answers : list Answer) (request : ResourceRequest)
    (redirectResponse : ResourceResponse) (audit : ResourceRequest -> ResourceRequest) : M := reading (fun w =>
  let l := loader w in
  if isAllowedRedirect l (url request) then
    match m_client l with
    | Some true => say (WillSendRequest request redirectResponse) >> say (ContinueWith (audit request))
    | Some false => say (ContinueWith request)
    | None => say NullClient
    end
  else
    if allowRedirect l request redirectResponse then
      clearResource >>
      let from u := createFromString before ws unicodeLower foldCase idn registry (m_string u) in
      modify (fun l =>
        if isSameSchemeHostPort foldCase registry (from (responseURL redirectResponse)) (from (url request)) then l
        else set_options (with_origin createUnique (m_options l)) l) >>
      modify (set_same false) >>
      let request := clearHTTPAccept foldCase (clearHTTPUserAgent foldCase (clearHTTPOrigin foldCase
        (clearHTTPReferrer foldCase (clearHTTPContentType foldCase request)))) in
      makeCrossOriginAccessRequest now answers request >>
      say (ContinueWith request)
    else client DidFailRedirectCheck >> say (ContinueWith ResourceRequest_null)).

Definition notifyFinished (now : Double.double) (answers : list Answer) (errorOccurred wasCanceled : bool) : M := reading (fun w =>
  match m_resource (loader w) with
  | Some resource =>
      if errorOccurred || wasCanceled then didFail (resource_url resource) wasCanceled
      else didFinishLoading now answers (resource_identifier resource)
  | None => skip
  end).

(** ** What happens to a loader *)
Inductive event :=
| DataSent (bytesSent totalBytesToBeSent : Z)
| ResponseReceived (now : Double.double) (response : ResourceResponse)
| DataReceived (data : list Z)
| RedirectReceived (now : Double.double) (answers : list Answer) (request : ResourceRequest) (redirectResponse : ResourceResponse)
    (audit : ResourceRequest -> ResourceRequest)
| NotifyFinished (now : Double.double) (answers : list Answer) (errorOccurred wasCanceled : bool)
| Cancelled
| DefersLoading (value : bool)
(* other loaders use the cache too *)
| CacheChanged (c : PreflightCache).

Definition run_event (e : event) : M :=
  match e with
  | DataSent sent total => dataSent sent total
  | ResponseReceived now response => responseReceived now response
  | DataReceived data => dataReceived data
  | RedirectReceived now answers request response audit => redirectReceived now answers request response audit
  | NotifyFinished now answers errorOccurred wasCanceled => notifyFinished now answers errorOccurred wasCanceled
  | Cancelled => cancel
  | DefersLoading value => setDefersLoading value
  | CacheChanged c => fun w => (mkWorld (loader w) c, [])
  end.
End Loader.
End Loader.
