(* ===== verification/LoaderFacts.v ===== *)
(** * Theorems about loading for scripts (ThreadableLoader.v)

    [LoaderSpec] says which calls a loader may make, [LoaderFacts] proves with a
    small program logic that every operation makes no others, and [LoaderProps]
    has the properties, over everything that can happen to a loader. *)
From Stdlib Require Import SpecFloat.
From stdpp Require Import gmap sets.
From S2P Require Import Prelude UTF8 WString KURLParse KURL TextCodec UTF8Codec Escape HTTPResource HTTPCache ProxyFilter SecurityOrigin OriginFacts CrossOrigin CrossOriginFacts ThreadableLoader.
Import KURLParse.Assemble.
#[local] Open Scope Z_scope.

Module LoaderSpec.
Import Schemes Origin Policy HTTPHeaders CrossOrigin.Request AccessControl Preflight Loader CacheSpec RequestFacts.

(** What an operation keeps: whether the request is one of the same origin, and
    the options less the security check of the last request. *)
Definition Terms : Type := bool * ThreadableLoaderOptions.
Definition terms (l : DocumentThreadableLoader) : Terms := (m_sameOriginRequest l, with_check DoSecurityCheck (m_options l)).
Definition same (t : Terms) : bool := t.1.
Definition policy_of (t : Terms) : CrossOriginRequestPolicy := crossOriginRequestPolicy t.2.
Definition credentials_of (t : Terms) : StoredCredentials := allowCredentials t.2.

Section Spec.
Context (before : Z) (ws : Z -> bool) (unicodeLower : list Z -> list Z) (foldCase : Z -> Z)
  (iterate : HTTPHeaderMap -> list (list Z * list Z)).
Context (registry : SchemeRegistry) (documentOrigin : SecurityOrigin).

Definition origin_of (t : Terms) : SecurityOrigin := default documentOrigin (optionsOrigin t.2).

(** A server's approval: a response to a preflight that passed the check for an
    origin of the same name, with credentials if they are to be sent, and that
    lists the method and the headers. *)
Definition approval (name : list Z) (credentials : StoredCredentials) (r : ResourceRequest) : Prop :=
  exists response given (t : Double.double) origin,
    toString origin = name /\ (credentials = AllowStoredCredentials -> given = AllowStoredCredentials)
    /\ passesAccessControlCheck foldCase response given origin = true
    /\ readable foldCase response /\ lists ws foldCase response (httpMethod r) (httpHeaderFields r).

(** A request that carries its origin, and no credentials but those allowed. *)
Definition labelled (t : Terms) (r : ResourceRequest) : Prop :=
  bare (url r) /\ get foldCase (httpHeaderFields r) (str "Origin") = Some (toString (origin_of t))
  /\ (allowCookies r = true -> credentials_of t = AllowStoredCredentials).

Definition is_preflight (t : Terms) (r : ResourceRequest) : Prop :=
  httpMethod r = str "OPTIONS" /\ allowCookies r = false /\ httpBody r = None.

Definition is_simple (t : Terms) (r : ResourceRequest) : Prop :=
  shouldTreatURLSchemeAsCORSEnabled foldCase registry (Access.protocol (url r)) = true
  /\ (preflightPolicy t.2 = PreventPreflight
      \/ isSimpleCrossOriginAccessRequest ws foldCase iterate (httpMethod r) (httpHeaderFields r) = true).

Definition is_approved (t : Terms) (r : ResourceRequest) : Prop :=
  exists r0, r = setHTTPOrigin foldCase r0 (toString (origin_of t)) /\ approval (toString (origin_of t)) (credentials_of t) r0.

(** Requests that may go out. *)
Definition may_send (t : Terms) (r : ResourceRequest) : Prop :=
  same t = true \/ policy_of t = AllowCrossOriginRequests
  \/ policy_of t = UseAccessControl /\ labelled t r /\ (is_preflight t r \/ is_simple t r \/ is_approved t r).

(** Responses the client may see. *)
Definition may_show (t : Terms) (response : ResourceResponse) : Prop :=
  same t = true \/ policy_of t = AllowCrossOriginRequests
  \/ policy_of t = UseAccessControl /\ passesAccessControlCheck foldCase response (credentials_of t) (origin_of t) = true.

Definition effect_ok (t : Terms) (e : effect) : Prop :=
  match e with
  | RequestRawResource r options =>
      may_send t r /\ allowCredentials options = credentials_of t
      /\ (securityCheck options = SkipSecurityCheck -> is_approved t r)
  | LoadResourceSynchronously r credentials => may_send t r /\ credentials = credentials_of t
  | DidReceiveResponse _ response => may_show t response
  | NullClient => False
  | AssertionFailed a => a = CredentialsRemoved /\ same t = false /\ policy_of t = AllowCrossOriginRequests
  | _ => True
  end.

(** What is in the cache was earned. *)
Definition earned (c : PreflightCache) : Prop :=
  forall name u item, c !! (name, u) = Some item ->
    exists response given t origin, toString origin = name /\ passesAccessControlCheck foldCase response given origin = true
      /\ readable foldCase response /\ item = (parse ws foldCase t (Item_new given) response).1.

(** A preflight is under way. *)
Definition pending (t : Terms) (l : DocumentThreadableLoader) (r : ResourceRequest) : Prop :=
  same t = false /\ policy_of t = UseAccessControl /\ m_simpleRequest l = false
  /\ exists r0, parsed (url r0) /\ r = updateRequestForAccessControl before foldCase r0 (origin_of t) (credentials_of t).

Definition Inv (t : Terms) (w : World) : Prop :=
  terms (loader w) = t /\ m_client (loader w) <> None /\ earned (preflights w)
  /\ forall r, m_actualRequest (loader w) = Some r -> pending t (loader w) r.

(** Some request was allowed. *)
Definition opened (t : Terms) : Prop := same t = true \/ policy_of t <> DenyCrossOriginRequests.
End Spec.

(** ** What can happen to a loader *)
Section Runs.
Context (before : Z) (ws : Z -> bool) (unicodeLower : list Z -> list Z) (foldCase : Z -> Z)
  (idn : list Z -> option (list Z)) (iterate : HTTPHeaderMap -> list (list Z * list Z)).
Context (registry : SchemeRegistry) (policy : SecurityPolicy) (documentOrigin : SecurityOrigin).

(** A resource calls its clients only; it finishes without an error after a
    response, and a redirection is to a parsed URL; other loaders put into the
    cache what they earned.  [heard]: a response has come since the last request. *)
Definition enabled (w : World) (heard : bool) (e : event) : Prop :=
  match e with
  | DataSent _ _ | DataReceived _ | ResponseReceived _ _ => m_resource (loader w) <> None
  | RedirectReceived _ _ r _ _ => m_resource (loader w) <> None /\ parsed (url r)
  | NotifyFinished _ _ errorOccurred wasCanceled =>
      m_resource (loader w) <> None /\ (errorOccurred || wasCanceled = false -> heard = true)
  | Cancelled | DefersLoading _ => True
  | CacheChanged c => earned ws foldCase c
  end.

Definition hears (heard : bool) (e : event) : bool :=
  match e with ResponseReceived _ _ => true | RedirectReceived _ _ _ _ _ | NotifyFinished _ _ _ _ => false | _ => heard end.

(** The URLs a load has gone to: the first and those it was redirected to. *)
Definition refused (es : list effect) : bool := existsb (fun e => match e with DidFailRedirectCheck => true | _ => false end) es.
Definition visits (visited : list KURL) (e : event) (es : list effect) : list KURL :=
  match e with
  | RedirectReceived _ _ r _ _ => if refused es then visited else url r :: visited
  | _ => visited
  end.

(** The loader after any run, with the calls of its last step. *)
Inductive reaches : list effect -> list KURL -> bool -> World -> Prop :=
| reach_create now answers c isDocument r options w l es :
    parsed (url r) -> earned ws foldCase c ->
    create before ws unicodeLower foldCase iterate registry policy documentOrigin now answers c isDocument r options = (w, Some l, es) ->
    reaches es [url r] false w
| reach_event es visited heard w e w' es' :
    reaches es visited heard w -> enabled w heard e ->
    run_event before ws unicodeLower foldCase idn iterate registry policy documentOrigin e w = (w', es') ->
    reaches es' (visits visited e es') (hears heard e) w'.

(** The calls of a step of a loader, or of one that is synchronous. *)
Inductive makes : list effect -> DocumentThreadableLoader -> Prop :=
| makes_step es visited heard w : reaches es visited heard w -> makes es (loader w)
| makes_synchronously now answers c isDocument r options w es :
    parsed (url r) -> earned ws foldCase c ->
    loadResourceSynchronously before ws unicodeLower foldCase iterate registry policy documentOrigin now answers c isDocument r options
      = (w, es) ->
    makes es (loader w).
End Runs.
End LoaderSpec.

Module LoaderFacts.
Import Schemes Origin Policy HTTPHeaders CrossOrigin.Request AccessControl Preflight Loader CacheSpec CacheFacts RequestFacts LoaderSpec.
#[local] Open Scope loader_scope.

Section Facts.
Context (before : Z) (ws : Z -> bool) (unicodeLower : list Z -> list Z) (foldCase : Z -> Z)
  (idn : list Z -> option (list Z)) (iterate : HTTPHeaderMap -> list (list Z * list Z)).
Context (registry : SchemeRegistry) (policy : SecurityPolicy) (documentOrigin : SecurityOrigin).
Context (iterate_ok : forall m, iterate m ≡ₚ (map_to_list m).*2).

Abbreviation inv := (Inv before ws foldCase documentOrigin).
Abbreviation eff := (effect_ok ws foldCase iterate registry documentOrigin).
Abbreviation origin_t := (origin_of documentOrigin).

(** ** A logic of operations *)

Definition ok (t : Terms) (m : M) (w : World) (Q : World -> Prop) : Prop :=
  Q (m w).1 /\ Forall (eff t) (m w).2.

Lemma ok_then t m n w (R Q : World -> Prop) : ok t m w R -> (forall w', R w' -> ok t n w' Q) -> ok t (m >> n) w Q.
Proof.
  unfold ok, andThen. intros [HR Hm] Hn. destruct (m w) as [w1 es]. cbn [fst snd] in *.
  specialize (Hn w1 HR). destruct (n w1) as [w2 fs]. cbn [fst snd] in *. destruct Hn as [HQ Hf].
  split; [done|]. by apply Forall_app.
Qed.

Lemma ok_weak t m w (R Q : World -> Prop) : ok t m w R -> (forall w', R w' -> Q w') -> ok t m w Q.
Proof. intros [H1 H2] H. split; [by apply H|done]. Qed.

Lemma ok_skip t w (Q : World -> Prop) : Q w -> ok t skip w Q.
Proof. split; [done|constructor]. Qed.

Lemma ok_say t e w (Q : World -> Prop) : eff t e -> Q w -> ok t (say e) w Q.
Proof. split; [done|by constructor]. Qed.

Lemma ok_modify t f w (Q : World -> Prop) : Q (mkWorld (f (loader w)) (preflights w)) -> ok t (modify f) w Q.
Proof. split; [done|constructor]. Qed.

Lemma ok_reading t k w (Q : World -> Prop) : ok t (k w) w Q -> ok t (reading k) w Q.
Proof. done. Qed.

Lemma ok_client t e w (Q : World -> Prop) : m_client (loader w) <> None -> eff t e -> Q w -> ok t (client e) w Q.
Proof. intros Hc He Hq. apply ok_reading. destruct (m_client (loader w)); [|done]. by apply ok_say. Qed.

Lemma ok_assert t a b w (Q : World -> Prop) : (b = false -> eff t (AssertionFailed a)) -> Q w -> ok t (assert a b) w Q.
Proof. intros Ha Hq. destruct b; [by apply ok_skip|]. apply ok_say; [by apply Ha|done]. Qed.

Lemma ok_modify_then t f n w (Q : World -> Prop) :
  ok t n (mkWorld (f (loader w)) (preflights w)) Q -> ok t (modify f >> n) w Q.
Proof. unfold ok, andThen, modify. cbn [fst snd]. destruct (n _) as [w' es]. done. Qed.

Lemma ok_say_then t e n w (Q : World -> Prop) : eff t e -> ok t n w Q -> ok t (say e >> n) w Q.
Proof. intros He Hn. apply ok_then with (R := fun w' => w' = w); [by apply ok_say|by intros ? ->]. Qed.

Lemma ok_assert_then t a b n w (Q : World -> Prop) :
  (b = false -> eff t (AssertionFailed a)) -> ok t n w Q -> ok t (assert a b >> n) w Q.
Proof. intros He Hn. apply ok_then with (R := fun w' => w' = w); [by apply ok_assert|by intros ? ->]. Qed.

Lemma inv_client t w : inv t w -> m_client (loader w) <> None.
Proof. by intros (_ & ? & _). Qed.

Lemma inv_terms t w : inv t w -> m_sameOriginRequest (loader w) = same t
  /\ crossOriginRequestPolicy (m_options (loader w)) = policy_of t
  /\ allowCredentials (m_options (loader w)) = credentials_of t
  /\ preflightPolicy (m_options (loader w)) = preflightPolicy t.2
  /\ securityOrigin documentOrigin (loader w) = origin_t t.
Proof. intros (<- & _). unfold terms, same, policy_of, credentials_of, origin_of, securityOrigin. by destruct (loader w) as [? ? []]. Qed.

(** ** Requests *)

Lemma get_set m n v n' :
  get foldCase (HTTPHeaders.set foldCase m n v) n' = if decide (key foldCase n' = key foldCase n) then Some v else get foldCase m n'.
Proof.
  unfold get, HTTPHeaders.set. destruct (m !! key foldCase n) as [[old value]|]; destruct (decide _) as [->|Hne];
    by rewrite ?lookup_insert_eq, ?lookup_insert_ne.
Qed.

Lemma key_length n n' : length n <> length n' -> key foldCase n <> key foldCase n'.
Proof. intros Hl Hk. apply (f_equal length) in Hk. unfold key in Hk. rewrite !length_map in Hk. done. Qed.

Lemma updated_labelled t r : parsed (url r) ->
  labelled foldCase documentOrigin t (updateRequestForAccessControl before foldCase r (origin_t t) (credentials_of t)).
Proof.
  intros Hr. unfold labelled, updateRequestForAccessControl. split_and!.
  - apply (removeCredentials_bare before r Hr).
  - cbn [httpHeaderFields setHTTPOrigin setHTTPHeaderField set_headers]. rewrite get_set. by rewrite decide_True.
  - cbn [allowCookies setHTTPOrigin setHTTPHeaderField set_headers setAllowCookies]. by intros H%bool_decide_eq_true.
Qed.

Lemma preflight_labelled t r : parsed (url r) ->
  let q := createAccessControlPreflightRequest before unicodeLower foldCase iterate r (origin_t t) in
  labelled foldCase documentOrigin t q /\ is_preflight t q.
Proof.
  intros Hr. cbv zeta. unfold createAccessControlPreflightRequest.
  set (p := updateRequestForAccessControl before foldCase (ResourceRequest_url (url r)) (origin_t t) DoNotAllowStoredCredentials).
  assert (bare (url p)) as Hb by (apply (removeCredentials_bare before (ResourceRequest_url (url r)) Hr)).
  assert (get foldCase (httpHeaderFields p) (str "Origin") = Some (toString (origin_t t))) as Ho.
  { unfold p, updateRequestForAccessControl. cbn [httpHeaderFields setHTTPOrigin setHTTPHeaderField set_headers].
    rewrite get_set. by rewrite decide_True. }
  assert (forall n, length (str "Origin") <> length (str n) -> key foldCase (str "Origin") <> key foldCase (str n)) as Hk
    by (intros n; apply key_length).
  assert (forall x, length (str "Origin") <> length x -> forall h v, get foldCase h (str "Origin") = Some (toString (origin_t t)) ->
    get foldCase (HTTPHeaders.set foldCase h x v) (str "Origin") = Some (toString (origin_t t))) as Hset.
  { intros x Hx h v Hh. rewrite get_set, decide_False; [done|]. by apply key_length. }
  unfold labelled, is_preflight. destruct (0 <? size (httpHeaderFields r))%nat;
    cbn [url httpMethod httpHeaderFields httpBody allowCookies setHTTPHeaderField set_headers setPriority setHTTPMethod];
    (split; [split_and!; [done|repeat (apply Hset; [done|]); done|done]|split_and!; done]).
Qed.

Lemma approved_labelled t r0 : parsed (url r0) ->
  let r := updateRequestForAccessControl before foldCase r0 (origin_t t) (credentials_of t) in
  labelled foldCase documentOrigin t (setHTTPOrigin foldCase r (toString (origin_t t))).
Proof.
  intros Hr. cbv zeta. destruct (updated_labelled t r0 Hr) as (Hb & Ho & Hc). split_and!; [done| |done].
  cbn [httpHeaderFields setHTTPOrigin setHTTPHeaderField set_headers]. rewrite get_set. by rewrite decide_True.
Qed.

(** ** Operations *)

Definition Good (t : Terms) (a : bool) (w : World) : Prop :=
  inv t w /\ m_async (loader w) = a /\ (m_resource (loader w) <> None -> opened t).

Definition approval_t (t : Terms) : ResourceRequest -> Prop :=
  approval ws foldCase (toString (origin_t t)) (credentials_of t).

Definition cleared (t : Terms) (w : World) : Prop := forall r, m_actualRequest (loader w) = Some r -> approval_t t r.

Lemma good_idle t a w : Good t a w -> Good t a (mkWorld (set_resource None (loader w)) (preflights w)).
Proof. intros (Hi & Ha & Hr). by split_and!. Qed.

Lemma good_no_actual t a w : Good t a w -> Good t a (mkWorld (set_actual None (loader w)) (preflights w)).
Proof. intros ((H1 & H2 & H3 & H4) & Ha & Hr). by split_and!. Qed.

Lemma clearResource_ok t w : ok t clearResource w (fun w' => w' = mkWorld (set_resource None (loader w)) (preflights w)).
Proof.
  apply ok_reading. destruct (m_resource (loader w)) as [resource|] eqn:Hr.
  - apply ok_modify_then. by apply ok_say.
  - apply ok_skip. destruct w as [[] p]. cbn in *. by subst.
Qed.

Lemma preflightFailure_ok t a w u : Good t a w ->
  ok t (preflightFailure u) w (fun w' => Good t a w' /\ cleared t w' /\ m_resource (loader w') = m_resource (loader w)).
Proof.
  intros Hg. apply ok_modify_then.
  apply ok_client; [apply (inv_client t w), Hg|done|]. split_and!; [by apply good_no_actual|done|done].
Qed.

Lemma earned_insert c name u response given t origin :
  earned ws foldCase c -> toString origin = name -> passesAccessControlCheck foldCase response given origin = true ->
  readable foldCase response -> earned ws foldCase (<[(name, u) := (parse ws foldCase t (Item_new given) response).1]> c).
Proof.
  intros Hc Ho Hp Hr name' u' item. destruct (decide ((name, u) = (name', u'))) as [[= -> ->]|Hne].
  - rewrite lookup_insert_eq. intros [= <-]. by exists response, given, t, origin.
  - rewrite lookup_insert_ne by done. apply Hc.
Qed.

Lemma earned_skip c now origin u creds method headers :
  earned ws foldCase c -> earned ws foldCase (canSkipPreflight ws foldCase iterate now c origin u creds method headers).1.
Proof.
  intros Hc. unfold canSkipPreflight. destruct (c !! _); [|done]. destruct (allowsRequest _ _ _ _ _ _ _ _); [done|].
  intros name' u' item H. cbn [fst] in H. apply lookup_delete_Some in H as [_ H]. by eapply Hc.
Qed.

Lemma didReceiveResponse_ok t a w now identifier response : Good t a w -> opened t ->
  ok t (didReceiveResponse ws foldCase iterate documentOrigin now identifier response) w
    (fun w' => Good t a w' /\ cleared t w' /\ m_resource (loader w') = m_resource (loader w)).
Proof.
  intros Hg Ho. apply ok_reading. cbv zeta. destruct Hg as [Hi Hrest].
  destruct (inv_terms t w Hi) as (Es & Ep & Ec & _ & Eo). rewrite Es, Ep, Ec, Eo.
  destruct (m_actualRequest (loader w)) as [actual|] eqn:Hact.
  - destruct (passesAccessControlCheck foldCase response (credentials_of t) (origin_t t)) eqn:Hp; cbn [negb];
      [|by apply preflightFailure_ok].
    pose proof (parse_readable ws foldCase now (credentials_of t) response) as Hread.
    destruct (parse ws foldCase now (Item_new (credentials_of t)) response) as [item parsed_ok] eqn:Hparse. cbn [snd] in Hread.
    subst parsed_ok. destruct (bool_decide_reflect (readable foldCase response)) as [Hr|Hr]; cbn [negb orb]; [|by apply preflightFailure_ok].
    pose proof (allows_lists ws foldCase iterate iterate_ok now (credentials_of t) response (httpMethod actual) (httpHeaderFields actual) Hr) as Hl.
    unfold item_of in Hl. rewrite Hparse in Hl. cbn [fst] in Hl.
    destruct (allowsCrossOriginMethod item (httpMethod actual)); cbn [negb orb]; [|by apply preflightFailure_ok].
    destruct (allowsCrossOriginHeaders _ _ _ item _); cbn [negb]; [|by apply preflightFailure_ok].
    split; [|constructor]. cbn [fst append_result loader preflights]. split_and!; [| |done].
    + split; [|exact Hrest]. destruct Hi as (H1 & H2 & H3 & H4). split_and!; [done|done| |done]. cbn [preflights]. unfold appendEntry. rewrite Eo.
      assert (item = (parse ws foldCase now (Item_new (credentials_of t)) response).1) as -> by (by rewrite Hparse).
      by apply earned_insert with (origin := origin_t t).
    + intros r Hr'. cbn [loader] in Hr'. rewrite Hact in Hr'. injection Hr' as <-.
      exists response, (credentials_of t), now, (origin_t t). split_and!; try done. by apply Hl.
  - assert (cleared t w) as Hcl by (intros r Hr; congruence).
    assert (m_client (loader w) <> None) as Hc by (by apply (inv_client t)).
    destruct (same t) eqn:Hs; cbn [negb andb].
    { apply ok_client; [done| |done]. by left. }
    destruct (bool_decide_reflect (policy_of t = UseAccessControl)) as [Hu|Hu]; cbn [andb].
    2: { apply ok_client; [done| |done]. right; left. destruct Ho as [Ho|Ho]; [congruence|]. by destruct (policy_of t). }
    destruct (passesAccessControlCheck _ _ _ _) eqn:Hp; cbn [negb]; (apply ok_client; [done| |done]); [|done].
    right; right. by split.
Qed.

Lemma dataReceived_ok t a w data : Good t a w -> ok t (dataReceived data) w (fun w' => w' = w).
Proof.
  intros [Hi _]. apply ok_reading. destruct (m_actualRequest (loader w)); [by apply ok_skip|].
  apply ok_client; [by apply (inv_client t)|done|done].
Qed.

(** What the rest relies on of the function that loads the actual request. *)
Definition LoadOK (t : Terms) (a : bool) (load : ResourceRequest -> SecurityCheckPolicy -> M) : Prop :=
  forall w r check, Good t a w -> m_resource (loader w) = None -> may_send ws foldCase iterate registry documentOrigin t r ->
    (check = SkipSecurityCheck -> is_approved ws foldCase documentOrigin t r) -> ok t (load r check) w (Good t a).

Lemma preflightSuccess_ok t a w load : LoadOK t a load -> Good t a w -> cleared t w ->
  ok t (preflightSuccess_with foldCase documentOrigin load) w (Good t a).
Proof.
  intros Hload Hg Hc. apply ok_reading. destruct Hg as [Hi Hrest]. destruct (inv_terms t w Hi) as (_ & _ & _ & _ & Eo).
  destruct (m_actualRequest (loader w)) as [actual|] eqn:Hact; [|by apply ok_skip].
  apply ok_modify_then. cbv zeta. rewrite Eo.
  pose proof (good_no_actual t a w (conj Hi Hrest)) as Hg. set (w1 := mkWorld _ _) in *.
  eapply ok_then; [apply (clearResource_ok t w1)|]. intros w' ->.
  destruct (proj2 (proj2 (proj2 Hi)) actual Hact) as (Hs & Hp & _ & r0 & Hr0 & Hr).
  assert (is_approved ws foldCase documentOrigin t (setHTTPOrigin foldCase actual (toString (origin_t t)))) as Happ.
  { exists actual. split; [done|]. by apply Hc. }
  apply Hload; [by apply good_idle|done| |done].
  right; right. split; [done|]. split; [|by right; right]. rewrite Hr. by apply approved_labelled.
Qed.

Lemma didFinishLoading_ok t a w load identifier : LoadOK t a load -> Good t a w -> cleared t w ->
  ok t (didFinishLoading_with foldCase documentOrigin load identifier) w (Good t a).
Proof.
  intros Hload Hg Hc. apply ok_reading. pose proof (proj1 Hg) as Hi. destruct (inv_terms t w Hi) as (Es & Ep & _).
  destruct (m_actualRequest (loader w)) as [actual|] eqn:Hact.
  2: { apply ok_client; [by apply (inv_client t)|done|done]. }
  destruct (proj2 (proj2 (proj2 Hi)) actual Hact) as (Hs & Hp & _).
  apply ok_assert_then; [by rewrite Es, Hs|]. apply ok_assert_then; [by rewrite Ep, Hp|].
  by apply preflightSuccess_ok.
Qed.

Lemma may_send_opened t r : may_send ws foldCase iterate registry documentOrigin t r -> opened t.
Proof. intros [H|[H|[H _]]]; [by left|right; by rewrite H..]. Qed.

Lemma with_check_terms c l : terms (set_options (with_check c (m_options l)) l) = terms l.
Proof. by destruct l as [? ? []]. Qed.

Lemma good_check t a w c : Good t a w -> Good t a (mkWorld (set_options (with_check c (m_options (loader w))) (loader w)) (preflights w)).
Proof.
  intros ((H1 & H2 & H3 & H4) & Ha & Hr). split; [|by split]. split_and!; [|done..]. cbn [loader]. by rewrite with_check_terms.
Qed.

Lemma takeReply_ok t w now load answer r : LoadOK t false load -> Good t false w -> opened t ->
  ok t (takeReply before ws unicodeLower foldCase iterate registry policy documentOrigin now load answer r) w (Good t false).
Proof.
  intros Hload Hg Ho. apply ok_reading. cbv zeta. assert (m_client (loader w) <> None) as Hc by apply (inv_client t), Hg.
  destruct (if _ && _ then reply_error answer else None) as [[u cancellation]|]; [by apply ok_client|].
  destruct (_ && _); [by apply ok_client|].
  eapply ok_then; [by apply didReceiveResponse_ok|]. intros w1 (Hg1 & Hc1 & _).
  eapply ok_then; [by eapply dataReceived_ok|]. intros w2 ->. by apply didFinishLoading_ok.
Qed.

Lemma loadRequest_ok t a now answers : LoadOK t a
  (loadRequest before ws unicodeLower foldCase iterate registry policy documentOrigin now answers).
Proof.
  induction answers as [|answer answers IH]; intros w r check Hg Hres Hsend Hcheck; cbn [loadRequest]; apply ok_modify_then;
    pose proof (good_check t a w check Hg) as Hg1; set (w1 := mkWorld _ _) in *.
  all: pose proof (may_send_opened t r Hsend) as Hopen.
  all: apply ok_reading; cbv zeta; destruct (inv_terms t w1 (proj1 Hg1)) as (Es & _ & Ec & _); rewrite Es.
  all: assert (forall b, (same t = false -> policy_of t = UseAccessControl -> b = true) ->
    same t || b = false -> eff t (AssertionFailed CredentialsRemoved)) as Hassert
    by (intros b Hb [Hs ->]%orb_false_iff; split_and!; [done|done|]; destruct Hsend as [?|[?|[? _]]]; [congruence|done|by specialize (Hb Hs H)]).
  all: assert (same t = false -> policy_of t = UseAccessControl -> bare (url r)) as Hbare
    by (intros Hs Hp; destruct Hsend as [?|[?|(_ & [? _] & _)]]; congruence).
  all: apply ok_assert_then; [apply Hassert; intros Hs Hp; by rewrite bare_user by auto|].
  all: apply ok_assert_then; [apply Hassert; intros Hs Hp; by rewrite bare_pass by auto|].
  all: assert (m_async (loader w1) = a) as -> by apply Hg1.
  all: assert (m_resource (loader w1) = None) as Hres1 by exact Hres.
  all: assert (forall x, ok t (loadAsynchronously x r) w1 (Good t a)) as Hasync.
  1, 3: intros x; apply ok_reading; cbv zeta; apply ok_assert_then; [by rewrite Hres1|];
    apply ok_say_then; [|apply ok_modify; destruct Hg1 as ((H1 & H2 & H3 & H4) & Ha & _); by split_and!];
    split; [done|]; split; [unfold quiet; by destruct (bool_decide _)|]; intros Hc; apply Hcheck; revert Hc; unfold quiet;
    by destruct (bool_decide _).
  all: destruct a; [apply Hasync|apply ok_say_then; [by split|]].
  - by apply ok_skip.
  - by apply takeReply_ok.
Qed.

(** ** Cross-origin requests *)

Lemma allowed_approval c name now u creds r : earned ws foldCase c ->
  (canSkipPreflight ws foldCase iterate now c name u creds (httpMethod r) (httpHeaderFields r)).2 = true ->
  approval ws foldCase name creds r.
Proof.
  intros He. unfold canSkipPreflight. destruct (c !! (name, m_string u)) as [item|] eqn:Hc; [|done].
  destruct (He _ _ _ Hc) as (response & given & t & origin & Ho & Hp & Hr & ->).
  destruct (allowsRequest _ _ _ _ _ _ _ _) eqn:Ha; [|done]. intros _.
  apply (allows_permits ws foldCase iterate iterate_ok) in Ha as (_ & Hcred & Hl); [|done].
  by exists response, given, t, origin.
Qed.

Abbreviation load now answers := (loadRequest before ws unicodeLower foldCase iterate registry policy documentOrigin now answers).

Lemma makeSimple_ok t a w now answers r : Good t a w -> m_resource (loader w) = None ->
  policy_of t = UseAccessControl -> labelled foldCase documentOrigin t r -> preflightPolicy t.2 <> ForcePreflight ->
  (preflightPolicy t.2 = PreventPreflight \/ isSimpleCrossOriginAccessRequest ws foldCase iterate (httpMethod r) (httpHeaderFields r) = true) ->
  ok t (makeSimpleCrossOriginAccessRequest before ws unicodeLower foldCase iterate registry policy documentOrigin now answers r) w (Good t a).
Proof.
  intros Hg Hres Hp Hl Hf Hs. apply ok_reading. cbv zeta. destruct (inv_terms t w (proj1 Hg)) as (_ & _ & _ & Epre & _). rewrite Epre.
  apply ok_assert_then; [by rewrite (bool_decide_false (_ = ForcePreflight))|].
  apply ok_assert_then; [destruct Hs as [->| ->]; [by rewrite bool_decide_true|by rewrite orb_true_r]|].
  destruct (shouldTreatURLSchemeAsCORSEnabled _ _ _) eqn:Hcors; cbn [negb];
    [|apply ok_client; [apply (inv_client t w), Hg|done|done]].
  apply loadRequest_ok; [done|done| |done]. right; right. split; [done|]. split; [done|]. right; left. by split.
Qed.

Lemma askCache_ok t w now r k (Q : World -> Prop) :
  (let answer := canSkipPreflight ws foldCase iterate now (preflights w) (toString (securityOrigin documentOrigin (loader w))) (url r)
     (allowCredentials (m_options (loader w))) (httpMethod r) (httpHeaderFields r) in
   ok t (k answer.2) (mkWorld (loader w) answer.1) Q) ->
  ok t (askCache ws foldCase iterate documentOrigin now r k) w Q.
Proof. unfold ok, askCache. cbv zeta. by destruct (canSkipPreflight _ _ _ _ _ _ _ _ _ _). Qed.

Lemma makeCross_ok t a w now answers r : Good t a w -> m_resource (loader w) = None -> m_actualRequest (loader w) = None ->
  same t = false -> policy_of t = UseAccessControl -> parsed (url r) ->
  ok t (makeCrossOriginAccessRequest before ws unicodeLower foldCase iterate registry policy documentOrigin now answers r) w (Good t a).
Proof.
  intros Hg Hres Hact Hs Hp Hr. apply ok_reading. cbv zeta.
  destruct (inv_terms t w (proj1 Hg)) as (_ & _ & Ec & Epre & Eo). rewrite Ec, Epre, Eo.
  pose proof (updated_labelled t r Hr) as Hl.
  assert (exists r0, parsed (url r0) /\ updateRequestForAccessControl before foldCase r (origin_t t) (credentials_of t)
    = updateRequestForAccessControl before foldCase r0 (origin_t t) (credentials_of t)) as Hr0 by (by exists r).
  set (r' := updateRequestForAccessControl _ _ _ _ _) in *.
  destruct (bool_decide (preflightPolicy t.2 = ConsiderPreflight) && _ || bool_decide (preflightPolicy t.2 = PreventPreflight)) eqn:Hsimple.
  { apply makeSimple_ok; try done.
    - intros Hf. by rewrite Hf in Hsimple.
    - apply orb_true_iff in Hsimple as [[_ H]%andb_true_iff|H%bool_decide_eq_true]; [by right|by left]. }
  apply ok_modify_then. set (w1 := mkWorld _ _).
  assert (Good t a w1) as Hg1.
  { destruct Hg as ((H1 & H2 & H3 & H4) & Ha & Ho). split; [|by split]. split_and!; try done.
    intros q Hq. cbn in Hq. injection Hq as <-. by split_and!. }
  apply askCache_ok. cbv zeta. destruct (inv_terms t w1 (proj1 Hg1)) as (_ & _ & Ec1 & _ & Eo1). rewrite Ec1, Eo1.
  pose proof (earned_skip (preflights w1) now (toString (origin_t t)) (url r') (credentials_of t) (httpMethod r') (httpHeaderFields r')
    (proj1 (proj2 (proj2 (proj1 Hg1))))) as Hearn.
  pose proof (allowed_approval (preflights w1) (toString (origin_t t)) now (url r') (credentials_of t) r'
    (proj1 (proj2 (proj2 (proj1 Hg1))))) as Happ.
  destruct (canSkipPreflight _ _ _ _ _ _ _ _ _ _) as [c answer]. cbn [fst snd] in *.
  assert (Good t a (mkWorld (loader w1) c)) as Hg2 by (destruct Hg1 as ((H1 & H2 & H3 & H4) & H5); by split; [split_and!|]).
  destruct answer.
  - apply preflightSuccess_ok; [apply loadRequest_ok|done|]. intros q Hq. cbn in Hq. injection Hq as <-. by apply Happ.
  - apply ok_reading. destruct (inv_terms t _ (proj1 Hg2)) as (_ & _ & _ & _ & ->).
    apply loadRequest_ok; [done|done| |done]. right; right.
    destruct (preflight_labelled t r') as [Hpl Hpre]; [by apply bare_parsed, Hl|]. by split_and!; [| |left].
Qed.

Lemma start_ok t a w now answers r : Good t a w -> m_resource (loader w) = None -> m_actualRequest (loader w) = None ->
  parsed (url r) ->
  ok t (start before ws unicodeLower foldCase iterate registry policy documentOrigin now answers r) w (Good t a).
Proof.
  intros Hg Hres Hact Hr. apply ok_reading. cbv zeta. destruct (inv_terms t w (proj1 Hg)) as (-> & -> & _).
  destruct (same t) eqn:Hs; cbn [orb].
  { apply loadRequest_ok; [done|done|by left|done]. }
  destruct (bool_decide_reflect (policy_of t = AllowCrossOriginRequests)).
  { apply loadRequest_ok; [done|done|by right; left|done]. }
  destruct (bool_decide_reflect (policy_of t = DenyCrossOriginRequests)).
  { apply ok_client; [apply (inv_client t w), Hg|done|done]. }
  apply makeCross_ok; try done. by destruct (policy_of t).
Qed.

Lemma redirect_ok t a w now answers r response audit : Good t a w -> m_resource (loader w) <> None -> parsed (url r) ->
  exists t', ok t' (redirectReceived before ws unicodeLower foldCase idn iterate registry policy documentOrigin now answers r response audit)
               w (Good t' a)
    /\ (same t' = true -> t' = t /\
        (policy_of t <> AllowCrossOriginRequests ->
         refused (redirectReceived before ws unicodeLower foldCase idn iterate registry policy documentOrigin now answers r response audit w).2
           = false ->
         canRequest before ws unicodeLower foldCase registry policy (origin_t t) (url r) = true)).
Proof.
  intros Hg Hres Hr. assert (m_client (loader w) <> None) as Hc by apply (inv_client t), Hg.
  destruct (inv_terms t w (proj1 Hg)) as (Es & Ep & _ & _ & Eo).
  destruct (isAllowedRedirect before ws unicodeLower foldCase registry policy documentOrigin (loader w) (url r)) eqn:Hall.
  { exists t. split.
    - apply ok_reading. cbv zeta. rewrite Hall.
      destruct (m_client (loader w)) as [[]|]; [|by apply ok_say|done]. apply ok_say_then; [done|by apply ok_say].
    - intros _. split; [done|]. intros Hp _. unfold isAllowedRedirect in Hall. rewrite Ep, Eo, bool_decide_false in Hall by done.
      by apply andb_true_iff in Hall as [_ Hall]. }
  destruct (allowRedirect foldCase registry documentOrigin (loader w) r response) eqn:Hallow.
  2: { exists t. split.
       - apply ok_reading. cbv zeta. rewrite Hall, Hallow.
         apply ok_then with (R := fun w' => w' = w); [by apply ok_client|]. intros ? ->. by apply ok_say.
       - intros _. split; [done|]. intros _. unfold redirectReceived, reading. rewrite Hall, Hallow.
         unfold andThen, client, reading. by destruct (m_client (loader w)). }
  pose proof Hallow as Hp. unfold allowRedirect in Hp. repeat (apply andb_true_iff in Hp as [Hp ?]).
  apply bool_decide_eq_true in Hp.
  assert (m_actualRequest (loader w) = None) as Hact.
  { destruct (m_actualRequest (loader w)) as [q|] eqn:Hq; [|done].
    destruct (proj2 (proj2 (proj2 (proj1 Hg))) q Hq) as (_ & _ & Hn & _). congruence. }
  set (from u := createFromString before ws unicodeLower foldCase idn registry (m_string u)).
  set (f := fun l => if isSameSchemeHostPort foldCase registry (from (responseURL response)) (from (url r)) then l
                     else set_options (with_origin createUnique (m_options l)) l).
  set (l3 := set_same false (f (set_resource None (loader w)))).
  assert (m_client l3 <> None /\ m_async l3 = a /\ m_resource l3 = None /\ m_actualRequest l3 = None
    /\ crossOriginRequestPolicy (m_options l3) = UseAccessControl) as (Hc3 & Ha3 & Hr3 & Hact3 & Hp3).
  { destruct Hg as (_ & Ha & _). unfold l3, f. by destruct (isSameSchemeHostPort _ _ _ _). }
  exists (terms l3). split; [|done]. apply ok_reading. cbv zeta. rewrite Hall, Hallow.
  eapply ok_then; [apply (clearResource_ok _ w)|]. intros ? ->. do 2 apply ok_modify_then. cbn [loader preflights].
  change (set_same false _) with l3.
  assert (Good (terms l3) a (mkWorld l3 (preflights w))) as Hg3.
  { split; [|by split; [|intros Hn; destruct (Hn Hr3)]]. split; [done|]. split; [done|]. split; [apply Hg|].
    intros q Hq. cbn [loader] in Hq. congruence. }
  assert (same (terms l3) = false) as Hs3 by (unfold l3, f; by destruct (isSameSchemeHostPort _ _ _ _)).
  clearbody l3. apply ok_then with (R := Good (terms l3) a); [|intros w' Hw'; by apply ok_say].
  by apply makeCross_ok.
Qed.

(** ** Everything that can happen *)

(** A cancelled loader has neither a client nor a resource. *)
Definition Live (t : Terms) (heard : bool) (w : World) : Prop := Good t true w /\ (heard = true -> cleared t w).
Definition Dead (w : World) : Prop := m_client (loader w) = None /\ m_resource (loader w) = None /\ earned ws foldCase (preflights w).

Definition State (t : Terms) (heard : bool) (w : World) : Prop := terms (loader w) = t /\ (Live t heard w \/ Dead w).

Lemma initial_good isDocument a r options c : earned ws foldCase c ->
  Good (terms (initial before ws unicodeLower foldCase registry policy documentOrigin isDocument a r options)) a
    (mkWorld (initial before ws unicodeLower foldCase registry policy documentOrigin isDocument a r options) c).
Proof. intros Hc. by split; [split_and!|]. Qed.

Lemma live_good t heard w (m : M) (Q : World -> Prop) : Good t true w -> ok t m w Q ->
  (forall w', Q w' -> Good t true w' /\ (heard = true -> cleared t w')) -> ok t m w (State t heard).
Proof.
  intros Hg Hm HQ. eapply ok_weak; [exact Hm|]. intros w' Hw'. destruct (HQ w' Hw') as [Hg' Hc'].
  split; [apply Hg'|by left].
Qed.

Lemma cancel_ok t heard w : Live t heard w -> ok t cancel w (State t heard).
Proof.
  intros [Hg Hc]. unfold cancel.
  apply ok_then with (R := fun w' => w' = w).
  { apply ok_reading. destruct (m_client (loader w)) eqn:Hcl; [|by apply ok_skip].
    destruct (m_resource (loader w)); [|by apply ok_skip]. apply ok_client; [by rewrite Hcl|done|done]. }
  intros ? ->. eapply ok_then; [apply (clearResource_ok t w)|]. intros ? ->. apply ok_modify.
  split; [apply (proj1 Hg)|right]. split; [done|]. split; [done|]. apply (proj1 Hg).
Qed.

Lemma setDefers_ok t w b (Q : World -> Prop) : Q w -> ok t (setDefersLoading b) w Q.
Proof. intros Hq. apply ok_reading. destruct (m_resource _); [by apply ok_say|by apply ok_skip]. Qed.

Abbreviation perform := (run_event before ws unicodeLower foldCase idn iterate registry policy documentOrigin).

Lemma dead_ok t heard w e : terms (loader w) = t -> Dead w -> enabled ws foldCase w heard e ->
  ok t (perform e) w (State t (hears heard e)) /\ visits [] e (perform e w).2 = [].
Proof.
  intros Ht (Hc & Hr & He) Hen. destruct e; cbn [enabled] in Hen; try (destruct Hen; congruence); try congruence.
  - split; [|done]. unfold ok. cbn [run_event]. unfold cancel, clearResource, andThen, reading, skip, modify. rewrite Hc, Hr. cbn.
    split; [|constructor]. split; [done|right]. by split_and!.
  - split; [|done]. apply setDefers_ok. split; [done|right]. by split_and!.
  - split; [|done]. split; [|constructor]. split; [done|right]. by split_and!.
Qed.

Lemma step_ok t heard w e : State t heard w -> enabled ws foldCase w heard e ->
  exists t', ok t' (perform e) w (State t' (hears heard e))
    /\ (same t' = true -> t' = t /\ (policy_of t <> AllowCrossOriginRequests ->
        Forall (fun u => canRequest before ws unicodeLower foldCase registry policy (origin_t t) u = true) (visits [] e (perform e w).2))).
Proof.
  intros [Ht [Hl|Hd]] Hen.
  2: { exists t. destruct (dead_ok t heard w e Ht Hd Hen) as [H ->]. by split; [|split; [|constructor]]. }
  pose proof Hl as [Hg Hc]. assert (m_client (loader w) <> None) as Hcl by apply (inv_client t), Hg.
  destruct e as [sent total|now response|data|now answers r response audit|now answers err can| |b|c]; cbn [enabled hears] in *.
  4: { destruct Hen as [Hres Hr]. destruct (redirect_ok t true w now answers r response audit Hg Hres Hr) as (t' & Hok & Hsame).
       exists t'. split; [eapply ok_weak; [exact Hok|]; intros w' Hw'; split; [apply Hw'|by left]|].
       intros Hs. destruct (Hsame Hs) as [-> Hvisit]. split; [done|]. intros Hp. cbn [visits run_event].
       destruct (refused _) eqn:Href; [constructor|]. constructor; [by apply Hvisit|constructor]. }
  all: exists t; split; [|split; [done|constructor]].
  - apply ok_client; [done|done|]. split; [done|by left].
  - cbn [run_event]. apply ok_reading. destruct (m_resource (loader w)) as [resource|] eqn:Hres; [|done].
    eapply ok_weak; [apply didReceiveResponse_ok; [done|apply Hg; congruence]|]. intros w' (Hg' & Hc' & _).
    split; [apply Hg'|by left].
  - cbn [run_event]. eapply ok_weak; [by eapply dataReceived_ok|]. intros ? ->. split; [done|by left].
  - destruct Hen as [Hres Hh]. cbn [run_event]. apply ok_reading. destruct (m_resource (loader w)) as [resource|] eqn:Hr; [|done].
    destruct (err || can) eqn:Hec.
    + apply ok_client; [done|done|]. split; [done|by left].
    + eapply ok_weak; [apply didFinishLoading_ok; [apply loadRequest_ok|done|by apply Hc, Hh]|]. intros w' Hw'.
      split; [apply Hw'|by left].
  - by apply cancel_ok.
  - apply setDefers_ok. split; [done|by left].
  - split; [|constructor]. split; [done|]. left. destruct Hg as ((H1 & H2 & H3 & H4) & Ha & Ho). by split; [split; [split_and!|]|].
Qed.

Lemma reaches_ok es visited heard w : reaches before ws unicodeLower foldCase idn iterate registry policy documentOrigin es visited heard w ->
  Forall (eff (terms (loader w))) es /\ State (terms (loader w)) heard w
  /\ (same (terms (loader w)) = true -> policy_of (terms (loader w)) <> AllowCrossOriginRequests ->
      Forall (fun u => canRequest before ws unicodeLower foldCase registry policy (origin_t (terms (loader w))) u = true) visited).
Proof.
  induction 1 as [now answers c isDocument r options w l es Hr Hc Hcreate|es visited heard w e w' es' Hreach (IH1 & IH2 & IH3) Hen Hrun].
  - unfold create in Hcreate. pose proof (initial_good isDocument true r options c Hc) as Hg0.
    pose proof (start_ok _ true _ now answers r Hg0 eq_refl eq_refl Hr) as [Hg Hes].
    destruct (start _ _ _ _ _ _ _ _ _ _ _ _) as [w1 es1]. cbn [fst snd] in *. injection Hcreate as <- _ <-.
    assert (terms (loader w1) = terms (initial before ws unicodeLower foldCase registry policy documentOrigin isDocument true r options))
      as Ht by apply Hg.
    rewrite Ht. split; [done|]. split; [split; [done|by left]|]. intros Hs Hp. constructor; [|constructor].
    by unfold same, terms, initial in Hs.
  - destruct (step_ok _ heard w e IH2 Hen) as (t' & [HS Hes] & Hsame). rewrite Hrun in *. cbn [fst snd] in *.
    pose proof (proj1 HS) as Ht. rewrite Ht. split; [done|]. split; [done|].
    intros Hs Hp. destruct (Hsame Hs) as [-> Hv]. specialize (IH3 Hs Hp). specialize (Hv Hp).
    destruct e; cbn [visits] in *; try done. destruct (refused es'); [done|]. by apply Forall_cons_iff in Hv as [Hv _]; constructor.
Qed.

Lemma makes_ok es l : makes before ws unicodeLower foldCase idn iterate registry policy documentOrigin es l -> Forall (eff (terms l)) es.
Proof.
  intros [es' visited heard w Hr|now answers c isDocument r options w es' Hr Hc Hrun]; [by apply reaches_ok in Hr as [? _]|].
  unfold loadResourceSynchronously in Hrun. pose proof (initial_good isDocument false r options c Hc) as Hg0.
  pose proof (start_ok _ false _ now answers r Hg0 eq_refl eq_refl Hr) as Hs.
  set (t := terms _) in *. assert (ok t (start before ws unicodeLower foldCase iterate registry policy documentOrigin now answers r >> destroy)
    (mkWorld (initial before ws unicodeLower foldCase registry policy documentOrigin isDocument false r options) c)
    (fun w => terms (loader w) = t)) as [Ht Hes].
  { eapply ok_then; [exact Hs|]. intros w' Hg. apply ok_reading.
    destruct (m_resource _); [apply ok_say|apply ok_skip]; [done|apply Hg..]. }
  rewrite Hrun in *. cbn [fst snd] in *. by rewrite Ht.
Qed.

(** ** A preflight to its end *)

(** A response that approves of a request. *)
Definition approves (t : Terms) (response : ResourceResponse) (r : ResourceRequest) : Prop :=
  passesAccessControlCheck foldCase response (credentials_of t) (origin_t t) = true
  /\ readable foldCase response /\ lists ws foldCase response (httpMethod r) (httpHeaderFields r).

Lemma receive_preflight t w now identifier response r : inv t w -> m_actualRequest (loader w) = Some r ->
  let answer := didReceiveResponse ws foldCase iterate documentOrigin now identifier response w in
  (approves t response r -> exists c, answer = (mkWorld (loader w) c, []))
  /\ (~ approves t response r ->
      answer = (mkWorld (set_actual None (loader w)) (preflights w), [DidFail (m_string (responseURL response)) false])).
Proof.
  intros Hi Hact. cbv zeta. destruct (inv_terms t w Hi) as (_ & _ & Ec & _ & Eo).
  unfold didReceiveResponse, reading. rewrite Hact, Ec, Eo.
  assert (preflightFailure (m_string (responseURL response)) w
    = (mkWorld (set_actual None (loader w)) (preflights w), [DidFail (m_string (responseURL response)) false])) as Hfail.
  { unfold preflightFailure, andThen, modify, client, reading, say. cbn [loader set_actual m_client].
    pose proof (inv_client t w Hi). by destruct (m_client (loader w)). }
  unfold approves. destruct (passesAccessControlCheck foldCase response (credentials_of t) (origin_t t)); cbn [negb];
    [|split; [by intros (? & _)|done]].
  pose proof (parse_readable ws foldCase now (credentials_of t) response) as Hread.
  destruct (parse ws foldCase now (Item_new (credentials_of t)) response) as [item b] eqn:Hparse. cbn [snd] in Hread. subst b.
  destruct (bool_decide_reflect (readable foldCase response)) as [Hr|Hr]; cbn [negb orb]; [|split; [by intros (_ & ? & _)|done]].
  pose proof (allows_lists ws foldCase iterate iterate_ok now (credentials_of t) response (httpMethod r) (httpHeaderFields r) Hr) as Hl.
  unfold item_of in Hl. rewrite Hparse in Hl. cbn [fst] in Hl.
  destruct (allowsCrossOriginMethod item (httpMethod r)), (allowsCrossOriginHeaders _ _ _ item _); cbn [negb orb andb] in *;
    (split; [intros (_ & _ & Hx)|intros Hx]); try (apply Hl in Hx; done); try done; [by eexists|].
  destruct Hx. split_and!; [done|done|by apply Hl].
Qed.

Lemma finish_preflight t w now answers r resource : Good t true w -> m_actualRequest (loader w) = Some r ->
  m_resource (loader w) = Some resource ->
  let w' := (notifyFinished before ws unicodeLower foldCase iterate registry policy documentOrigin now answers false false w).1 in
  (notifyFinished before ws unicodeLower foldCase iterate registry policy documentOrigin now answers false false w).2
    = [RemoveClient resource;
       RequestRawResource (setHTTPOrigin foldCase r (toString (origin_t t))) (quiet false (with_check SkipSecurityCheck (m_options (loader w))))]
  /\ m_actualRequest (loader w') = None /\ m_resource (loader w') = (answers ← head answers; answer_resource answers).
Proof.
  intros Hg Hact Hres. cbv zeta. pose proof (proj1 Hg) as Hi. destruct (inv_terms t w Hi) as (Es & Ep & _ & _ & Eo).
  destruct (proj2 (proj2 (proj2 Hi)) r Hact) as (Hs & Hp & _ & r0 & Hr0 & Hr).
  pose proof (proj1 (updated_labelled t r0 Hr0)) as Hb. rewrite <- Hr in Hb. clear Hr.
  unfold notifyFinished, reading. rewrite Hres. cbn [orb]. unfold didFinishLoading, didFinishLoading_with, reading.
  rewrite Hact, Es, Ep, Hs, Hp. cbn [negb assert]. rewrite bool_decide_true by done. cbn [assert].
  unfold preflightSuccess_with, clearResource, reading, skip, say, modify, andThen. rewrite Hact, Eo.
  cbn [loader set_actual m_resource preflights]. rewrite Hres. cbn [set_resource set_actual loader preflights].
  assert (m_async (loader w) = true) as Ha by apply Hg.
  assert (url (setHTTPOrigin foldCase r (toString (origin_t t))) = url r) as Hu by done.
  destruct answers; cbn [loadRequest]; unfold andThen, modify, reading;
    cbn [loader preflights set_options m_options m_sameOriginRequest m_async set_resource set_actual];
    rewrite Es, Hs, Hu, (bare_user _ Hb), (bare_pass _ Hb); cbn [default length Nat.eqb orb assert skip app];
    rewrite Ha; unfold loadAsynchronously, reading, andThen, say, modify;
    cbn [loader preflights set_options m_options m_actualRequest m_resource set_resource set_actual fst snd app];
    rewrite (bool_decide_true (None = None)) by done; rewrite bool_decide_false by (by intros [? ?]); done.
Qed.
End Facts.
End LoaderFacts.

(** * Properties *)
Module LoaderProps.
Import Schemes Origin Policy HTTPHeaders CrossOrigin.Request AccessControl Preflight Loader CacheSpec CacheFacts RequestFacts LoaderSpec LoaderFacts.

Section Props.
Context (before : Z) (ws : Z -> bool) (unicodeLower : list Z -> list Z) (foldCase : Z -> Z)
  (idn : list Z -> option (list Z)) (iterate : HTTPHeaderMap -> list (list Z * list Z)).
Context (registry : SchemeRegistry) (policy : SecurityPolicy) (documentOrigin : SecurityOrigin).

(** C2: No request leaves unapproved.  Whatever happens to a loader, a request
    it sends that is not to its own origin, under access control, has neither
    user nor password in its URL, names the origin in its Origin header, has
    cookies only if credentials are allowed, and is one of three: a preflight
    (OPTIONS, without a body and cookies); a simple request, or one whose
    preflight the caller has ruled out, to a scheme that is enabled; or a request
    that a server has approved of before, by a response to a preflight that
    passed the access check for an origin of that name, with credentials if this
    one has them, and that lists its method and headers.  Only such a one goes
    out without the security check of the layer below. *)
Theorem requests_approved es l r :
  (forall m, iterate m ≡ₚ (map_to_list m).*2) ->
  makes before ws unicodeLower foldCase idn iterate registry policy documentOrigin es l ->
  (forall options, RequestRawResource r options ∈ es ->
     may_send ws foldCase iterate registry documentOrigin (terms l) r
     /\ (securityCheck options = SkipSecurityCheck -> is_approved ws foldCase documentOrigin (terms l) r))
  /\ (forall credentials, LoadResourceSynchronously r credentials ∈ es ->
     may_send ws foldCase iterate registry documentOrigin (terms l) r).
Proof.
  intros Hit Hm. pose proof (makes_ok _ _ _ _ _ _ _ _ _ Hit _ _ Hm) as Hok.
  split; intros x Hx; apply (proj1 (list.Forall_forall _ _) Hok) in Hx; cbn [effect_ok] in Hx; tauto.
Qed.



(** C11: A preflight is decided by its response.  If the response approves of the
    request that waits, the client hears nothing, and the end of the preflight
    sends that request, as it was, with the origin in its header; if not, the
    client is told of the failure at once and the request is dropped. *)
Theorem preflight_decides es visited heard w r resource now response now' answers :
  (forall m, iterate m ≡ₚ (map_to_list m).*2) ->
  reaches before ws unicodeLower foldCase idn iterate registry policy documentOrigin es visited heard w ->
  m_actualRequest (loader w) = Some r -> m_resource (loader w) = Some resource ->
  let t := terms (loader w) in
  let perform := run_event before ws unicodeLower foldCase idn iterate registry policy documentOrigin in
  let received := perform (ResponseReceived now response) w in
  let finished := perform (NotifyFinished now' answers false false) received.1 in
  (approves ws foldCase documentOrigin t response r ->
     received.2 = []
     /\ finished.2 = [RemoveClient resource;
          RequestRawResource (setHTTPOrigin foldCase r (toString (origin_of documentOrigin t)))
            (quiet false (with_check SkipSecurityCheck (m_options (loader w))))]
     /\ m_actualRequest (loader finished.1) = None)
  /\ (~ approves ws foldCase documentOrigin t response r ->
     received.2 = [DidFail (m_string (responseURL response)) false] /\ m_actualRequest (loader received.1) = None).
Proof.
  intros Hit Hreach Hact Hres. cbv zeta. cbn [run_event].
  destruct (reaches_ok _ _ _ _ _ _ _ _ _ Hit _ _ _ _ Hreach) as (_ & (_ & [[Hg _]|(_ & Hn & _)]) & _); [|congruence].
  unfold responseReceived, reading. rewrite Hres.
  pose proof (receive_preflight before ws foldCase iterate documentOrigin Hit _ w now (resource_identifier resource) response r (proj1 Hg) Hact)
    as [Hyes Hno]. split.
  - intros Ha. destruct (Hyes Ha) as [c Hc]. rewrite Hc. cbn [fst snd]. split; [done|].
    assert (opened (terms (loader w))) as Hopen by (apply Hg; congruence).
    destruct (didReceiveResponse_ok before ws foldCase iterate registry documentOrigin Hit _ true w now (resource_identifier resource)
      response Hg Hopen) as [[Hg' _] _].
    rewrite Hc in Hg'. cbn [fst] in Hg'.
    by destruct (finish_preflight before ws unicodeLower foldCase iterate registry policy documentOrigin
      _ _ now' answers r resource Hg' Hact Hres) as (Hf1 & Hf2 & _).
  - intros Ha. by rewrite (Hno Ha).
Qed.
End Props.
End LoaderProps.

Module LoaderWitness.
Import Canonical UpdateFacts KURLWitness Schemes Origin Policy HTTPHeaders CrossOrigin.Request AccessControl Preflight Loader CacheSpec RequestFacts LoaderSpec
  LoaderFacts CrossOriginProps LoaderProps OriginWitness.

Definition no_ws (c : Z) : bool := false.
Definition same_text (s : list Z) : list Z := s.
Definition no_idn (s : list Z) : option (list Z) := None.
Definition in_order (m : HTTPHeaderMap) : list (list Z * list Z) := (map_to_list m).*2.

Lemma in_order_ok m : in_order m ≡ₚ (map_to_list m).*2.
Proof. reflexivity. Qed.

Definition document : SecurityOrigin := page_origin (canonical_url page).
Definition target : parts := mkparts (str "http") (str "me") (Some (str "pw")) (str "b.org") None (str "/d") None None.

(** A PUT with a header of its own, from a page of http://a.com. *)
Definition put : ResourceRequest :=
  setHTTPMethod (setHTTPHeaderField toASCIILower (ResourceRequest_url (canonical_url target)) (str "X-Test") (str "1")) (str "PUT").
Definition cross_options : ThreadableLoaderOptions :=
  mkOptions SendCallbacks SniffContent BufferData DoNotAllowStoredCredentials AskClientForCrossOriginCredentials DoSecurityCheck
    ConsiderPreflight UseAccessControl None.
Definition answered (response : ResourceResponse) : Answer :=
  mkAnswer (Some (mkResource (str "http://b.org/d") 7)) 7 None response (str "body").
Definition bare_target : KURL := canonical_url (without_credentials target).
Definition reply (headers : list (string * string)) : ResourceResponse :=
  CrossOrigin.Request.mkResponse bare_target 200
    (fold_left (fun m h => HTTPHeaders.set toASCIILower m (str h.1) (str h.2)) headers ∅).
Definition approving : ResourceResponse :=
  reply [("Access-Control-Allow-Origin"%string, "http://a.com"%string); ("Access-Control-Allow-Methods"%string, "GET, PUT"%string);
         ("Access-Control-Allow-Headers"%string, "x-test"%string); ("Access-Control-Max-Age"%string, "60"%string)].
Definition refusing : ResourceResponse := reply [("Access-Control-Allow-Origin"%string, "http://c.net"%string)].

Definition created : World * option DocumentThreadableLoader * list effect :=
  Loader.create 0 no_ws same_text toASCIILower in_order registry_new policy_new document 0 [answered refusing] ∅ false put cross_options.
Definition w0 : World := created.1.1.

Lemma target_parsed : parsed (url put).
Proof. exists target. split; [unfold target; prove_canonical|]. split; [unfold undotted, DotSpec.not_dot; by_eval|reflexivity]. Qed.

Lemma empty_earned : earned no_ws toASCIILower ∅.
Proof. intros name u item H. rewrite lookup_empty in H. discriminate H. Qed.

Lemma created_reaches :
  reaches 0 no_ws same_text toASCIILower no_idn in_order registry_new policy_new document created.2 [url put] false w0.
Proof.
  eapply (reach_create _ _ _ _ _ _ _ _ _ 0 [answered refusing] ∅ false put cross_options w0 (loader w0));
    [exact target_parsed|exact empty_earned|]. vm_compute. reflexivity.
Qed.

Lemma requests_approved_witness :
  makes 0 no_ws same_text toASCIILower no_idn in_order registry_new policy_new document created.2 (loader w0)
  /\ exists r options, RequestRawResource r options ∈ created.2 /\ httpMethod r = str "OPTIONS"
     /\ may_send no_ws toASCIILower in_order registry_new document (terms (loader w0)) r.
Proof.
  pose proof (makes_step _ _ _ _ _ _ _ _ _ _ _ _ _ created_reaches) as Hm. split; [exact Hm|].
  eexists _, _. split; [vm_compute; left|]. split; [reflexivity|].
  eapply (proj1 (requests_approved 0 no_ws same_text toASCIILower no_idn in_order registry_new policy_new document _ _ _ in_order_ok Hm)).
  vm_compute. left.
Defined.

(** A GET of the same page, which the server allows. *)
Definition simple_created : World * option DocumentThreadableLoader * list effect :=
  Loader.create 0 no_ws same_text toASCIILower in_order registry_new policy_new document 0 [answered approving] ∅ false
    (ResourceRequest_url (canonical_url target)) cross_options.
Definition received : World * list effect :=
  run_event 0 no_ws same_text toASCIILower no_idn in_order registry_new policy_new document (ResponseReceived 0 approving) simple_created.1.1.

Lemma received_reaches :
  reaches 0 no_ws same_text toASCIILower no_idn in_order registry_new policy_new document received.2 [canonical_url target] true received.1.
Proof.
  apply (reach_event _ _ _ _ _ _ _ _ _ simple_created.2 [canonical_url target] false simple_created.1.1 (ResponseReceived 0 approving)).
  - eapply (reach_create _ _ _ _ _ _ _ _ _ 0 [answered approving] ∅ false (ResourceRequest_url (canonical_url target)) cross_options
      _ (loader simple_created.1.1)); [exact target_parsed|exact empty_earned|]. vm_compute. reflexivity.
  - vm_compute. discriminate.
  - reflexivity.
Qed.



Definition waiting : ResourceRequest := default ResourceRequest_null (m_actualRequest (loader w0)).

Lemma waiting_approved : approves no_ws toASCIILower document (terms (loader w0)) approving waiting.
Proof.
  split; [vm_compute; reflexivity|].
  assert (readable toASCIILower approving) as Hr by (split; apply (bool_decide_unpack _); vm_compute; exact I).
  split; [exact Hr|].
  apply (CacheFacts.allows_lists no_ws toASCIILower in_order in_order_ok 0 DoNotAllowStoredCredentials approving); [exact Hr|].
  vm_compute. reflexivity.
Qed.

Lemma preflight_decides_witness :
  m_actualRequest (loader w0) = Some waiting /\ m_resource (loader w0) = Some (mkResource (str "http://b.org/d") 7)
  /\ approves no_ws toASCIILower document (terms (loader w0)) approving waiting
  /\ (run_event 0 no_ws same_text toASCIILower no_idn in_order registry_new policy_new document (ResponseReceived 0 approving) w0).2 = [].
Proof.
  assert (m_actualRequest (loader w0) = Some waiting) as Hact by (vm_compute; reflexivity).
  assert (m_resource (loader w0) = Some (mkResource (str "http://b.org/d") 7)) as Hres by (vm_compute; reflexivity).
  split; [exact Hact|]. split; [exact Hres|]. split; [exact waiting_approved|].
  exact (proj1 (proj1 (preflight_decides 0 no_ws same_text toASCIILower no_idn in_order registry_new policy_new document _ _ _ _ waiting
    (mkResource (str "http://b.org/d") 7) 0 approving 0 [] in_order_ok created_reaches Hact Hres) waiting_approved)).
Defined.

(** "Preflight data should be invisible to clients": after the refusal the
    request is gone, and data and end of the preflight go to the client.  In a
    synchronous load this is all one call. *)
Example refused_preflight_visible :
  (loadResourceSynchronously 0 no_ws same_text toASCIILower in_order registry_new policy_new document 0 [answered refusing] ∅ false put
     cross_options).2
  = [LoadResourceSynchronously
       (createAccessControlPreflightRequest 0 same_text toASCIILower in_order waiting document) DoNotAllowStoredCredentials;
     DidFail (m_string bare_target) false; DidReceiveData (str "body"); DidFinishLoading 7].
Proof. vm_compute. reflexivity. Qed.

(** A caller that allows every origin sends a URL with its credentials, and the
    assertions that they were removed fail. *)
Example credentials_sent :
  let allow_all := mkOptions SendCallbacks SniffContent BufferData DoNotAllowStoredCredentials AskClientForCrossOriginCredentials
    DoSecurityCheck ConsiderPreflight AllowCrossOriginRequests None in
  (Loader.create 0 no_ws same_text toASCIILower in_order registry_new policy_new document 0 [] ∅ false put allow_all).2
  = [AssertionFailed CredentialsRemoved; AssertionFailed CredentialsRemoved;
     RequestRawResource put (quiet false allow_all)].
Proof. vm_compute. reflexivity. Qed.

(** Results of preflights are kept under the name of the origin, and all unique
    origins share a name with file origins that separate files: one of them skips
    a preflight whose response the check refuses for it. *)
Example preflight_of_another :
  let file := enforceFilePathSeparation (page_origin (KURLParse.Assemble.parse 0 (str "file:///a.html") [])) in
  let response := reply [("Access-Control-Allow-Origin"%string, "null"%string); ("Access-Control-Allow-Methods"%string, "PUT"%string)] in
  let item := (Preflight.parse no_ws toASCIILower 0 (Item_new DoNotAllowStoredCredentials) response).1 in
  let cache := appendEntry ∅ (toString file) bare_target item in
  passesAccessControlCheck toASCIILower response DoNotAllowStoredCredentials file = true
  /\ passesAccessControlCheck toASCIILower response DoNotAllowStoredCredentials createUnique = false
  /\ (canSkipPreflight no_ws toASCIILower in_order 0 cache (toString createUnique) bare_target DoNotAllowStoredCredentials (str "PUT") ∅).2 = true.
Proof. vm_compute. done. Qed.

Lemma preflight_refines_witness :
  (forall m, in_order m ≡ₚ (map_to_list m).*2)
  /\ exists t given response, stands no_ws toASCIILower
       [Approved (str "http://a.com") bare_target 0 DoNotAllowStoredCredentials approving] (str "http://a.com") bare_target t given response
     /\ permits no_ws toASCIILower t given response 0 DoNotAllowStoredCredentials (str "PUT") ∅.
Proof.
  split; [exact in_order_ok|].
  apply (proj1 (preflight_refines no_ws toASCIILower in_order
    [Approved (str "http://a.com") bare_target 0 DoNotAllowStoredCredentials approving] 0 (str "http://a.com") bare_target
    DoNotAllowStoredCredentials (str "PUT") ∅ in_order_ok)).
  vm_compute. reflexivity.
Defined.
End LoaderWitness.
