(* ===== verification/CaseSearch.v ===== *)
(** * Searching without regard to case (wtf/text/StringImpl.cpp)

    [StringImpl::findIgnoringCase], [endsWith] with [caseSensitive] false, and
    [equalIgnoringCase] of characters and a C string.  [foldCase] is the case
    folding of one code unit.

    [find_folded] is the reference: the first position at or behind [index] where
    the folded texts agree. *)
From S2P Require Import Prelude WString HTTPCache.

Module Folded.
Section Folded.
Context (foldCase : Z -> Z).

Abbreviation equalIgnoringCase := (Cache.equalIgnoringCase foldCase).

(** The loop of [findIgnoringCase] from [i] on, with [delta - i] tests behind
    the first; [None] is [notFound]. *)
Fixpoint ignoring_loop (fuel : nat) (search mtch : list Z) (i delta : nat) : option nat :=
  if equalIgnoringCase (take (length mtch) (drop i search)) mtch then Some i
  else if (i =? delta)%nat then None
  else match fuel with O => None | S fuel => ignoring_loop fuel search mtch (S i) delta end.

Definition findIgnoringCase (s mtch : list Z) (index : nat) : option nat :=
  if (length mtch =? 0)%nat then Some (Nat.min index (length s))
  else if (length s <? index)%nat then None
  else if (length s - index <? length mtch)%nat then None
  else
    let delta := (length s - index - length mtch)%nat in
    match ignoring_loop delta (drop index s) mtch 0 delta with
    | None => None
    | Some i => Some (index + i)%nat
    end.

(** [endsWith(matchString, false)] *)
Definition endsWithIgnoringCase (s mtch : list Z) : bool :=
  if (length mtch <=? length s)%nat then
    let start := (length s - length mtch)%nat in
    bool_decide (findIgnoringCase s mtch start = Some start)
  else false.

(** [equalIgnoringCase(characters, literal, length)], where the literal is a C
    string and [length] the number of the characters; reading behind the NUL of
    the literal is [None]. *)
Fixpoint equal_literal (a b : list Z) : option bool :=
  match a with
  | [] => Some true
  | c :: a' =>
      match b with
      | [] => None
      | bc :: b' => if foldCase c =? foldCase bc then equal_literal a' b' else Some false
      end
  end.
End Folded.
End Folded.

Module FoldedFacts.
Import Folded.

Section Facts.
Context (foldCase : Z -> Z).

Abbreviation folded := (map foldCase).

(** The folded [m] is found in the folded [s] at [p]. *)
Definition folded_at (s m : list Z) (p : nat) : Prop := take (length m) (drop p (folded s)) = folded m.

#[local] Instance folded_at_dec s m p : Decision (folded_at s m p).
Proof. unfold folded_at. apply _. Defined.

Lemma equal_at s m p : Cache.equalIgnoringCase foldCase (take (length m) (drop p s)) m = bool_decide (folded_at s m p).
Proof. unfold Cache.equalIgnoringCase, folded_at. by rewrite <- firstn_map, <- skipn_map. Qed.

Lemma ignoring_loop_spec fuel s m i delta : (delta - i <= fuel)%nat -> (i <= delta)%nat ->
  match ignoring_loop foldCase fuel s m i delta with
  | Some p => (i <= p <= delta)%nat /\ folded_at s m p /\ (forall q, (i <= q < p)%nat -> ~ folded_at s m q)
  | None => forall q, (i <= q <= delta)%nat -> ~ folded_at s m q
  end.
Proof.
  revert i. induction fuel as [|fuel IH]; intros i Hf Hi; cbn [ignoring_loop]; rewrite equal_at;
    (destruct (bool_decide_reflect (folded_at s m i)) as [Hat|Hat]; [split; [lia|split; [done|lia]]|]);
    destruct (Nat.eqb_spec i delta) as [->|Hne].
  1, 3: intros q Hq; by replace q with delta by lia.
  - lia.
  - specialize (IH (S i) ltac:(lia) ltac:(lia)). destruct (ignoring_loop _ _ _ _ _ _) as [p|].
    + destruct IH as (H1 & H2 & H3). split; [lia|split; [done|]]. intros q Hq.
      destruct (decide (q = i)) as [->|]; [done|]. apply H3. lia.
    + intros q Hq. destruct (decide (q = i)) as [->|]; [done|]. apply IH. lia.
Qed.

Lemma folded_at_drop s m i p : folded_at (drop i s) m p <-> folded_at s m (i + p).
Proof. unfold folded_at. by rewrite <- skipn_map, drop_drop. Qed.

(** What is found is the first folded occurrence behind [index]. *)
Lemma findIgnoringCase_spec s m index : m <> [] ->
  match findIgnoringCase foldCase s m index with
  | Some p => (index <= p)%nat /\ (p + length m <= length s)%nat /\ folded_at s m p /\ (forall q, (index <= q < p)%nat -> ~ folded_at s m q)
  | None => forall q, (index <= q)%nat -> (q + length m <= length s)%nat -> ~ folded_at s m q
  end.
Proof.
  intros Hm. unfold findIgnoringCase. destruct (Nat.eqb_spec (length m) 0) as [H0|_]; [by apply length_zero_iff_nil in H0|].
  destruct (Nat.ltb_spec (length s) index); [intros q; lia|].
  destruct (Nat.ltb_spec (length s - index) (length m)); [intros q; lia|]. cbv zeta.
  set (delta := (length s - index - length m)%nat).
  pose proof (ignoring_loop_spec delta (drop index s) m 0 delta ltac:(lia) ltac:(lia)) as Hl.
  destruct (ignoring_loop _ _ _ _ _ _) as [p|].
  - destruct Hl as (H1 & H2 & H3). split; [lia|split; [lia|]]. split; [by apply folded_at_drop|].
    intros q Hq. replace q with (index + (q - index))%nat by lia. rewrite <- folded_at_drop. apply H3. lia.
  - intros q Hq Hq'. replace q with (index + (q - index))%nat by lia. rewrite <- folded_at_drop. apply Hl. lia.
Qed.

Lemma endsWithIgnoringCase_spec s m : m <> [] ->
  endsWithIgnoringCase foldCase s m = true <-> exists pre, folded s = pre ++ folded m.
Proof.
  intros Hm. unfold endsWithIgnoringCase.
  destruct (Nat.leb_spec (length m) (length s)) as [Hl|Hl].
  2: { split; [done|]. intros [pre H]. apply (f_equal length) in H. rewrite length_app, !length_map in H. lia. }
  pose proof (findIgnoringCase_spec s m (length s - length m) Hm) as Hf. rewrite bool_decide_eq_true.
  split.
  - intros E. rewrite E in Hf. destruct Hf as (_ & _ & Hat & _). unfold folded_at in Hat.
    exists (take (length s - length m) (folded s)).
    rewrite take_ge in Hat by (rewrite length_drop, length_map; lia). by rewrite <- Hat, take_drop.
  - intros [pre H]. assert (length pre = (length s - length m)%nat) as Hp.
    { apply (f_equal length) in H. rewrite length_app, !length_map in H. lia. }
    assert (folded_at s m (length s - length m)) as Hat.
    { unfold folded_at. rewrite H, <- Hp, drop_app_length. apply take_ge. by rewrite length_map. }
    destruct (findIgnoringCase _ _ _ _) as [p|]; [|exfalso; by apply (Hf (length s - length m)%nat); [lia..|]].
    destruct Hf as (H1 & H2 & _). f_equal. lia.
Qed.

(** A literal is compared as far as the characters go: a text is equal to all it
    is a prefix of. *)
Lemma equal_literal_spec a b : Forall (fun c => foldCase c <> foldCase 0) a -> Forall (fun c => c <> 0) b ->
  equal_literal foldCase a (b ++ [0]) = Some (bool_decide (folded a `prefix_of` folded b)).
Proof.
  intros Ha Hb. revert a Ha. induction b as [|y b IH]; intros [|x a] Ha; cbn [equal_literal app].
  1, 3: f_equal; symmetry; apply bool_decide_eq_true; apply prefix_nil.
  - apply Forall_cons_iff in Ha as [Hx _]. rewrite (proj2 (Z.eqb_neq _ _)) by done.
    reflexivity.
  - apply Forall_cons_iff in Ha as [Hx Ha]. apply Forall_cons_iff in Hb as [Hy Hb]. cbn [map app].
    destruct (Z.eqb_spec (foldCase x) (foldCase y)) as [E|E].
    + rewrite IH by done. f_equal. apply bool_decide_ext. rewrite E. split; [apply prefix_cons|apply prefix_cons_inv_2].
    + f_equal. symmetry. apply bool_decide_eq_false. intros [post H]. cbn in H; congruence.
Qed.
End Facts.
End FoldedFacts.
