(* ===== verification/ContentSecurityPolicy.v ===== *)
(** * Content security policy (WebCore/page/ContentSecurityPolicy.cpp and the
    sandbox flags of WebCore/dom/SecurityContext.cpp)

    [Cursor] are the scanning functions, [SourceList] the classes [CSPSource] and
    [CSPSourceList], [Sandbox] the flags, [Directives] the classes [CSPDirective]
    and [CSPDirectiveList], and [Csp] the class [ContentSecurityPolicy].

    A pair of pointers [position] and [end] is the list of the characters between
    them.  A failing assertion and a read behind a literal are [None].  What an
    operation does to the document and the console is a list of effects.  The URL
    of a document is not null; null strings are empty.

    Parameters: case folding, the Unicode direction table and, in the context,
    the completion of URLs. *)
From S2P Require Import Prelude WString KURLParse KURL HTTPCache SecurityOrigin CaseSearch.
Import KURLParse.Assemble.
#[local] Open Scope Z_scope.

Module Cursor.

Definition isASCIIAlphanumeric (c : Z) : bool := isASCIIDigit c || isASCIIAlpha c.

Definition isDirectiveNameCharacter (c : Z) : bool := isASCIIAlphanumeric c || (c =? 45).
Definition isDirectiveValueCharacter (c : Z) : bool := isASCIISpace c || ((0x21 <=? c) && (c <=? 0x7e)).
Definition isSourceCharacter (c : Z) : bool := negb (isASCIISpace c).
Definition isHostCharacter (c : Z) : bool := isASCIIAlphanumeric c || (c =? 45).
Definition isSchemeContinuationCharacter (c : Z) : bool :=
  isASCIIAlphanumeric c || (c =? 43) || (c =? 45) || (c =? 46).
Definition isNotASCIISpace (c : Z) : bool := negb (isASCIISpace c).

(** [None] is the answer false, with the position unmoved. *)
Definition skipExactly (position : list Z) (delimiter : Z) : option (list Z) :=
  match position with
  | c :: rest => if c =? delimiter then Some rest else None
  | [] => None
  end.

Definition skipExactly_class (characterPredicate : Z -> bool) (position : list Z) : option (list Z) :=
  match position with
  | c :: rest => if characterPredicate c then Some rest else None
  | [] => None
  end.

(** The characters passed and the position reached. *)
Definition skipUtil (position : list Z) (delimiter : Z) : list Z * list Z :=
  let n := span_len (fun c => negb (c =? delimiter)) position in (take n position, drop n position).

Definition skipWhile (characterPredicate : Z -> bool) (position : list Z) : list Z * list Z :=
  let n := span_len characterPredicate position in (take n position, drop n position).

(** [ASSERT] *)
Definition assert_that (b : bool) : option unit := if b then Some tt else None.

Definition isEmpty (s : list Z) : bool := (length s =? 0)%nat.
End Cursor.

(** * Source lists *)
Module SourceList.
Import Cursor Folded.

Record CSPSource := mkSource {
  m_scheme : list Z;
  m_host : list Z;
  m_port : Z;
  m_hostHasWildcard : bool;
  m_portHasWildcard : bool;
}.

Record CSPSourceList := mkSourceList {
  m_list : list CSPSource;
  m_allowStar : bool;
  m_allowInline : bool;
  m_allowEval : bool;
}.

Definition CSPSourceList_new : CSPSourceList := mkSourceList [] false false false.

(** The variables [parseSource] fills in. *)
Record Parsed := mkParsed {
  p_scheme : list Z;
  p_host : list Z;
  p_port : Z;
  p_hostHasWildcard : bool;
  p_portHasWildcard : bool;
}.

Definition Parsed_new : Parsed := mkParsed [] [] 0 false false.

Section SourceList.
Context (ws : Z -> bool) (foldCase : Z -> Z).

Abbreviation equalIgnoringCase := (Cache.equalIgnoringCase foldCase).

(** ** One source *)

Definition schemeMatches (s : CSPSource) (url : KURL) : bool := equalIgnoringCase (Access.protocol url) (m_scheme s).

Definition hostMatches (s : CSPSource) (url : KURL) : bool :=
  let host := Access.host url in
  if equalIgnoringCase host (m_host s) then true
  else m_hostHasWildcard s && endsWithIgnoringCase foldCase host (str "." ++ m_host s).

Definition portMatches (s : CSPSource) (url : KURL) : bool :=
  if m_portHasWildcard s then true
  else
    let port := Access.port ws url in
    if port =? m_port s then true
    else if port =? 0 then Access.isDefaultPortForProtocol (m_port s) (m_scheme s)
    else if m_port s =? 0 then Access.isDefaultPortForProtocol port (m_scheme s)
    else false.

Definition isSchemeOnly (s : CSPSource) : bool := isEmpty (m_host s).

Definition source_matches (s : CSPSource) (url : KURL) : bool :=
  if negb (schemeMatches s url) then false
  else if isSchemeOnly s then true
  else hostMatches s url && portMatches s url.

(** ** The parser of sources *)

Definition parseScheme (range : list Z) (out : Parsed) : option (Parsed * bool) :=
  _ ← assert_that (isEmpty (p_scheme out));
  if isEmpty range then Some (out, false)
  else
    match skipExactly_class isASCIIAlpha range with
    | None => Some (out, false)
    | Some position =>
        let '(_, position) := skipWhile isSchemeContinuationCharacter position in
        if negb (isEmpty position) then Some (out, false)
        else Some (mkParsed range (p_host out) (p_port out) (p_hostHasWildcard out) (p_portHasWildcard out), true)
    end.

(** The loop over the labels: whether the whole text is labels. *)
Fixpoint host_loop (fuel : nat) (position : list Z) : bool :=
  match position with
  | [] => true
  | _ =>
      match fuel with
      | O => false
      | S fuel =>
          match skipExactly_class isHostCharacter position with
          | None => false
          | Some position =>
              let '(_, position) := skipWhile isHostCharacter position in
              match position with
              | [] => true
              | _ => match skipExactly position 46 with None => false | Some position => host_loop fuel position end
              end
          end
      end
  end.

Definition set_host (out : Parsed) (host : list Z) : Parsed :=
  mkParsed (p_scheme out) host (p_port out) (p_hostHasWildcard out) (p_portHasWildcard out).

Definition host_labels (hostBegin : list Z) (out : Parsed) : Parsed * bool :=
  if host_loop (length hostBegin) hostBegin then (set_host out hostBegin, true) else (out, false).

Definition parseHost (range : list Z) (out : Parsed) : option (Parsed * bool) :=
  _ ← assert_that (isEmpty (p_host out));
  _ ← assert_that (negb (p_hostHasWildcard out));
  if isEmpty range then Some (out, false)
  else
    match skipExactly range 42 with
    | Some position =>
        let out := mkParsed (p_scheme out) (p_host out) (p_port out) true (p_portHasWildcard out) in
        if isEmpty position then Some (out, true)
        else match skipExactly position 46 with
             | None => Some (out, false)
             | Some position => Some (host_labels position out)
             end
    | None => Some (host_labels range out)
    end.

Definition parsePort (range : list Z) (out : Parsed) : option (Parsed * bool) :=
  _ ← assert_that (p_port out =? 0);
  _ ← assert_that (negb (p_portHasWildcard out));
  let put port wildcard := mkParsed (p_scheme out) (p_host out) port (p_hostHasWildcard out) wildcard in
  if isEmpty range then Some (out, false)
  else if bool_decide (range = str "*") then Some (put 0 true, true)
  else
    let '(_, position) := skipWhile isASCIIDigit range in
    if negb (isEmpty position) then Some (out, false)
    else let '(port, ok) := Str.charactersToIntStrict ws range in Some (put port false, ok).

(** What follows the scheme, from [beginHost]: [passed] are the characters
    between it and [position]. *)
Definition parse_host_port (passed position : list Z) (out : Parsed) : option (Parsed * bool) :=
  if isEmpty passed then Some (out, false)
  else
    '(out, ok) ← parseHost passed out;
    if negb (ok : bool) then Some (out, false)
    else if isEmpty position then
      Some (mkParsed (p_scheme out) (p_host out) 0 (p_hostHasWildcard out) (p_portHasWildcard out), true)
    else
      match skipExactly position 58 with
      | None => None
      | Some position => parsePort position out
      end.

(** The URLs and the keywords are told apart; [range] is not empty. *)
Definition parse_url_source (range : list Z) (out : Parsed) : option (Parsed * bool) :=
  let '(passed, position) := skipUtil range 58 in
  match position with
  | [] => parseHost passed out
  | [c] => _ ← assert_that (c =? 58); parseScheme passed out
  | _ :: c :: _ =>
      if c =? 47 then
        '(out, ok) ← parseScheme passed out;
        if negb (ok : bool) then Some (out, false)
        else
          match position ← skipExactly position 58; position ← skipExactly position 47; skipExactly position 47 with
          | None => Some (out, false)
          | Some beginHost => let '(passed, position) := skipUtil beginHost 58 in parse_host_port passed position out
          end
      else parse_host_port passed position out
  end.

(** A C string with its NUL. *)
Definition literal (s : string) : list Z := str s ++ [0].

Definition addSourceSelf (origin : Origin.SecurityOrigin) (l : CSPSourceList) : CSPSourceList :=
  mkSourceList (m_list l ++ [mkSource (Origin.m_protocol origin) (Origin.m_host origin) (Origin.m_port origin) false false])
    (m_allowStar l) (m_allowInline l) (m_allowEval l).
Definition addSourceStar (l : CSPSourceList) : CSPSourceList :=
  mkSourceList (m_list l) true (m_allowInline l) (m_allowEval l).
Definition addSourceUnsafeInline (l : CSPSourceList) : CSPSourceList :=
  mkSourceList (m_list l) (m_allowStar l) true (m_allowEval l).
Definition addSourceUnsafeEval (l : CSPSourceList) : CSPSourceList :=
  mkSourceList (m_list l) (m_allowStar l) (m_allowInline l) true.

Definition parseSource (origin : Origin.SecurityOrigin) (range : list Z) (l : CSPSourceList) (out : Parsed)
    : option (CSPSourceList * Parsed * bool) :=
  if isEmpty range then Some (l, out, false)
  else if bool_decide (range = str "*") then Some (addSourceStar l, out, false)
  else
    self ← equal_literal foldCase range (literal "'self'");
    if self : bool then Some (addSourceSelf origin l, out, false)
    else
      inline ← equal_literal foldCase range (literal "'unsafe-inline'");
      if inline : bool then Some (addSourceUnsafeInline l, out, false)
      else
        eval ← equal_literal foldCase range (literal "'unsafe-eval'");
        if eval : bool then Some (addSourceUnsafeEval l, out, false)
        else '(out, ok) ← parse_url_source range out; Some (l, out, ok).

(** ** The list *)

Definition append_source (origin : Origin.SecurityOrigin) (l : CSPSourceList) (out : Parsed) : CSPSourceList :=
  let scheme := if isEmpty (p_scheme out) then Origin.m_protocol origin else p_scheme out in
  mkSourceList (m_list l ++ [mkSource scheme (p_host out) (p_port out) (p_hostHasWildcard out) (p_portHasWildcard out)])
    (m_allowStar l) (m_allowInline l) (m_allowEval l).

Fixpoint parse_loop (fuel : nat) (origin : Origin.SecurityOrigin) (isFirstSourceInList : bool) (position : list Z)
    (l : CSPSourceList) : option CSPSourceList :=
  match position with
  | [] => Some l
  | _ =>
      match fuel with
      | O => None
      | S fuel =>
          let '(_, beginSource) := skipWhile isASCIISpace position in
          let '(source, position) := skipWhile isSourceCharacter beginSource in
          none ← (if isFirstSourceInList then equal_literal foldCase source (literal "'none'") else Some false);
          if none : bool then Some l
          else
            '(l, out, ok) ← parseSource origin source l Parsed_new;
            let l := if ok : bool then append_source origin l out else l in
            _ ← assert_that (match position with [] => true | c :: _ => isASCIISpace c end);
            parse_loop fuel origin false position l
      end
  end.

Definition parse_list (origin : Origin.SecurityOrigin) (value : list Z) : option CSPSourceList :=
  parse_loop (length value) origin true value CSPSourceList_new.

Definition list_matches (l : CSPSourceList) (url : KURL) : bool :=
  if m_allowStar l then true else existsb (fun s => source_matches s url) (m_list l).
End SourceList.
End SourceList.

(** * Sandbox flags *)
Module Sandbox.
Section Sandbox.
Context (foldCase : Z -> Z).

(** A flag is its value as a 32-bit [int]. *)
Definition SandboxNone : Z := 0.
Definition SandboxOrigin : Z := 4.
Definition SandboxForms : Z := 8.
Definition SandboxScripts : Z := 16.
Definition SandboxTopNavigation : Z := 32.
Definition SandboxPopups : Z := 64.
Definition SandboxAll : Z := -1.

Definition isHTMLSpace (c : Z) : bool := (c =? 32) || (c =? 10) || (c =? 9) || (c =? 13) || (c =? 12).

Definition without (flags flag : Z) : Z := Z.land flags (Z.lnot flag).

Definition sandbox_token (flags : Z) (token : list Z) : Z :=
  if Cache.equalIgnoringCase foldCase token (str "allow-same-origin") then without flags SandboxOrigin
  else if Cache.equalIgnoringCase foldCase token (str "allow-forms") then without flags SandboxForms
  else if Cache.equalIgnoringCase foldCase token (str "allow-scripts") then without flags SandboxScripts
  else if Cache.equalIgnoringCase foldCase token (str "allow-top-navigation") then without flags SandboxTopNavigation
  else if Cache.equalIgnoringCase foldCase token (str "allow-popups") then without flags SandboxPopups
  else flags.

(** [start] is where the list begins; a token has its first character and all
    that follow up to a space. *)
Fixpoint sandbox_loop (fuel : nat) (flags : Z) (start : list Z) : Z :=
  match fuel with
  | O => flags
  | S fuel =>
      match drop (span_len isHTMLSpace start) start with
      | [] => flags
      | c :: rest =>
          let n := span_len (fun c => negb (isHTMLSpace c)) rest in
          sandbox_loop fuel (sandbox_token flags (c :: take n rest)) (drop (S n) rest)
      end
  end.

Definition parseSandboxPolicy (policy : list Z) : Z := sandbox_loop (S (length policy)) SandboxAll policy.

Definition enforceSandboxFlags (m_sandboxFlags mask : Z) : Z := Z.lor m_sandboxFlags mask.
Definition isSandboxed (m_sandboxFlags mask : Z) : bool := negb (Z.land m_sandboxFlags mask =? 0).
End Sandbox.
End Sandbox.

(** * Directives *)
Module Directives.
Import Cursor SourceList.

(** What the policy asks of the script execution context it is made for. *)
Record ScriptExecutionContext := mkContext {
  securityOrigin : Origin.SecurityOrigin;
  context_url : KURL;
  completeURL : list Z -> KURL;
  (** a document with a frame, which can send reports *)
  isDocument : bool;
  has_frame : bool;
}.

Inductive Effect :=
  | DisableEval
  | EnforceSandboxFlags (flags : Z)
  | ConsoleMessage (message : list Z)
  (** [PingLoader::reportContentSecurityPolicyViolation] with the document's URL
      and, unless empty, the directive's text *)
  | ReportViolation (reportURL documentURL : KURL) (violatedDirective : option (list Z)).

Record CSPDirective := mkDirective {
  m_sourceList : CSPSourceList;
  m_text : list Z;
  m_selfURL : KURL;
}.

Inductive HeaderType := ReportOnly | EnforcePolicy.

Record CSPDirectiveList := mkDirectiveList {
  m_header : list Z;
  m_reportOnly : bool;
  m_haveSandboxPolicy : bool;
  m_defaultSrc : option CSPDirective;
  m_scriptSrc : option CSPDirective;
  m_objectSrc : option CSPDirective;
  m_frameSrc : option CSPDirective;
  m_imgSrc : option CSPDirective;
  m_styleSrc : option CSPDirective;
  m_fontSrc : option CSPDirective;
  m_mediaSrc : option CSPDirective;
  m_connectSrc : option CSPDirective;
  m_reportURLs : list KURL;
}.

Definition CSPDirectiveList_new : CSPDirectiveList :=
  mkDirectiveList [] false false None None None None None None None None None [].

(** The nine lists of sources by name. *)
Inductive Source := DefaultSrc | ScriptSrc | ObjectSrc | FrameSrc | ImgSrc | StyleSrc | FontSrc | MediaSrc | ConnectSrc.

#[export] Instance Source_eq_dec : EqDecision Source.
Proof. solve_decision. Defined.

Definition directive_of (p : CSPDirectiveList) (s : Source) : option CSPDirective :=
  match s with
  | DefaultSrc => m_defaultSrc p | ScriptSrc => m_scriptSrc p | ObjectSrc => m_objectSrc p
  | FrameSrc => m_frameSrc p | ImgSrc => m_imgSrc p | StyleSrc => m_styleSrc p
  | FontSrc => m_fontSrc p | MediaSrc => m_mediaSrc p | ConnectSrc => m_connectSrc p
  end.

Definition set_directive (p : CSPDirectiveList) (s : Source) (d : CSPDirective) : CSPDirectiveList :=
  let pick t old := match s, t with
    | DefaultSrc, DefaultSrc | ScriptSrc, ScriptSrc | ObjectSrc, ObjectSrc | FrameSrc, FrameSrc | ImgSrc, ImgSrc
    | StyleSrc, StyleSrc | FontSrc, FontSrc | MediaSrc, MediaSrc | ConnectSrc, ConnectSrc => Some d
    | _, _ => old
    end in
  mkDirectiveList (m_header p) (m_reportOnly p) (m_haveSandboxPolicy p)
    (pick DefaultSrc (m_defaultSrc p)) (pick ScriptSrc (m_scriptSrc p)) (pick ObjectSrc (m_objectSrc p))
    (pick FrameSrc (m_frameSrc p)) (pick ImgSrc (m_imgSrc p)) (pick StyleSrc (m_styleSrc p))
    (pick FontSrc (m_fontSrc p)) (pick MediaSrc (m_mediaSrc p)) (pick ConnectSrc (m_connectSrc p)) (m_reportURLs p).

Definition set_header (p : CSPDirectiveList) (header : list Z) (reportOnly : bool) : CSPDirectiveList :=
  mkDirectiveList header reportOnly (m_haveSandboxPolicy p) (m_defaultSrc p) (m_scriptSrc p) (m_objectSrc p)
    (m_frameSrc p) (m_imgSrc p) (m_styleSrc p) (m_fontSrc p) (m_mediaSrc p) (m_connectSrc p) (m_reportURLs p).

Definition set_sandbox (p : CSPDirectiveList) (have : bool) (urls : list KURL) : CSPDirectiveList :=
  mkDirectiveList (m_header p) (m_reportOnly p) have (m_defaultSrc p) (m_scriptSrc p) (m_objectSrc p)
    (m_frameSrc p) (m_imgSrc p) (m_styleSrc p) (m_fontSrc p) (m_mediaSrc p) (m_connectSrc p) urls.

Section Directives.
Context (ws : Z -> bool) (foldCase : Z -> Z) (context : ScriptExecutionContext).

(** ** One directive *)

Definition createCSPDirective (name value : list Z) : option CSPDirective :=
  l ← parse_list ws foldCase (securityOrigin context) value;
  Some (mkDirective l (name ++ [32] ++ value) (context_url context)).

Definition allows (d : CSPDirective) (url : KURL) : bool :=
  list_matches ws foldCase (m_sourceList d) (if isEmpty (m_string url) then m_selfURL d else url).
Definition allowInline (d : CSPDirective) : bool := m_allowInline (m_sourceList d).
Definition directive_allowEval (d : CSPDirective) : bool := m_allowEval (m_sourceList d).

(** ** The parser *)

(** [None]: no directive. *)
Definition parseDirective (range : list Z) : option (list Z * list Z) :=
  let '(_, nameBegin) := skipWhile isASCIISpace range in
  let '(name, position) := skipWhile isDirectiveNameCharacter nameBegin in
  if isEmpty name then None
  else
    match position with
    | [] => Some (name, [])
    | _ =>
        match skipExactly_class isASCIISpace position with
        | None => None
        | Some position =>
            let '(_, valueBegin) := skipWhile isASCIISpace position in
            let '(value, position) := skipWhile isDirectiveValueCharacter valueBegin in
            if negb (isEmpty position) then None else Some (name, value)
        end
    end.

Fixpoint report_loop (fuel : nat) (position : list Z) (urls : list KURL) : list KURL :=
  match position with
  | [] => urls
  | _ =>
      match fuel with
      | O => urls
      | S fuel =>
          let '(_, urlBegin) := skipWhile isASCIISpace position in
          let '(url, position) := skipWhile isNotASCIISpace urlBegin in
          report_loop fuel position (if negb (isEmpty url) then urls ++ [completeURL context url] else urls)
      end
  end.

Definition parseReportURI (p : CSPDirectiveList) (value : list Z) : CSPDirectiveList :=
  set_sandbox p (m_haveSandboxPolicy p) (report_loop (length value) value (m_reportURLs p)).

Definition applySandboxPolicy (p : CSPDirectiveList) (sandboxPolicy : list Z) : option (CSPDirectiveList * list Effect) :=
  _ ← assert_that (negb (m_haveSandboxPolicy p));
  Some (set_sandbox p true (m_reportURLs p), [EnforceSandboxFlags (Sandbox.parseSandboxPolicy foldCase sandboxPolicy)]).

Definition logUnrecognizedDirective (name : list Z) : list Effect :=
  [ConsoleMessage (str "Unrecognized Content-Security-Policy directive '" ++ name ++ str "'." ++ [10])].

(** The names in the order of the tests. *)
Definition source_names : list (Source * list Z) :=
  [(DefaultSrc, str "default-src"); (ScriptSrc, str "script-src"); (ObjectSrc, str "object-src");
   (FrameSrc, str "frame-src"); (ImgSrc, str "img-src"); (StyleSrc, str "style-src"); (FontSrc, str "font-src");
   (MediaSrc, str "media-src"); (ConnectSrc, str "connect-src")].

Fixpoint first_source (p : CSPDirectiveList) (name : list Z) (l : list (Source * list Z)) : option Source :=
  match l with
  | [] => None
  | (s, n) :: l =>
      if bool_decide (directive_of p s = None) && Cache.equalIgnoringCase foldCase name n then Some s else first_source p name l
  end.

Definition addDirective (p : CSPDirectiveList) (name value : list Z) : option (CSPDirectiveList * list Effect) :=
  _ ← assert_that (negb (isEmpty name));
  match first_source p name source_names with
  | Some s => d ← createCSPDirective name value; Some (set_directive p s d, [])
  | None =>
      if negb (m_haveSandboxPolicy p) && Cache.equalIgnoringCase foldCase name (str "sandbox") then applySandboxPolicy p value
      else if (length (m_reportURLs p) =? 0)%nat && Cache.equalIgnoringCase foldCase name (str "report-uri") then
        Some (parseReportURI p value, [])
      else Some (p, logUnrecognizedDirective name)
  end.

Fixpoint parse_policy (fuel : nat) (position : list Z) (p : CSPDirectiveList) : option (CSPDirectiveList * list Effect) :=
  match position with
  | [] => Some (p, [])
  | _ =>
      match fuel with
      | O => None
      | S fuel =>
          let '(directive, position) := skipUtil position 59 in
          '(p, effects) ←
            match parseDirective directive with
            | Some (name, value) => _ ← assert_that (negb (isEmpty name)); addDirective p name value
            | None => Some (p, [])
            end;
          _ ← assert_that (match position with [] => true | c :: _ => c =? 59 end);
          '(p, later) ← parse_policy fuel (default position (skipExactly position 59)) p;
          Some (p, effects ++ later)
      end
  end.

Definition parse (p : CSPDirectiveList) (policy : list Z) : option (CSPDirectiveList * list Effect) :=
  if isEmpty policy then Some (p, []) else parse_policy (length policy) policy p.

(** ** Questions *)

Definition checkEval (directive : option CSPDirective) : bool :=
  match directive with None => true | Some d => directive_allowEval d end.

Definition operativeDirective (p : CSPDirectiveList) (directive : option CSPDirective) : option CSPDirective :=
  match directive with Some d => Some d | None => m_defaultSrc p end.

Definition create (header : list Z) (type : HeaderType) : option (CSPDirectiveList * list Effect) :=
  '(policy, effects) ← parse CSPDirectiveList_new header;
  match type with
  | ReportOnly => Some (set_header policy header true, effects)
  | EnforcePolicy =>
      _ ← assert_that (negb (m_reportOnly policy));
      let policy := set_header policy header (m_reportOnly policy) in
      Some (policy, effects ++ if negb (checkEval (operativeDirective policy (m_scriptSrc policy))) then [DisableEval] else [])
  end.

Definition list_headerType (p : CSPDirectiveList) : HeaderType := if m_reportOnly p then ReportOnly else EnforcePolicy.

Definition reportViolation (p : CSPDirectiveList) (directiveText consoleMessage : list Z) : list Effect :=
  let message := if m_reportOnly p then str "[Report Only] " ++ consoleMessage else consoleMessage in
  ConsoleMessage message ::
  if (length (m_reportURLs p) =? 0)%nat then []
  else if negb (isDocument context) then []
  else if negb (has_frame context) then []
  else map (fun u => ReportViolation u (context_url context) (if isEmpty directiveText then None else Some directiveText))
         (m_reportURLs p).

Definition denyIfEnforcingPolicy (p : CSPDirectiveList) : bool := m_reportOnly p.

Definition checkInlineAndReportViolation (p : CSPDirectiveList) (directive : option CSPDirective) (consoleMessage : list Z)
    : bool * list Effect :=
  match directive with
  | Some d => if allowInline d then (true, []) else (denyIfEnforcingPolicy p, reportViolation p (m_text d) consoleMessage)
  | None => (true, [])
  end.

Definition checkEvalAndReportViolation (p : CSPDirectiveList) (directive : option CSPDirective) (consoleMessage : list Z)
    : bool * list Effect :=
  if checkEval directive then (true, [])
  else (denyIfEnforcingPolicy p, reportViolation p (match directive with Some d => m_text d | None => [] end) consoleMessage).

Definition checkSourceAndReportViolation (p : CSPDirectiveList) (directive : option CSPDirective) (url : KURL) (type : list Z)
    : bool * list Effect :=
  match directive with
  | Some d =>
      if allows d url then (true, [])
      else (denyIfEnforcingPolicy p,
            reportViolation p (m_text d)
              (str "Refused to load " ++ type ++ str " from '" ++ m_string url
               ++ str "' because of Content-Security-Policy." ++ [10]))
  | None => (true, [])
  end.

Definition refused (what : string) : list Z := str what ++ str " because of Content-Security-Policy." ++ [10].

Definition list_allowJavaScriptURLs (p : CSPDirectiveList) :=
  checkInlineAndReportViolation p (operativeDirective p (m_scriptSrc p)) (refused "Refused to execute JavaScript URL").
Definition list_allowInlineEventHandlers (p : CSPDirectiveList) :=
  checkInlineAndReportViolation p (operativeDirective p (m_scriptSrc p)) (refused "Refused to execute inline event handler").
Definition list_allowInlineScript (p : CSPDirectiveList) :=
  checkInlineAndReportViolation p (operativeDirective p (m_scriptSrc p)) (refused "Refused to execute inline script").
Definition list_allowInlineStyle (p : CSPDirectiveList) :=
  checkInlineAndReportViolation p (operativeDirective p (m_styleSrc p)) (refused "Refused to apply inline style").
Definition list_allowEval (p : CSPDirectiveList) :=
  checkEvalAndReportViolation p (operativeDirective p (m_scriptSrc p)) (refused "Refused to evaluate script").
Definition list_allowScriptFromSource (p : CSPDirectiveList) (url : KURL) :=
  checkSourceAndReportViolation p (operativeDirective p (m_scriptSrc p)) url (str "script").
Definition list_allowObjectFromSource (p : CSPDirectiveList) (url : KURL) :=
  if Access.protocolIs url (str "about") then (true, [])
  else checkSourceAndReportViolation p (operativeDirective p (m_objectSrc p)) url (str "object").
Definition list_allowChildFrameFromSource (p : CSPDirectiveList) (url : KURL) :=
  if Access.protocolIs url (str "about") then (true, [])
  else checkSourceAndReportViolation p (operativeDirective p (m_frameSrc p)) url (str "frame").
Definition list_allowImageFromSource (p : CSPDirectiveList) (url : KURL) :=
  checkSourceAndReportViolation p (operativeDirective p (m_imgSrc p)) url (str "image").
Definition list_allowStyleFromSource (p : CSPDirectiveList) (url : KURL) :=
  checkSourceAndReportViolation p (operativeDirective p (m_styleSrc p)) url (str "style").
Definition list_allowFontFromSource (p : CSPDirectiveList) (url : KURL) :=
  checkSourceAndReportViolation p (operativeDirective p (m_fontSrc p)) url (str "font").
Definition list_allowMediaFromSource (p : CSPDirectiveList) (url : KURL) :=
  checkSourceAndReportViolation p (operativeDirective p (m_mediaSrc p)) url (str "media").
Definition list_allowConnectFromSource (p : CSPDirectiveList) (url : KURL) :=
  checkSourceAndReportViolation p (operativeDirective p (m_connectSrc p)) url (str "connect").
End Directives.
End Directives.

(** * The policy of a document *)
Module Csp.
Import Cursor Directives.

Record ContentSecurityPolicy := mkCsp {
  m_overrideInlineStyleAllowed : bool;
  m_policy : option CSPDirectiveList;
}.

Definition ContentSecurityPolicy_new : ContentSecurityPolicy := mkCsp false None.

Section Csp.
Context (ws : Z -> bool) (foldCase : Z -> Z) (context : ScriptExecutionContext).

Definition didReceiveHeader (c : ContentSecurityPolicy) (header : list Z) (type : HeaderType)
    : option (ContentSecurityPolicy * list Effect) :=
  match m_policy c with
  | Some _ => Some (c, [])
  | None => '(p, effects) ← create ws foldCase context header type; Some (mkCsp (m_overrideInlineStyleAllowed c) (Some p), effects)
  end.

Definition csp_header (c : ContentSecurityPolicy) : list Z := match m_policy c with Some p => m_header p | None => [] end.
Definition csp_headerType (c : ContentSecurityPolicy) : HeaderType :=
  match m_policy c with Some p => list_headerType p | None => EnforcePolicy end.

Definition copyStateFrom (c other : ContentSecurityPolicy) : option (ContentSecurityPolicy * list Effect) :=
  _ ← assert_that (match m_policy c with None => true | _ => false end);
  match m_policy other with
  | Some _ => didReceiveHeader c (csp_header other) (csp_headerType other)
  | None => Some (c, [])
  end.

Definition setOverrideAllowInlineStyle (c : ContentSecurityPolicy) (value : bool) : ContentSecurityPolicy := mkCsp value (m_policy c).

(** [!m_policy || m_policy->question()] *)
Definition ask (c : ContentSecurityPolicy) (question : CSPDirectiveList -> bool * list Effect) : bool * list Effect :=
  match m_policy c with None => (true, []) | Some p => question p end.

Definition allowJavaScriptURLs (c : ContentSecurityPolicy) := ask c (list_allowJavaScriptURLs context).
Definition allowInlineEventHandlers (c : ContentSecurityPolicy) := ask c (list_allowInlineEventHandlers context).
Definition allowInlineScript (c : ContentSecurityPolicy) := ask c (list_allowInlineScript context).
Definition allowInlineStyle (c : ContentSecurityPolicy) :=
  ask c (fun p => if m_overrideInlineStyleAllowed c then (true, []) else list_allowInlineStyle context p).
Definition allowEval (c : ContentSecurityPolicy) := ask c (list_allowEval context).
Definition allowScriptFromSource (c : ContentSecurityPolicy) (url : KURL) :=
  ask c (fun p => list_allowScriptFromSource ws foldCase context p url).
Definition allowObjectFromSource (c : ContentSecurityPolicy) (url : KURL) :=
  ask c (fun p => list_allowObjectFromSource ws foldCase context p url).
Definition allowChildFrameFromSource (c : ContentSecurityPolicy) (url : KURL) :=
  ask c (fun p => list_allowChildFrameFromSource ws foldCase context p url).
Definition allowImageFromSource (c : ContentSecurityPolicy) (url : KURL) :=
  ask c (fun p => list_allowImageFromSource ws foldCase context p url).
Definition allowStyleFromSource (c : ContentSecurityPolicy) (url : KURL) :=
  ask c (fun p => list_allowStyleFromSource ws foldCase context p url).
Definition allowFontFromSource (c : ContentSecurityPolicy) (url : KURL) :=
  ask c (fun p => list_allowFontFromSource ws foldCase context p url).
Definition allowMediaFromSource (c : ContentSecurityPolicy) (url : KURL) :=
  ask c (fun p => list_allowMediaFromSource ws foldCase context p url).
Definition allowConnectFromSource (c : ContentSecurityPolicy) (url : KURL) :=
  ask c (fun p => list_allowConnectFromSource ws foldCase context p url).
End Csp.
End Csp.
