(* ===== verification/PolicyFacts.v ===== *)
(** * Theorems about content security policies (ContentSecurityPolicy.v)

    [PolicySpec] is the grammar of policies with its meaning, [SourceFacts] and
    [DirectiveFacts] show that the parser reads the grammar and never fails an
    assertion, and [PolicyProps] has the properties. *)
From S2P Require Import Prelude WString KURLParse KURL HTTPCache SecurityOrigin CaseSearch ContentSecurityPolicy.
Import KURLParse.Assemble.
#[local] Open Scope Z_scope.

(** * Policies and what they mean *)
Module PolicySpec.
Import Cursor Directives StrFacts IntFacts.

Inductive port_pattern := DefaultPort | AnyPort | PortNumber (digits : list Z).

Inductive expression :=
  | Everything
  | Self
  | UnsafeInline
  | UnsafeEval
  | AllOf (scheme : list Z)
  | Hosts (scheme : option (list Z)) (subdomains : bool) (host : list Z) (port : port_pattern).

(** ** Grammar *)

Definition visible (c : Z) : bool := (0x21 <=? c) && (c <=? 0x7e).

Definition scheme_ok (s : list Z) : Prop :=
  exists c rest, s = c :: rest /\ isASCIIAlpha c = true /\ Forall (fun c => isSchemeContinuationCharacter c = true) rest.

Definition label_ok (l : list Z) : Prop := l <> [] /\ Forall (fun c => isHostCharacter c = true) l.

Definition host_ok (h : list Z) : Prop := exists labels, labels <> [] /\ Forall label_ok labels /\ h = join [46] labels.

Definition port_ok (p : port_pattern) : Prop :=
  match p with
  | PortNumber digits => digits <> [] /\ Forall (fun c => isASCIIDigit c = true) digits /\ decimal_from 0 digits < 2 ^ 31
  | _ => True
  end.

Definition expression_ok (e : expression) : Prop :=
  match e with
  | AllOf s => scheme_ok s
  | Hosts s _ h p => from_option scheme_ok True s /\ host_ok h /\ port_ok p
  | _ => True
  end.

Definition port_suffix (p : port_pattern) : list Z :=
  match p with DefaultPort => [] | AnyPort => str ":*" | PortNumber digits => 58 :: digits end.

Definition host_text (subdomains : bool) (h : list Z) (p : port_pattern) : list Z :=
  (if subdomains then str "*." else []) ++ h ++ port_suffix p.

Section Spec.
Context (ws : Z -> bool) (foldCase : Z -> Z).

Abbreviation same_text a b := (map foldCase a = map foldCase b).

(** The word [w] is the expression [e]; keywords have any case. *)
Definition spells (w : list Z) (e : expression) : Prop :=
  Forall (fun c => visible c = true) w /\
  match e with
  | Everything => w = str "*"
  | Self => same_text w (str "'self'")
  | UnsafeInline => same_text w (str "'unsafe-inline'")
  | UnsafeEval => same_text w (str "'unsafe-eval'")
  | AllOf s => w = s ++ [58]
  | Hosts None subdomains h p => w = host_text subdomains h p
  | Hosts (Some s) subdomains h p => w = s ++ str "://" ++ host_text subdomains h p
  end.

(** Words between white space. *)
Inductive spaced : list (list Z) -> list Z -> Prop :=
  | spaced_nil sp : Forall (fun c => isASCIISpace c = true) sp -> spaced [] sp
  | spaced_cons sp w words rest :
      Forall (fun c => isASCIISpace c = true) sp -> w <> [] -> Forall (fun c => isASCIISpace c = false) w ->
      spaced words rest -> (rest = [] \/ exists c rest', rest = c :: rest' /\ isASCIISpace c = true) ->
      spaced (w :: words) (sp ++ w ++ rest).

Inductive value :=
  | Nothing                                (** ['none'] *)
  | Expressions (es : list expression)
  | Tokens (words : list (list Z)).        (** of other directives *)

Record directive := mkD { d_name : list Z; d_value : value }.

Definition spells_value (words : list (list Z)) (v : value) : Prop :=
  match v with
  | Nothing => exists w, words = [w] /\ same_text w (str "'none'") /\ Forall (fun c => visible c = true) w
  | Expressions es => Forall2 spells words es
  | Tokens ts => words = ts /\ Forall (Forall (fun c => visible c = true)) words
  end.

(** The text of a directive: its name and, behind white space, its words.  A
    vertical tab is white space here and none in a list of sandbox tokens. *)
Definition directive_text (d : directive) (piece : list Z) : Prop :=
  exists sp tail words, piece = sp ++ d_name d ++ tail /\ Forall (fun c => isASCIISpace c = true) sp
    /\ d_name d <> [] /\ Forall (fun c => isDirectiveNameCharacter c = true) (d_name d)
    /\ spaced words tail /\ (tail = [] \/ exists c tail', tail = c :: tail' /\ isASCIISpace c = true)
    /\ spells_value words (d_value d) /\ Forall (fun c => c <> 59 /\ c <> 11) tail.

Definition blank (piece : list Z) : Prop := Forall (fun c => isASCIISpace c = true) piece.

Inductive policy_text : list directive -> list Z -> Prop :=
  | text_blank piece : blank piece -> policy_text [] piece
  | text_last d piece : directive_text d piece -> policy_text [d] piece
  | text_skip ds piece rest : blank piece -> policy_text ds rest -> policy_text ds (piece ++ 59 :: rest)
  | text_cons d ds piece rest : directive_text d piece -> policy_text ds rest -> policy_text (d :: ds) (piece ++ 59 :: rest).

Definition named (d : directive) (name : list Z) : Prop := same_text (d_name d) name.

#[export] Instance named_dec d name : Decision (named d name).
Proof. unfold named. apply _. Defined.

Definition is_source_name (d : directive) : bool :=
  existsb (fun n => bool_decide (named d (snd n))) source_names.

(** Lists of sources, and only these, hold expressions that are in the grammar. *)
Definition directive_ok (d : directive) : Prop :=
  match d_value d with
  | Expressions es => is_source_name d = true /\ Forall expression_ok es
  | Nothing => is_source_name d = true
  | Tokens _ => is_source_name d = false
  end.

(** ** Meaning *)

(** The number of a port, less the default one. *)
Definition proper_port (scheme : list Z) (port : Z) : Z :=
  if Access.isDefaultPortForProtocol port scheme then 0 else port.

Definition port_covers (p : port_pattern) (scheme : list Z) (port : Z) : Prop :=
  match p with
  | AnyPort => True
  | DefaultPort => proper_port scheme port = 0
  | PortNumber digits => proper_port scheme port = proper_port scheme (decimal_from 0 digits)
  end.

Definition covers (origin : Origin.SecurityOrigin) (e : expression) (url : KURL) : Prop :=
  match e with
  | Everything => True
  | UnsafeInline | UnsafeEval => False
  | Self =>
      same_text (Access.protocol url) (Origin.m_protocol origin) /\ same_text (Access.host url) (Origin.m_host origin)
      /\ proper_port (Origin.m_protocol origin) (Access.port ws url)
         = proper_port (Origin.m_protocol origin) (Origin.m_port origin)
  | AllOf s => same_text (Access.protocol url) s
  | Hosts s subdomains h p =>
      let scheme := default (Origin.m_protocol origin) s in
      same_text (Access.protocol url) scheme
      /\ (same_text (Access.host url) h
          \/ subdomains = true /\ exists pre, map foldCase (Access.host url) = pre ++ map foldCase (46 :: h))
      /\ port_covers p scheme (Access.port ws url)
  end.

(** The first directive of a name. *)
Definition first_named (ds : list directive) (name : list Z) : option directive :=
  List.find (fun d => bool_decide (named d name)) ds.

Definition name_of (s : Source) : list Z :=
  match s with
  | DefaultSrc => str "default-src" | ScriptSrc => str "script-src" | ObjectSrc => str "object-src"
  | FrameSrc => str "frame-src" | ImgSrc => str "img-src" | StyleSrc => str "style-src"
  | FontSrc => str "font-src" | MediaSrc => str "media-src" | ConnectSrc => str "connect-src"
  end.

(** The directive that governs a kind of resource. *)
Definition governing (ds : list directive) (s : Source) : option directive :=
  match first_named ds (name_of s) with Some d => Some d | None => first_named ds (name_of DefaultSrc) end.

Definition expressions_of (v : value) : list expression := match v with Expressions es => es | _ => [] end.

Definition lists (d : directive) (e : expression) : Prop := e ∈ expressions_of (d_value d).

(** The tokens that lift a restriction, by the number of its bit. *)
Definition lifts (i : Z) (w : list Z) : Prop :=
  i = 2 /\ same_text w (str "allow-same-origin") \/ i = 3 /\ same_text w (str "allow-forms")
  \/ i = 4 /\ same_text w (str "allow-scripts") \/ i = 5 /\ same_text w (str "allow-top-navigation")
  \/ i = 6 /\ same_text w (str "allow-popups").

Definition words_of (v : value) : list (list Z) := match v with Tokens ws => ws | _ => [] end.

(** The flags have every bit that no token lifts. *)
Definition sandboxes (ds : list directive) (flags : Z) : Prop :=
  exists d, first_named ds (str "sandbox") = Some d
    /\ forall i, 0 <= i -> Z.testbit flags i = false <-> exists w, w ∈ words_of (d_value d) /\ lifts i w.

(** The words of the first directive for reports that has any. *)
Definition report_words (ds : list directive) : list (list Z) :=
  match List.find (fun d => bool_decide (named d (str "report-uri")) && negb (length (words_of (d_value d)) =? 0)%nat) ds with
  | Some d => words_of (d_value d)
  | None => []
  end.

(** ** Questions *)

Inductive question :=
  | JavaScriptURLs | InlineEventHandlers | InlineScript | InlineStyle | EvalQuestion
  | Load (s : Source) (url : KURL).

(** The source list a load is judged by: there is no question for [DefaultSrc]. *)
Definition proper (q : question) : Prop := match q with Load DefaultSrc _ => False | _ => True end.

Definition governed (ds : list directive) (s : Source) (P : directive -> Prop) : Prop :=
  match governing ds s with None => True | Some d => P d end.

Definition permits (origin : Origin.SecurityOrigin) (self : KURL) (overrideInlineStyle : bool) (ds : list directive)
    (q : question) : Prop :=
  match q with
  | JavaScriptURLs | InlineEventHandlers | InlineScript => governed ds ScriptSrc (fun d => lists d UnsafeInline)
  | InlineStyle => overrideInlineStyle = true \/ governed ds StyleSrc (fun d => lists d UnsafeInline)
  | EvalQuestion => governed ds ScriptSrc (fun d => lists d UnsafeEval)
  | Load s url =>
      (s = ObjectSrc \/ s = FrameSrc) /\ Access.protocolIs url (str "about") = true
      \/ governed ds s (fun d => exists e, lists d e /\ covers origin e (if isEmpty (m_string url) then self else url))
  end.
End Spec.

(** ** The object *)

Section Run.
Context (ws : Z -> bool) (foldCase : Z -> Z) (context : ScriptExecutionContext).
Import Csp.

(** The member function that answers a question. *)
Definition answer (c : ContentSecurityPolicy) (q : question) : bool * list Effect :=
  match q with
  | JavaScriptURLs => allowJavaScriptURLs context c
  | InlineEventHandlers => allowInlineEventHandlers context c
  | InlineScript => allowInlineScript context c
  | InlineStyle => allowInlineStyle context c
  | EvalQuestion => allowEval context c
  | Load s url =>
      match s with
      | DefaultSrc => (true, [])
      | ScriptSrc => allowScriptFromSource ws foldCase context c url
      | ObjectSrc => allowObjectFromSource ws foldCase context c url
      | FrameSrc => allowChildFrameFromSource ws foldCase context c url
      | ImgSrc => allowImageFromSource ws foldCase context c url
      | StyleSrc => allowStyleFromSource ws foldCase context c url
      | FontSrc => allowFontFromSource ws foldCase context c url
      | MediaSrc => allowMediaFromSource ws foldCase context c url
      | ConnectSrc => allowConnectFromSource ws foldCase context c url
      end
  end.

Inductive step := Header (header : list Z) (type : HeaderType) | OverrideInlineStyle (allow : bool).

Definition run_step (c : ContentSecurityPolicy) (s : step) : option (ContentSecurityPolicy * list Effect) :=
  match s with
  | Header header type => didReceiveHeader ws foldCase context c header type
  | OverrideInlineStyle allow => Some (setOverrideAllowInlineStyle c allow, [])
  end.

Fixpoint run (c : ContentSecurityPolicy) (steps : list step) : option (ContentSecurityPolicy * list Effect) :=
  match steps with
  | [] => Some (c, [])
  | s :: steps => '(c, e) ← run_step c s; '(c, later) ← run c steps; Some (c, e ++ later)
  end.

(** The first header of a run, and its last override. *)
Fixpoint first_header (steps : list step) : option (list Z * HeaderType) :=
  match steps with
  | [] => None
  | Header h t :: _ => Some (h, t)
  | _ :: steps => first_header steps
  end.

Definition last_override (steps : list step) : bool :=
  fold_left (fun b s => match s with OverrideInlineStyle allow => allow | _ => b end) steps false.
End Run.
End PolicySpec.

(** * Reading source lists *)
Module SourceFacts.
Import Cursor SourceList Folded FoldedFacts StrFacts IntFacts PolicySpec.

(** ** Scanning *)

Lemma span_app_stop (p : Z -> bool) a b : Forall (fun c => p c = true) a -> (b = [] \/ exists c b', b = c :: b' /\ p c = false) ->
  span_len p (a ++ b) = length a.
Proof.
  intros Ha Hb. induction Ha as [|c a Hc _ IH]; cbn.
  - destruct Hb as [->|(c & b' & -> & Hc)]; [done|]. cbn. by rewrite Hc.
  - by rewrite Hc, IH.
Qed.

Lemma skipWhile_app p a b : Forall (fun c => p c = true) a -> (b = [] \/ exists c b', b = c :: b' /\ p c = false) ->
  skipWhile p (a ++ b) = (a, b).
Proof. intros Ha Hb. unfold skipWhile. rewrite span_app_stop by done. by rewrite take_app_length, drop_app_length. Qed.

Lemma skipWhile_all p a : Forall (fun c => p c = true) a -> skipWhile p a = (a, []).
Proof. intros Ha. rewrite <- (app_nil_r a) at 1. apply skipWhile_app; [done|by left]. Qed.

Lemma skipWhile_split p l : exists a b, skipWhile p l = (a, b) /\ l = a ++ b /\ Forall (fun c => p c = true) a
  /\ (b = [] \/ exists c b', b = c :: b' /\ p c = false).
Proof.
  exists (take (span_len p l) l), (drop (span_len p l) l). split; [done|]. split; [by rewrite take_drop|].
  split; [apply span_len_take|]. destruct (drop (span_len p l) l) as [|c b] eqn:E; [by left|right].
  exists c, b. split; [done|]. apply (span_len_stop p l). by rewrite <- (Nat.add_0_r (span_len p l)), <- lookup_drop, E.
Qed.

Lemma skipUtil_app a d b : Forall (fun c => c <> d) a -> (b = [] \/ exists b', b = d :: b') -> skipUtil (a ++ b) d = (a, b).
Proof.
  intros Ha Hb. apply skipWhile_app.
  - eapply list.Forall_impl; [exact Ha|]. intros c Hc. by rewrite (proj2 (Z.eqb_neq _ _)).
  - destruct Hb as [->|[b' ->]]; [by left|right]. exists d, b'. by rewrite Z.eqb_refl.
Qed.

Lemma skipUtil_all a d : Forall (fun c => c <> d) a -> skipUtil a d = (a, []).
Proof. intros Ha. rewrite <- (app_nil_r a) at 1. apply skipUtil_app; [done|by left]. Qed.

Lemma skipUtil_split l d : exists a b, skipUtil l d = (a, b) /\ l = a ++ b /\ Forall (fun c => c <> d) a
  /\ (b = [] \/ exists b', b = d :: b').
Proof.
  destruct (skipWhile_split (fun c => negb (c =? d)) l) as (a & b & E & -> & Ha & Hb). exists a, b. split; [exact E|].
  split; [done|]. split.
  - eapply list.Forall_impl; [exact Ha|]. cbn. intros c Hc. by apply negb_true_iff, Z.eqb_neq in Hc.
  - destruct Hb as [->|(c & b' & -> & Hc)]; [by left|right]. apply negb_false_iff, Z.eqb_eq in Hc as ->. by exists b'.
Qed.

(** ** Classes of characters *)

Lemma isEmpty_cons c l : isEmpty (c :: l) = false.
Proof. done. Qed.

Lemma isEmpty_true l : isEmpty l = true -> l = [].
Proof. by destruct l. Qed.

Lemma visible_ascii c : visible c = true -> isASCII c = true.
Proof. unfold visible, isASCII. intros H. bprop. apply Z.leb_le. lia. Qed.

Lemma visible_not_space c : visible c = true -> isASCIISpace c = false.
Proof. unfold visible, isASCIISpace. intros H. bprop. lia. Qed.

Lemma alnum_visible c : isASCIIAlphanumeric c = true -> visible c = true /\ c <> 39 /\ c <> 42 /\ c <> 46 /\ c <> 47 /\ c <> 58 /\ c <> 59.
Proof.
  unfold isASCIIAlphanumeric, isASCIIDigit, isASCIIAlpha, isASCIIUpper, isASCIILower, visible. intros H.
  assert (48 <= c <= 122 /\ ~ 57 < c < 65) by (apply orb_true_iff in H as [H|H]; [bprop; lia|apply orb_true_iff in H as [H|H]; bprop; lia]).
  repeat split; lia.
Qed.

Lemma host_char c : isHostCharacter c = true -> visible c = true /\ c <> 39 /\ c <> 42 /\ c <> 46 /\ c <> 47 /\ c <> 58 /\ c <> 59.
Proof.
  unfold isHostCharacter. intros [H| ->%Z.eqb_eq]%orb_true_iff; [by apply alnum_visible|]. unfold visible. repeat split; lia.
Qed.

Lemma alpha_host c : isASCIIAlpha c = true -> isHostCharacter c = true /\ isSchemeContinuationCharacter c = true.
Proof.
  intros H. unfold isHostCharacter, isSchemeContinuationCharacter, isASCIIAlphanumeric. by rewrite H, !orb_true_r.
Qed.

Lemma scheme_char c : isSchemeContinuationCharacter c = true -> visible c = true /\ c <> 58 /\ c <> 59.
Proof.
  unfold isSchemeContinuationCharacter. intros [[[H|H]%orb_true_iff|H]%orb_true_iff|H]%orb_true_iff.
  1: pose proof (alnum_visible c H); tauto. all: apply Z.eqb_eq in H as ->; unfold visible; repeat split; lia.
Qed.

Lemma digit_char c : isASCIIDigit c = true -> visible c = true /\ c <> 42 /\ c <> 58 /\ c <> 59.
Proof. intros H. pose proof (alnum_visible c) as Hc. unfold isASCIIAlphanumeric in Hc. rewrite H in Hc. specialize (Hc eq_refl). tauto. Qed.

(** ** The parser of URLs *)

Lemma parseScheme_ok s out : scheme_ok s -> p_scheme out = [] ->
  parseScheme s out = Some (mkParsed s (p_host out) (p_port out) (p_hostHasWildcard out) (p_portHasWildcard out), true).
Proof.
  intros (c & rest & -> & Hc & Hr) Ho. unfold parseScheme. rewrite Ho. cbn [isEmpty length Nat.eqb assert_that mbind option_bind].
  unfold skipExactly_class. rewrite Hc. by rewrite skipWhile_all.
Qed.

Lemma label_cons l : label_ok l -> exists c l', l = c :: l' /\ isHostCharacter c = true /\ Forall (fun c => isHostCharacter c = true) l'.
Proof. intros [Hne Hl]. destruct l as [|c l]; [done|]. apply Forall_cons_iff in Hl as [Hc Hl]. by exists c, l. Qed.

Lemma host_loop_labels labels fuel : labels <> [] -> Forall label_ok labels -> (length (join [46%Z] labels) <= fuel)%nat ->
  host_loop fuel (join [46] labels) = true.
Proof.
  intros Hne Hl. revert fuel Hne. induction Hl as [|l labels Hl Hls IH]; intros fuel Hne Hf; [done|].
  destruct (label_cons l Hl) as (c & l' & -> & Hc & Hl'). destruct (decide (labels = [])) as [->|Hls'].
  - cbn [join] in *. destruct fuel as [|fuel]; [cbn in Hf; lia|]. cbn [host_loop]. unfold skipExactly_class. rewrite Hc.
    by rewrite skipWhile_all.
  - rewrite join_cons in * by done. rewrite !length_app in Hf. cbn [length] in Hf.
    destruct fuel as [|fuel]; [lia|]. cbn [app host_loop]. unfold skipExactly_class. rewrite Hc.
    rewrite skipWhile_app by (done || (right; by eexists _, _)). cbn [skipExactly]. rewrite Z.eqb_refl. apply IH; [done|lia].
Qed.

Lemma host_begins h : host_ok h -> exists c h', h = c :: h' /\ isHostCharacter c = true.
Proof.
  intros (labels & Hne & Hl & ->). destruct labels as [|l labels]; [done|]. apply Forall_cons_iff in Hl as [Hl _].
  destruct (label_cons l Hl) as (c & l' & -> & Hc & _). destruct labels; cbn; by eexists _, _.
Qed.

Lemma host_chars h : host_ok h -> Forall (fun c => c <> 58) h.
Proof.
  intros (labels & _ & Hl & ->). induction Hl as [|l labels [_ Hl] Hls IH]; [constructor|].
  assert (Forall (fun c => c <> 58) l) as H by (eapply list.Forall_impl; [exact Hl|]; intros c Hc; by apply host_char in Hc as (_ & _ & _ & _ & _ & ? & _)).
  destruct labels; [done|]. rewrite join_cons by done. apply Forall_app. split; [done|]. by constructor.
Qed.

(** The text before the port. *)
Definition wild_host (subdomains : bool) (h : list Z) : list Z := (if subdomains then str "*." else []) ++ h.

Lemma wild_host_chars b h : host_ok h -> Forall (fun c => c <> 58) (wild_host b h).
Proof. intros H. apply Forall_app. split; [|by apply host_chars]. destruct b; by repeat constructor. Qed.

Lemma parseHost_ok b h out : host_ok h -> p_host out = [] -> p_hostHasWildcard out = false ->
  parseHost (wild_host b h) out = Some (mkParsed (p_scheme out) h (p_port out) b (p_portHasWildcard out), true).
Proof.
  intros Hh Ho Hw. unfold parseHost. rewrite Ho, Hw. cbn [isEmpty length Nat.eqb assert_that mbind option_bind negb].
  destruct (host_begins h Hh) as (c & h' & E & Hc). destruct Hh as (labels & Hne & Hl & Ej).
  assert (forall o, host_labels h o = (set_host o h, true)) as Hlab.
  { intros o. unfold host_labels. by rewrite Ej, host_loop_labels. }
  destruct b; cbn [wild_host app].
  - change (isEmpty (str "*." ++ h)) with false. change (str "*." ++ h) with (42 :: 46 :: h).
    cbn -[host_labels]. by rewrite Hlab.
  - rewrite E at 1. rewrite isEmpty_cons. rewrite E at 1. cbn [skipExactly].
    rewrite (proj2 (Z.eqb_neq _ _)) by (by apply host_char in Hc as (_ & _ & ? & _)). rewrite Hlab. unfold set_host. by rewrite Hw.
Qed.

(** ** Ports *)

Lemma digits_loop_int ds v : Forall (fun c => isASCIIDigit c = true) ds -> 0 <= v -> decimal_from v ds < 2 ^ 31 ->
  Str.digits_loop s32 (2 ^ 31 - 1) 10 false ds v = Some (decimal_from v ds, []).
Proof.
  intros Hd. revert v. induction Hd as [|c ds Hc Hds IH]; intros v Hv Hb; [done|]. cbn [Str.digits_loop].
  rewrite allowed_base_10, Hc. cbv zeta. unfold Str.digitValue. rewrite Hc.
  change (decimal_from v (c :: ds)) with (decimal_from (10 * v + (c - 48)) ds) in *.
  pose proof Hc as Hc'. unfold isASCIIDigit in Hc'. bprop.
  pose proof (decimal_from_ge (10 * v + (c - 48)) ds ltac:(lia) Hds) as Hge.
  change ((2 ^ 31 - 1) / 10) with 214748364. change ((2 ^ 31 - 1) mod 10 + Z.b2z false) with 7.
  replace ((214748364 <? v) || (v =? 214748364) && (7 <? c - 48)) with false by lia.
  replace (s32 (10 * v + (c - 48))) with (10 * v + (c - 48)) by dlia. by apply IH; [lia|].
Qed.

Lemma charactersToIntStrict_digits ws ds : ds <> [] -> Forall (fun c => isASCIIDigit c = true) ds ->
  decimal_from 0 ds < 2 ^ 31 -> Str.charactersToIntStrict ws ds = (decimal_from 0 ds, true).
Proof.
  intros Hne Hd Hb. destruct ds as [|c ds]; [done|]. pose proof Hd as [Hc _]%Forall_cons_iff.
  assert (isSpaceOrNewline ws c = false /\ c <> 43 /\ c <> 45) as (Hs & H43 & H45).
  { destruct (digit_char c Hc) as (Hv & _). unfold isSpaceOrNewline.
    rewrite (visible_not_space c Hv). unfold isASCIIDigit in Hc. bprop.
    rewrite (proj2 (Z.leb_le _ _)) by lia. split; [done|lia]. }
  unfold Str.charactersToIntStrict, Str.toIntegralType. cbn [span_len]. rewrite Hs. cbn [drop].
  rewrite (proj2 (Z.eqb_neq _ _) H45), (proj2 (Z.eqb_neq _ _) H43). cbn [andb]. rewrite allowed_base_10, Hc.
  by rewrite digits_loop_int by (done || lia).
Qed.

Definition port_number (p : port_pattern) : Z := match p with PortNumber digits => decimal_from 0 digits | _ => 0 end.
Definition any_port (p : port_pattern) : bool := match p with AnyPort => true | _ => false end.

Definition parsed_hosts (s h : list Z) (b : bool) (p : port_pattern) : Parsed := mkParsed s h (port_number p) b (any_port p).

Lemma wild_host_nonempty b h : host_ok h -> isEmpty (wild_host b h) = false.
Proof. intros Hh. destruct (host_begins h Hh) as (c & h' & -> & _). by destruct b. Qed.

Lemma parse_host_port_ok ws s b h p : host_ok h -> port_ok p ->
  parse_host_port ws (wild_host b h) (port_suffix p) (mkParsed s [] 0 false false) = Some (parsed_hosts s h b p, true).
Proof.
  intros Hh Hp. unfold parse_host_port. rewrite wild_host_nonempty by done.
  rewrite parseHost_ok by done. cbn [mbind option_bind negb p_scheme p_host p_port p_hostHasWildcard p_portHasWildcard].
  destruct p as [| |digits]; [done|done|]. destruct Hp as (Hne & Hd & Hb). cbn [port_suffix isEmpty length Nat.eqb skipExactly].
  unfold parsePort. rewrite Z.eqb_refl. cbn [p_port p_portHasWildcard Z.eqb negb assert_that mbind option_bind].
  destruct digits as [|c digits]; [done|]. rewrite isEmpty_cons. rewrite bool_decide_false.
  - rewrite skipWhile_all by done. cbn [isEmpty length Nat.eqb negb]. by rewrite charactersToIntStrict_digits.
  - intros [= -> _]. by apply Forall_cons_iff in Hd as [Hc _].
Qed.

Lemma port_suffix_colon p : port_suffix p = [] \/ exists b, port_suffix p = 58 :: b.
Proof. destruct p; [by left|right..]; by eexists. Qed.

(** ** The words of expressions with a URL *)

Lemma scheme_no_colon s : scheme_ok s -> Forall (fun c => c <> 58) s.
Proof.
  intros (c & rest & -> & Hc & Hr). constructor; [apply alpha_host in Hc as [_ Hc]; by apply scheme_char in Hc as (_ & ? & _)|].
  eapply list.Forall_impl; [exact Hr|]. intros d Hd. by apply scheme_char in Hd as (_ & ? & _).
Qed.

Lemma parse_scheme_only ws s : scheme_ok s -> parse_url_source ws (s ++ [58]) Parsed_new = Some (mkParsed s [] 0 false false, true).
Proof.
  intros Hs. unfold parse_url_source. rewrite skipUtil_app.
  - rewrite Z.eqb_refl. cbn [assert_that mbind option_bind]. by rewrite parseScheme_ok.
  - by apply scheme_no_colon.
  - right. by exists [].
Qed.

Lemma parse_hosts_only ws b h p : host_ok h -> port_ok p ->
  parse_url_source ws (host_text b h p) Parsed_new = Some (parsed_hosts [] h b p, true).
Proof.
  intros Hh Hp. assert (host_text b h p = wild_host b h ++ port_suffix p) as -> by (unfold host_text, wild_host; by rewrite <- app_assoc).
  unfold parse_url_source. rewrite skipUtil_app by (by apply wild_host_chars || apply port_suffix_colon).
  pose proof (parse_host_port_ok ws [] b h p Hh Hp) as Hpp. destruct p as [| |digits].
  - cbn [port_suffix]. by rewrite parseHost_ok.
  - cbn [port_suffix str] in *. exact Hpp.
  - cbn [port_suffix] in *. destruct Hp as (Hne & Hd & _). destruct digits as [|c digits]; [done|].
    apply Forall_cons_iff in Hd as [Hc _]. rewrite (proj2 (Z.eqb_neq c 47)); [exact Hpp|].
    unfold isASCIIDigit in Hc. bprop. lia.
Qed.

Lemma parse_scheme_hosts ws s b h p : scheme_ok s -> host_ok h -> port_ok p ->
  parse_url_source ws (s ++ str "://" ++ host_text b h p) Parsed_new = Some (parsed_hosts s h b p, true).
Proof.
  intros Hs Hh Hp. assert (host_text b h p = wild_host b h ++ port_suffix p) as -> by (unfold host_text, wild_host; by rewrite <- app_assoc).
  unfold parse_url_source. rewrite skipUtil_app by (by apply scheme_no_colon || (right; by eexists)).
  change (str "://" ++ wild_host b h ++ port_suffix p) with (58 :: 47 :: 47 :: wild_host b h ++ port_suffix p).
  cbn [skipExactly Z.eqb Pos.eqb]. rewrite parseScheme_ok by done. cbn [mbind option_bind negb Parsed_new p_host p_port p_hostHasWildcard p_portHasWildcard].
  cbn [skipExactly Z.eqb Pos.eqb mbind option_bind]. rewrite skipUtil_app by (by apply wild_host_chars || apply port_suffix_colon). by apply parse_host_port_ok.
Qed.

(** ** Words *)

Section Words.
Context (ws : Z -> bool) (foldCase : Z -> Z).
Context (fold_ascii : forall c, isASCII c = true -> foldCase c = toASCIILower c).

Lemma fold_str s : forallb (fun c => isASCII c && negb (isASCIIUpper c)) (str s) = true -> map foldCase (str s) = str s.
Proof.
  induction (str s) as [|c l IH]; [done|]. cbn [forallb map]. intros [[Hc Hu]%andb_true_iff Hl]%andb_true_iff.
  rewrite IH, fold_ascii by done. unfold toASCIILower. by apply negb_true_iff in Hu as ->.
Qed.

Lemma lower_below_letters c d : visible c = true -> 0 <= d < 65 -> toASCIILower c = d -> c = d.
Proof.
  unfold toASCIILower. intros Hv Hd. destruct (isASCIIUpper c) eqn:E; [|done]. intros H.
  assert (negb (isASCIIUpper c) || (65 <=? Z.lor c 0x20) = true) as Hl.
  { apply (range_check 7 (fun c => negb (isASCIIUpper c) || (65 <=? Z.lor c 0x20))); [by vm_compute|].
    unfold visible in Hv. bprop. cbn. lia. }
  rewrite E in Hl. cbn [negb orb] in Hl. apply Z.leb_le in Hl. lia.
Qed.

(** Marks are only equal to themselves. *)
Lemma fold_mark c d : visible c = true -> 0 <= d < 65 -> foldCase c = foldCase d -> c = d.
Proof.
  intros Hv Hd E. apply lower_below_letters; [done..|].
  assert (isASCII d = true) as Hda by (unfold isASCII; apply Z.leb_le; lia).
  rewrite !fold_ascii in E by (done || by apply visible_ascii). rewrite E. unfold toASCIILower, isASCIIUpper.
  by rewrite (proj2 (Z.leb_gt 65 d)) by lia.
Qed.

Lemma literal_word w lit : Forall (fun c => visible c = true) w -> forallb visible (str lit) = true ->
  equal_literal foldCase w (literal lit) = Some (bool_decide (map foldCase w `prefix_of` map foldCase (str lit))).
Proof.
  intros Hw Hl. apply equal_literal_spec.
  - eapply list.Forall_impl; [exact Hw|]. intros c Hc E. apply fold_mark in E; [by subst c|done|lia].
  - rewrite forallb_forall in Hl. apply List.Forall_forall in Hl. eapply list.Forall_impl; [exact Hl|]. cbn. intros c Hc ->. done.
Qed.

(** A word that does not begin with a quotation mark is no keyword. *)
Lemma no_keyword c w k t : visible c = true -> c <> 39 -> k = 39 :: t -> ~ map foldCase (c :: w) `prefix_of` map foldCase k.
Proof. intros Hv Hc -> H. cbn [map] in H. apply prefix_cons_inv_1, fold_mark in H; [done|done|lia]. Qed.

(** The words of expressions with a URL. *)
Lemma url_word w e : spells foldCase w e -> expression_ok e -> (match e with AllOf _ | Hosts _ _ _ _ => True | _ => False end) ->
  exists c w', w = c :: w' /\ visible c = true /\ c <> 39 /\ w <> str "*".
Proof.
  assert (forall c, isASCIIAlpha c = true -> visible c = true /\ c <> 39 /\ c <> 42) as Halpha.
  { intros c Hc. apply alpha_host in Hc as [Hc _]. apply host_char in Hc. tauto. }
  assert (forall b h p, host_ok h -> exists c w', host_text b h p = c :: w' /\ visible c = true /\ c <> 39 /\ host_text b h p <> str "*") as Hhost.
  { intros b h p Hh. destruct (host_begins h Hh) as (c & h' & -> & Hc). unfold host_text. destruct b; cbn [app].
    - exists 42. eexists. split; [reflexivity|done].
    - exists c. eexists. split; [reflexivity|]. apply host_char in Hc as (? & ? & ? & _). split; [done|]. split; [done|]. by intros [= -> _]. }
  intros [_ Hs] He. destruct e as [| | | |s|[s|] b h p]; try done; intros _.
  - subst w. destruct He as (c & rest & -> & Hc & _). apply Halpha in Hc as (? & ? & ?). exists c. eexists.
    split; [reflexivity|]. split; [done|]. split; [done|]. by intros [= -> _].
  - subst w. destruct He as ((c & rest & -> & Hc & _) & _). apply Halpha in Hc as (? & ? & ?). exists c. eexists.
    split; [reflexivity|]. split; [done|]. split; [done|]. by intros [= -> _].
  - subst w. apply Hhost. apply He.
Qed.

(** What an expression adds to a list. *)
Definition add_expression (origin : Origin.SecurityOrigin) (l : CSPSourceList) (e : expression) : CSPSourceList :=
  match e with
  | Everything => addSourceStar l
  | Self => addSourceSelf origin l
  | UnsafeInline => addSourceUnsafeInline l
  | UnsafeEval => addSourceUnsafeEval l
  | AllOf s => append_source origin l (mkParsed s [] 0 false false)
  | Hosts s b h p => append_source origin l (parsed_hosts (default [] s) h b p)
  end.

Ltac keyword H :=
  rewrite !literal_word by (done || by vm_compute); rewrite H, !fold_str by (by vm_compute);
  repeat match goal with |- context [bool_decide ?P] => let v := eval vm_compute in (bool_decide P) in change (bool_decide P) with v end;
  cbn [mbind option_bind].

Lemma keyword_not w k : map foldCase w = map foldCase (str k) -> map foldCase (str k) = str k -> str k <> str "*" -> k <> ""%string ->
  isEmpty w = false /\ w <> str "*".
Proof.
  intros H Hk Hs Hn. split.
  - destruct w; [|done]. cbn in H. rewrite Hk in H. by destruct k.
  - intros ->. rewrite Hk in H. rewrite fold_str in H by by vm_compute. by apply Hs.
Qed.

Lemma parse_word origin w e l : spells foldCase w e -> expression_ok e ->
  exists l' out ok, parseSource ws foldCase origin w l Parsed_new = Some (l', out, ok)
    /\ (if ok : bool then append_source origin l' out else l') = add_expression origin l e.
Proof.
  intros Hs He. pose proof Hs as [Hv Hw]. unfold parseSource.
  destruct e as [| | | |s|s b h p]; cbn [add_expression].
  - subst w. by eexists _, _, false.
  - destruct (keyword_not w "'self'") as [-> Hn]; [done|by apply fold_str|done..|]. rewrite bool_decide_false by done.
    keyword Hw. by eexists _, _, false.
  - destruct (keyword_not w "'unsafe-inline'") as [-> Hn]; [done|by apply fold_str|done..|]. rewrite bool_decide_false by done.
    keyword Hw. by eexists _, _, false.
  - destruct (keyword_not w "'unsafe-eval'") as [-> Hn]; [done|by apply fold_str|done..|]. rewrite bool_decide_false by done.
    keyword Hw. by eexists _, _, false.
  - destruct (url_word w _ Hs He I) as (c & w' & E & Hc & Hq & Hn). rewrite bool_decide_false by done.
    assert (isEmpty w = false) as -> by (by rewrite E).
    rewrite !literal_word by (done || by vm_compute). rewrite !bool_decide_false by (rewrite E; eapply no_keyword; [done|done|reflexivity]).
    cbn [mbind option_bind]. subst w. rewrite parse_scheme_only by done. by eexists _, _, true.
  - destruct (url_word w _ Hs He I) as (c & w' & E & Hc & Hq & Hn). rewrite bool_decide_false by done.
    assert (isEmpty w = false) as -> by (by rewrite E).
    rewrite !literal_word by (done || by vm_compute). rewrite !bool_decide_false by (rewrite E; eapply no_keyword; [done|done|reflexivity]).
    cbn [mbind option_bind]. destruct He as (Hsch & Hh & Hp). destruct s as [s|]; subst w.
    + rewrite parse_scheme_hosts by done. by eexists _, _, true.
    + rewrite parse_hosts_only by done. by eexists _, _, true.
Qed.

(** ** Lists *)

Lemma not_none w e : spells foldCase w e -> expression_ok e -> ~ map foldCase w `prefix_of` map foldCase (str "'none'").
Proof.
  intros Hs He. pose proof Hs as [Hv Hw].
  destruct e as [| | | |s|s b h p]; try (rewrite Hw, !fold_str by (by vm_compute); refine (proj1 (bool_decide_eq_false _) _); vm_compute; reflexivity).
  - destruct (url_word w _ Hs He I) as (c & w' & -> & Hc & Hq & _). by eapply no_keyword.
  - destruct (url_word w _ Hs He I) as (c & w' & -> & Hc & Hq & _). by eapply no_keyword.
Qed.

Lemma skip_spaces sp rest : Forall (fun c => isASCIISpace c = true) sp ->
  (rest = [] \/ exists c rest', rest = c :: rest' /\ isASCIISpace c = false) -> skipWhile isASCIISpace (sp ++ rest) = (sp, rest).
Proof. apply skipWhile_app. Qed.

Lemma skip_word w rest : Forall (fun c => isASCIISpace c = false) w ->
  (rest = [] \/ exists c rest', rest = c :: rest' /\ isASCIISpace c = true) -> skipWhile isSourceCharacter (w ++ rest) = (w, rest).
Proof.
  intros Hw Hr. apply skipWhile_app; [|destruct Hr as [->|(c & r & -> & Hc)]; [by left|right; exists c, r]].
  - eapply list.Forall_impl; [exact Hw|]. intros c Hc. unfold isSourceCharacter. by rewrite Hc.
  - unfold isSourceCharacter. by rewrite Hc.
Qed.

Lemma parse_loop_blank origin fuel first sp l : Forall (fun c => isASCIISpace c = true) sp -> (length sp <= fuel)%nat ->
  parse_loop ws foldCase fuel origin first sp l = Some l.
Proof.
  intros Hs Hf. destruct sp as [|c sp]; [by destruct fuel|]. destruct fuel as [|fuel]; [cbn in Hf; lia|]. cbn [parse_loop].
  rewrite skipWhile_all by done. unfold skipWhile. cbn [span_len take drop].
  destruct first; [done|]. cbn. by destruct fuel.
Qed.

Lemma parse_loop_words origin words text es : spaced words text -> Forall2 (spells foldCase) words es -> Forall expression_ok es ->
  forall fuel first l, (length text <= fuel)%nat ->
  parse_loop ws foldCase fuel origin first text l = Some (fold_left (add_expression origin) es l).
Proof.
  intros Hsp. revert es. induction Hsp as [sp Hsp|sp w words rest Hsp Hne Hw Hrest IH Hsep]; intros es Hes Hok fuel first l Hf.
  { apply Forall2_nil_inv_l in Hes as ->. by apply parse_loop_blank. }
  apply Forall2_cons_inv_l in Hes as (e & es' & He & Hes & ->). apply Forall_cons_iff in Hok as [Hoke Hok].
  rewrite !length_app in Hf. destruct w as [|c w]; [done|]. cbn [length] in Hf.
  destruct fuel as [|fuel]; [lia|]. destruct (sp ++ (c :: w) ++ rest) as [|x t] eqn:E; [by destruct sp|].
  cbn [parse_loop]. rewrite <- E. pose proof Hw as [Hc _]%Forall_cons_iff.
  rewrite skip_spaces by (done || (right; by eexists _, _)). rewrite skip_word by done.
  assert ((if first then equal_literal foldCase (c :: w) (literal "'none'") else Some false) = Some false) as ->.
  { destruct first; [|done]. rewrite literal_word by (apply He || by vm_compute). by rewrite bool_decide_false by (by apply (not_none _ e)). }
  cbn [mbind option_bind]. destruct (parse_word origin (c :: w) e l He Hoke) as (l' & out & ok & -> & Hadd). cbn [mbind option_bind].
  rewrite Hadd. assert (match rest with [] => true | c :: _ => isASCIISpace c end = true) as ->
    by (by destruct Hsep as [->|(d & r & -> & ->)]).
  cbn [assert_that mbind option_bind fold_left]. apply IH; [done|done|lia].
Qed.

Lemma parse_none origin w text : spaced [w] text -> map foldCase w = map foldCase (str "'none'") ->
  Forall (fun c => visible c = true) w -> parse_list ws foldCase origin text = Some CSPSourceList_new.
Proof.
  intros Hsp Hn Hv. inversion Hsp as [|sp w' words rest Hspc Hne Hw Hrest Hsep]; subst. unfold parse_list.
  destruct w as [|c w]; [done|]. destruct (sp ++ (c :: w) ++ rest) as [|x t] eqn:E; [by destruct sp|].
  cbn [length parse_loop]. rewrite <- E. pose proof Hw as [Hc _]%Forall_cons_iff.
  rewrite skip_spaces by (done || (right; by eexists _, _)). rewrite skip_word by done.
  rewrite literal_word by (done || by vm_compute). rewrite Hn. by rewrite bool_decide_true.
Qed.

(** The list of a value. *)
Definition list_of (origin : Origin.SecurityOrigin) (v : value) : CSPSourceList :=
  fold_left (add_expression origin) (expressions_of v) CSPSourceList_new.

Lemma parse_value origin words text v : spaced words text -> spells_value foldCase words v ->
  match v with Tokens _ => False | Expressions es => Forall expression_ok es | Nothing => True end ->
  parse_list ws foldCase origin text = Some (list_of origin v).
Proof.
  intros Hsp Hv Hok. destruct v as [|es|ts]; [|by eapply parse_loop_words|done].
  destruct Hv as (w & -> & Hn & Hvis). by apply (parse_none origin w).
Qed.

(** ** What a list allows *)

Lemma list_of_flags origin es l :
  let l' := fold_left (add_expression origin) es l in
  (m_allowStar l' = true <-> m_allowStar l = true \/ Everything ∈ es)
  /\ (m_allowInline l' = true <-> m_allowInline l = true \/ UnsafeInline ∈ es)
  /\ (SourceList.m_allowEval l' = true <-> SourceList.m_allowEval l = true \/ UnsafeEval ∈ es).
Proof.
  revert l. induction es as [|e es IH]; intros l; cbn [fold_left].
  { assert (forall e : expression, ~ e ∈ []) by (intros; apply not_elem_of_nil). naive_solver. }
  destruct (IH (add_expression origin l e)) as (H1 & H2 & H3). cbv zeta in *. rewrite H1, H2, H3, !elem_of_cons.
  destruct e; cbn; naive_solver.
Qed.

Lemma portMatches_spec s url : portMatches ws s url = m_portHasWildcard s
  || bool_decide (proper_port (m_scheme s) (Access.port ws url) = proper_port (m_scheme s) (m_port s)).
Proof.
  unfold portMatches, proper_port. destruct (m_portHasWildcard s); [done|]. cbv zeta. cbn [orb].
  generalize (Access.port ws url) as p. intros p. generalize (m_port s) as q. intros q.
  unfold Access.isDefaultPortForProtocol. destruct (m_scheme s) as [|c t].
  { destruct (Z.eqb_spec p q), (Z.eqb_spec p 0), (Z.eqb_spec q 0); symmetry; (apply bool_decide_eq_true || apply bool_decide_eq_false); lia. }
  generalize (Access.defaultPorts_get (c :: t)) as d. intros d.
  destruct (Z.eqb_spec p q), (Z.eqb_spec p 0), (Z.eqb_spec q 0), (Z.eqb_spec d p), (Z.eqb_spec d q); try lia;
    symmetry; (apply bool_decide_eq_true || apply bool_decide_eq_false); lia.
Qed.

Lemma hostMatches_spec s url : hostMatches foldCase s url = true <->
  map foldCase (Access.host url) = map foldCase (m_host s)
  \/ m_hostHasWildcard s = true /\ exists pre, map foldCase (Access.host url) = pre ++ map foldCase (46 :: m_host s).
Proof.
  unfold hostMatches, Cache.equalIgnoringCase. destruct (bool_decide_reflect (map foldCase (Access.host url) = map foldCase (m_host s))) as [H|H].
  - split; [by left|done].
  - rewrite andb_true_iff, endsWithIgnoringCase_spec by done. split; [by right|]. by intros [?|?].
Qed.

Lemma source_matches_spec s url : m_host s <> [] -> source_matches ws foldCase s url = true <->
  map foldCase (Access.protocol url) = map foldCase (m_scheme s)
  /\ (map foldCase (Access.host url) = map foldCase (m_host s)
      \/ m_hostHasWildcard s = true /\ exists pre, map foldCase (Access.host url) = pre ++ map foldCase (46 :: m_host s))
  /\ (m_portHasWildcard s = true \/ proper_port (m_scheme s) (Access.port ws url) = proper_port (m_scheme s) (m_port s)).
Proof.
  intros Hh. unfold source_matches, isSchemeOnly. replace (isEmpty (m_host s)) with false by (by destruct (m_host s)).
  unfold schemeMatches, Cache.equalIgnoringCase.
  destruct (bool_decide_reflect (map foldCase (Access.protocol url) = map foldCase (m_scheme s))) as [H|H]; cbn [negb]; [|naive_solver].
  rewrite andb_true_iff, hostMatches_spec, portMatches_spec, orb_true_iff, bool_decide_eq_true. tauto.
Qed.

Lemma add_expression_matches origin l e url : expression_ok e -> Origin.m_host origin <> [] ->
  list_matches ws foldCase (add_expression origin l e) url = true <->
  list_matches ws foldCase l url = true \/ covers ws foldCase origin e url.
Proof.
  intros He Ho. assert (forall l s, list_matches ws foldCase (mkSourceList (m_list l ++ [s]) (m_allowStar l) (m_allowInline l) (SourceList.m_allowEval l)) url = true
    <-> list_matches ws foldCase l url = true \/ source_matches ws foldCase s url = true) as Happ.
  { intros l' s. unfold list_matches. cbn [m_allowStar m_list]. destruct (m_allowStar l'); [tauto|].
    rewrite existsb_app, orb_true_iff. cbn [existsb]. by rewrite orb_false_r. }
  destruct e as [| | | |s|s b h p]; cbn [add_expression covers].
  - unfold list_matches. cbn. tauto.
  - unfold addSourceSelf. rewrite Happ, source_matches_spec by done. cbn [m_scheme m_host m_port m_hostHasWildcard m_portHasWildcard].
    naive_solver.
  - unfold list_matches. cbn. tauto.
  - unfold list_matches. cbn. tauto.
  - unfold append_source. rewrite Happ. cbn [p_scheme p_host p_port p_hostHasWildcard p_portHasWildcard].
    destruct He as (c & t & -> & _). rewrite isEmpty_cons. unfold source_matches, schemeMatches, Cache.equalIgnoringCase. cbn [m_scheme isSchemeOnly m_host isEmpty length Nat.eqb].
    destruct (bool_decide_reflect (map foldCase (Access.protocol url) = map foldCase (c :: t))); cbn [negb]; naive_solver.
  - destruct He as (Hs & Hh & Hp). unfold append_source. rewrite Happ. cbn [parsed_hosts p_scheme p_host p_port p_hostHasWildcard p_portHasWildcard].
    assert ((if isEmpty (default [] s) then Origin.m_protocol origin else default [] s) = default (Origin.m_protocol origin) s) as ->.
    { destruct s as [s|]; [|done]. by destruct Hs as (c & t & -> & _). }
    rewrite source_matches_spec by (destruct (host_begins h Hh) as (c & t & -> & _); done).
    cbn [m_scheme m_host m_port m_hostHasWildcard m_portHasWildcard]. apply or_iff_compat_l, and_iff_compat_l, and_iff_compat_l.
    assert (proper_port (default (Origin.m_protocol origin) s) 0 = 0) as H0 by (unfold proper_port; by destruct (Access.isDefaultPortForProtocol _ _)).
    destruct p; cbn [any_port port_number port_covers]; rewrite ?H0; naive_solver.
Qed.

Lemma list_of_matches origin es l url : Forall expression_ok es -> Origin.m_host origin <> [] ->
  list_matches ws foldCase (fold_left (add_expression origin) es l) url = true <->
  list_matches ws foldCase l url = true \/ exists e, e ∈ es /\ covers ws foldCase origin e url.
Proof.
  intros Hes Ho. revert l. induction Hes as [|e es He Hes IH]; intros l; cbn [fold_left].
  { split; [by left|]. intros [?|(e & He & _)]; [done|by apply not_elem_of_nil in He]. }
  rewrite IH, add_expression_matches by done. split.
  - intros [[?|?]|(e' & ? & ?)]; [by left|right; exists e; split; [by left|done]|right; exists e'; split; [by right|done]].
  - intros [?|(e' & [->|?]%elem_of_cons & ?)]; [by left; left|by left; right|right; by exists e'].
Qed.
End Words.
End SourceFacts.

(** * The parser never fails an assertion *)
Module TotalFacts.
Import Cursor SourceList Folded StrFacts PolicySpec SourceFacts Directives.

Section Total.
Context (ws : Z -> bool) (foldCase : Z -> Z).
Context (fold_ascii : forall c, isASCII c = true -> foldCase c = toASCIILower c).

Lemma parseScheme_total range out : p_scheme out = [] -> exists out' ok, parseScheme range out = Some (out', ok)
  /\ p_host out' = p_host out /\ p_port out' = p_port out /\ p_hostHasWildcard out' = p_hostHasWildcard out
  /\ p_portHasWildcard out' = p_portHasWildcard out.
Proof.
  intros Ho. unfold parseScheme. rewrite Ho. cbn [isEmpty length Nat.eqb assert_that mbind option_bind].
  destruct (isEmpty range); [by eexists _, _|]. destruct (skipExactly_class _ _) as [position|]; [|by eexists _, _].
  destruct (skipWhile _ position) as [? position']. destruct (negb _); by eexists _, _.
Qed.

Lemma host_labels_total text out : exists out' ok, host_labels text out = (out', ok)
  /\ p_port out' = p_port out /\ p_portHasWildcard out' = p_portHasWildcard out.
Proof. unfold host_labels. destruct (host_loop _ _); by eexists _, _. Qed.

Lemma parseHost_total range out : p_host out = [] -> p_hostHasWildcard out = false ->
  exists out' ok, parseHost range out = Some (out', ok) /\ p_port out' = p_port out /\ p_portHasWildcard out' = p_portHasWildcard out.
Proof.
  intros Ho Hw. unfold parseHost. rewrite Ho, Hw. cbn [isEmpty length Nat.eqb assert_that mbind option_bind negb].
  destruct (isEmpty range); [by eexists _, _|]. destruct (skipExactly range 42) as [position|].
  - cbv zeta. destruct (isEmpty position); [by eexists _, _|]. destruct (skipExactly position 46) as [labels|]; [|by eexists _, _].
    match goal with |- context [host_labels labels ?o] => destruct (host_labels_total labels o) as (o' & ok & -> & ? & ?) end.
    by exists o', ok.
  - destruct (host_labels_total range out) as (o' & ok & -> & ? & ?). by exists o', ok.
Qed.

Lemma parsePort_total range out : p_port out = 0 -> p_portHasWildcard out = false -> is_Some (parsePort ws range out).
Proof.
  intros Ho Hw. unfold parsePort. rewrite Ho, Hw. cbn [Z.eqb negb assert_that mbind option_bind]. cbv zeta.
  destruct (isEmpty range); [done|]. destruct (bool_decide _); [done|]. destruct (skipWhile _ _) as [? position].
  destruct (negb _); [done|]. by destruct (Str.charactersToIntStrict ws range).
Qed.

Lemma parse_host_port_total passed position out : position = [] \/ (exists b, position = 58 :: b) ->
  p_host out = [] -> p_hostHasWildcard out = false -> p_port out = 0 -> p_portHasWildcard out = false ->
  is_Some (parse_host_port ws passed position out).
Proof.
  intros Hpos H1 H2 H3 H4. unfold parse_host_port. destruct (isEmpty passed); [done|].
  destruct (parseHost_total passed out H1 H2) as (o' & ok & -> & Hp & Hw). cbn [mbind option_bind].
  destruct (negb ok); [done|]. destruct Hpos as [->|[b ->]]; [done|]. cbn [isEmpty length Nat.eqb skipExactly]. rewrite Z.eqb_refl.
  apply parsePort_total; congruence.
Qed.

Lemma parse_url_source_total range : is_Some (parse_url_source ws range Parsed_new).
Proof.
  unfold parse_url_source. destruct (skipUtil_split range 58) as (passed & position & -> & _ & _ & Hpos).
  destruct Hpos as [->|[position' ->]].
  { destruct (parseHost_total passed Parsed_new eq_refl eq_refl) as (? & ? & -> & _). done. }
  destruct (parseScheme_total passed Parsed_new eq_refl) as (o & ok & E & H1 & H2 & H3 & H4).
  destruct position' as [|c position']; [rewrite Z.eqb_refl; cbn [assert_that mbind option_bind]; by rewrite E|].
  destruct (c =? 47); [|by apply parse_host_port_total; [right; eexists|..]].
  rewrite E. cbn [mbind option_bind]. destruct (negb ok); [done|].
  match goal with |- is_Some (match ?m with _ => _ end) => destruct m as [beginHost|] end; [|done].
  destruct (skipUtil_split beginHost 58) as (a & b & -> & _ & _ & Hb). by apply parse_host_port_total.
Qed.

Lemma parseSource_total origin range l : Forall (fun c => visible c = true) range ->
  is_Some (parseSource ws foldCase origin range l Parsed_new).
Proof.
  intros Hv. unfold parseSource. destruct (isEmpty range); [done|]. destruct (bool_decide _); [done|].
  rewrite !(literal_word foldCase fold_ascii) by (done || by vm_compute). cbn [mbind option_bind].
  do 3 (destruct (bool_decide _); [done|]). by destruct (parse_url_source_total range) as [[o ok] ->].
Qed.

Definition value_text (s : list Z) : Prop := Forall (fun c => isDirectiveValueCharacter c = true) s.

Lemma value_visible c : isDirectiveValueCharacter c = true -> isSourceCharacter c = true -> visible c = true.
Proof. unfold isDirectiveValueCharacter, isSourceCharacter. intros [H|H]%orb_true_iff; [by rewrite H|done]. Qed.

Lemma parse_loop_total origin fuel first position l : value_text position -> (length position <= fuel)%nat ->
  is_Some (parse_loop ws foldCase fuel origin first position l).
Proof.
  revert first position l. induction fuel as [|fuel IH]; intros first position l Hv Hf.
  { by destruct position; [|cbn in Hf; lia]. }
  destruct position as [|x position]; [done|]. cbn [parse_loop].
  destruct (skipWhile_split isASCIISpace (x :: position)) as (sp & begin & -> & E & Hsp & Hbegin).
  destruct (skipWhile_split isSourceCharacter begin) as (source & rest & -> & -> & Hsource & Hrest).
  rewrite E in Hv, Hf. apply Forall_app in Hv as [_ [Hvs Hvr]%Forall_app].
  assert (Forall (fun c => visible c = true) source) as Hvis.
  { clear -Hsource Hvs. induction Hsource as [|c s Hc Hs IH]; [constructor|]. apply Forall_cons_iff in Hvs as [Hv Hvs].
    constructor; [by apply value_visible|by apply IH]. }
  assert (exists b, (if first then equal_literal foldCase source (literal "'none'") else Some false) = Some b) as [none ->].
  { destruct first; [|by eexists]. rewrite (literal_word foldCase fold_ascii) by (done || by vm_compute). by eexists. }
  cbn [mbind option_bind]. destruct none; [done|].
  destruct (parseSource_total origin source l Hvis) as [[[l' out] ok] ->]. cbn [mbind option_bind]. cbv zeta.
  assert (match rest with [] => true | c :: _ => isASCIISpace c end = true) as ->.
  { destruct Hrest as [->|(c & r & -> & Hc)]; [done|]. unfold isSourceCharacter in Hc. by apply negb_false_iff in Hc. }
  cbn [assert_that mbind option_bind]. apply IH; [done|].
  rewrite !length_app in Hf. assert (0 < length sp + length source)%nat; [|lia].
  destruct sp; [|cbn; lia]. destruct source; [|cbn; lia]. exfalso. cbn [app] in E. subst rest.
  destruct Hbegin as [?|(c & b & [= <- <-] & Hc)]; [done|]. destruct Hrest as [?|(c & r & [= <- <-] & Hc')]; [done|].
  unfold isSourceCharacter in Hc'. by rewrite Hc in Hc'.
Qed.

(** ** Directives *)

Lemma parseDirective_value range name value : parseDirective range = Some (name, value) -> name <> [] /\ value_text value.
Proof.
  unfold parseDirective. destruct (skipWhile _ range) as [? nameBegin].
  destruct (skipWhile isDirectiveNameCharacter nameBegin) as [n position].
  destruct (isEmpty n) eqn:En; [done|]. assert (n <> []) by (by intros ->).
  destruct position as [|c position]; [intros [= <- <-]; split; [done|constructor]|].
  destruct (skipExactly_class _ _) as [position'|]; [|done]. destruct (skipWhile isASCIISpace position') as [? valueBegin].
  destruct (skipWhile_split isDirectiveValueCharacter valueBegin) as (v & rest & -> & _ & Hv & _).
  destruct (negb (isEmpty rest)); [done|]. by intros [= <- <-].
Qed.

Context (context : ScriptExecutionContext).

Lemma addDirective_total p name value : name <> [] -> value_text value -> is_Some (addDirective ws foldCase context p name value).
Proof.
  intros Hn Hv. unfold addDirective. replace (isEmpty name) with false by (by destruct name). cbn [negb assert_that mbind option_bind].
  destruct (first_source _ _ _ _) as [s|].
  - unfold createCSPDirective, parse_list. destruct (parse_loop_total (securityOrigin context) (length value) true value CSPSourceList_new Hv (le_n _)) as [l ->]. done.
  - unfold applySandboxPolicy. destruct (m_haveSandboxPolicy p); cbn [negb andb assert_that mbind option_bind];
      repeat (done || match goal with |- is_Some (if ?b then _ else _) => destruct b end).
Qed.

Lemma parse_policy_total fuel position p : (length position <= fuel)%nat -> is_Some (parse_policy ws foldCase context fuel position p).
Proof.
  revert position p. induction fuel as [|fuel IH]; intros position p Hf; [by destruct position; [|cbn in Hf; lia]|].
  destruct position as [|x position]; [done|]. cbn [parse_policy].
  destruct (skipUtil_split (x :: position) 59) as (d & rest & -> & E & _ & Hrest). rewrite E in Hf.
  assert (is_Some (match parseDirective d with
            | Some (name, value) => _ ← assert_that (negb (isEmpty name)); addDirective ws foldCase context p name value
            | None => Some (p, [])
            end)) as [[p' effects] ->].
  { destruct (parseDirective d) as [[name value]|] eqn:Ed; [|done]. apply parseDirective_value in Ed as [Hn Hv].
    replace (isEmpty name) with false by (by destruct name). by apply addDirective_total. }
  cbn [mbind option_bind].
  assert (match rest with [] => true | c :: _ => c =? 59 end = true) as -> by (by destruct Hrest as [->|[r ->]]).
  cbn [assert_that mbind option_bind].
  destruct (IH (default rest (skipExactly rest 59)) p') as [[p'' later] ->]; [|done].
  rewrite length_app in Hf. destruct Hrest as [->|[r ->]]; cbn in *; lia.
Qed.

Lemma m_reportOnly_addDirective p name value p' effects :
  addDirective ws foldCase context p name value = Some (p', effects) -> m_reportOnly p' = m_reportOnly p.
Proof.
  unfold addDirective. destruct (assert_that _); [|done]. cbn [mbind option_bind]. destruct (first_source _ _ _ _) as [s|].
  - destruct (createCSPDirective _ _ _ _ _); [|done]. cbn. by intros [= <- _].
  - unfold applySandboxPolicy. destruct (_ && _).
    + destruct (assert_that _); [|done]. cbn. by intros [= <- _].
    + destruct (_ && _); by intros [= <- _].
Qed.

Lemma m_reportOnly_parse fuel position p p' effects :
  parse_policy ws foldCase context fuel position p = Some (p', effects) -> m_reportOnly p' = m_reportOnly p.
Proof.
  revert position p p' effects. induction fuel as [|fuel IH]; intros position p p' effects; [by destruct position; [intros [= <- _]|]|].
  destruct position as [|x position]; [by intros [= <- _]|]. cbn [parse_policy]. destruct (skipUtil _ _) as [d rest].
  destruct (parseDirective d) as [[name value]|].
  - destruct (assert_that (negb (isEmpty name))); [|done]. cbn [mbind option_bind].
    destruct (addDirective _ _ _ _ _ _) as [[p1 e1]|] eqn:Ea; [|done]. cbn [mbind option_bind]. destruct (assert_that _); [|done]. cbn [mbind option_bind].
    destruct (parse_policy _ _ _ _ _ _) as [[p2 e2]|] eqn:Ep; [|done]. intros [= <- _].
    apply IH in Ep as ->. by apply m_reportOnly_addDirective in Ea.
  - cbn [mbind option_bind]. destruct (assert_that _); [|done]. cbn [mbind option_bind].
    destruct (parse_policy _ _ _ _ _ _) as [[p2 e2]|] eqn:Ep; [|done]. intros [= <- _]. by apply IH in Ep.
Qed.

Lemma create_total header type : is_Some (create ws foldCase context header type).
Proof.
  unfold create, parse. destruct (isEmpty header); [by destruct type|].
  destruct (parse_policy_total (length header) header CSPDirectiveList_new (le_n _)) as [[p e] E]. rewrite E. cbn [mbind option_bind].
  destruct type; [done|]. by apply m_reportOnly_parse in E as ->.
Qed.
End Total.
End TotalFacts.

(** * Sandbox flags *)
Module SandboxFacts.
Import Cursor Sandbox PolicySpec SourceFacts.

Section Sandbox.
Context (foldCase : Z -> Z).
Context (fold_ascii : forall c, isASCII c = true -> foldCase c = toASCIILower c).

Lemma html_space c : c <> 11 -> isHTMLSpace c = isASCIISpace c.
Proof. intros H. unfold isHTMLSpace, isASCIISpace. apply eq_iff_eq_true. rewrite !orb_true_iff, !andb_true_iff, ?orb_true_iff, ?andb_true_iff. lia. Qed.

Lemma spaced_tail words c rest : spaced words (c :: rest) -> isASCIISpace c = true -> spaced words rest.
Proof.
  intros H Hc. remember (c :: rest) as text eqn:E. destruct H as [sp Hsp|sp w words rest' Hsp Hne Hw Hr Hsep].
  - subst sp. constructor. by apply Forall_cons_iff in Hsp as [_ ?].
  - destruct sp as [|x sp]; cbn [app] in E.
    + destruct w as [|y w]; [done|]. injection E as -> _. apply Forall_cons_iff in Hw as [Hw _]. by rewrite Hc in Hw.
    + injection E as -> <-. constructor; try done. by apply Forall_cons_iff in Hsp as [_ ?].
Qed.

Lemma sandbox_loop_words words text : spaced words text -> Forall (fun c => c <> 11) text -> forall fuel flags, (length text < fuel)%nat ->
  sandbox_loop foldCase fuel flags text = fold_left (sandbox_token foldCase) words flags.
Proof.
  revert text. induction words as [|w words IH]; intros text Hsp Hn fuel flags Hf; (destruct fuel as [|fuel]; [lia|]); cbn [sandbox_loop].
  - inversion Hsp as [sp Hs|]; subst. assert (Forall (fun c => isHTMLSpace c = true) text) as Hall;
      [|by pose proof (skipWhile_all isHTMLSpace text Hall) as [= _ ->]].
    clear -Hs Hn. induction Hs as [|c s Hc Hs IH]; [constructor|]. apply Forall_cons_iff in Hn as [? ?]. constructor; [by rewrite html_space|by apply IH].
  - inversion Hsp as [|sp w' words' rest Hs Hne Hw Hr Hsep]; subst. apply Forall_app in Hn as [Hns [Hnw Hnr]%Forall_app].
    assert (Forall (fun c => isHTMLSpace c = true) sp) as Hsp'.
    { clear -Hs Hns. induction Hs as [|c s Hc Hs IH]; [constructor|]. apply Forall_cons_iff in Hns as [? ?]. constructor; [by rewrite html_space|by apply IH]. }
    assert (Forall (fun c => isHTMLSpace c = false) w) as Hw'.
    { clear -Hw Hnw. induction Hw as [|c s Hc Hs IH]; [constructor|]. apply Forall_cons_iff in Hnw as [? ?]. constructor; [by rewrite html_space|by apply IH]. }
    destruct w as [|c w]; [done|]. apply Forall_cons_iff in Hw' as [Hc Hw'].
    rewrite span_app_stop by (done || (right; by exists c, (w ++ rest))). rewrite drop_app_length. cbn [app].
    rewrite span_app_stop; [|by eapply list.Forall_impl; [exact Hw'|]; intros d ->|].
    2: { destruct Hsep as [->|(d & r & -> & Hd)]; [by left|right]. exists d, r. split; [done|]. apply Forall_cons_iff in Hnr as [Hd' _].
         by rewrite html_space, Hd. }
    rewrite take_app_length. cbn [fold_left]. rewrite !length_app in Hf. cbn [length] in Hf.
    rewrite drop_app_ge by lia. replace (S (length w) - length w)%nat with 1%nat by lia.
    destruct Hsep as [->|(d & r & -> & Hd)].
    + cbn [drop]. apply IH; [done|done|]. cbn [length] in *. lia.
    + cbn [drop]. rewrite drop_0. apply IH; [by eapply spaced_tail|by apply Forall_cons_iff in Hnr as [_ ?]|]. cbn [length] in *. lia.
Qed.

(** ** Bits *)

Lemma without_bit flags k i : 0 <= k -> 0 <= i -> Z.testbit (without flags (2 ^ k)) i = Z.testbit flags i && negb (k =? i).
Proof. intros Hk Hi. unfold without. rewrite Z.land_spec, Z.lnot_spec, Z.pow2_bits_eqb by done. done. Qed.

Lemma sandbox_token_bit flags w i : 0 <= i ->
  Z.testbit (sandbox_token foldCase flags w) i = false <-> Z.testbit flags i = false \/ lifts foldCase i w.
Proof.
  intros Hi. unfold sandbox_token, Cache.equalIgnoringCase, lifts. rewrite !(fold_str foldCase fold_ascii) by (by vm_compute).
  generalize (map foldCase w) as m. intros m.
  change SandboxOrigin with (2 ^ 2). change SandboxForms with (2 ^ 3). change SandboxScripts with (2 ^ 4).
  change SandboxTopNavigation with (2 ^ 5). change SandboxPopups with (2 ^ 6).
  repeat (let E := fresh in case_bool_decide as E; [subst m; rewrite without_bit by lia;
    rewrite andb_false_iff, negb_false_iff, Z.eqb_eq; intuition (done || lia)|]).
  intuition done.
Qed.

Lemma sandbox_words_bit words flags i : 0 <= i ->
  Z.testbit (fold_left (sandbox_token foldCase) words flags) i = false
  <-> Z.testbit flags i = false \/ exists w, w ∈ words /\ lifts foldCase i w.
Proof.
  intros Hi. revert flags. induction words as [|w words IH]; intros flags; cbn [fold_left].
  { split; [by left|]. intros [?|(w & Hw & _)]; [done|by apply not_elem_of_nil in Hw]. }
  rewrite IH, sandbox_token_bit by done. split.
  - intros [[?|?]|(w' & ? & ?)]; [by left|right; exists w; split; [by left|done]|right; exists w'; split; [by right|done]].
  - intros [?|(w' & [->|?]%elem_of_cons & ?)]; [by left; left|by left; right|right; by exists w'].
Qed.

Lemma parseSandboxPolicy_bits words text i : spaced words text -> Forall (fun c => c <> 11) text -> 0 <= i ->
  Z.testbit (parseSandboxPolicy foldCase text) i = false <-> exists w, w ∈ words /\ lifts foldCase i w.
Proof.
  intros Hsp Hn Hi. unfold parseSandboxPolicy. rewrite (sandbox_loop_words words) by (done || lia).
  rewrite sandbox_words_bit by done. change SandboxAll with (-1). rewrite Z.bits_m1 by done. naive_solver.
Qed.
End Sandbox.
End SandboxFacts.

(** * Reading policies *)
Module DirectiveFacts.
Import Cursor SourceList PolicySpec SourceFacts TotalFacts SandboxFacts Directives.

Section Directives.
Context (ws : Z -> bool) (foldCase : Z -> Z).
Context (fold_ascii : forall c, isASCII c = true -> foldCase c = toASCIILower c).
Context (context : ScriptExecutionContext).

Abbreviation named := (named foldCase).
Abbreviation first_named := (first_named foldCase).

(** ** Names *)

Lemma first_named_snoc ds d n : first_named (ds ++ [d]) n =
  match first_named ds n with Some x => Some x | None => if bool_decide (named d n) then Some d else None end.
Proof.
  unfold PolicySpec.first_named. induction ds as [|x ds IH]; [done|]. cbn [app List.find]. by destruct (bool_decide (PolicySpec.named foldCase x n)).
Qed.

(** The names of the source lists, compared as the parser does. *)
Ltac names :=
  unfold Cache.equalIgnoringCase; rewrite ?(fold_str foldCase fold_ascii) by (by vm_compute).

Lemma name_folded s : map foldCase (name_of s) = name_of s.
Proof. destruct s; by apply (fold_str foldCase fold_ascii). Qed.

Lemma named_iff d n : map foldCase n = n -> named d n <-> map foldCase (d_name d) = n.
Proof. unfold PolicySpec.named. by intros ->. Qed.

Definition kind_of (m : list Z) : option Source := fst <$> List.find (fun sn => bool_decide (m = snd sn)) source_names.

Lemma kind_of_name m s : kind_of m = Some s <-> m = name_of s.
Proof.
  split.
  - unfold kind_of, source_names. cbn [List.find fst snd].
    repeat (case_bool_decide; [intros [= <-]; done|]). done.
  - intros ->. by destruct s.
Qed.

Lemma name_of_inj s t : name_of s = name_of t -> s = t.
Proof. intros H%kind_of_name. rewrite (proj2 (kind_of_name (name_of s) s) eq_refl) in H. congruence. Qed.

Lemma first_source_kind p name : first_source foldCase p name source_names =
  match kind_of (map foldCase name) with
  | Some s => match directive_of p s with None => Some s | Some _ => None end
  | None => None
  end.
Proof.
  unfold source_names. cbn [first_source]. names. destruct (kind_of (map foldCase name)) as [s|] eqn:K.
  - apply kind_of_name in K as ->. destruct s; cbn [name_of];
      repeat match goal with |- context [bool_decide (str ?a = str ?b)] =>
        let v := eval vm_compute in (bool_decide (str a = str b)) in change (bool_decide (str a = str b)) with v end;
      rewrite ?andb_false_r, andb_true_r;
      match goal with |- context [directive_of p ?s] => by destruct (directive_of p s) end.
  - assert (forall s, bool_decide (map foldCase name = name_of s) = false) as Hn.
    { intros s. apply bool_decide_eq_false. intros E. apply kind_of_name in E. congruence. }
    pose proof (Hn DefaultSrc) as H1. pose proof (Hn ScriptSrc) as H2. pose proof (Hn ObjectSrc) as H3. pose proof (Hn FrameSrc) as H4.
    pose proof (Hn ImgSrc) as H5. pose proof (Hn StyleSrc) as H6. pose proof (Hn FontSrc) as H7. pose proof (Hn MediaSrc) as H8.
    pose proof (Hn ConnectSrc) as H9. cbn [name_of] in *. by rewrite H1, H2, H3, H4, H5, H6, H7, H8, H9, !andb_false_r.
Qed.

Lemma named_source d s : named d (name_of s) <-> kind_of (map foldCase (d_name d)) = Some s.
Proof. rewrite kind_of_name. apply named_iff, name_folded. Qed.

Lemma in_source_names s n : In (s, n) source_names <-> n = name_of s.
Proof.
  split.
  - unfold source_names. cbn [In]. intros H. repeat (destruct H as [H|H]; [by injection H as <- <-|]). done.
  - intros ->. unfold source_names. destruct s; cbn [In name_of]; tauto.
Qed.

Lemma is_source_kind d : is_source_name foldCase d = match kind_of (map foldCase (d_name d)) with Some _ => true | None => false end.
Proof.
  destruct (kind_of (map foldCase (d_name d))) as [s|] eqn:K.
  - apply existsb_exists. exists (s, name_of s). split; [by apply in_source_names|]. by apply bool_decide_eq_true, named_source.
  - apply not_true_is_false. intros ([s n] & Hin%in_source_names & Hn%bool_decide_eq_true)%existsb_exists. cbn [snd] in Hn. subst n.
    apply named_source in Hn. congruence.
Qed.

(** ** The text of a directive *)

Lemma spaced_drop words a b : spaced words (a ++ b) -> Forall (fun c => isASCIISpace c = true) a -> spaced words b.
Proof. induction a as [|c a IH]; [done|]. intros H [Hc Ha]%Forall_cons_iff. apply IH; [|done]. by eapply spaced_tail. Qed.

Lemma value_text_spaced words text : spaced words text -> Forall (Forall (fun c => visible c = true)) words -> value_text text.
Proof.
  assert (forall sp, Forall (fun c => isASCIISpace c = true) sp -> value_text sp) as Hspace.
  { intros sp H. eapply list.Forall_impl; [exact H|]. intros c Hc. unfold isDirectiveValueCharacter. by rewrite Hc. }
  induction 1 as [sp Hsp|sp w words rest Hsp Hne Hw Hr IH Hsep]; intros Hv; [by apply Hspace|].
  apply Forall_cons_iff in Hv as [Hvw Hv]. apply Forall_app. split; [by apply Hspace|]. apply Forall_app. split; [|by apply IH].
  eapply list.Forall_impl; [exact Hvw|]. intros c Hc. unfold isDirectiveValueCharacter. unfold visible in Hc. by rewrite Hc, orb_true_r.
Qed.

Lemma spells_visible words v : spells_value foldCase words v -> Forall (Forall (fun c => visible c = true)) words.
Proof.
  destruct v as [|es|ts]; cbn [spells_value].
  - intros (w & -> & _ & Hv). by repeat constructor.
  - intros H. induction H as [|w e words es [Hw _] _ IH]; by constructor.
  - tauto.
Qed.

Lemma name_char c : isDirectiveNameCharacter c = true -> isASCIISpace c = false /\ c <> 59.
Proof. intros H. apply host_char in H as (Hv & ?). split; [by apply visible_not_space|tauto]. Qed.

Lemma space_char c : isASCIISpace c = true -> isDirectiveNameCharacter c = false /\ c <> 59.
Proof.
  intros H. split; [|unfold isASCIISpace in H; lia]. apply not_true_is_false. intros Hn. apply name_char in Hn as [Hn _]. congruence.
Qed.

Lemma directive_text_read d piece : directive_text foldCase d piece ->
  exists value words, parseDirective piece = Some (d_name d, value) /\ d_name d <> [] /\ spaced words value
    /\ spells_value foldCase words (d_value d) /\ value_text value /\ Forall (fun c => c <> 11) value /\ Forall (fun c => c <> 59) piece.
Proof.
  intros (sp & tail & words & -> & Hsp & Hne & Hname & Hspaced & Htail & Hv & Hno). destruct (d_name d) as [|c n] eqn:En; [done|].
  pose proof Hname as [Hc _]%Forall_cons_iff. pose proof (name_char c Hc) as [Hcs _].
  unfold parseDirective. rewrite skip_spaces by (done || (right; by exists c, (n ++ tail))).
  assert (tail = [] \/ exists d tail', tail = d :: tail' /\ isDirectiveNameCharacter d = false) as Htail'.
  { destruct Htail as [->|(e & t & -> & He)]; [by left|right]. exists e, t. split; [done|]. by apply space_char. }
  rewrite skipWhile_app, isEmpty_cons by done.
  assert (Forall (fun c => c <> 59) (sp ++ (c :: n) ++ tail)) as Hsemi.
  { apply Forall_app. split; [eapply list.Forall_impl; [exact Hsp|]; intros e He; by apply space_char|].
    apply Forall_app. split; [eapply list.Forall_impl; [exact Hname|]; intros e He; by apply name_char|].
    eapply list.Forall_impl; [exact Hno|]. by intros e [? ?]. }
  pose proof (value_text_spaced words tail Hspaced (spells_visible _ _ Hv)) as Htext.
  destruct Htail as [->|(e & t & -> & He)]; [by eexists [], words|].
  unfold skipExactly_class. rewrite He.
  destruct (skipWhile_split isASCIISpace t) as (a & b & -> & -> & Ha & _).
  apply Forall_cons_iff in Htext as [_ [_ Hb]%Forall_app]. apply Forall_cons_iff in Hno as [_ [_ Hnb]%Forall_app].
  rewrite skipWhile_all by done. cbn [isEmpty length Nat.eqb negb]. exists b, words. split; [done|]. split; [done|].
  split; [eapply spaced_drop; [by eapply spaced_tail|done]|]. split; [done|]. split; [done|]. split; [|done].
  eapply list.Forall_impl; [exact Hnb|]. by intros x [? ?].
Qed.

Lemma blank_read piece : blank piece -> parseDirective piece = None /\ Forall (fun c => c <> 59) piece.
Proof.
  intros H. split.
  - unfold parseDirective. by rewrite skipWhile_all.
  - eapply list.Forall_impl; [exact H|]. intros c Hc. by apply space_char.
Qed.

(** ** What the parser keeps *)

Abbreviation directive_for d text := (mkDirective (list_of (securityOrigin context) (d_value d)) text (context_url context)).

Record describes (ds : list directive) (p : CSPDirectiveList) : Prop := {
  ds_sources s : match first_named ds (name_of s) with
                 | Some d => exists text, directive_of p s = Some (directive_for d text)
                 | None => directive_of p s = None
                 end;
  ds_sandbox : m_haveSandboxPolicy p = match first_named ds (str "sandbox") with Some _ => true | None => false end;
  ds_reports : m_reportURLs p = map (completeURL context) (report_words foldCase ds);
}.

Lemma directive_of_set p s d t : directive_of (set_directive p s d) t = if bool_decide (s = t) then Some d else directive_of p t.
Proof. by destruct s, t. Qed.

Lemma named_unique d a b : named d a -> map foldCase a = a -> map foldCase b = b -> a <> b -> ~ named d b.
Proof. intros Ha Ea Eb Hab Hb. apply (named_iff _ _ Ea) in Ha. apply (named_iff _ _ Eb) in Hb. congruence. Qed.

Lemma report_words_snoc ds d : report_words foldCase (ds ++ [d]) =
  match report_words foldCase ds with
  | [] => if bool_decide (named d (str "report-uri")) then words_of (d_value d) else []
  | l => l
  end.
Proof.
  unfold report_words. induction ds as [|x ds IH]; cbn [app List.find].
  - destruct (bool_decide _); [|done]. cbn [andb]. destruct (words_of (d_value d)) eqn:E; cbn; by rewrite ?E.
  - destruct (bool_decide (named x _)); cbn [andb]; [|exact IH].
    destruct (words_of (d_value x)) as [|w l] eqn:E; cbn [length Nat.eqb negb]; [exact IH|]. rewrite E. done.
Qed.

Lemma report_loop_words words text : spaced words text -> forall fuel urls, (length text <= fuel)%nat ->
  report_loop context fuel text urls = urls ++ map (completeURL context) words.
Proof.
  induction 1 as [sp Hsp|sp w words rest Hsp Hne Hw Hr IH Hsep]; intros fuel urls Hf.
  - destruct sp as [|c sp]; [destruct fuel; cbn; by rewrite app_nil_r|]. destruct fuel as [|fuel]; [cbn in Hf; lia|]. cbn [report_loop].
    rewrite skipWhile_all by done. cbn. destruct fuel; cbn; by rewrite app_nil_r.
  - rewrite !length_app in Hf. destruct w as [|c w]; [done|]. cbn [length] in Hf. destruct fuel as [|fuel]; [lia|].
    destruct (sp ++ (c :: w) ++ rest) as [|x t] eqn:E; [by destruct sp|]. cbn [report_loop]. rewrite <- E.
    pose proof Hw as [Hc _]%Forall_cons_iff. rewrite skip_spaces by (done || (right; by eexists _, _)).
    change isNotASCIISpace with isSourceCharacter. rewrite skip_word by done. cbn [isEmpty length Nat.eqb negb].
    rewrite IH by lia. cbn [map]. by rewrite <- app_assoc.
Qed.

(** The effects of reading directives, [before] them none for the sandbox. *)
Definition read_effects (before : bool) (ds : list directive) (effects : list Effect) : Prop :=
  DisableEval ∉ effects
  /\ forall flags, EnforceSandboxFlags flags ∈ effects <-> before = false /\ sandboxes foldCase ds flags.

Lemma read_other d n : bool_decide (named d n) = false -> first_named [d] n = None.
Proof. unfold PolicySpec.first_named. cbn. by intros ->. Qed.

Lemma read_effects_none d : ~ named d (str "sandbox") -> forall b e, DisableEval ∉ e -> (forall f, EnforceSandboxFlags f ∉ e) -> read_effects b [d] e.
Proof.
  intros Hn b e Hd He. split; [done|]. intros flags. split; [by intros ?%He|]. intros (_ & x & Hx & _).
  rewrite read_other in Hx by by apply bool_decide_eq_false. done.
Qed.

Lemma first_named_one d n : first_named [d] n = if bool_decide (named d n) then Some d else None.
Proof. unfold PolicySpec.first_named. cbn [List.find]. done. Qed.

(** A step that leaves the other names as they are. *)
Lemma describes_sources ds d p s t : describes ds p -> named d (name_of s) ->
  directive_of p s = None -> describes (ds ++ [d]) (set_directive p s (directive_for d t)).
Proof.
  intros [Hs Hsb Hr] Hn Hp. split.
  - intros s'. rewrite first_named_snoc, directive_of_set. specialize (Hs s'). destruct (bool_decide_reflect (s = s')) as [E|E].
    + subst s'. destruct (first_named ds (name_of s)); [destruct Hs; congruence|]. rewrite bool_decide_true by done. by eexists.
    + destruct (first_named ds (name_of s')); [done|]. rewrite bool_decide_false; [done|].
      eapply named_unique; [exact Hn|apply name_folded..|]. intros En. apply E. by apply name_of_inj.
  - cbn [set_directive m_haveSandboxPolicy]. rewrite first_named_snoc, Hsb. destruct (first_named ds (str "sandbox")); [done|]. rewrite bool_decide_false; [done|].
    eapply named_unique; [exact Hn|apply name_folded|by apply (fold_str foldCase fold_ascii)|by destruct s].
  - cbn [set_directive m_reportURLs]. rewrite report_words_snoc, Hr. destruct (report_words foldCase ds); [|done]. rewrite bool_decide_false; [done|].
    eapply named_unique; [exact Hn|apply name_folded|by apply (fold_str foldCase fold_ascii)|by destruct s].
Qed.

(** A directive that is not kept. *)
Lemma describes_dropped ds d p : describes ds p -> (forall s, named d (name_of s) -> first_named ds (name_of s) <> None) ->
  (named d (str "sandbox") -> first_named ds (str "sandbox") <> None) ->
  (named d (str "report-uri") -> report_words foldCase ds <> [] \/ words_of (d_value d) = []) -> describes (ds ++ [d]) p.
Proof.
  intros [Hs Hsb Hr] H1 H2 H3. split.
  - intros s. rewrite first_named_snoc. specialize (Hs s). specialize (H1 s). destruct (first_named ds (name_of s)); [done|].
    case_bool_decide; [by destruct H1|done].
  - rewrite first_named_snoc, Hsb. destruct (first_named ds (str "sandbox")); [done|]. case_bool_decide; [by destruct H2|done].
  - rewrite report_words_snoc, Hr. destruct (report_words foldCase ds); [|done]. case_bool_decide; [|done].
    by destruct H3 as [?| ->].
Qed.

Lemma describes_names ds p q d : describes ds p -> (forall s, directive_of q s = directive_of p s) ->
  (forall s, ~ named d (name_of s)) ->
  m_haveSandboxPolicy q = match first_named (ds ++ [d]) (str "sandbox") with Some _ => true | None => false end ->
  m_reportURLs q = map (completeURL context) (report_words foldCase (ds ++ [d])) -> describes (ds ++ [d]) q.
Proof.
  intros [Hs _ _] Hq Hn H1 H2. split; [|done..]. intros s. rewrite Hq, first_named_snoc. specialize (Hs s).
  destruct (first_named ds (name_of s)); [done|]. by rewrite bool_decide_false.
Qed.

Lemma named_fold d n : map foldCase (str n) = str n ->
  Cache.equalIgnoringCase foldCase (d_name d) (str n) = bool_decide (named d (str n)).
Proof. intros H. unfold Cache.equalIgnoringCase. apply bool_decide_ext. done. Qed.

Lemma sandbox_reports d : named d (str "sandbox") -> named d (str "report-uri") -> False.
Proof. intros H. eapply named_unique; [exact H|by apply (fold_str foldCase fold_ascii)..|done]. Qed.

Abbreviation had_sandbox ds := (match first_named ds (str "sandbox") with Some _ => true | None => false end).

Lemma addDirective_source ds d p value words s : describes ds p -> directive_ok foldCase d -> named d (name_of s) ->
  spaced words value -> spells_value foldCase words (d_value d) ->
  exists p' effects, addDirective ws foldCase context p (d_name d) value = Some (p', effects) /\ describes (ds ++ [d]) p'
    /\ read_effects (had_sandbox ds) [d] effects.
Proof.
  intros Hd Hok Hname Hsp Hv. pose proof Hname as K%named_source. pose proof (is_source_kind d) as Hk. rewrite K in Hk.
  assert (isEmpty (d_name d) = false) as Hne.
  { destruct (d_name d) eqn:E; [|done]. apply kind_of_name in K. by destruct s. }
  assert (forall n, name_of s <> str n -> map foldCase (str n) = str n -> ~ named d (str n)) as Hother.
  { intros n E En. by eapply named_unique; [exact Hname|apply name_folded|..]. }
  assert (~ named d (str "sandbox")) as Hnsb by (apply Hother; [by destruct s|by apply (fold_str foldCase fold_ascii)]).
  assert (~ named d (str "report-uri")) as Hnr by (apply Hother; [by destruct s|by apply (fold_str foldCase fold_ascii)]).
  pose proof (read_effects_none d Hnsb) as Hnone. unfold addDirective. rewrite Hne. cbn [negb assert_that mbind option_bind].
  rewrite first_source_kind, K. destruct (directive_of p s) as [old|] eqn:Ep.
  - rewrite !named_fold by (by apply (fold_str foldCase fold_ascii)). rewrite (bool_decide_false (named d (str "sandbox"))), (bool_decide_false (named d (str "report-uri"))), !andb_false_r by done.
    eexists _, _. split; [done|]. split; [|apply Hnone; [|intros f]; by intros [=]%list_elem_of_singleton].
    apply describes_dropped; [done| |by intros ?%Hnsb|by intros ?%Hnr]. intros s' Hs' Hno. pose proof (ds_sources _ _ Hd s') as Hs.
    rewrite Hno in Hs. apply named_source in Hs'. assert (s' = s) as -> by congruence. congruence.
  - unfold createCSPDirective. rewrite (parse_value ws foldCase fold_ascii _ words _ (d_value d)); [|done|done|].
    + cbn [mbind option_bind]. eexists _, _. split; [done|]. split; [by apply describes_sources|].
      apply Hnone; [|intros f]; apply not_elem_of_nil.
    + unfold directive_ok in Hok. destruct (d_value d); [done|tauto|congruence].
Qed.

Lemma addDirective_sandbox ds d p value words : describes ds p -> named d (str "sandbox") -> d_value d = Tokens words ->
  spaced words value -> Forall (fun c => c <> 11) value ->
  exists p' effects, addDirective ws foldCase context p (d_name d) value = Some (p', effects) /\ describes (ds ++ [d]) p'
    /\ read_effects (had_sandbox ds) [d] effects.
Proof.
  intros Hd Hsand Ev Hsp Hno. pose proof Hd as [Hs Hsb Hr].
  assert (forall s, ~ named d (name_of s)) as Hnames.
  { intros s. eapply named_unique; [exact Hsand|by apply (fold_str foldCase fold_ascii)|apply name_folded|by destruct s]. }
  assert (isEmpty (d_name d) = false) as Hne.
  { destruct (d_name d) eqn:E; [|done]. unfold PolicySpec.named in Hsand. by rewrite E in Hsand. }
  unfold addDirective. rewrite Hne. cbn [negb assert_that mbind option_bind]. rewrite first_source_kind.
  destruct (kind_of _) as [s|] eqn:K; [by destruct (Hnames s); apply named_source|].
  rewrite !named_fold by (by apply (fold_str foldCase fold_ascii)). rewrite Hsb, (bool_decide_true (named d (str "sandbox"))), andb_true_r by done.
  destruct (first_named ds (str "sandbox")) as [x|] eqn:Ef; cbn [negb].
  - rewrite bool_decide_false, andb_false_r by (by intros ?%sandbox_reports). eexists _, _. split; [done|]. split.
    + apply describes_dropped; [done|by intros s ?%Hnames|by rewrite Ef|by intros ?%sandbox_reports].
    + split; [by intros [=]%list_elem_of_singleton|]. intros f. split; [by intros [=]%list_elem_of_singleton|by intros []].
  - unfold applySandboxPolicy. rewrite Hsb. cbn [negb assert_that mbind option_bind]. eexists _, _. split; [done|]. split.
    + eapply describes_names; [done|by intros []|done| |].
      * cbn [set_sandbox m_haveSandboxPolicy]. by rewrite first_named_snoc, Ef, bool_decide_true.
      * cbn [set_sandbox m_reportURLs]. rewrite report_words_snoc, Hr. destruct (report_words foldCase ds); [|done]. rewrite bool_decide_false; [done|]. by intros ?%sandbox_reports.
    + split; [by intros [=]%list_elem_of_singleton|]. intros f. rewrite list_elem_of_singleton. unfold sandboxes.
      rewrite first_named_one, bool_decide_true by done.
      pose proof (parseSandboxPolicy_bits foldCase fold_ascii words value) as Hbits. split.
      * intros [= ->]. split; [done|]. exists d. split; [done|]. intros i Hi. rewrite Ev. by apply Hbits.
      * intros (_ & x & [= <-] & Hf). f_equal. apply Z.bits_inj'. intros i Hi. specialize (Hf i Hi). rewrite Ev in Hf. cbn [words_of] in Hf.
        specialize (Hbits i Hsp Hno Hi). rewrite <- Hf in Hbits.
        destruct (Z.testbit f i), (Z.testbit (Sandbox.parseSandboxPolicy foldCase value) i); naive_solver.
Qed.

Lemma addDirective_describes ds d p value words : describes ds p -> directive_ok foldCase d -> d_name d <> [] ->
  spaced words value -> spells_value foldCase words (d_value d) -> Forall (fun c => c <> 11) value ->
  exists p' effects, addDirective ws foldCase context p (d_name d) value = Some (p', effects) /\ describes (ds ++ [d]) p'
    /\ read_effects (had_sandbox ds) [d] effects.
Proof.
  intros Hd Hok Hn Hsp Hv Hno. destruct (kind_of (map foldCase (d_name d))) as [s|] eqn:K.
  { apply (addDirective_source _ _ _ _ words s); try done. by apply named_source. }
  pose proof (is_source_kind d) as Hk. rewrite K in Hk.
  assert (d_value d = Tokens words) as Ev.
  { unfold directive_ok in Hok. destruct (d_value d); [congruence|destruct Hok; congruence|by destruct Hv as [-> _]]. }
  destruct (decide (named d (str "sandbox"))) as [Hsand|Hsand]; [by eapply addDirective_sandbox|].
  pose proof Hd as [Hs Hsb Hr]. assert (forall s, ~ named d (name_of s)) as Hnames by (intros s Hname%named_source; congruence).
  unfold addDirective. replace (isEmpty (d_name d)) with false by (by destruct (d_name d)). cbn [negb assert_that mbind option_bind].
  rewrite first_source_kind, K, !named_fold by (by apply (fold_str foldCase fold_ascii)).
  rewrite (bool_decide_false (named d (str "sandbox"))), andb_false_r by done. pose proof (read_effects_none d Hsand) as Hnone.
  destruct (bool_decide_reflect (named d (str "report-uri"))) as [Hrep|Hrep].
  - rewrite andb_true_r, Hr. destruct (report_words foldCase ds) as [|w l] eqn:Ew; cbn [map length Nat.eqb].
    + eexists _, _. split; [done|]. split; [|apply Hnone; [|intros f]; apply not_elem_of_nil].
      eapply describes_names; [done|by intros []|done| |].
      * cbn [parseReportURI set_sandbox m_haveSandboxPolicy]. rewrite Hsb, first_named_snoc.
        destruct (first_named ds (str "sandbox")); [done|]. by rewrite bool_decide_false.
      * unfold parseReportURI. cbn [set_sandbox m_reportURLs]. rewrite (report_loop_words words), Hr by done.
        by rewrite report_words_snoc, Ew, bool_decide_true, Ev by done.
    + eexists _, _. split; [done|]. split; [|apply Hnone; [|intros f]; by intros [=]%list_elem_of_singleton].
      apply describes_dropped; [done|by intros s ?%Hnames|done|]. intros _. left. by rewrite Ew.
  - rewrite andb_false_r. eexists _, _. split; [done|]. split; [|apply Hnone; [|intros f]; by intros [=]%list_elem_of_singleton].
    apply describes_dropped; [done|by intros s ?%Hnames|done|done].
Qed.

(** ** Policies *)

Lemma first_named_cons d ds n : first_named (d :: ds) n = if bool_decide (named d n) then Some d else first_named ds n.
Proof. unfold PolicySpec.first_named. cbn [List.find]. done. Qed.

Lemma read_effects_cons ds0 d ds e e' : read_effects (had_sandbox ds0) [d] e -> read_effects (had_sandbox (ds0 ++ [d])) ds e' ->
  read_effects (had_sandbox ds0) (d :: ds) (e ++ e').
Proof.
  intros [H1 H2] [H3 H4]. split; [by intros [?|?]%elem_of_app|]. intros f. rewrite elem_of_app, H2, H4. unfold sandboxes.
  rewrite first_named_one, first_named_cons, first_named_snoc. destruct (first_named ds0 (str "sandbox")); [naive_solver|].
  destruct (bool_decide (named d (str "sandbox"))); naive_solver.
Qed.

Lemma read_effects_nil b : read_effects b [] [].
Proof. split; [apply not_elem_of_nil|]. intros f. split; [by intros ?%not_elem_of_nil|]. by intros (_ & d & [=] & _). Qed.

Lemma parse_piece ds0 d p piece : describes ds0 p -> directive_ok foldCase d -> directive_text foldCase d piece ->
  exists p' e name value, parseDirective piece = Some (name, value) /\ name <> []
    /\ addDirective ws foldCase context p name value = Some (p', e) /\ describes (ds0 ++ [d]) p'
    /\ read_effects (had_sandbox ds0) [d] e /\ Forall (fun c => c <> 59) piece.
Proof.
  intros Hd Hok Ht. destruct (directive_text_read d piece Ht) as (value & words & Hp & Hn & Hsp & Hv & _ & Hno & Hsemi).
  destruct (addDirective_describes ds0 d p value words Hd Hok Hn Hsp Hv Hno) as (p' & e & Ha & Hd' & He). by exists p', e, (d_name d), value.
Qed.

Lemma isEmpty_false l : l <> [] -> isEmpty l = false.
Proof. by destruct l. Qed.

Lemma parse_policy_reads ds text : policy_text foldCase ds text -> Forall (directive_ok foldCase) ds -> forall ds0 p fuel,
  describes ds0 p -> (length text <= fuel)%nat ->
  exists p' e, parse_policy ws foldCase context fuel text p = Some (p', e) /\ describes (ds0 ++ ds) p'
    /\ read_effects (had_sandbox ds0) ds e.
Proof.
  induction 1 as [piece Hb|d piece Hd|ds piece rest Hb Hr IH|d ds piece rest Hd Hr IH]; intros Hok ds0 p fuel Hdesc Hf.
  - exists p, []. rewrite app_nil_r. split; [|split; [done|apply read_effects_nil]].
    destruct piece as [|x piece]; [by destruct fuel|]. destruct fuel as [|fuel]; [cbn in Hf; lia|]. cbn [parse_policy].
    destruct (blank_read _ Hb) as [Hn Hsemi]. rewrite skipUtil_all, Hn by done. cbn. by destruct fuel.
  - apply Forall_cons_iff in Hok as [Hokd _]. destruct (parse_piece ds0 d p piece Hdesc Hokd Hd) as (p' & e & name & value & Hp & Hn & Ha & Hd' & He & Hsemi).
    exists p', e. split; [|done]. destruct piece as [|x piece]; [done|]. destruct fuel as [|fuel]; [cbn in Hf; lia|]. cbn [parse_policy].
    rewrite skipUtil_all, Hp, (isEmpty_false name) by done. cbn [negb assert_that mbind option_bind]. rewrite Ha. cbn.
    destruct fuel; cbn; by rewrite app_nil_r.
  - rewrite length_app in Hf. cbn [length] in Hf. destruct fuel as [|fuel]; [lia|]. destruct (blank_read _ Hb) as [Hn Hsemi].
    destruct (IH Hok ds0 p fuel Hdesc ltac:(lia)) as (p' & e & Hp & Hd' & He). exists p', e. split; [|done].
    destruct (piece ++ 59 :: rest) as [|x t] eqn:E; [by destruct piece|]. cbn [parse_policy]. rewrite <- E.
    rewrite skipUtil_app, Hn by (done || (right; by eexists)). cbn [mbind option_bind]. rewrite Z.eqb_refl.
    cbn [assert_that mbind option_bind skipExactly]. rewrite Z.eqb_refl. cbn [from_option id]. by rewrite Hp.
  - apply Forall_cons_iff in Hok as [Hokd Hok]. rewrite length_app in Hf. cbn [length] in Hf. destruct fuel as [|fuel]; [lia|].
    destruct (parse_piece ds0 d p piece Hdesc Hokd Hd) as (p1 & e1 & name & value & Hp & Hn & Ha & Hd1 & He1 & Hsemi).
    destruct (IH Hok (ds0 ++ [d]) p1 fuel Hd1 ltac:(lia)) as (p2 & e2 & Hp2 & Hd2 & He2).
    exists p2, (e1 ++ e2). rewrite <- app_assoc in Hd2. split; [|split; [done|by eapply read_effects_cons]].
    destruct (piece ++ 59 :: rest) as [|x t] eqn:E; [by destruct piece|]. cbn [parse_policy]. rewrite <- E.
    rewrite skipUtil_app, Hp, (isEmpty_false name) by (done || (right; by eexists)). cbn [negb assert_that mbind option_bind]. rewrite Ha.
    cbn [mbind option_bind]. rewrite Z.eqb_refl. cbn [assert_that mbind option_bind skipExactly]. rewrite Z.eqb_refl. cbn [from_option id]. by rewrite Hp2.
Qed.

Lemma describes_new : describes [] CSPDirectiveList_new.
Proof. split; [by intros []|done|done]. Qed.

Lemma parse_reads ds header : policy_text foldCase ds header -> Forall (directive_ok foldCase) ds ->
  exists p e, parse ws foldCase context CSPDirectiveList_new header = Some (p, e) /\ describes ds p /\ read_effects false ds e
    /\ m_reportOnly p = false.
Proof.
  intros Ht Hok. destruct (parse_policy_reads ds header Ht Hok [] CSPDirectiveList_new (length header) describes_new (le_n _)) as (p & e & Hp & Hd & He).
  unfold parse. destruct (isEmpty header) eqn:Eh.
  - apply isEmpty_true in Eh as ->. cbn in Hp. injection Hp as <- <-. by eexists _, _.
  - exists p, e. split; [done|]. split; [done|]. split; [done|]. by apply m_reportOnly_parse in Hp.
Qed.

(** ** Answers *)

Lemma governing_operative ds p s : describes ds p ->
  match governing foldCase ds s with
  | Some d => exists text, operativeDirective p (directive_of p s) = Some (directive_for d text)
  | None => operativeDirective p (directive_of p s) = None
  end.
Proof.
  intros Hd. pose proof (ds_sources ds p Hd s) as Hs. pose proof (ds_sources ds p Hd DefaultSrc) as Hdef. unfold governing.
  destruct (first_named ds (name_of s)) as [d|].
  - destruct Hs as [t ->]. by exists t.
  - rewrite Hs. exact Hdef.
Qed.

(** The answer to a question whose condition is [P]. *)
Definition judged (P : Prop) (p : CSPDirectiveList) (r : bool * list Effect) : Prop :=
  (r.1 = true <-> P \/ m_reportOnly p = true) /\ (r.2 = [] <-> P)
  /\ forall u, (exists v, ReportViolation u (context_url context) v ∈ r.2)
       <-> ~ P /\ isDocument context = true /\ has_frame context = true /\ u ∈ m_reportURLs p.

Lemma judged_true (P : Prop) p : P -> judged P p (true, []).
Proof. intros H. split; [cbn; tauto|]. split; [cbn; tauto|]. intros u. split; [by intros [v ?%not_elem_of_nil]|tauto]. Qed.

Lemma judged_check (P : Prop) p (b : bool) text message : (b = true <-> P) ->
  judged P p (if b then (true, []) else (denyIfEnforcingPolicy p, reportViolation context p text message)).
Proof.
  intros Hb. destruct b; [by apply judged_true, Hb|]. assert (~ P) as HP by (intros ?%Hb; done). split; [cbn; tauto|]. split; [cbn; split; [done|tauto]|].
  intros u. cbn [snd]. unfold reportViolation. destruct (m_reportURLs p) as [|u0 us]; cbn [length Nat.eqb].
  { split; [by intros [v [=]%list_elem_of_singleton]|]. by intros (_ & _ & _ & ?%not_elem_of_nil). }
  destruct (isDocument context), (has_frame context); cbn [negb]; try (split; [by intros [v [=]%list_elem_of_singleton]|naive_solver]).
  split.
  - intros [v [[=]|Hin]%elem_of_cons]. apply list_elem_of_fmap in Hin as (x & [= -> _] & Hx). tauto.
  - intros (_ & _ & _ & Hu). eexists. right. apply list_elem_of_fmap. by exists u.
Qed.

Lemma governing_in ds s d : governing foldCase ds s = Some d -> In d ds.
Proof.
  unfold governing. destruct (first_named ds (name_of s)) as [x|] eqn:E.
  - intros [= <-]. by apply List.find_some in E as [? _].
  - intros E'. by apply List.find_some in E' as [? _].
Qed.

Lemma inline_judged ds p s message : describes ds p ->
  judged (governed foldCase ds s (fun d => lists d UnsafeInline)) p
    (checkInlineAndReportViolation context p (operativeDirective p (directive_of p s)) message).
Proof.
  intros Hd. pose proof (governing_operative ds p s Hd) as Hg. unfold governed. destruct (governing foldCase ds s) as [d|].
  - destruct Hg as [t ->]. cbn [checkInlineAndReportViolation]. apply judged_check. unfold allowInline, lists, list_of. cbn [m_sourceList].
    destruct (list_of_flags (securityOrigin context) (expressions_of (d_value d)) CSPSourceList_new) as (_ & H & _).
    rewrite H. cbn. split; [by intros [?|?]|by right].
  - rewrite Hg. by apply judged_true.
Qed.

Lemma eval_judged ds p : describes ds p ->
  (checkEval (operativeDirective p (m_scriptSrc p)) = true <-> governed foldCase ds ScriptSrc (fun d => lists d UnsafeEval)).
Proof.
  intros Hd. pose proof (governing_operative ds p ScriptSrc Hd) as Hg. cbn [directive_of] in Hg. unfold governed.
  destruct (governing foldCase ds ScriptSrc) as [d|]; [|by rewrite Hg].
  destruct Hg as [t ->]. cbn [checkEval]. unfold directive_allowEval, lists, list_of. cbn [m_sourceList].
  destruct (list_of_flags (securityOrigin context) (expressions_of (d_value d)) CSPSourceList_new) as (_ & _ & H).
  rewrite H. cbn. split; [by intros [?|?]|by right].
Qed.

Context (origin_host : Origin.m_host (securityOrigin context) <> []).

Lemma load_judged ds p s url type : describes ds p -> Forall (directive_ok foldCase) ds ->
  judged (governed foldCase ds s (fun d => exists e, lists d e
      /\ covers ws foldCase (securityOrigin context) e (if isEmpty (m_string url) then context_url context else url))) p
    (checkSourceAndReportViolation ws foldCase context p (operativeDirective p (directive_of p s)) url type).
Proof.
  intros Hd Hok. pose proof (governing_operative ds p s Hd) as Hg. unfold governed.
  destruct (governing foldCase ds s) as [d|] eqn:E; [|rewrite Hg; by apply judged_true].
  destruct Hg as [t ->]. cbn [checkSourceAndReportViolation]. apply judged_check. unfold allows, lists, list_of. cbn [m_sourceList m_selfURL].
  apply governing_in in E. apply List.Forall_forall with (x := d) in Hok; [|done].
  rewrite list_of_matches; [| |done].
  - unfold list_matches at 1. cbn. split; [by intros [?|?]|by right].
  - unfold directive_ok in Hok. destruct (d_value d); cbn; [constructor|tauto|constructor].
Qed.

Import Csp.

Lemma answer_judged ds p c q : describes ds p -> Forall (directive_ok foldCase) ds -> m_policy c = Some p -> proper q ->
  judged (permits ws foldCase (securityOrigin context) (context_url context) (m_overrideInlineStyleAllowed c) ds q) p
    (answer ws foldCase context c q).
Proof.
  intros Hd Hok Hc Hq. destruct q as [| | | | |s url]; cbn [answer permits].
  1-3: unfold allowJavaScriptURLs, allowInlineEventHandlers, allowInlineScript, ask; rewrite Hc; by apply (inline_judged ds p ScriptSrc).
  - unfold allowInlineStyle, ask. rewrite Hc. destruct (m_overrideInlineStyleAllowed c); [by apply judged_true; left|].
    pose proof (inline_judged ds p StyleSrc (refused "Refused to apply inline style") Hd) as (H1 & H2 & H3).
    unfold judged. rewrite H1, H2. split; [naive_solver|]. split; [naive_solver|]. intros u. rewrite H3. naive_solver.
  - unfold allowEval, ask. rewrite Hc. by apply judged_check, eval_judged.
  - assert (forall (A B : Prop) r, ~ A -> judged B p r -> judged (A \/ B) p r) as Hright.
    { intros A B r HA (H1 & H2 & H3). unfold judged. rewrite H1, H2. split; [tauto|]. split; [tauto|]. intros u. rewrite H3. tauto. }
    destruct s; [done|..]; unfold allowScriptFromSource, allowObjectFromSource, allowChildFrameFromSource, allowImageFromSource,
      allowStyleFromSource, allowFontFromSource, allowMediaFromSource, allowConnectFromSource, ask; rewrite Hc.
    2, 3: unfold list_allowObjectFromSource, list_allowChildFrameFromSource; destruct (Access.protocolIs url (str "about"));
      [apply judged_true; by left; split; [(by left) || by right|]|apply Hright; [by intros [_ ?]|]].
    all: try (apply Hright; [by intros [[?|?] _]|]).
    + by apply (load_judged ds p ScriptSrc).
    + by apply (load_judged ds p ObjectSrc).
    + by apply (load_judged ds p FrameSrc).
    + by apply (load_judged ds p ImgSrc).
    + by apply (load_judged ds p StyleSrc).
    + by apply (load_judged ds p FontSrc).
    + by apply (load_judged ds p MediaSrc).
    + by apply (load_judged ds p ConnectSrc).
Qed.

(** ** Runs *)

Lemma run_kept steps c p : m_policy c = Some p ->
  run ws foldCase context c steps = Some (mkCsp (fold_left (fun b s => match s with OverrideInlineStyle allow => allow | _ => b end) steps (m_overrideInlineStyleAllowed c)) (Some p), []).
Proof.
  revert c. induction steps as [|s steps IH]; intros c Hc; cbn [run fold_left].
  - destruct c as [o pol]. cbn in *. by subst pol.
  - destruct s as [h t|a]; cbn [run_step].
    + unfold didReceiveHeader. rewrite Hc. cbn [mbind option_bind]. by rewrite IH.
    + cbn [mbind option_bind]. by rewrite IH.
Qed.

Lemma run_total steps c : is_Some (run ws foldCase context c steps).
Proof.
  revert c. induction steps as [|s steps IH]; intros c; [done|]. cbn [run].
  assert (is_Some (run_step ws foldCase context c s)) as [[c' e] ->].
  { destruct s as [h t|a]; [|done]. cbn [run_step]. unfold didReceiveHeader. destruct (m_policy c); [done|].
    by destruct (create_total ws foldCase fold_ascii context h t) as [[p e] ->]. }
  cbn [mbind option_bind]. by destruct (IH c') as [[c'' e'] ->].
Qed.

(** What the first header makes of the policy. *)
Lemma create_reads ds header type : policy_text foldCase ds header -> Forall (directive_ok foldCase) ds ->
  exists p e, create ws foldCase context header type = Some (p, e) /\ describes ds p
    /\ m_reportOnly p = (match type with ReportOnly => true | EnforcePolicy => false end)
    /\ (forall flags, EnforceSandboxFlags flags ∈ e <-> sandboxes foldCase ds flags)
    /\ (DisableEval ∈ e <-> type = EnforcePolicy /\ ~ governed foldCase ds ScriptSrc (fun d => lists d UnsafeEval)).
Proof.
  intros Ht Hok. destruct (parse_reads ds header Ht Hok) as (p & e & Hp & Hd & [He1 He2] & Hro). unfold create. rewrite Hp.
  assert (forall b, describes ds (set_header p header b)) as Hd' by (intros b; destruct Hd; by split).
  cbn [mbind option_bind]. destruct type.
  - eexists _, _. split; [done|]. split; [done|]. split; [done|]. split; [intros f; rewrite He2; tauto|]. split; [done|by intros [? _]].
  - rewrite Hro. cbn [negb assert_that mbind option_bind]. eexists _, _. split; [done|]. split; [done|]. split; [done|].
    pose proof (eval_judged ds _ (Hd' false)) as Hev. split.
    + intros f. rewrite elem_of_app, He2. split; [|tauto]. intros [?|H]; [tauto|]. destruct (negb _); [by apply list_elem_of_singleton in H|by apply not_elem_of_nil in H].
    + rewrite elem_of_app, <- Hev. destruct (checkEval _); cbn [negb]; rewrite ?list_elem_of_singleton, ?elem_of_nil; naive_solver.
Qed.

Lemma run_first steps c header type : m_policy c = None -> first_header steps = Some (header, type) ->
  forall p e, create ws foldCase context header type = Some (p, e) ->
  run ws foldCase context c steps = Some (mkCsp (fold_left (fun b s => match s with OverrideInlineStyle allow => allow | _ => b end) steps (m_overrideInlineStyleAllowed c)) (Some p), e).
Proof.
  intros Hc Hf p e Hp. revert c Hc Hf. induction steps as [|s steps IH]; intros c Hc Hf; [done|]. cbn [run fold_left].
  destruct s as [h t|a]; cbn [first_header] in Hf; cbn [run_step].
  - injection Hf as -> ->. unfold didReceiveHeader. rewrite Hc, Hp. cbn [mbind option_bind]. rewrite (run_kept _ _ p) by done.
    cbn. by rewrite app_nil_r.
  - cbn [mbind option_bind]. by rewrite IH.
Qed.

Lemma run_none steps c : m_policy c = None -> first_header steps = None ->
  exists b, run ws foldCase context c steps = Some (mkCsp b None, []).
Proof.
  revert c. induction steps as [|s steps IH]; intros c Hc Hf.
  - destruct c as [o pol]. cbn in *. subst pol. by exists o.
  - destruct s as [h t|a]; [done|]. cbn [run run_step mbind option_bind]. by destruct (IH (setOverrideAllowInlineStyle c a) Hc Hf) as [b ->]; exists b.
Qed.
End Directives.
End DirectiveFacts.

Module PolicyProps.
Import Directives Csp PolicySpec DirectiveFacts.

(** C25: Any text can be a policy: whatever headers a document receives, no
    assertion of the parser fails and no comparison reads behind a literal, and
    the policy in force and all that was done for it are those of the first
    header. *)
Theorem policies_parse ws foldCase context steps :
  (forall c, isASCII c = true -> foldCase c = toASCIILower c) ->
  exists c effects, run ws foldCase context ContentSecurityPolicy_new steps = Some (c, effects)
    /\ match first_header steps with
       | None => m_policy c = None /\ effects = []
       | Some (header, type) => exists p, create ws foldCase context header type = Some (p, effects) /\ m_policy c = Some p
       end.
Proof.
  intros Hf. destruct (first_header steps) as [[header type]|] eqn:E.
  - destruct (TotalFacts.create_total ws foldCase Hf context header type) as [[p e] Hp].
    eexists _, e. split; [by apply (run_first ws foldCase context steps _ header type) with (p := p)|]. by exists p.
  - destruct (run_none ws foldCase context steps ContentSecurityPolicy_new eq_refl E) as [b Hr]. by eexists _, [].
Qed.

(** C9: A policy means what the grammar says.  Let the first header a document
    receives be the text of the directives [ds].  Then every question is answered
    by the first directive of its name, or by default-src: with yes exactly if
    the expressions of this directive permit it or the policy only reports, and
    without a complaint exactly if they permit it.  A complaint goes to every URL
    of report-uri.  Evaluation is disabled exactly when an enforced policy does
    not permit it, and the sandbox has every flag that no token lifts. *)
Theorem policy_enforced ws foldCase context steps header type ds :
  (forall c, isASCII c = true -> foldCase c = toASCIILower c) ->
  Origin.m_host (securityOrigin context) <> [] ->
  first_header steps = Some (header, type) -> policy_text foldCase ds header -> Forall (directive_ok foldCase) ds ->
  let permitted := permits ws foldCase (securityOrigin context) (context_url context) (last_override steps) ds in
  exists c effects, run ws foldCase context ContentSecurityPolicy_new steps = Some (c, effects)
    /\ (forall q, proper q ->
         ((answer ws foldCase context c q).1 = true <-> permitted q \/ type = ReportOnly)
         /\ ((answer ws foldCase context c q).2 = [] <-> permitted q)
         /\ forall u, (exists text, ReportViolation u (context_url context) text ∈ (answer ws foldCase context c q).2)
              <-> ~ permitted q /\ isDocument context = true /\ has_frame context = true
                  /\ exists w, w ∈ report_words foldCase ds /\ u = completeURL context w)
    /\ (DisableEval ∈ effects <-> type = EnforcePolicy /\ ~ permitted EvalQuestion)
    /\ (forall flags, EnforceSandboxFlags flags ∈ effects <-> sandboxes foldCase ds flags).
Proof.
  intros Hf Ho Hfirst Ht Hok permitted.
  destruct (create_reads ws foldCase Hf context Ho ds header type Ht Hok) as (p & e & Hp & Hd & Hro & Hsb & Hev).
  eexists _, e. split; [by apply (run_first ws foldCase context steps _ header type) with (p := p)|].
  split; [|split; [exact Hev|exact Hsb]]. intros q Hq.
  pose proof (answer_judged ws foldCase context Ho ds p (mkCsp (last_override steps) (Some p)) q Hd Hok eq_refl Hq) as (H1 & H2 & H3).
  split; [|split; [exact H2|]].
  - etransitivity; [exact H1|]. rewrite Hro. unfold permitted. destruct type; intuition done.
  - intros u. etransitivity; [exact (H3 u)|]. rewrite (ds_reports _ _ _ _ Hd). rewrite list_elem_of_fmap. unfold permitted. naive_solver.
Qed.
End PolicyProps.

(** * Concrete policies *)
Module PolicyWitness.
Import Cursor SourceList Directives Csp PolicySpec PolicyProps.

Definition no_ws (c : Z) : bool := false.
Definition page (url : string) : KURL := KURLParse.Assemble.parse 0 (str url) [].
Definition site : Origin.SecurityOrigin := Origin.create 0 no_ws id toASCIILower Schemes.registry_new (page "http://a.com/").
Definition document : ScriptExecutionContext := mkContext site (page "http://a.com/") (fun u => KURLParse.Assemble.parse 0 u []) true true.

Definition sample_header : list Z :=
  str "default-src 'self'; script-src https://*.b.org:8443 'unsafe-inline';; sandbox allow-scripts;report-uri http://a.com/r".

Definition sample : list directive :=
  [mkD (str "default-src") (Expressions [Self]);
   mkD (str "script-src") (Expressions [Hosts (Some (str "https")) true (str "b.org") (PortNumber (str "8443")); UnsafeInline]);
   mkD (str "sandbox") (Tokens [str "allow-scripts"]);
   mkD (str "report-uri") (Tokens [str "http://a.com/r"])].

Ltac chars := vm_compute; repeat constructor; congruence.

Lemma spaced_one w : w <> [] -> Forall (fun c => isASCIISpace c = false) w -> spaced [w] (str " " ++ w ++ []).
Proof. intros Hne Hw. constructor; [by repeat constructor|done|done|by constructor|by left]. Qed.

Lemma sample_policy_text : policy_text toASCIILower sample sample_header.
Proof.
  apply (text_cons _ _ _ (str "default-src 'self'") (str " script-src https://*.b.org:8443 'unsafe-inline';; sandbox allow-scripts;report-uri http://a.com/r")).
  { exists [], (str " 'self'"), [str "'self'"]. split; [done|]. split; [constructor|]. split; [done|]. split; [chars|].
    split; [apply (spaced_one (str "'self'")); [done|chars]|]. split; [right; by eexists _, _|]. split; [|chars].
    constructor; [|constructor]. split; [chars|done]. }
  apply (text_cons _ _ _ (str " script-src https://*.b.org:8443 'unsafe-inline'") (str "; sandbox allow-scripts;report-uri http://a.com/r")).
  { exists (str " "), (str " https://*.b.org:8443 'unsafe-inline'"), [str "https://*.b.org:8443"; str "'unsafe-inline'"].
    split; [done|]. split; [chars|]. split; [done|]. split; [chars|]. split.
    { apply (spaced_cons (str " ") (str "https://*.b.org:8443") [str "'unsafe-inline'"] (str " 'unsafe-inline'")); [chars|done|chars| |right; by eexists _, _].
      apply (spaced_one (str "'unsafe-inline'")); [done|chars]. }
    split; [right; by eexists _, _|]. split; [|chars]. constructor; [split; [chars|done]|]. constructor; [split; [chars|done]|constructor]. }
  apply (text_skip _ _ [] (str " sandbox allow-scripts;report-uri http://a.com/r")); [constructor|].
  apply (text_cons _ _ _ (str " sandbox allow-scripts") (str "report-uri http://a.com/r")).
  { exists (str " "), (str " allow-scripts"), [str "allow-scripts"]. split; [done|]. split; [chars|]. split; [done|]. split; [chars|].
    split; [apply (spaced_one (str "allow-scripts")); [done|chars]|]. split; [right; by eexists _, _|]. split; [|chars].
    split; [done|chars]. }
  apply text_last.
  { exists [], (str " http://a.com/r"), [str "http://a.com/r"]. split; [done|]. split; [constructor|]. split; [done|]. split; [chars|].
    split; [apply (spaced_one (str "http://a.com/r")); [done|chars]|]. split; [right; by eexists _, _|]. split; [|chars].
    split; [done|chars]. }
Qed.

Lemma sample_policy_ok : Forall (directive_ok toASCIILower) sample.
Proof.
  constructor; [by split; [|constructor]|]. constructor; [|by repeat constructor].
  split; [done|]. constructor; [|by repeat constructor]. split; [|split].
  - exists 104, (str "ttps"). split; [done|]. split; [done|chars].
  - exists [str "b"; str "org"]. split; [done|]. split; [|done]. constructor; [split; [done|chars]|]. constructor; [split; [done|chars]|constructor].
  - split; [done|]. split; [chars|by vm_compute].
Qed.

Lemma policies_parse_witness : exists c effects,
  run no_ws toASCIILower document ContentSecurityPolicy_new [Header (str "'';%( ,script-src  'none' x;;;") EnforcePolicy] = Some (c, effects)
  /\ exists p, create no_ws toASCIILower document (str "'';%( ,script-src  'none' x;;;") EnforcePolicy = Some (p, effects) /\ m_policy c = Some p.
Proof. exact (policies_parse no_ws toASCIILower document [Header (str "'';%( ,script-src  'none' x;;;") EnforcePolicy] (fun c _ => eq_refl)). Defined.

Lemma policy_enforced_witness : exists c effects,
  run no_ws toASCIILower document ContentSecurityPolicy_new [OverrideInlineStyle true; Header sample_header EnforcePolicy; Header [] ReportOnly]
    = Some (c, effects)
  /\ ((answer no_ws toASCIILower document c InlineStyle).2 = []) /\ DisableEval ∈ effects.
Proof.
  destruct (policy_enforced no_ws toASCIILower document
    [OverrideInlineStyle true; Header sample_header EnforcePolicy; Header [] ReportOnly] sample_header EnforcePolicy sample
    (fun c _ => eq_refl) ltac:(by vm_compute) eq_refl sample_policy_text sample_policy_ok) as (c & e & Hr & Hq & He & _).
  exists c, e. split; [exact Hr|]. split; [apply (Hq InlineStyle I); by left|]. apply He. split; [done|].
  intros Hin. cbn [permits governed] in Hin.
  assert (governing toASCIILower sample ScriptSrc = Some (mkD (str "script-src")
    (Expressions [Hosts (Some (str "https")) true (str "b.org") (PortNumber (str "8443")); UnsafeInline]))) as E by (vm_compute; reflexivity).
  unfold governed in Hin. rewrite E in Hin. unfold lists in Hin. cbn in Hin. by repeat (apply elem_of_cons in Hin as [Hin|Hin]; [done|]); apply not_elem_of_nil in Hin.
Defined.

Definition allowed (header : string) (q : question) : option bool :=
  '(c, _) ← run no_ws toASCIILower document ContentSecurityPolicy_new [Header (str header) EnforcePolicy];
  Some (fst (answer no_ws toASCIILower document c q)).

(** The excluded forms: a wildcard host is represented by an empty host name, and
    a source without a host name matches by its scheme alone, whatever its port. *)
Example wildcard_drops_port : allowed "script-src https://*:8443" (Load ScriptSrc (page "https://a.com:1/x.js")) = Some true.
Proof. vm_compute. reflexivity. Qed.

(** A keyword is compared as far as the word goes: its beginnings are the
    keyword, and allow inline scripts. *)
Example keyword_prefix : allowed "script-src 'u" InlineScript = Some true.
Proof. vm_compute. reflexivity. Qed.

(** A list that begins with a lone quotation mark is the empty list. *)
Example quote_is_none : allowed "script-src ' http://a.com" (Load ScriptSrc (page "http://a.com/x.js")) = Some false.
Proof. vm_compute. reflexivity. Qed.

(** Without a policy around it, a source list with a NUL is compared behind the
    end of a literal. *)
Example nul_overreads : parse_list no_ws toASCIILower site (str "'none'" ++ [0; 0]) = None.
Proof. vm_compute. reflexivity. Qed.
End PolicyWitness.
